(* ===== verification/_CoqProject ===== *)
-Q . S2P
Prelude.v
OrderStats.v
FedimintCore.v
AmmMath.v
AmmPoolId.v
AmmConfig.v
AmmTypes.v
AmmServer.v
AmmInvariant.v
AmmSafety.v
AmmFees.v
AmmRecovery.v
AmmFaucet.v
AmmClient.v
AmmSwapSm.v
AmmClientRecovery.v
AmmCli.v
KeeperOracle.v
KeeperPolicy.v
Keeper.v
KeeperLoop.v
KeeperStartup.v
MpcCodec.v
MpcDriver.v
MpcMesh.v
UsdtTypes.v
CliInfo.v
UsdtEvm.v
UsdtAddress.v
UsdtFactory.v
UsdtUserOp.v
UsdtSigning.v
UsdtProof.v
UsdtDb.v
UsdtCodec.v
UsdtMigrations.v
UsdtDbKeys.v
UsdtDump.v
UsdtServer.v
UsdtConfigGen.v
UsdtDkg.v
UsdtHandlers.v
UsdtLedger.v
UsdtTriggers.v
UsdtSettlement.v
UsdtConfirm.v
UsdtSolvency.v
UsdtDemo.v
UsdtSessions.v
UsdtLifecycle.v
UsdtVotes.v
UsdtEndpoints.v
UsdtAttacks.v
UsdtMainnet.v
UsdtScan.v
UsdtRpc.v
UsdtTasks.v
UsdtReadable.v
UsdtGuardian.v
UsdtSigners.v
UsdtRounds.v
UsdtSignerWorld.v
UsdtFetch.v
UsdtClient.v
UsdtRouting.v
UsdtRefundSm.v
UsdtRefundWorld.v
UsdtClientRecovery.v
UsdtCli.v
