(* ===== verification/Prelude.v ===== *)
(** * Verification of experimint

    experimint adds two modules to a Fedimint federation, a set of guardians that
    issue e-cash and agree on an ordered sequence of transactions and consensus
    items.  The AMM module is a Uniswap-V2 market between units of e-cash; the
    USDT module holds the ERC-20 token USDT on an EVM chain through ERC-4337 smart
    accounts that the guardians sign for together.  This library models the code
    that decides what the federation owes to whom and proves that it is right.

    ** How the code is modelled

    A module's key-value store is a record with one finite map per table (AmmDb in
    [AmmServer], UsdtDb in [UsdtDb]); a handler is a computation in the monad [M]
    below, which returns early with an error and keeps the store a failing handler
    leaves behind, so that atomicity is proved rather than built in.  A Rust
    integer is a [Z] with the wrap-around, saturation or check of its operator
    written out ([u64_add], [saturating_add_u64], [checked_mul_u128], ...); a byte
    string is a list of [Z].  What the repository only calls (SHA-256, Schnorr and
    ECDSA signatures, Keccak-256, the Solidity ABI, RLP and Merkle-Patricia proofs,
    fedimint-core's encodings and amounts, the EVM node) is an interface class whose
    laws are stated next to it; every group of laws has an instance that satisfies
    them.

    ** Files

    - [Prelude]: results, the handler monad, machine integers, sums over maps,
      encodings, the tactics [run_inv], [zbool] and [ok_facts].  [OrderStats]: the
      k-th smallest of a list, shared by every vote aggregation.  [FedimintCore]:
      amounts, peers, keys.
    - AMM common crate: [AmmMath] (math.rs), [AmmPoolId] (pool_id.rs), [AmmConfig]
      (config.rs and the config generation of the server), [AmmTypes] (types.rs,
      pop.rs).  AMM server: [AmmServer] (db.rs, lib.rs: process_input,
      process_output, process_consensus_item, consensus_proposal, audit, endpoints),
      [AmmRecovery] (the recovery pages).  [AmmInvariant], [AmmSafety] and [AmmFees]
      hold the theorems about the server as a whole.
    - AMM client: [AmmClient] (derivation.rs, lib.rs: the transactions swap, deposit
      and withdraw submit), [AmmSwapSm] (swap.rs, in a world with the server and the
      federation's verdicts), [AmmClientRecovery] (lib.rs, single_tx.rs, db.rs: the
      caches, recovery from the seed, the claim sweep), [AmmCli] (cli.rs).  The tests'
      second currency: [AmmFaucet] (fedimint-amm-tests/src/faucet/).
    - Price keeper (bin/amm-price-keeper): [KeeperOracle] (oracle.rs), [KeeperPolicy]
      (policy.rs), [Keeper] (main.rs, exec.rs: flags, start, tick), [KeeperLoop] (the
      ticks over time, against the AMM server), [KeeperStartup] (main.rs: what arms the
      keeper).  [CliInfo] is the info command of bin/fedimint-cli-experimint.
    - Threshold ECDSA (crypto/threshold-ecdsa): [MpcCodec] (transport/codec.rs),
      [MpcDriver] (transport/driver.rs, off_thread.rs), [MpcMesh] (transport/mesh.rs,
      and an example protocol).
    - USDT common crate: [UsdtTypes] (lib.rs: items, quotes, parameters), [UsdtEvm]
      (lib.rs: account derivation, the claim-key grind), [UsdtAddress] (lib.rs:
      addresses as strings), [UsdtUserOp] and [UsdtCodec] (user_op.rs of both crates,
      and the encodings of the rows of db.rs).
    - USDT server, state and consensus: [UsdtSigning] (signer subsets, chunking),
      [UsdtProof] (proof.rs), [UsdtDb] (db.rs), [UsdtMigrations] (lib.rs: migrate_db_v0
      to migrate_db_v5), [UsdtDbKeys] and [UsdtDump] (db.rs and dump_database in lib.rs:
      the byte store under the tables), [UsdtServer] (lib.rs: vote aggregates, ring, triggers),
      [UsdtHandlers] (lib.rs: inputs, outputs, consensus items, settlement, refunds,
      replacement, audit), [UsdtEndpoints] (lib.rs: consensus_proposal and the query
      endpoints), [UsdtScan] (scan.rs, the scanner of lib.rs, and the client's
      discovery round).  [UsdtLedger], [UsdtTriggers], [UsdtSettlement], [UsdtConfirm]
      and [UsdtSolvency] build the accounting invariant; [UsdtDemo] is a concrete run;
      [UsdtSessions] follows the signing sessions through enqueueing, replacement and
      purging; [UsdtLifecycle] and [UsdtVotes] prove what follows for single withdrawals
      and for the agreed view of the chain.  [UsdtAttacks] (attacks.rs and
      usdt_adversary.rs of fedimint-usdt-tests) runs the adversary's claims against the
      handlers, and [UsdtMainnet] (verify_mainnet_config.rs there) is the check of the
      addresses of a deployment against the chain.
    - USDT server, each guardian: [UsdtFactory] (factory_bytecode.rs), [UsdtRpc]
      (rpc.rs over a node that may answer anything), [UsdtTasks] (lib.rs: the
      background tasks and startup checks), [UsdtReadable] and [UsdtGuardian] (the
      tasks together with consensus), [UsdtConfigGen] (config.rs, lib.rs: parameters,
      the trusted dealer, validate_config), [UsdtDkg] (dkg.rs), [UsdtSigners]
      (signing.rs, lib.rs: the local signer), [UsdtRounds] and [UsdtSignerWorld]
      (signing over ordered consensus items).
    - USDT client: [UsdtFetch] (evm.rs), [UsdtClient] (lib.rs: fee guards, keys,
      address allocation, claims, withdrawals), [UsdtRouting] (api.rs, and the endpoint
      table of the server's lib.rs), [UsdtRefundSm] (states.rs),
      [UsdtRefundWorld] (that machine with the federation), [UsdtClientRecovery]
      (lib.rs: recovery from the seed), [UsdtCli] (cli.rs).

    ** How the parts interact

    A client submits inputs and outputs ([UsdtClient], [AmmClient]); the federation orders
    them with the items the guardians propose ([UsdtEndpoints.consensus_proposal]), and
    every guardian runs the handlers ([UsdtHandlers], [AmmServer]) on the same sequence. A
    client's queries reach the handlers through [UsdtRouting], and the handlers' tables
    lie in one byte store ([UsdtDbKeys]). What a guardian proposes comes from its caches,
    which its tasks ([UsdtTasks]) fill from its own node ([UsdtRpc]) and its signers
    ([UsdtSigners]) fill from the threshold protocol ([MpcDriver]). The worlds
    ([AmmSwapSm.World], [AmmFaucet.World], [UsdtRefundWorld.World],
    [UsdtSignerWorld.World], [UsdtSolvency.Ledger]) put two or more of these together,
    with steps for everything the others may do.

    ** What is proved

    - Money.  AMM: handlers move what is owed by exactly what they report
      ([AmmSafety.value_conserved]), reserves and shares stay backed
      ([AmmSafety.reachable_inv]), the curve is the exact Uniswap formula and nobody
      profits from rounding ([AmmMath]).  USDT: in every reachable ledger the token
      held equals the e-cash issued plus everything owed ([UsdtSolvency.ledger_balanced]),
      the audit shows it ([UsdtSolvency.audit_covers_ecash]), and a withdrawal is
      settled once ([UsdtLifecycle.withdrawal_settled_once]).  Upgrades lose no
      obligation ([UsdtMigrations]), and the tables do not share a byte of the store
      ([UsdtDbKeys.store_implements_tables]).
    - Authority.  Proofs of possession and operation hashes commit to every field
      ([AmmTypes], [UsdtUserOp]); a deposit proof shows the anchored state
      ([UsdtProof.deposit_proof_sound]), and every claim of the adversary suite is refused
      as it expects ([UsdtAttacks.attacks_repelled]); a deployment that passes its check
      derives every account where the factory creates it
      ([UsdtMainnet.mainnet_check_is_sound]); what settlement reads back from calldata is
      what the builders wrote ([UsdtUserOp.op_amounts_round_trip]); a box of the signing
      transport opens only where it was meant to ([MpcCodec.box_bound_to_context]).
    - Agreement.  Heights, fees, prices and anchors cannot be moved by a faulty
      minority ([AmmFees], [UsdtVotes]); proposals are never wasted and stalled
      sessions rotate through every quorum ([UsdtEndpoints], [UsdtSigning]); every pending
      operation has one session that can sign it or rotate
      ([UsdtSessions.pending_op_is_signable]); signing
      and key generation over the transports compute what CGGMP21's machines compute
      when they hand each other their messages ([MpcMesh], [UsdtSignerWorld],
      [UsdtDkg]).
    - A guardian and its node.  Whatever the node answers, a guardian vouches only for
      contracts it has seen ([UsdtTasks.vouched_contracts_were_seen]), takes a receipt
      only from the EntryPoint's log ([UsdtRpc.receipt_is_the_log]), spends its ether on
      the operations it submits ([UsdtRpc.submission_spends_on_its_ops]) and restarts
      exactly on a stall of its own anchor ([UsdtTasks.watchdog_restarts_exactly]);
      operations that are included get settled ([UsdtGuardian.confirmations_settle]).
    - Users.  Swaps and withdrawals keep their declared bounds ([AmmClient]), the client
      machines lose nothing whatever fails and can always finish ([AmmSwapSm],
      [UsdtRefundWorld], [UsdtClient]), quotes are honoured ([AmmSafety], [UsdtEndpoints]),
      queries reach the handler they name ([UsdtRouting.calls_reach_their_handlers]), no
      command spends beyond its flags ([UsdtCli.cli_spends_within_flags], [AmmCli]),
      recovery and discovery miss nothing ([AmmRecovery], [AmmClientRecovery],
      [UsdtScan], [UsdtClientRecovery]).
    - The keeper trades towards its oracle, within its limits ([KeeperPolicy]), and its
      trades settle ([KeeperLoop.keeper_trade_settles]); it is armed only when that can
      work ([KeeperStartup]).
    - The currency the AMM is tested with keeps its books and its wallet
      ([AmmFaucet.faucet_books_balance], [AmmFaucet.faucet_wallet_exact]).
    - Failures are total: a handler that errs has written nothing in the AMM
      ([AmmSafety.handlers_atomic]); in the USDT module core discards the writes of a
      rejected item, and the machine of [UsdtSolvency] does the same.

    ** Bounds and fuel

    Loops recurse on their lists where they can.  Elsewhere: [combination_loop] gets one
    unit of fuel per subset and is shown equal to the structural enumeration;
    [chunks_of] gets the payload's length; [page_loop] counts the source's own bound of
    32 round trips, shown to be enough; the claim-key grind is bounded by the source's
    own cap, in 2^14 chunks of 256; the keeper's binary search gets 65 steps, one more
    than the bits of its range; decimal rendering of a u128 gets its 39 digits; paging a
    table gets more fuel than the table has rows; recovery from the seed gets the
    indices it walks, and is shown to end; a protocol machine gets fuel for the steps
    between two exchanges, and every theorem about protocols says that they complete
    rather than assuming it of the transport; a receipt is polled once per interval
    until its deadline.  The runs of the USDT ledger keep cumulative deposits within a
    [u64], a hypothesis of the step relation.  The operation submitter's concurrent
    futures are a list in the order of their completion, and one check of the watchdog
    reads the clock once.  The startup retry runs over a list of attempts, fourteen of
    which are shown to be enough.

    ** Not modelled

    CGGMP21 itself, its pregenerated primes, HTTP and JSON transports, ABI and bincode
    codecs, argument parsing and JSON rendering, and the wiring of the fedimint framework
    (version tables, registration of module kinds, the opening of clients, logs) are
    interfaces or left out; so are the daemon's entry point and the end-to-end test
    harnesses, which start processes and call what is modelled here. *)

From stdpp Require Export base option list gmap strings sorting relations.
From stdpp Require Import fin_maps.
From Stdlib Require Export ZArith Lia.

Open Scope Z_scope.

(** Lemmas the component files register for their routine side conditions. *)
Create HintDb amm.
Create HintDb usdt.

(** ** Results and the handler monad *)

(** Rust's [Result<A, E>]. *)
Inductive result (E A : Type) : Type :=
| Ok (a : A)
| Err (e : E).
Arguments Ok {E A} a.
Arguments Err {E A} e.

#[export] Instance result_eq_dec {E A} `{EqDecision E, EqDecision A} :
  EqDecision (result E A).
Proof. solve_decision. Defined.

#[export] Instance result_ret {E} : MRet (result E) := fun A a => Ok a.
#[export] Instance result_bind {E} : MBind (result E) :=
  fun A B f r => match r with Ok a => f a | Err e => Err e end.

(** [Option::ok_or]. *)
Definition ok_or {E A} (o : option A) (e : E) : result E A :=
  match o with Some a => Ok a | None => Err e end.

(** [Result::map_err]. *)
Definition map_err {E E' A} (f : E -> E') (r : result E A) : result E' A :=
  match r with Ok a => Ok a | Err e => Err (f e) end.

(** [Result::is_ok]. *)
Definition is_ok {E A} (r : result E A) : bool :=
  match r with Ok _ => true | Err _ => false end.

(** A handler runs against a mutable store and may return early with an error.
    The store it leaves behind is returned on the error path too: whether a
    failing handler has already written something is a property to prove, not
    one the monad gives away. *)
Definition M (S E A : Type) : Type := S -> result E A * S.

#[export] Instance M_ret {S E} : MRet (M S E) := fun A a s => (Ok a, s).
#[export] Instance M_bind {S E} : MBind (M S E) :=
  fun A B f m s =>
    match m s with
    | (Ok a, s') => f a s'
    | (Err e, s') => (Err e, s')
    end.

Definition lift {S E A} (r : result E A) : M S E A := fun s => (r, s).
Definition fail {S E A} (e : E) : M S E A := fun s => (Err e, s).
Definition get {S E} : M S E S := fun s => (Ok s, s).
Definition gets {S E A} (f : S -> A) : M S E A := fun s => (Ok (f s), s).
Definition modify {S E} (f : S -> S) : M S E unit := fun s => (Ok tt, f s).
(** [ensure!(cond, e)]: continue when the condition holds. *)
Definition ensure {S E} (b : bool) (e : E) : M S E unit :=
  fun s => if b then (Ok tt, s) else (Err e, s).
(** [if cond { return Err(e) }]. *)
Definition reject_if {S E} (b : bool) (e : E) : M S E unit := ensure (negb b) e.

(** A run that evaluates to a success, by its components. *)
Lemma run_ok {S E A} (p : result E A * S) : is_ok p.1 = true -> exists a, p = (Ok a, p.2).
Proof. destruct p as [[a|e] s]; simpl; [by exists a|done]. Qed.

Lemma run_err {S E A} (p : result E A * S) : is_ok p.1 = false -> exists e, p = (Err e, p.2).
Proof. destruct p as [[a|e] s]; simpl; [done|by exists e]. Qed.

Lemma run_ok_val {S E A B} (p : result E A * S) (f : A -> B) (b : B) :
  match p.1 with Ok a => f a = b | Err _ => False end -> exists a, p = (Ok a, p.2) /\ f a = b.
Proof. destruct p as [[a|e] s]; simpl; [by exists a|done]. Qed.

Arguments M_bind / {S E} {A B} f m s.
Arguments M_ret / {S E} {A} a s.
Arguments result_bind / {E} {A B} f r.
Arguments result_ret / {E} {A} a.
Arguments mbind / {M _ A B} _ _ : rename.
Arguments option_bind / {A B} f mx : rename.
Arguments mret / {M _ A} _ : rename.
Arguments lift / {S E A} r s.
Arguments fail / {S E A} e s.
Arguments get / {S E} s.
Arguments gets / {S E A} f s.
Arguments modify / {S E} f s.
Arguments ensure / {S E} b e s.
Arguments reject_if / {S E} b e s.

(** ** Machine integers *)

Definition U16_MAX : Z := 2 ^ 16 - 1.
Definition U64_MAX : Z := 2 ^ 64 - 1.
Definition I64_MAX : Z := 2 ^ 63 - 1.
Definition U128_MAX : Z := 2 ^ 128 - 1.
Definition I128_MAX : Z := 2 ^ 127 - 1.
Definition I128_MIN : Z := - 2 ^ 127.

Definition is_u16 (x : Z) : Prop := 0 <= x <= U16_MAX.
Definition is_u64 (x : Z) : Prop := 0 <= x <= U64_MAX.
Definition is_u128 (x : Z) : Prop := 0 <= x <= U128_MAX.

(** Wrap-around of the unchecked operators at their width. *)
Definition wrap64 (x : Z) : Z := x mod 2 ^ 64.
Definition wrap128 (x : Z) : Z := x mod 2 ^ 128.

Definition u16_add (a b : Z) : Z := (a + b) mod 2 ^ 16.
Definition u32_add (a b : Z) : Z := (a + b) mod 2 ^ 32.
Definition u64_add (a b : Z) : Z := wrap64 (a + b).
Definition u64_sub (a b : Z) : Z := wrap64 (a - b).
Definition u128_add (a b : Z) : Z := wrap128 (a + b).
Definition u128_mul (a b : Z) : Z := wrap128 (a * b).

(** [u64::checked_add], [u64::try_from(u128)], [i64::try_from(u64)] and
    [u64::saturating_sub]. *)
Definition checked_add_u64 (a b : Z) : option Z :=
  if a + b <=? U64_MAX then Some (a + b) else None.
Definition checked_sub_u64 (a b : Z) : option Z :=
  if b <=? a then Some (a - b) else None.
Definition try_u64 (x : Z) : option Z := if x <=? U64_MAX then Some x else None.
Definition try_i64 (x : Z) : option Z := if x <=? I64_MAX then Some x else None.
Definition saturating_sub (a b : Z) : Z := Z.max 0 (a - b).
Definition saturating_add_u64 (a b : Z) : Z := Z.min U64_MAX (a + b).

(** The [u128] operations of the gas arithmetic. *)
Definition checked_mul_u128 (a b : Z) : option Z :=
  if a * b <=? U128_MAX then Some (a * b) else None.
Definition checked_add_u128 (a b : Z) : option Z :=
  if a + b <=? U128_MAX then Some (a + b) else None.
Definition checked_sub_u128 (a b : Z) : option Z := if b <=? a then Some (a - b) else None.
Definition checked_div (a b : Z) : option Z := if b =? 0 then None else Some (a / b).
Definition saturating_mul_u128 (a b : Z) : Z := Z.min U128_MAX (a * b).
Definition saturating_add_u128 (a b : Z) : Z := Z.min U128_MAX (a + b).

(** [i128::try_from(u128)] and [i128::saturating_mul]. *)
Definition try_i128 (x : Z) : option Z := if x <=? I128_MAX then Some x else None.
Definition saturating_mul_i128 (a b : Z) : Z := Z.max I128_MIN (Z.min I128_MAX (a * b)).

(** [Ord::clamp] on an inhabited range. *)
Definition clamp (x lo hi : Z) : Z :=
  if x <? lo then lo else if hi <? x then hi else x.

Ltac unfold_widths :=
  unfold is_u16, is_u64, is_u128, U16_MAX, U64_MAX, I64_MAX, U128_MAX, I128_MAX, I128_MIN in *.

(** Decides the boolean comparisons of the source and hands the result to [lia]. *)
Ltac zbool :=
  repeat match goal with
  | H : (_ <? _) = true |- _ => apply Z.ltb_lt in H
  | H : (_ <? _) = false |- _ => apply Z.ltb_ge in H
  | H : (_ <=? _) = true |- _ => apply Z.leb_le in H
  | H : (_ <=? _) = false |- _ => apply Z.leb_gt in H
  | H : (_ =? _) = true |- _ => apply Z.eqb_eq in H
  | H : (_ =? _) = false |- _ => apply Z.eqb_neq in H
  | H : _ || _ = true |- _ => apply orb_true_iff in H
  | H : _ || _ = false |- _ => apply orb_false_iff in H as [??]
  | H : _ && _ = true |- _ => apply andb_true_iff in H as [??]
  | H : _ && _ = false |- _ => apply andb_false_iff in H
  | H : negb _ = true |- _ => apply negb_true_iff in H
  | H : negb _ = false |- _ => apply negb_false_iff in H
  | H : bool_decide _ = true |- _ => apply bool_decide_eq_true in H
  | H : bool_decide _ = false |- _ => apply bool_decide_eq_false in H
  end.

(** [lia] with division and remainder by constants. *)
Ltac zdiv := Z.to_euclidean_division_equations; lia.

(** Splits a successful run of a handler into the facts its branches give. *)
Ltac run_inv H :=
  repeat (simpl in H;
    match type of H with
    | context [match ?x with _ => _ end] =>
        lazymatch x with
        | context [match _ with _ => _ end] => fail
        | _ => destruct x eqn:?; simplify_eq
        end
    end);
  try (simpl in H); simplify_eq.

Lemma wrap64_id x : 0 <= x <= U64_MAX -> wrap64 x = x.
Proof. unfold wrap64, U64_MAX. intros. apply Z.mod_small. lia. Qed.

Lemma u64_sub_id a b : 0 <= b <= a -> a <= U64_MAX -> u64_sub a b = a - b.
Proof. intros. apply wrap64_id. lia. Qed.

Lemma wrap128_id x : 0 <= x <= U128_MAX -> wrap128 x = x.
Proof. unfold wrap128, U128_MAX. intros. apply Z.mod_small. lia. Qed.

Lemma checked_add_u64_Some a b c :
  checked_add_u64 a b = Some c <-> c = a + b /\ a + b <= U64_MAX.
Proof. unfold checked_add_u64. case_match; zbool; naive_solver lia. Qed.

Lemma checked_add_u64_None a b : checked_add_u64 a b = None <-> U64_MAX < a + b.
Proof. unfold checked_add_u64. case_match; zbool; naive_solver lia. Qed.

Lemma try_u64_Some x y : try_u64 x = Some y <-> y = x /\ x <= U64_MAX.
Proof. unfold try_u64. case_match; zbool; naive_solver lia. Qed.

Lemma try_i64_Some x y : try_i64 x = Some y <-> y = x /\ x <= I64_MAX.
Proof. unfold try_i64. case_match; zbool; naive_solver lia. Qed.

Lemma clamp_in x lo hi : lo <= hi -> lo <= clamp x lo hi <= hi.
Proof. unfold clamp. repeat case_match; zbool; lia. Qed.

Lemma clamp_id x lo hi : lo <= x <= hi -> clamp x lo hi = x.
Proof. unfold clamp. repeat case_match; zbool; lia. Qed.

Lemma clamp_mono x y lo hi : lo <= hi -> x <= y -> clamp x lo hi <= clamp y lo hi.
Proof. unfold clamp. repeat case_match; zbool; lia. Qed.

Lemma ok_or_Ok {E A} (o : option A) (e : E) a : ok_or o e = Ok a <-> o = Some a.
Proof. destruct o; simpl; naive_solver. Qed.

Lemma ok_or_Err {E A} (o : option A) (e e' : E) : ok_or o e = Err e' <-> o = None /\ e' = e.
Proof. destruct o; simpl; naive_solver. Qed.

Lemma map_err_Ok {E E' A} (f : E -> E') (r : result E A) a :
  map_err f r = Ok a <-> r = Ok a.
Proof. destruct r; simpl; naive_solver. Qed.

Lemma map_err_Err {E E' A} (f : E -> E') (r : result E A) e' :
  map_err f r = Err e' <-> exists e, r = Err e /\ e' = f e.
Proof. destruct r; simpl; naive_solver. Qed.

(** Turns the fallible conversions met on a successful path into their facts. *)
Ltac ok_facts :=
  repeat match goal with
  | H : ok_or _ _ = Ok _ |- _ => apply ok_or_Ok in H
  | H : ok_or _ _ = Err _ |- _ => apply ok_or_Err in H as [? ?]
  | H : map_err _ _ = Ok _ |- _ => apply map_err_Ok in H
  | H : map_err _ _ = Err _ |- _ =>
      apply map_err_Err in H; destruct H as (? & ? & ?)
  | H : try_u64 _ = Some _ |- _ => apply try_u64_Some in H as [??]
  | H : checked_add_u64 _ _ = Some _ |- _ => apply checked_add_u64_Some in H as [??]
  | H : checked_add_u64 _ _ = None |- _ => apply checked_add_u64_None in H
  end.

Lemma checked_mul_u128_Some a b c :
  checked_mul_u128 a b = Some c <-> c = a * b /\ a * b <= U128_MAX.
Proof. unfold checked_mul_u128. case_match; zbool; naive_solver lia. Qed.

Lemma try_i128_Some x y : try_i128 x = Some y <-> y = x /\ x <= I128_MAX.
Proof. unfold try_i128. case_match; zbool; naive_solver lia. Qed.

Lemma checked_sub_u64_Some a b c : checked_sub_u64 a b = Some c <-> c = a - b /\ b <= a.
Proof. unfold checked_sub_u64. case_match; zbool; naive_solver lia. Qed.

Lemma checked_add_u128_Some a b c :
  checked_add_u128 a b = Some c <-> c = a + b /\ a + b <= U128_MAX.
Proof. unfold checked_add_u128. case_match; zbool; naive_solver lia. Qed.

(** Rounding up: [(n + d - 1) / d] is the least [q] with [n <= q * d]. *)
Lemma div_ceil_spec n d : 0 < d ->
  n <= ((n + (d - 1)) / d) * d < n + d.
Proof.
  intros. pose proof (Z.div_mod (n + (d - 1)) d). pose proof (Z.mod_pos_bound (n + (d - 1)) d).
  nia.
Qed.

(** Flooring division against a product, in the form the curve proofs use. *)
Lemma div_le_iff a b c : 0 < b -> c <= a / b <-> c * b <= a.
Proof. intros. split; intros; [pose proof (Z.mul_div_le a b); nia|].
  apply Z.div_le_lower_bound; lia. Qed.

Lemma div_lt_iff a b c : 0 < b -> a / b < c <-> a < c * b.
Proof. intros Hb. pose proof (div_le_iff a b c Hb). lia. Qed.

Lemma mul_div_floor a b : 0 < b -> (a / b) * b <= a < (a / b + 1) * b.
Proof. intros. pose proof (Z.div_mod a b). pose proof (Z.mod_pos_bound a b). nia. Qed.

(** Filtering by predicates that agree on the members. *)
Lemma list_filter_iff' {A} (P Q : A -> Prop)
    `{!forall x, Decision (P x), !forall x, Decision (Q x)} (l : list A) :
  (forall x, x ∈ l -> P x <-> Q x) -> filter P l = filter Q l.
Proof.
  induction l as [|x l IH]; intros HPQ; [done|]. rewrite !filter_cons, IH by set_solver.
  specialize (HPQ x ltac:(set_solver)). repeat case_decide; tauto.
Qed.

(** A filter that drops nothing, and what a filter keeps. *)
Lemma filter_keep_all {A} (P : A -> Prop) `{!forall x, Decision (P x)} (l : list A) :
  Forall P l -> filter P l = l.
Proof. induction 1; [done|]. rewrite filter_cons_True by done. by f_equal. Qed.

Lemma filter_drop_all {A} (P : A -> Prop) `{!forall x, Decision (P x)} (l : list A) :
  Forall (fun x => ~ P x) l -> filter P l = [].
Proof. induction 1; [done|]. by rewrite filter_cons_False. Qed.

Lemma Forall_filter_sub {A} (P Q : A -> Prop) `{!forall x, Decision (Q x)} (l : list A) :
  Forall P l -> Forall P (filter Q l).
Proof.
  rewrite !Forall_forall. intros HP x Hx. apply list_elem_of_filter in Hx as [_ Hx]. auto.
Qed.

(** An invariant of the step relation holds after any number of steps. *)
Lemma rtc_invariant {A} (R : relation A) (P : A -> Prop) x y :
  (forall a b, P a -> R a b -> P b) -> P x -> rtc R x y -> P y.
Proof. intros Hstep Hx Hr. induction Hr; eauto. Qed.

(** ** Sums over finite maps *)

Definition map_sum `{Countable K} {V} (f : K -> V -> Z) (m : gmap K V) : Z :=
  map_fold (fun k v acc => f k v + acc) 0 m.

Section map_sum.
Context `{Countable K} {V : Type} (f : K -> V -> Z).
Implicit Types m : gmap K V.

Lemma map_sum_empty : map_sum f (∅ : gmap K V) = 0.
Proof. apply map_fold_empty. Qed.

Lemma map_sum_insert_new m k v :
  m !! k = None -> map_sum f (<[k := v]> m) = f k v + map_sum f m.
Proof. intros. unfold map_sum. rewrite map_fold_insert_L; [done|intros; lia|done]. Qed.

Lemma map_sum_delete m k v :
  m !! k = Some v -> map_sum f m = f k v + map_sum f (delete k m).
Proof. intros. unfold map_sum. erewrite (map_fold_delete_L _ _ k v m); [done|intros; lia|done]. Qed.

Lemma map_sum_insert m k v :
  map_sum f (<[k := v]> m) =
  map_sum f m + f k v - (match m !! k with Some w => f k w | None => 0 end).
Proof.
  destruct (m !! k) as [w|] eqn:E.
  - rewrite <- insert_delete_eq, map_sum_insert_new by apply lookup_delete_eq.
    rewrite (map_sum_delete m k w) by done. lia.
  - rewrite map_sum_insert_new by done. lia.
Qed.

Lemma map_sum_nonneg m : map_Forall (fun k v => 0 <= f k v) m -> 0 <= map_sum f m.
Proof.
  induction m as [|k v m Hk IH] using map_ind; intros HF.
  - by rewrite map_sum_empty.
  - rewrite map_sum_insert_new by done.
    rewrite map_Forall_insert in HF by done. destruct HF. specialize (IH ltac:(auto)). lia.
Qed.

Lemma map_sum_ext (g : K -> V -> Z) m :
  map_Forall (fun k v => f k v = g k v) m -> map_sum f m = map_sum g m.
Proof.
  induction m as [|k v m Hk IH] using map_ind; intros HF.
  - by rewrite map_sum_empty.
  - rewrite map_Forall_insert in HF by done. destruct HF as [Hv HF].
    specialize (IH HF).
    unfold map_sum in *. rewrite !map_fold_insert_L by (done || intros; lia). lia.
Qed.

Lemma map_sum_add (g : K -> V -> Z) m :
  map_sum (fun k v => f k v + g k v) m = map_sum f m + map_sum g m.
Proof.
  induction m as [|k v m Hk IH] using map_ind; [done|].
  unfold map_sum in *. rewrite !map_fold_insert_L by (done || intros; lia). lia.
Qed.

Lemma map_sum_zero m : map_Forall (fun k v => f k v = 0) m -> map_sum f m = 0.
Proof.
  induction m as [|k v m Hk IH] using map_ind; intros HF.
  - by rewrite map_sum_empty.
  - rewrite map_sum_insert_new by done.
    rewrite map_Forall_insert in HF by done. destruct HF. rewrite IH by auto. lia.
Qed.

Lemma map_sum_ge_lookup m k v :
  map_Forall (fun k v => 0 <= f k v) m -> m !! k = Some v -> f k v <= map_sum f m.
Proof.
  intros HF Hk. rewrite (map_sum_delete m k v Hk).
  assert (0 <= map_sum f (delete k m)); [|lia].
  by apply map_sum_nonneg, map_Forall_delete.
Qed.
End map_sum.

(** ** Consensus encoding

    fedimint-core's [Encodable]/[Decodable] pair, as the interface the modules
    program against: [decode] consumes a value from the front of a byte string
    and returns the rest. *)
Class Codec (A : Type) := {
  encode : A -> list Z;
  decode : list Z -> option (A * list Z);
}.

(** The round trip every implementation promises for the values in [P]. *)
Class CodecOk (A : Type) `{Codec A} (P : A -> Prop) : Prop :=
  decode_encode a rest : P a -> decode (encode a ++ rest) = Some (a, rest).

(** Encodings are self-delimiting: no encoded value is a proper prefix of another,
    so concatenations of encodings can be split in one way only. *)
Lemma encode_app_inj `{CodecOk A P} a b r r' :
  P a -> P b -> encode a ++ r = encode b ++ r' -> a = b /\ r = r'.
Proof.
  intros Ha Hb E. pose proof (decode_encode a r Ha) as D.
  rewrite E, (decode_encode b r' Hb) in D. by simplify_eq.
Qed.

(** ** Fixed-width integers as bytes *)

Fixpoint le_bytes (k : nat) (n : Z) : list Z :=
  match k with
  | O => []
  | S k => n mod 256 :: le_bytes k (n / 256)
  end.

Fixpoint le_value (bs : list Z) : Z :=
  match bs with
  | [] => 0
  | b :: bs => b + 256 * le_value bs
  end.

Lemma length_le_bytes k n : length (le_bytes k n) = k.
Proof. revert n; induction k as [|k IH]; intros; simpl; [done|by rewrite IH]. Qed.

Lemma le_value_bytes k n : 0 <= n < 256 ^ Z.of_nat k -> le_value (le_bytes k n) = n.
Proof.
  revert n. induction k as [|k IH]; intros n Hn; simpl; [simpl in Hn; lia|].
  rewrite Nat2Z.inj_succ, Z.pow_succ_r in Hn by lia.
  rewrite IH; [pose proof (Z.div_mod n 256); lia|].
  split; [apply Z.div_pos|apply Z.div_lt_upper_bound]; lia.
Qed.

(** [to_be_bytes] and [from_be_bytes]. *)
Definition be_bytes (k : nat) (n : Z) : list Z := rev (le_bytes k n).
Definition be_value (bs : list Z) : Z := le_value (rev bs).

Lemma length_be_bytes k n : length (be_bytes k n) = k.
Proof. unfold be_bytes. by rewrite length_rev, length_le_bytes. Qed.

Lemma be_value_bytes k n : 0 <= n < 256 ^ Z.of_nat k -> be_value (be_bytes k n) = n.
Proof. intros Hn. unfold be_value, be_bytes. rewrite rev_involutive. by apply le_value_bytes. Qed.

Lemma be_bytes_inj k a b :
  0 <= a < 256 ^ Z.of_nat k -> 0 <= b < 256 ^ Z.of_nat k -> be_bytes k a = be_bytes k b -> a = b.
Proof. intros Ha Hb E. by rewrite <- (be_value_bytes k a), E, be_value_bytes. Qed.

(** [Ord] on byte strings: lexicographic, a proper prefix first. *)
Fixpoint bytes_lt (a b : list Z) : bool :=
  match a, b with
  | _, [] => false
  | [], _ :: _ => true
  | x :: a, y :: b => (x <? y) || ((x =? y) && bytes_lt a b)
  end.

(** An eight-byte codec for [u64], the instance the witnesses use. *)
Definition u64_codec : Codec Z :=
  {| encode := le_bytes 8;
     decode bs := if (length bs <? 8)%nat then None
                  else Some (le_value (take 8 bs), drop 8 bs) |}.

Lemma u64_codec_ok : @CodecOk Z u64_codec is_u64.
Proof.
  intros n rest Hn. unfold encode, decode, u64_codec.
  rewrite length_app, length_le_bytes. case_match; [rewrite Nat.ltb_lt in *; lia|].
  rewrite take_app_le, drop_app_le by (rewrite length_le_bytes; lia).
  rewrite take_ge, drop_ge by (rewrite length_le_bytes; lia).
  rewrite le_value_bytes; [done|]. unfold_widths.
  change (256 ^ Z.of_nat 8) with (2 ^ 64). lia.
Qed.
