(* ===== verification/OrderStats.v ===== *)
(** * Order statistics

    Both modules turn the guardians' votes into one number by sorting them and
    taking a fixed index.  What that index promises: how many votes lie on either
    side of it, that honest votes lie on both sides when faulty ones are few, and
    that it never moves down when votes only grow. *)

From S2P Require Import Prelude.

(** The [k]-th smallest element of a list. *)
Definition kth (l : list Z) (k : nat) : option Z := merge_sort Z.le l !! k.

Lemma merge_sort_Z_sorted (l : list Z) : StronglySorted Z.le (merge_sort Z.le l).
Proof. apply StronglySorted_merge_sort; [intros ???; lia|intros ??; lia]. Qed.

Lemma filter_all (P : Z -> Prop) `{!forall x, Decision (P x)} (l : list Z) :
  Forall P l -> length (filter P l) = length l.
Proof. induction 1; [done|]. rewrite filter_cons_True by done. simpl. lia. Qed.

Lemma sorted_prefix (l : list Z) (i : nat) (x : Z) :
  StronglySorted Z.le l -> l !! i = Some x ->
  (S i <= length (filter (fun y => y <= x)%Z l))%nat.
Proof.
  intros Hs. revert i. induction Hs as [|y l Hs IH HF]; intros i Hi; [done|].
  destruct i as [|i]; simpl in Hi.
  - simplify_eq. rewrite filter_cons_True by lia. simpl. lia.
  - rewrite filter_cons_True.
    + simpl. specialize (IH i Hi). lia.
    + rewrite Forall_lookup in HF. by apply (HF i).
Qed.

Lemma sorted_suffix (l : list Z) (i : nat) (x : Z) :
  StronglySorted Z.le l -> l !! i = Some x ->
  (length l - i <= length (filter (fun y => x <= y)%Z l))%nat.
Proof.
  intros Hs. revert i. induction Hs as [|y l Hs IH HF]; intros i Hi; [done|].
  destruct i as [|i]; simpl in Hi.
  - simplify_eq. rewrite filter_cons_True by lia.
    simpl. rewrite filter_all by done. lia.
  - specialize (IH i Hi). rewrite filter_cons. case_decide; simpl; lia.
Qed.

Lemma kth_below l k x :
  kth l k = Some x -> (S k <= length (filter (fun y => y <= x)%Z l))%nat.
Proof.
  intros Hk. apply sorted_prefix in Hk; [|apply merge_sort_Z_sorted].
  by rewrite merge_sort_Permutation in Hk.
Qed.

Lemma kth_above l k x :
  kth l k = Some x -> (length l - k <= length (filter (fun y => x <= y)%Z l))%nat.
Proof.
  intros Hk. apply sorted_suffix in Hk; [|apply merge_sort_Z_sorted].
  by rewrite merge_sort_Permutation in Hk.
Qed.

Lemma kth_is_Some l k : (k < length l)%nat -> is_Some (kth l k).
Proof. intros. apply lookup_lt_is_Some_2. by rewrite merge_sort_Permutation. Qed.

Lemma kth_Permutation l l' k : l ≡ₚ l' -> kth l k = kth l' k.
Proof.
  intros Hp. unfold kth. f_equal. eapply (StronglySorted_unique Z.le);
    [apply merge_sort_Z_sorted..|]. by rewrite !merge_sort_Permutation.
Qed.

(** Counting through a projection. *)
Lemma length_filter_fmap {A} (f : A -> Z) (P : Z -> Prop) `{!forall x, Decision (P x)} (l : list A) :
  length (filter P (f <$> l)) = length (filter (fun a => P (f a)) l).
Proof.
  induction l as [|a l IH]; [done|]. rewrite fmap_cons, !filter_cons.
  repeat case_decide; try done. cbn [length]. by rewrite IH.
Qed.

(** Splitting a list by a predicate. *)
Lemma length_filter_split {A} (P : A -> Prop) `{!forall x, Decision (P x)} (l : list A) :
  (length (filter P l) + length (filter (fun x => ~ P x) l))%nat = length l.
Proof.
  induction l as [|x l IH]; [done|].
  rewrite !filter_cons. destruct (decide (P x)), (decide (~ P x)); simpl in *; try tauto; lia.
Qed.

(** If every element satisfying [P] fails [Q], the [P]s fit among the non-[Q]s. *)
Lemma filter_length_le {A} (P Q : A -> Prop) `{!forall x, Decision (P x), !forall x, Decision (Q x)}
    (l : list A) :
  (forall x, x ∈ l -> P x -> ~ Q x) ->
  (length (filter P l) <= length (filter (fun x => ~ Q x) l))%nat.
Proof.
  induction l as [|x l IH]; intros HPQ; simpl; [done|].
  rewrite !filter_cons. assert (length (filter P l) <= length (filter (fun x => ~ Q x) l))%nat
    by (apply IH; intros; apply HPQ; set_solver).
  repeat case_decide; simpl; try lia. exfalso. eapply HPQ; eauto. set_solver.
Qed.

(** More [P]s than non-[Q]s: some [P] is a [Q]. *)
Lemma pigeonhole {A} (P Q : A -> Prop) `{!forall x, Decision (P x), !forall x, Decision (Q x)}
    (l : list A) :
  (length (filter (fun x => ~ Q x) l) < length (filter P l))%nat ->
  exists x, x ∈ l /\ P x /\ Q x.
Proof.
  intros Hlt. destruct (decide (Exists (fun x => P x /\ Q x) l)) as [He|Hn].
  - apply Exists_exists in He as (x & ? & ? & ?). eauto.
  - exfalso. apply Nat.lt_nge in Hlt. apply Hlt. apply filter_length_le.
    intros x Hin HP HQ. apply Hn, Exists_exists. eauto.
Qed.

(** An index with more elements on either side than there are faulty ones lies
    between two honest elements. *)
Lemma kth_bracketed {A} (f : A -> Z) (honest : A -> Prop) `{!forall a, Decision (honest a)}
    (l : list A) (k : nat) (x : Z) :
  let faulty := length (filter (fun a => ~ honest a) l) in
  (faulty <= k)%nat -> (k + faulty < length l)%nat -> kth (f <$> l) k = Some x ->
  (exists a, a ∈ l /\ honest a /\ f a <= x) /\ (exists a, a ∈ l /\ honest a /\ x <= f a).
Proof.
  intros faulty Hk Hl Hx.
  pose proof (kth_below _ _ _ Hx) as Hb. pose proof (kth_above _ _ _ Hx) as Ha.
  rewrite length_filter_fmap in Hb. rewrite length_filter_fmap, length_fmap in Ha.
  destruct (pigeonhole (fun a => f a <= x) honest l) as (a & ? & ? & ?); [unfold faulty in *; lia|].
  destruct (pigeonhole (fun a => x <= f a) honest l) as (b & ? & ? & ?); [unfold faulty in *; lia|].
  eauto 10.
Qed.

Lemma filter_le_mono (l l' : list Z) x :
  Forall2 Z.le l l' ->
  (length (filter (fun y => y <= x)%Z l') <= length (filter (fun y => y <= x)%Z l))%nat.
Proof.
  induction 1 as [|y y' l l' Hy _ IH]; [done|]. rewrite !filter_cons.
  repeat case_decide; simpl; lia.
Qed.

(** Growing elements never lower an order statistic. *)
Lemma kth_mono l l' k x x' :
  Forall2 Z.le l l' -> kth l k = Some x -> kth l' k = Some x' -> x <= x'.
Proof.
  intros HF Hx Hx'. destruct (decide (x <= x')) as [|Hlt]; [done|exfalso].
  assert (k < length l)%nat as Hk.
  { apply lookup_lt_Some in Hx. by rewrite merge_sort_Permutation in Hx. }
  pose proof (kth_below _ _ _ Hx') as Hb. pose proof (kth_above _ _ _ Hx) as Ha.
  pose proof (filter_le_mono _ _ x' HF).
  pose proof (filter_length_le (fun y => y <= x')%Z (fun y => x <= y)%Z l ltac:(cbv beta; lia)).
  pose proof (length_filter_split (fun y => x <= y)%Z l). lia.
Qed.
