(* ===== verification/FedimintCore.v ===== *)
(** * What the modules use of fedimint-core

    Types and operations of the framework the two modules are plugged into:
    peers, unit-tagged amounts, the amounts reported for a transaction item and
    compressed public keys.  [Amounts] is an interface with the laws the modules
    rely on, and a finite-map instance shows the laws can hold. *)

From S2P Require Import Prelude.

Abbreviation PeerId := Z (only parsing).
Abbreviation AmountUnit := Z (only parsing).

(** A compressed secp256k1 key, as the big-endian value of its 33 bytes: a parity
    prefix (2 or 3) followed by the 32-byte x coordinate. *)
Record PublicKey := mkPublicKey { pk_bytes : Z }.

#[export] Instance PublicKey_eq_dec : EqDecision PublicKey.
Proof. solve_decision. Defined.
#[export] Instance PublicKey_countable : Countable PublicKey.
Proof. refine (inj_countable' pk_bytes mkPublicKey _). by intros []. Defined.

(** [PublicKey::x_only_public_key]: drop the parity prefix. *)
Definition x_only (pk : PublicKey) : Z := pk_bytes pk mod 2 ^ 256.

(** Multi-unit amounts.  [amount_of] reads a unit's entry, zero when absent. *)
Class AmountsOps := {
  Amounts : Type;
  Amounts_ZERO : Amounts;
  new_custom : AmountUnit -> Z -> Amounts;
  checked_add_unit : Amounts -> Z -> AmountUnit -> option Amounts;
  amount_of : Amounts -> AmountUnit -> Z;
}.

Class AmountsOk `{AmountsOps} : Prop := {
  amount_of_ZERO u : amount_of Amounts_ZERO u = 0;
  amount_of_new_custom u a u' :
    amount_of (new_custom u a) u' = if u' =? u then a else 0;
  checked_add_unit_Some am a u am' :
    checked_add_unit am a u = Some am' ->
    forall u', amount_of am' u' = amount_of am u' + (if u' =? u then a else 0);
  checked_add_unit_total am a u :
    is_u64 (amount_of am u + a) -> is_Some (checked_add_unit am a u);
}.

Section items.
Context `{AmountsOps}.

(** What a handler reports of a transaction item: its value and the fee the
    module keeps of it. *)
Record TransactionItemAmounts := mkTransactionItemAmounts {
  amounts : Amounts;
  fees : Amounts;
}.

Record InputMeta := mkInputMeta {
  amount : TransactionItemAmounts;
  pub_key : PublicKey;
}.
End items.

(** Amounts as finite maps without zero entries. *)
Definition map_amounts : AmountsOps := {|
  Amounts := gmap Z Z;
  Amounts_ZERO := ∅;
  new_custom u a := if a =? 0 then ∅ else {[u := a]};
  checked_add_unit am a u :=
    let s := default 0 (am !! u) + a in
    if a =? 0 then Some am else if s <=? U64_MAX then Some (<[u := s]> am) else None;
  amount_of am u := default 0 (am !! u);
|}.

Lemma map_amounts_ok : @AmountsOk map_amounts.
Proof.
  split; simpl.
  - intros u. by rewrite lookup_empty.
  - intros u a u'. destruct (a =? 0) eqn:Ea; zbool; [rewrite lookup_empty; simpl; by case_match|].
    rewrite lookup_singleton. case_decide; case_match; zbool; simpl; congruence.
  - intros am a u am' E u'. destruct (a =? 0) eqn:Ea; zbool; [simplify_eq; case_match; lia|].
    run_inv E. rewrite lookup_insert. case_decide; case_match; zbool; simplify_eq; simpl; lia.
  - intros am a u Hs. case_match; [eauto|]. case_match; [eauto|]. zbool. unfold_widths. lia.
Qed.
