(* ===== verification/AmmMath.v ===== *)
(** * The constant-product curve

    [modules/amm/fedimint-amm-common/src/math.rs]: the Uniswap V2 arithmetic
    that settlement, quoting and the client's previews all share.  Every
    [u128] product is taken modulo 2^128 as the machine takes it; that the
    caps keep each of them below the modulus is proved, not assumed. *)

From S2P Require Import Prelude.

Definition MAX_RESERVE : Z := Z.shiftl 1 58.
Definition MINIMUM_LIQUIDITY : Z := 1000.

Module CurveError.
Inductive t :=
| ZeroAmount
| ZeroReserve
| ReserveCapExceeded
| InvalidFee
| OutputRoundsToZero
| InsufficientLiquidity
| InsufficientInitialLiquidity
| InsufficientShares
| Overflow.

#[export] Instance t_eq_dec : EqDecision t.
Proof. solve_decision. Defined.

(** The [#[error(...)]] strings, which travel inside the wire-level errors. *)
Definition to_string (e : t) : string :=
  match e with
  | ZeroAmount => "amount must be non-zero"
  | ZeroReserve => "reserves must be non-zero"
  | ReserveCapExceeded => "value exceeds MAX_RESERVE"
  | InvalidFee => "fee_per_mille must be < 1000"
  | OutputRoundsToZero => "output rounds to zero"
  | InsufficientLiquidity => "pool has insufficient liquidity"
  | InsufficientInitialLiquidity => "initial liquidity must exceed MINIMUM_LIQUIDITY"
  | InsufficientShares => "not enough shares"
  | Overflow => "arithmetic overflow"
  end.
End CurveError.

Definition amount_out (reserve_in reserve_out amount_in fee_per_mille : Z)
    : result CurveError.t Z :=
  if amount_in =? 0 then Err CurveError.ZeroAmount
  else if (reserve_in =? 0) || (reserve_out =? 0) then Err CurveError.ZeroReserve
  else if (MAX_RESERVE <? amount_in) || (MAX_RESERVE <? reserve_in)
          || (MAX_RESERVE <? reserve_out) then Err CurveError.ReserveCapExceeded
  else if 1000 <=? fee_per_mille then Err CurveError.InvalidFee
  else
    let in_with_fee := u128_mul amount_in (1000 - fee_per_mille) in
    let numerator := u128_mul in_with_fee reserve_out in
    let denominator := u128_add (u128_mul reserve_in 1000) in_with_fee in
    let out := numerator / denominator in
    if out =? 0 then Err CurveError.OutputRoundsToZero
    else if reserve_out <=? out then Err CurveError.InsufficientLiquidity
    else ok_or (try_u64 out) CurveError.Overflow.

Record MintOutcome := mkMintOutcome {
  to_owner : Z;
  mint_new_total_shares : Z;
}.

Definition mint_shares (reserve_lo reserve_hi total_shares da db : Z)
    : result CurveError.t MintOutcome :=
  let exceeds r d :=
    match checked_add_u64 r d with None => true | Some s => MAX_RESERVE <? s end in
  if (da =? 0) || (db =? 0) then Err CurveError.ZeroAmount
  else if (MAX_RESERVE <? da) || (MAX_RESERVE <? db) then Err CurveError.ReserveCapExceeded
  else if exceeds reserve_lo da || exceeds reserve_hi db then Err CurveError.ReserveCapExceeded
  else if total_shares =? 0 then
    minted ← ok_or (try_u64 (Z.sqrt (u128_mul da db))) CurveError.Overflow;
    if minted <=? MINIMUM_LIQUIDITY then Err CurveError.InsufficientInitialLiquidity
    else Ok {| to_owner := minted - MINIMUM_LIQUIDITY;
               mint_new_total_shares := minted |}
  else if (reserve_lo =? 0) || (reserve_hi =? 0) then Err CurveError.ZeroReserve
  else
    let via_lo := u128_mul da total_shares / reserve_lo in
    let via_hi := u128_mul db total_shares / reserve_hi in
    minted ← ok_or (try_u64 (Z.min via_lo via_hi)) CurveError.Overflow;
    if minted =? 0 then Err CurveError.OutputRoundsToZero
    else
      new_total ← ok_or (checked_add_u64 total_shares minted) CurveError.Overflow;
      Ok {| to_owner := minted; mint_new_total_shares := new_total |}.

Record BurnOutcome := mkBurnOutcome {
  burn_da : Z;
  burn_db : Z;
  burn_new_total_shares : Z;
}.

Definition burn_shares (reserve_lo reserve_hi total_shares shares : Z)
    : result CurveError.t BurnOutcome :=
  if shares =? 0 then Err CurveError.ZeroAmount
  else if total_shares <? shares then Err CurveError.InsufficientShares
  else if total_shares =? 0 then Err CurveError.InsufficientShares
  else
    da ← ok_or (try_u64 (u128_mul reserve_lo shares / total_shares)) CurveError.Overflow;
    db ← ok_or (try_u64 (u128_mul reserve_hi shares / total_shares)) CurveError.Overflow;
    if (da =? 0) && (db =? 0) then Err CurveError.OutputRoundsToZero
    else Ok {| burn_da := da; burn_db := db;
               burn_new_total_shares := u64_sub total_shares shares |}.

Definition k_non_decreasing (r_in_old r_out_old r_in_new r_out_new : Z) : bool :=
  let old := u128_mul r_in_old r_out_old in
  let new := u128_mul r_in_new r_out_new in
  old <=? new.

Definition price_impact_per_mille (reserve_in reserve_out amount_in amount_out : Z) : Z :=
  let denominator := u128_mul amount_in reserve_out in
  if denominator =? 0 then 0
  else
    let numerator := u128_mul (u128_mul 1000 amount_out) reserve_in in
    let ratio_per_mille := default U64_MAX (try_u64 (numerator / denominator)) in
    saturating_sub 1000 ratio_per_mille.

(** The vectors of the source's own tests. *)
Example amount_out_reference_vector :
  amount_out 1000000000 1000000 10000000 3 = Ok 9871.
Proof. reflexivity. Qed.

Example first_mint_vector :
  mint_shares 0 0 0 1000000 1000000 = Ok (mkMintOutcome 999000 1000000).
Proof. reflexivity. Qed.

Example later_mint_floors :
  mint_shares 1000000 1000000 1 1 1000000 = Err CurveError.OutputRoundsToZero.
Proof. reflexivity. Qed.

(** ** The exact, unbounded-integer curve *)

(** Uniswap V2's [getAmountOut] over the integers. *)
Definition amount_out_exact (reserve_in reserve_out amount_in fee : Z) : Z :=
  amount_in * (1000 - fee) * reserve_out / (reserve_in * 1000 + amount_in * (1000 - fee)).

(** The admission conditions of [amount_out]. *)
Definition swap_admissible (reserve_in reserve_out amount_in fee : Z) : Prop :=
  0 < amount_in <= MAX_RESERVE /\ 0 < reserve_in <= MAX_RESERVE /\
  0 < reserve_out <= MAX_RESERVE /\ 0 <= fee < 1000.

Lemma MAX_RESERVE_val : MAX_RESERVE = 2 ^ 58.
Proof. reflexivity. Qed.

Section amount_out.
Context (ri ro a fee : Z).
Hypothesis adm : swap_admissible ri ro a fee.

Let g : Z := a * (1000 - fee).

Lemma in_with_fee_bounds : 0 < g <= 1000 * a /\ g <= 1000 * 2 ^ 58.
Proof. subst g. unfold swap_admissible in adm. rewrite MAX_RESERVE_val in adm. nia. Qed.

(** None of the three [u128] intermediates wraps. *)
Lemma amount_out_no_wrap :
  u128_mul a (1000 - fee) = g /\
  u128_mul (u128_mul a (1000 - fee)) ro = g * ro /\
  u128_add (u128_mul ri 1000) (u128_mul a (1000 - fee)) = ri * 1000 + g.
Proof.
  pose proof in_with_fee_bounds. unfold swap_admissible in adm.
  rewrite MAX_RESERVE_val in adm.
  assert (0 <= g * ro <= 1000 * 2 ^ 58 * 2 ^ 58) by nia.
  unfold u128_mul, u128_add.
  rewrite (wrap128_id (a * _)) by (fold g; unfold U128_MAX; lia).
  rewrite (wrap128_id (ri * _)) by (unfold U128_MAX; lia).
  fold g. rewrite !wrap128_id by (unfold U128_MAX; lia). done.
Qed.

Lemma amount_out_exact_lt : 0 <= amount_out_exact ri ro a fee < ro.
Proof.
  pose proof in_with_fee_bounds. unfold swap_admissible in adm.
  unfold amount_out_exact. fold g. split.
  - apply Z.div_pos; nia.
  - apply Z.div_lt_upper_bound; nia.
Qed.
End amount_out.

(** On admissible inputs only the dust check of [amount_out] can fire. *)
Lemma amount_out_run ri ro a fee :
  swap_admissible ri ro a fee ->
  amount_out ri ro a fee =
    if amount_out_exact ri ro a fee =? 0 then Err CurveError.OutputRoundsToZero
    else Ok (amount_out_exact ri ro a fee).
Proof.
  intros adm. pose proof (amount_out_exact_lt _ _ _ _ adm).
  destruct (amount_out_no_wrap _ _ _ _ adm) as (_ & E2 & E3).
  unfold amount_out. rewrite E2, E3. fold (amount_out_exact ri ro a fee).
  unfold swap_admissible in adm. rewrite MAX_RESERVE_val in *.
  repeat (case_match; zbool; [lia|]). case_match; [done|]. zbool.
  case_match; zbool; [lia|]. apply ok_or_Ok, try_u64_Some. unfold U64_MAX. lia.
Qed.

(** On the other inputs one of the four guards fires. *)
Lemma amount_out_guards ri ro a fee :
  0 <= ri -> 0 <= ro -> 0 <= a -> 0 <= fee -> ~ swap_admissible ri ro a fee ->
  exists e, amount_out ri ro a fee = Err e /\
    (e ∈ [CurveError.ZeroAmount; CurveError.ZeroReserve;
          CurveError.ReserveCapExceeded; CurveError.InvalidFee]).
Proof.
  intros ???? Hn. unfold amount_out.
  repeat (case_match; [eexists; split; [done|set_solver]|]).
  zbool. destruct Hn. unfold swap_admissible. lia.
Qed.

Lemma swap_admissible_dec ri ro a fee :
  swap_admissible ri ro a fee \/ ~ swap_admissible ri ro a fee.
Proof. unfold swap_admissible. lia. Qed.

(** A successful [amount_out] is exactly the reference formula, and every
    admissible input whose exact output is positive succeeds. *)
Lemma amount_out_Ok ri ro a fee dy :
  0 <= ri -> 0 <= ro -> 0 <= a -> 0 <= fee ->
  amount_out ri ro a fee = Ok dy <->
  swap_admissible ri ro a fee /\ dy = amount_out_exact ri ro a fee /\ 0 < dy.
Proof.
  intros. destruct (swap_admissible_dec ri ro a fee) as [adm|Hn].
  - pose proof (amount_out_exact_lt _ _ _ _ adm). rewrite amount_out_run by done.
    case_match; zbool; naive_solver lia.
  - edestruct amount_out_guards as (e & -> & _); [..|done|]; naive_solver.
Qed.

Section swap.
Context (ri ro a fee dy : Z).
Hypothesis (Hri : is_u64 ri) (Hro : is_u64 ro) (Ha : is_u64 a) (Hfee : is_u16 fee).
Hypothesis ok : amount_out ri ro a fee = Ok dy.

Lemma amount_out_adm : swap_admissible ri ro a fee.
Proof. unfold_widths. apply amount_out_Ok in ok; [tauto|lia..]. Qed.

Lemma amount_out_range : 0 < dy < ro.
Proof.
  unfold_widths. apply amount_out_Ok in ok as (adm & -> & ?); try lia.
  pose proof (amount_out_exact_lt _ _ _ _ adm). lia.
Qed.

(** The defining inequality of the floored output. *)
Lemma amount_out_ineq :
  dy * (ri * 1000 + a * (1000 - fee)) <= a * (1000 - fee) * ro.
Proof.
  pose proof amount_out_adm as adm. unfold_widths.
  apply amount_out_Ok in ok as (_ & -> & ?); try lia.
  unfold amount_out_exact, swap_admissible in *.
  apply div_le_iff; nia.
Qed.

Lemma amount_out_k : ri * ro <= (ri + a) * (ro - dy).
Proof.
  pose proof amount_out_adm as adm. pose proof amount_out_ineq.
  pose proof amount_out_range. unfold swap_admissible in adm. nia.
Qed.
End swap.

Lemma swap_passes_k ri ro a fee dy :
  is_u64 ri -> is_u64 ro -> is_u64 a -> is_u16 fee ->
  amount_out ri ro a fee = Ok dy ->
  k_non_decreasing ri ro (ri + a) (ro - dy) = true.
Proof.
  intros Hri Hro Ha Hfee ok.
  pose proof (amount_out_k _ _ _ _ _ Hri Hro Ha Hfee ok).
  pose proof (amount_out_range _ _ _ _ _ Hri Hro Ha Hfee ok).
  pose proof (amount_out_adm _ _ _ _ _ Hri Hro Ha Hfee ok) as adm.
  unfold swap_admissible in adm. rewrite MAX_RESERVE_val in adm.
  unfold k_non_decreasing, u128_mul. apply Z.leb_le.
  rewrite !wrap128_id by (unfold U128_MAX; nia). done.
Qed.

(** A successful swap never lowers the pool's product: after adding the whole
    input (fee included) to one reserve and taking the output from the other,
    the [k_non_decreasing] guard of settlement accepts, so the
    [KInvariantViolated] rejection is unreachable. *)
Theorem swap_passes_k_guard ri ro a fee dy :
  is_u64 ri -> is_u64 ro -> is_u64 a -> is_u16 fee ->
  amount_out ri ro a fee = Ok dy ->
  k_non_decreasing ri ro (ri + a) (ro - dy) = true.
Proof. apply swap_passes_k. Qed.

Lemma swap_passes_k_guard_witness :
  k_non_decreasing 1000000000 1000000 (1000000000 + 10000000) (1000000 - 9871) = true.
Proof.
  apply (swap_passes_k_guard _ _ _ 3); [unfold_widths; lia..|reflexivity].
Defined.

(** C3: on 64-bit inputs the machine computation is the reference Uniswap V2
    formula: it succeeds exactly on admissible inputs whose exact floored
    output is positive, and then returns that output; no [u128] intermediate
    wraps, and the two defensive errors are never returned. *)
Theorem amount_out_refines_reference ri ro a fee :
  is_u64 ri -> is_u64 ro -> is_u64 a -> is_u16 fee ->
  (forall dy, amount_out ri ro a fee = Ok dy <->
     swap_admissible ri ro a fee /\ dy = amount_out_exact ri ro a fee /\ 0 < dy) /\
  amount_out ri ro a fee <> Err CurveError.InsufficientLiquidity /\
  amount_out ri ro a fee <> Err CurveError.Overflow.
Proof.
  intros Hri Hro Ha Hfee. split; [intros; unfold_widths; apply amount_out_Ok; lia|].
  unfold_widths. destruct (swap_admissible_dec ri ro a fee) as [adm|Hn].
  - rewrite amount_out_run by done. by case_match.
  - edestruct amount_out_guards as (e & -> & He); [..|done|]; [lia..|set_solver].
Qed.

Lemma amount_out_refines_reference_witness :
  amount_out 1000000000 1000000 10000000 3 = Ok 9871.
Proof.
  apply (amount_out_refines_reference 1000000000 1000000 10000000 3);
    [unfold_widths; lia..|].
  split; [unfold swap_admissible; rewrite MAX_RESERVE_val; lia|].
  split; [vm_compute; reflexivity|lia].
Defined.

(** Swapping the proceeds straight back never returns more than was put in:
    a round trip through the pool cannot profit, whatever the fee. *)
Theorem swap_round_trip_no_profit ri ro a fee dy back :
  is_u64 ri -> is_u64 ro -> is_u64 a -> is_u16 fee -> is_u64 (ri + a) ->
  amount_out ri ro a fee = Ok dy ->
  amount_out (ro - dy) (ri + a) dy fee = Ok back ->
  back <= a.
Proof.
  intros Hri Hro Ha Hfee Hsum ok1 ok2.
  pose proof (amount_out_range _ _ _ _ _ Hri Hro Ha Hfee ok1) as R1.
  pose proof (amount_out_k _ _ _ _ _ Hri Hro Ha Hfee ok1) as K1.
  assert (is_u64 (ro - dy)) by (unfold_widths; lia).
  assert (is_u64 dy) by (unfold_widths; lia).
  pose proof (amount_out_k (ro - dy) (ri + a) dy fee back) as K2.
  specialize (K2 ltac:(done) ltac:(done) ltac:(done) Hfee ok2). nia.
Qed.

Lemma swap_round_trip_no_profit_witness : 9940 <= 10000.
Proof.
  apply (swap_round_trip_no_profit 1000000 1000000 10000 3 9871 9940);
    [unfold_widths; lia..|reflexivity|vm_compute; reflexivity].
Defined.

(** Splitting an order never beats placing it whole: the two outputs of
    consecutive swaps sum to at most the single swap's output. *)
Theorem swap_split_no_gain ri ro a1 a2 fee d1 d2 d :
  is_u64 ri -> is_u64 ro -> is_u64 a1 -> is_u64 a2 -> is_u16 fee ->
  is_u64 (ri + a1) -> is_u64 (a1 + a2) ->
  amount_out ri ro a1 fee = Ok d1 ->
  amount_out (ri + a1) (ro - d1) a2 fee = Ok d2 ->
  amount_out ri ro (a1 + a2) fee = Ok d ->
  d1 + d2 <= d.
Proof.
  intros Hri Hro Ha1 Ha2 Hfee Hs1 Hs2 ok1 ok2 ok.
  pose proof (amount_out_range _ _ _ _ _ Hri Hro Ha1 Hfee ok1).
  assert (is_u64 (ro - d1)) as Hro' by (unfold_widths; lia).
  pose proof (amount_out_range _ _ _ _ _ Hs1 Hro' Ha2 Hfee ok2).
  pose proof (amount_out_ineq _ _ _ _ _ Hri Hro Ha1 Hfee ok1) as I1.
  pose proof (amount_out_ineq _ _ _ _ _ Hs1 Hro' Ha2 Hfee ok2) as I2.
  pose proof (amount_out_adm _ _ _ _ _ Hri Hro Ha1 Hfee ok1) as A1.
  pose proof (amount_out_adm _ _ _ _ _ Hs1 Hro' Ha2 Hfee ok2) as A2.
  unfold swap_admissible in *.
  apply amount_out_Ok in ok as (_ & -> & _); try (unfold_widths; lia).
  unfold amount_out_exact. apply div_le_iff; nia.
Qed.

Lemma swap_split_no_gain_witness : 4960 + 4911 <= 9871.
Proof.
  apply (swap_split_no_gain 1000000 1000000 5000 5000 3 4960 4911 9871);
    [unfold_widths; lia..|vm_compute; reflexivity|vm_compute; reflexivity|vm_compute; reflexivity].
Defined.

(** ** Liquidity shares *)

(** What a successful [mint_shares] establishes. *)
Lemma mint_shares_Ok lo hi S da db o :
  is_u64 lo -> is_u64 hi -> is_u64 S -> is_u64 da -> is_u64 db ->
  mint_shares lo hi S da db = Ok o ->
  0 < da /\ 0 < db /\ lo + da <= MAX_RESERVE /\ hi + db <= MAX_RESERVE /\
  is_u64 (mint_new_total_shares o) /\ 0 < to_owner o /\
  if S =? 0 then
    mint_new_total_shares o = Z.sqrt (da * db) /\
    to_owner o + MINIMUM_LIQUIDITY = mint_new_total_shares o
  else
    0 < lo /\ 0 < hi /\
    to_owner o = Z.min (da * S / lo) (db * S / hi) /\
    mint_new_total_shares o = S + to_owner o.
Proof.
  intros Hlo Hhi HS Hda Hdb. unfold mint_shares.
  assert (forall r d, is_u64 r -> is_u64 d ->
    (match checked_add_u64 r d with None => true | Some s => MAX_RESERVE <? s end) = false ->
    r + d <= MAX_RESERVE) as Hex.
  { intros r d _ _. destruct (checked_add_u64 r d) eqn:E; [|done].
    apply checked_add_u64_Some in E as [-> _]. intros. zbool. lia. }
  assert (forall x y, is_u64 x -> is_u64 y -> u128_mul x y = x * y) as Hm.
  { intros. apply wrap128_id. unfold_widths. nia. }
  case_match; [done|]. case_match; [done|]. case_match; [done|]. zbool.
  rewrite !Hm by done.
  assert (lo + da <= MAX_RESERVE) by auto. assert (hi + db <= MAX_RESERVE) by auto.
  destruct (S =? 0) eqn:ES; zbool.
  - intros Hrun. run_inv Hrun. simpl. ok_facts. zbool.
    unfold MINIMUM_LIQUIDITY in *. unfold_widths. lia.
  - intros Hrun. run_inv Hrun. ok_facts. zbool. simpl.
    assert (0 <= da * S / lo) by (apply Z.div_pos; unfold_widths; nia).
    assert (0 <= db * S / hi) by (apply Z.div_pos; unfold_widths; nia).
    unfold_widths. lia.
Qed.

(** What a successful [burn_shares] establishes. *)
Lemma burn_shares_Ok lo hi S s o :
  is_u64 lo -> is_u64 hi -> is_u64 S -> is_u64 s ->
  burn_shares lo hi S s = Ok o ->
  0 < s <= S /\ burn_da o = lo * s / S /\ burn_db o = hi * s / S /\
  burn_new_total_shares o = S - s /\
  0 <= burn_da o <= lo /\ 0 <= burn_db o <= hi /\ 0 < burn_da o + burn_db o.
Proof.
  intros Hlo Hhi HS Hs. unfold burn_shares.
  assert (forall x y, is_u64 x -> is_u64 y -> u128_mul x y = x * y) as Hm.
  { intros. apply wrap128_id. unfold_widths. nia. }
  rewrite !Hm by done. intros Hrun. run_inv Hrun; ok_facts; zbool; simpl.
  all: assert (0 < s <= S) by (unfold_widths; lia).
  all: assert (forall r, is_u64 r -> 0 <= r * s / S <= r) as Hr
    by (intros; unfold_widths; split; [apply Z.div_pos; nia|apply Z.div_le_upper_bound; nia]).
  all: pose proof (Hr lo Hlo); pose proof (Hr hi Hhi).
  all: unfold u64_sub; rewrite wrap64_id by (unfold_widths; lia); unfold_widths; lia.
Qed.

(** The pool backs its shares: [S] shares over reserves whose geometric mean is
    at least [S].  Creation establishes it and every operation keeps it. *)
Definition backed (lo hi S : Z) : Prop := S * S <= lo * hi.

(** Scaling both reserves at least as much as the shares keeps the backing. *)
Lemma backed_scale lo hi S lo' hi' S' :
  0 < S -> 0 <= lo -> 0 <= hi -> 0 <= S' ->
  backed lo hi S -> lo * S' <= lo' * S -> hi * S' <= hi' * S -> backed lo' hi' S'.
Proof.
  unfold backed. intros ???? Hb Hl Hh.
  apply (Z.mul_le_mono_pos_l _ _ (S * S)); [nia|].
  transitivity ((lo * S') * (hi * S')).
  - replace ((lo * S') * (hi * S')) with ((lo * hi) * (S' * S')) by ring.
    apply Z.mul_le_mono_nonneg_r; nia.
  - replace (S * S * (lo' * hi')) with ((lo' * S) * (hi' * S)) by ring.
    apply Z.mul_le_mono_nonneg; nia.
Qed.

Section shares.
Context (lo hi S : Z).
Hypothesis (Hlo : is_u64 lo) (Hhi : is_u64 hi) (HS : is_u64 S).

(** Flooring each side separately, [da / lo] and [m / S] compare as fractions. *)
Lemma mint_side r d m : 0 < r -> 0 <= S -> m <= d * S / r -> r * (S + m) <= (r + d) * S.
Proof. intros ?? Hm. apply div_le_iff in Hm; nia. Qed.

Lemma burn_side r s : 0 < S -> r * (S - s) <= (r - r * s / S) * S.
Proof. intros. pose proof (mul_div_floor (r * s) S). nia. Qed.

Lemma mint_backed da db o :
  is_u64 da -> is_u64 db -> 0 <= lo -> 0 <= hi ->
  (S = 0 -> lo = 0 /\ hi = 0) ->
  backed lo hi S ->
  mint_shares lo hi S da db = Ok o ->
  backed (lo + da) (hi + db) (mint_new_total_shares o).
Proof.
  unfold backed. intros Hda Hdb _ _ Hz Hb ok.
  apply mint_shares_Ok in ok as (?&?&?&?&?&?&Hif); [|done..].
  destruct (S =? 0) eqn:ES; zbool.
  - destruct Hif as [-> _]. destruct Hz as [-> ->]; [lia|].
    assert (0 <= da * db) as Hp by nia. destruct (Z.sqrt_spec _ Hp) as [? _].
    rewrite !Z.add_0_l. lia.
  - destruct Hif as (?&?&Hm&->). unfold_widths.
    apply (backed_scale lo hi S); try (apply mint_side); unfold backed; lia.
Qed.

Lemma burn_backed s o :
  is_u64 s -> backed lo hi S -> burn_shares lo hi S s = Ok o ->
  backed (lo - burn_da o) (hi - burn_db o) (burn_new_total_shares o).
Proof.
  unfold backed. intros Hs Hb ok.
  apply burn_shares_Ok in ok as (?&Ea&Eb&->&?&?&?); [|done..].
  rewrite Ea, Eb. unfold_widths.
  apply (backed_scale lo hi S); try (apply burn_side); unfold backed; lia.
Qed.

Lemma burn_keeps_positive s o :
  is_u64 s -> 0 < lo -> 0 < hi -> s < S -> burn_shares lo hi S s = Ok o ->
  0 < lo - burn_da o /\ 0 < hi - burn_db o.
Proof.
  intros Hs ??? ok. apply burn_shares_Ok in ok as (?&->&->&_); [|done..].
  assert (forall r, 0 < r -> r * s / S < r) as Hr; [|pose proof (Hr lo); pose proof (Hr hi); lia].
  intros. apply Z.div_lt_upper_bound; nia.
Qed.
End shares.

(** Deposits and withdrawals never dilute the other holders: after minting
    or burning, each reserve per outstanding share is at least what it was
    (compared as cross products, so without rounding). *)
Theorem shares_never_diluted lo hi S da db s om ob :
  is_u64 lo -> is_u64 hi -> is_u64 S -> is_u64 da -> is_u64 db -> is_u64 s ->
  0 < S ->
  mint_shares lo hi S da db = Ok om ->
  burn_shares lo hi S s = Ok ob ->
  lo * mint_new_total_shares om <= (lo + da) * S /\
  hi * mint_new_total_shares om <= (hi + db) * S /\
  lo * burn_new_total_shares ob <= (lo - burn_da ob) * S /\
  hi * burn_new_total_shares ob <= (hi - burn_db ob) * S.
Proof.
  intros Hlo Hhi HS Hda Hdb Hs Hpos okm okb.
  apply mint_shares_Ok in okm as (_&_&_&_&_&_&Hif); [|done..].
  rewrite (proj2 (Z.eqb_neq S 0)) in Hif by lia. destruct Hif as (?&?&Hm&->).
  apply burn_shares_Ok in okb as (?&->&->&->&_); [|done..].
  split_and!; [apply mint_side; lia|apply mint_side; lia|apply burn_side; lia..].
Qed.

Lemma shares_never_diluted_witness :
  1000 * 1100 <= (1000 + 100) * 1000 /\ 2000 * 1100 <= (2000 + 200) * 1000 /\
  1000 * 500 <= (1000 - 500) * 1000 /\ 2000 * 500 <= (2000 - 1000) * 1000.
Proof.
  apply (shares_never_diluted 1000 2000 1000 100 200 500
           (mkMintOutcome 100 1100) (mkBurnOutcome 500 1000 500));
    [unfold_widths; lia..|lia|reflexivity|reflexivity].
Defined.

(** Depositing and immediately burning every share received pays out at most
    the deposit on either side, for a fresh pool and for a live one. *)
Theorem deposit_withdraw_no_profit lo hi S da db om ob :
  is_u64 lo -> is_u64 hi -> is_u64 S -> is_u64 da -> is_u64 db ->
  (S = 0 -> lo = 0 /\ hi = 0) ->
  mint_shares lo hi S da db = Ok om ->
  burn_shares (lo + da) (hi + db) (mint_new_total_shares om) (to_owner om) = Ok ob ->
  burn_da ob <= da /\ burn_db ob <= db.
Proof.
  intros Hlo Hhi HS Hda Hdb Hz okm okb.
  apply mint_shares_Ok in okm as (?&?&?&?&?&?&Hif); [|done..].
  rewrite MAX_RESERVE_val in *.
  assert (to_owner om <= mint_new_total_shares om) as Hle.
  { destruct (S =? 0) eqn:ES; zbool; unfold MINIMUM_LIQUIDITY in *; unfold_widths; lia. }
  apply burn_shares_Ok in okb as (?&->&->&_); [|unfold_widths; lia..].
  destruct (S =? 0) eqn:ES; zbool.
  - destruct Hz as [-> ->]; [lia|]. unfold MINIMUM_LIQUIDITY in *.
    split; apply Z.div_le_upper_bound; nia.
  - destruct Hif as (?&?&Hm&->). unfold_widths.
    assert (lo * to_owner om <= da * S) by (
      assert (to_owner om <= da * S / lo) as Hd by lia; apply div_le_iff in Hd; lia).
    assert (hi * to_owner om <= db * S) by (
      assert (to_owner om <= db * S / hi) as Hd by lia; apply div_le_iff in Hd; lia).
    split; apply Z.div_le_upper_bound; nia.
Qed.

Lemma deposit_withdraw_no_profit_witness : 100 <= 100 /\ 200 <= 201.
Proof.
  apply (deposit_withdraw_no_profit 1000 2000 1000 100 201
           (mkMintOutcome 100 1100) (mkBurnOutcome 100 200 1000)).
  all: try (unfold_widths; lia). all: reflexivity.
Defined.

(** The reported price impact is a per-mille figure. *)
Lemma price_impact_bounds ri ro a dy : 0 <= price_impact_per_mille ri ro a dy <= 1000.
Proof.
  unfold price_impact_per_mille, saturating_sub. case_match; [lia|].
  assert (0 <= default U64_MAX (try_u64
    (u128_mul (u128_mul 1000 dy) ri / u128_mul a ro))); [|lia].
  assert (0 <= u128_mul (u128_mul 1000 dy) ri / u128_mul a ro).
  { unfold u128_mul, wrap128. apply Z_div_nonneg_nonneg; apply Z.mod_pos_bound; lia. }
  unfold try_u64. case_match; simpl; unfold U64_MAX; lia.
Qed.
