(* ===== verification/AmmPoolId.v ===== *)
(** * Pool identifiers

    [modules/amm/fedimint-amm-common/src/pool_id.rs]: the canonical unordered
    pair of units, its string form (used as a JSON map key) and its consensus
    encoding.  The consensus encoding of a single [AmountUnit] belongs to
    fedimint-core and enters through the [Codec] interface. *)

From S2P Require Import Prelude FedimintCore.
From Stdlib Require Import Ascii.

(** ** Rust's [u64] text format *)

Definition digit_char (d : Z) : Ascii.ascii := Ascii.ascii_of_nat (Z.to_nat (48 + d)).

Definition char_digit (c : Ascii.ascii) : option Z :=
  let n := Z.of_nat (Ascii.nat_of_ascii c) - 48 in
  if (0 <=? n) && (n <=? 9) then Some n else None.

(** [Display for u64]: decimal digits, most significant first, no padding. *)
Fixpoint show_u64_go (fuel : nat) (n : Z) (acc : string) : string :=
  match fuel with
  | O => acc
  | S fuel =>
      if n <? 10 then String.String (digit_char n) acc
      else show_u64_go fuel (n / 10) (String.String (digit_char (n mod 10)) acc)
  end.

(** A [u64] has at most twenty decimal digits. *)
Definition show_u64 (n : Z) : string := show_u64_go 20 n "".

Fixpoint parse_digits (max v : Z) (s : string) : option Z :=
  match s with
  | EmptyString => Some v
  | String.String c s =>
      match char_digit c with
      | Some d => if v * 10 + d <=? max then parse_digits max (v * 10 + d) s else None
      | None => None
      end
  end.

(** [str::parse::<u64>]: an optional leading plus sign, then at least one digit;
    a value above [u64::MAX] is refused. *)
Definition parse_u64 (s : string) : option Z :=
  match s with
  | EmptyString => None
  | String.String c s' =>
      if bool_decide (c = "+"%char) then
        match s' with EmptyString => None | _ => parse_digits U64_MAX 0 s' end
      else parse_digits U64_MAX 0 s
  end.

(** [str::split_once] and [str::contains] on a character. *)
Fixpoint split_once (sep : ascii) (s : string) : option (string * string) :=
  match s with
  | EmptyString => None
  | String.String c s' =>
      if bool_decide (c = sep) then Some (EmptyString, s')
      else match split_once sep s' with
           | Some (a, b) => Some (String.String c a, b)
           | None => None
           end
  end.

Fixpoint contains_char (sep : ascii) (s : string) : bool :=
  match s with
  | EmptyString => false
  | String.String c s' => bool_decide (c = sep) || contains_char sep s'
  end.

(** ** The identifier *)

Record PoolId := mkPoolId { lo : AmountUnit; hi : AmountUnit }.

#[export] Instance PoolId_eq_dec : EqDecision PoolId.
Proof. solve_decision. Defined.

#[export] Instance PoolId_countable : Countable PoolId.
Proof.
  refine (inj_countable' (fun p => (lo p, hi p)) (fun '(a, b) => mkPoolId a b) _).
  by intros [].
Defined.

(** The derived order, lexicographic on the sorted pair; tables keyed by a pool
    iterate in it. *)
Definition pool_le (p q : PoolId) : Prop := lo p < lo q \/ (lo p = lo q /\ hi p <= hi q).

#[export] Instance pool_le_dec : RelDecision pool_le.
Proof. unfold pool_le. solve_decision. Defined.

Definition rows_by_pool {V} (m : gmap PoolId V) : list (PoolId * V) :=
  merge_sort (fun r r' => pool_le r.1 r'.1) (map_to_list m).

Lemma rows_by_pool_elem {V} (m : gmap PoolId V) p v : (p, v) ∈ rows_by_pool m <-> m !! p = Some v.
Proof. unfold rows_by_pool. rewrite merge_sort_Permutation. apply elem_of_map_to_list. Qed.

(** What the private fields and the hand-written decoders maintain. *)
Definition canonical (p : PoolId) : Prop := lo p < hi p.

Definition pool_wf (p : PoolId) : Prop := canonical p /\ is_u64 (lo p) /\ is_u64 (hi p).

Definition PoolId_new (x y : AmountUnit) : option PoolId :=
  match x ?= y with
  | Eq => None
  | Lt => Some (mkPoolId x y)
  | Gt => Some (mkPoolId y x)
  end.

Definition other (p : PoolId) (unit : AmountUnit) : option AmountUnit :=
  if unit =? lo p then Some (hi p)
  else if unit =? hi p then Some (lo p)
  else None.

Definition serialize (p : PoolId) : string :=
  (show_u64 (lo p) +:+ String.String ":" (show_u64 (hi p)))%string.

Inductive PoolIdDeError := MissingSeparator | TooManySeparators | LoNotU64 | HiNotU64 | NotCanonical.

Definition deserialize (s : string) : result PoolIdDeError PoolId :=
  '(lo_str, hi_str) ← ok_or (split_once ":" s) MissingSeparator;
  if contains_char ":" hi_str then Err TooManySeparators
  else
    lo ← ok_or (parse_u64 lo_str) LoNotU64;
    hi ← ok_or (parse_u64 hi_str) HiNotU64;
    if hi <=? lo then Err NotCanonical else Ok (mkPoolId lo hi).

(** ** Consensus encoding *)

Section codec.
Context `{Codec AmountUnit}.

Definition PoolId_encode (p : PoolId) : list Z := encode (lo p) ++ encode (hi p).

Definition PoolId_decode (bs : list Z) : option (PoolId * list Z) :=
  match decode bs with
  | None => None
  | Some (l, bs) =>
      match decode bs with
      | None => None
      | Some (h, bs) => if h <=? l then None else Some (mkPoolId l h, bs)
      end
  end.

#[export] Instance PoolId_Codec : Codec PoolId :=
  {| encode := PoolId_encode; decode := PoolId_decode |}.
End codec.

(** ** Properties *)

Lemma PoolId_new_Some x y p :
  PoolId_new x y = Some p <->
  canonical p /\ ((x = lo p /\ y = hi p) \/ (x = hi p /\ y = lo p)).
Proof.
  unfold PoolId_new, canonical. destruct p as [l h]; simpl.
  destruct (Z.compare_spec x y); naive_solver lia.
Qed.

Lemma PoolId_new_None x y : PoolId_new x y = None <-> x = y.
Proof. unfold PoolId_new. destruct (Z.compare_spec x y); naive_solver lia. Qed.

Lemma other_new x y p : PoolId_new x y = Some p -> other p x = Some y.
Proof.
  rewrite PoolId_new_Some. unfold canonical, other. intros [Hc [[-> ->]|[-> ->]]].
  - by rewrite Z.eqb_refl.
  - rewrite Z.eqb_refl. case_match; zbool; [lia|done].
Qed.

Lemma char_digit_char d : 0 <= d <= 9 -> char_digit (digit_char d) = Some d.
Proof.
  intros. unfold char_digit, digit_char. rewrite Ascii.nat_ascii_embedding by lia.
  rewrite Z2Nat.id by lia. replace (48 + d - 48) with d by lia.
  case_match; zbool; [done|lia].
Qed.

Lemma digit_char_not_sep d : 0 <= d <= 9 ->
  digit_char d <> ":"%char /\ digit_char d <> "+"%char /\ digit_char d <> "."%char.
Proof.
  intros. assert (d = 0 \/ d = 1 \/ d = 2 \/ d = 3 \/ d = 4 \/ d = 5 \/ d = 6 \/ d = 7
    \/ d = 8 \/ d = 9) by lia. naive_solver.
Qed.

Lemma parse_show_go max fuel n acc :
  0 <= n < 10 ^ Z.of_nat fuel -> (0 < fuel)%nat -> n <= max ->
  parse_digits max 0 (show_u64_go fuel n acc) = parse_digits max n acc.
Proof.
  revert n acc. induction fuel as [|fuel IH]; intros n acc Hn Hf Hb; [lia|].
  simpl. destruct (n <? 10) eqn:E; zbool.
  - simpl. rewrite char_digit_char by lia. simpl. case_match; zbool; [done|lia].
  - pose proof (Z.mod_pos_bound n 10 ltac:(lia)).
    rewrite Nat2Z.inj_succ, Z.pow_succ_r in Hn by lia.
    assert (0 <= n / 10 < 10 ^ Z.of_nat fuel)
      by (split; [apply Z.div_pos|apply Z.div_lt_upper_bound]; lia).
    rewrite IH; [|done|destruct fuel; simpl in *; lia|].
    2: { transitivity n; [|done]. apply Z.div_le_upper_bound; lia. }
    simpl. rewrite char_digit_char by lia.
    replace (n / 10 * 10 + n mod 10) with n by (pose proof (Z.div_mod n 10); lia).
    case_match; zbool; [done|lia].
Qed.

Lemma show_go_head fuel n acc : 0 <= n -> (0 < fuel)%nat ->
  n < 10 ^ Z.of_nat fuel ->
  exists d s, show_u64_go fuel n acc = String.String (digit_char d) s /\ 0 <= d <= 9.
Proof.
  revert n acc. induction fuel as [|fuel IH]; intros n acc Hn Hf Hb; [lia|].
  simpl. destruct (n <? 10) eqn:E; zbool.
  - eexists _, _. split; [done|lia].
  - rewrite Nat2Z.inj_succ, Z.pow_succ_r in Hb by lia.
    apply IH; [apply Z.div_pos; lia|destruct fuel; simpl in *; lia|].
    apply Z.div_lt_upper_bound; lia.
Qed.

Lemma u64_twenty_digits n : is_u64 n -> 0 <= n < 10 ^ Z.of_nat 20.
Proof. unfold_widths. change (10 ^ Z.of_nat 20) with 100000000000000000000. lia. Qed.

Lemma parse_show_u64 n : is_u64 n -> parse_u64 (show_u64 n) = Some n.
Proof.
  intros Hn. pose proof (u64_twenty_digits n Hn).
  assert (parse_digits U64_MAX 0 (show_u64 n) = Some n) as Hp
    by (apply parse_show_go; unfold_widths; lia).
  destruct (show_go_head 20 n "") as (d & s & E & Hd); [lia..|].
  unfold parse_u64. unfold show_u64 in *. rewrite E in *.
  rewrite bool_decide_eq_false_2; [done|]. by apply digit_char_not_sep.
Qed.

Lemma show_go_sep sep fuel n acc :
  sep = ":"%char \/ sep = "."%char ->
  0 <= n -> contains_char sep (show_u64_go fuel n acc) = contains_char sep acc.
Proof.
  intros Hsep. revert n acc. induction fuel as [|fuel IH]; intros n acc Hn; [done|]. simpl.
  assert (forall d, 0 <= d <= 9 -> digit_char d <> sep) as Hd.
  { intros d Hd. destruct (digit_char_not_sep d Hd) as (? & _ & ?). by destruct Hsep as [-> | ->]. }
  destruct (n <? 10) eqn:E; zbool; simpl.
  - by rewrite bool_decide_eq_false_2 by (apply Hd; lia).
  - pose proof (Z.mod_pos_bound n 10 ltac:(lia)).
    rewrite IH by (apply Z.div_pos; lia). simpl.
    by rewrite bool_decide_eq_false_2 by (apply Hd; lia).
Qed.

Lemma split_once_app sep a b :
  contains_char sep a = false ->
  split_once sep (a +:+ String.String sep b)%string = Some (a, b).
Proof.
  induction a as [|c a IH]; simpl.
  - by rewrite bool_decide_eq_true_2.
  - intros H. zbool. rewrite bool_decide_eq_false_2 by done. by rewrite IH.
Qed.

(** The canonical text of a pool id splits back into its two numbers. *)
Lemma split_pool_string l h : is_u64 l -> is_u64 h ->
  split_once ":" (show_u64 l +:+ String.String ":" (show_u64 h))%string
    = Some (show_u64 l, show_u64 h) /\
  contains_char ":" (show_u64 h) = false.
Proof.
  intros Hl Hh. unfold show_u64 in *.
  split; [apply split_once_app|]; rewrite show_go_sep; unfold_widths; auto with lia.
Qed.

(** The string form of a canonical pool id parses back to it, and the parser
    accepts nothing but canonical pairs of 64-bit units: no string makes two
    spellings of one unit pair name two pools. *)
Theorem pool_id_string_round_trip :
  (forall p, canonical p -> is_u64 (lo p) -> is_u64 (hi p) ->
     deserialize (serialize p) = Ok p) /\
  (forall s p, deserialize s = Ok p -> canonical p).
Proof.
  split.
  - intros [l h] Hc Hl Hh. unfold deserialize, serialize, canonical in *. cbn [lo hi] in *.
    destruct (split_pool_string l h Hl Hh) as [-> Hsep]. cbn -[contains_char show_u64 parse_u64].
    rewrite Hsep. cbn -[show_u64 parse_u64].
    rewrite !parse_show_u64 by done. simpl. case_match; zbool; [lia|done].
  - intros s p H. unfold deserialize in H. run_inv H. zbool. done.
Qed.

Section codec_ok.
Context `{Codec AmountUnit} `{!CodecOk AmountUnit is_u64}.

(** Decoding the consensus encoding of a canonical pool id returns it and
    leaves the rest of the stream, and no byte string decodes to a
    non-canonical id. *)
Theorem pool_id_codec_ok :
  CodecOk PoolId pool_wf /\
  (forall bs p rest, decode bs = Some (p, rest) -> canonical p).
Proof.
  split.
  - intros [l h] rest (Hc & Hl & Hh). unfold decode, encode. simpl.
    unfold PoolId_decode, PoolId_encode, canonical in *. simpl in *.
    rewrite <- app_assoc, decode_encode by done. simpl.
    rewrite decode_encode by done. simpl. case_match; zbool; [lia|done].
  - intros bs p rest Hd. unfold decode in Hd. simpl in Hd.
    unfold PoolId_decode in Hd. run_inv Hd. zbool. done.
Qed.
End codec_ok.

Lemma pool_id_codec_ok_witness :
  @decode _ (@PoolId_Codec u64_codec)
    (@encode _ (@PoolId_Codec u64_codec) (mkPoolId 0 7) ++ [42]) = Some (mkPoolId 0 7, [42]).
Proof.
  apply (proj1 (@pool_id_codec_ok u64_codec u64_codec_ok)).
  unfold pool_wf, canonical; unfold_widths; simpl; lia.
Defined.
