(* ===== verification/AmmConfig.v ===== *)
(** * The AMM's consensus configuration

    [modules/amm/fedimint-amm-common/src/config.rs] and the config generation of
    [modules/amm/fedimint-amm-server/src/lib.rs]: the unit allowlist, the fee
    schedule and the band a guardian-voted fee is confined to. *)

From S2P Require Import Prelude FedimintCore AmmPoolId.

(** The module's kind, by which instances are found. *)
Definition AMM_KIND : string := "amm".

Record UnitParams := mkUnitParams { min_swap_in : Z }.

Record AmmConfigConsensus := mkAmmConfigConsensus {
  units : gmap AmountUnit UnitParams;
  default_fee_per_mille : Z;
  fee_overrides : gmap PoolId Z;
  min_fee_per_mille : Z;
  max_fee_per_mille : Z;
}.

Record AmmClientConfig := mkAmmClientConfig {
  client_units : gmap AmountUnit UnitParams;
  client_default_fee_per_mille : Z;
  client_fee_overrides : gmap PoolId Z;
}.

Inductive ConfigError :=
| NoUnits
| ConfigInvalidFee
| ZeroMinSwapIn
| UnknownUnitInOverride
| InvertedFeeBand.

Definition fee_for_map (overrides : gmap PoolId Z) (default_fee : Z) (pool : PoolId) : Z :=
  default default_fee (overrides !! pool).

Definition fee_for (cfg : AmmConfigConsensus) (pool : PoolId) : Z :=
  fee_for_map (fee_overrides cfg) (default_fee_per_mille cfg) pool.

Definition client_fee_for (cfg : AmmClientConfig) (pool : PoolId) : Z :=
  fee_for_map (client_fee_overrides cfg) (client_default_fee_per_mille cfg) pool.

Definition fee_in_band (cfg : AmmConfigConsensus) (fee : Z) : bool :=
  (min_fee_per_mille cfg <=? fee) && (fee <=? max_fee_per_mille cfg).

Definition clamp_fee_to_band (cfg : AmmConfigConsensus) (fee : Z) : Z :=
  clamp fee (min_fee_per_mille cfg) (max_fee_per_mille cfg).

(** The loop over [fee_overrides], in key order. *)
Fixpoint validate_overrides (us : gmap AmountUnit UnitParams) (l : list (PoolId * Z))
    : result ConfigError unit :=
  match l with
  | [] => Ok tt
  | (pool, fee) :: l =>
      if 1000 <=? fee then Err ConfigInvalidFee
      else if negb (bool_decide (is_Some (us !! lo pool)))
              || negb (bool_decide (is_Some (us !! hi pool)))
      then Err UnknownUnitInOverride
      else validate_overrides us l
  end.

Definition validate (cfg : AmmConfigConsensus) : result ConfigError unit :=
  if bool_decide (units cfg = ∅) then Err NoUnits
  else if 1000 <=? default_fee_per_mille cfg then Err ConfigInvalidFee
  else if 1000 <=? max_fee_per_mille cfg then Err ConfigInvalidFee
  else if max_fee_per_mille cfg <? min_fee_per_mille cfg then Err InvertedFeeBand
  else if negb (bool_decide (map_Forall (fun _ p => min_swap_in p <> 0) (units cfg)))
  then Err ZeroMinSwapIn
  else validate_overrides (units cfg) (rows_by_pool (fee_overrides cfg)).

Definition default_consensus_config : AmmConfigConsensus := {|
  units := {[ 0 := mkUnitParams 1000; 1 := mkUnitParams 10 ]};
  default_fee_per_mille := 3;
  fee_overrides := ∅;
  min_fee_per_mille := 1;
  max_fee_per_mille := 50;
|}.

Definition get_client_config (cfg : AmmConfigConsensus) : AmmClientConfig := {|
  client_units := units cfg;
  client_default_fee_per_mille := default_fee_per_mille cfg;
  client_fee_overrides := fee_overrides cfg;
|}.

(** The config generators: no key material, so every guardian receives the same
    default; only the distributed ceremony can report a validation failure. *)
Definition trusted_dealer_gen (peers : list Z) : list (Z * AmmConfigConsensus) :=
  map (fun peer => (peer, default_consensus_config)) peers.

Definition distributed_gen : result ConfigError AmmConfigConsensus :=
  _ ← validate default_consensus_config;
  Ok default_consensus_config.

Definition validate_config (cfg : AmmConfigConsensus) : result ConfigError unit := validate cfg.

(** ** What validation buys *)

(** The declarative reading of a valid configuration. *)
Record config_ok (cfg : AmmConfigConsensus) : Prop := {
  ok_units : units cfg <> ∅;
  ok_default : default_fee_per_mille cfg < 1000;
  ok_band : min_fee_per_mille cfg <= max_fee_per_mille cfg < 1000;
  ok_min_swap : map_Forall (fun _ p => min_swap_in p <> 0) (units cfg);
  ok_overrides : map_Forall (fun pool fee => fee < 1000 /\
    is_Some (units cfg !! lo pool) /\ is_Some (units cfg !! hi pool)) (fee_overrides cfg);
}.

Lemma validate_overrides_Ok us l :
  validate_overrides us l = Ok tt <->
  Forall (fun pf => pf.2 < 1000 /\ is_Some (us !! lo pf.1) /\ is_Some (us !! hi pf.1)) l.
Proof.
  induction l as [|[p f] l IH]; simpl; [by split|]. rewrite Forall_cons. simpl.
  case_match; zbool; [split; [done|lia]|].
  case_match; zbool.
  - split; [done|]. intros ((_ & ? & ?) & _). destruct_or?; zbool; done.
  - rewrite IH. naive_solver.
Qed.

Lemma rows_by_pool_Forall {V} (P : PoolId -> V -> Prop) m :
  Forall (fun pf => P pf.1 pf.2) (rows_by_pool m) <-> map_Forall P m.
Proof.
  unfold rows_by_pool. rewrite merge_sort_Permutation, map_Forall_to_list.
  apply Forall_iff. by intros [].
Qed.

(** [validate] accepts exactly the configurations in which the unit list is
    non-empty, every fee is below 1000 per mille, the band is not inverted,
    no dust threshold is zero and every override names allowed units. *)
Theorem validate_correct cfg : validate cfg = Ok tt <-> config_ok cfg.
Proof.
  unfold validate.
  repeat (case_match; zbool; [split; [done|intros []; lia || done]|]).
  rewrite validate_overrides_Ok,
    (rows_by_pool_Forall (fun pool fee => fee < 1000 /\
      is_Some (units cfg !! lo pool) /\ is_Some (units cfg !! hi pool))).
  split; [intros; constructor; done || lia|by intros []].
Qed.

Lemma default_config_valid : validate default_consensus_config = Ok tt.
Proof. by vm_compute. Qed.

(** The client mirrors the fee rule of the guardians. *)
Lemma client_fee_agrees cfg pool : client_fee_for (get_client_config cfg) pool = fee_for cfg pool.
Proof. done. Qed.

Lemma clamped_fee_valid cfg fee :
  config_ok cfg -> 0 <= min_fee_per_mille cfg ->
  fee_in_band cfg (clamp_fee_to_band cfg fee) = true /\
  0 <= clamp_fee_to_band cfg fee < 1000.
Proof.
  intros [_ _ Hb _ _] H0. unfold fee_in_band, clamp_fee_to_band.
  pose proof (clamp_in fee (min_fee_per_mille cfg) (max_fee_per_mille cfg) ltac:(lia)).
  split; [|lia]. apply andb_true_iff. rewrite !Z.leb_le. lia.
Qed.
