(* ===== verification/AmmTypes.v ===== *)
(** * AMM transaction items and their proofs of possession

    [modules/amm/fedimint-amm-common/src/types.rs] and [pop.rs]: the output,
    input and consensus-item variants, the wire-level errors, and the message
    an output's destination key signs.  Schnorr signatures and SHA-256 are
    interfaces with the laws the module relies on. *)

From S2P Require Import Prelude FedimintCore AmmMath AmmPoolId.

(** ** Interfaces to code outside the repository *)

Class Crypto := {
  Keypair : Type;
  Signature : Type;
  sha256 : list Z -> list Z;
  public_key : Keypair -> PublicKey;
  sign_schnorr : list Z -> Keypair -> Signature;
  verify_schnorr : Signature -> list Z -> Z -> bool;
}.

(** Signatures made with a key pair verify under its x-only key. *)
Class CryptoOk `{Crypto} : Prop :=
  schnorr_complete kp msg :
    verify_schnorr (sign_schnorr msg kp) msg (x_only (public_key kp)) = true.

Section types.
Context `{Crypto}.

Inductive AmmOutput :=
| SwapV0 (unit_in unit_out : AmountUnit) (amount_in min_out : Z)
    (recipient_pk : PublicKey) (tweak : list Z) (pop : Signature)
| DepositV0 (pool : PoolId) (amount_lo amount_hi min_shares : Z)
    (owner_pk : PublicKey) (tweak : list Z) (pop : Signature)
| OutputDefault (variant : Z) (bytes : list Z).

Inductive AmmInput :=
| ClaimBalanceV0 (pubkey : PublicKey) (unit : AmountUnit)
| WithdrawV0 (pool : PoolId) (owner_pk : PublicKey) (shares : Z)
    (min_lo min_hi max_lo max_hi : Z)
| InputDefault (variant : Z) (bytes : list Z).

Inductive AmmConsensusItem :=
| FeeVoteV0 (pool : PoolId) (fee_per_mille : Z)
| ConsensusItemDefault (variant : Z) (bytes : list Z).
End types.

Module AmmInputError.
Inductive t :=
| UnknownVariant
| NoSuchBalance
| NoSuchPool
| NoSuchPosition
| InsufficientShares
| SlippageExceeded
| Curve (msg : string).
End AmmInputError.

Module AmmOutputError.
Inductive t :=
| UnknownVariant
| InvalidProofOfPossession
| IdenticalUnits
| UnknownUnit
| NoSuchPool
| BelowMinSwapIn
| SlippageExceeded
| ReserveCapExceeded
| KInvariantViolated
| Curve (msg : string).
End AmmOutputError.

(** ** The signed payloads *)

Definition DOMAIN_SWAP : Z := 0.
Definition DOMAIN_DEPOSIT : Z := 1.

Section pop.
Context `{Crypto} `{Codec Z} `{Codec PublicKey} `{Codec (list Z)}.

(** [#[derive(Encodable)]] on [SwapPopPayload]: the fields in order, the [u8]
    domain as one byte. *)
Definition SwapPopPayload_encode (unit_in unit_out : AmountUnit) (amount_in min_out : Z)
    (recipient_pk : PublicKey) (tweak : list Z) : list Z :=
  DOMAIN_SWAP :: encode unit_in ++ encode unit_out ++ encode amount_in
    ++ encode min_out ++ encode recipient_pk ++ encode tweak.

Definition DepositPopPayload_encode (pool : PoolId) (amount_lo amount_hi min_shares : Z)
    (owner_pk : PublicKey) (tweak : list Z) : list Z :=
  DOMAIN_DEPOSIT :: encode pool ++ encode amount_lo ++ encode amount_hi
    ++ encode min_shares ++ encode owner_pk ++ encode tweak.

Definition swap_pop_message unit_in unit_out amount_in min_out recipient_pk tweak : list Z :=
  sha256 (SwapPopPayload_encode unit_in unit_out amount_in min_out recipient_pk tweak).

Definition deposit_pop_message pool amount_lo amount_hi min_shares owner_pk tweak : list Z :=
  sha256 (DepositPopPayload_encode pool amount_lo amount_hi min_shares owner_pk tweak).

Definition sign_pop (keypair : Keypair) (message : list Z) : Signature :=
  sign_schnorr message keypair.

Definition verify_pop_sig (signature : Signature) (message : list Z) (pubkey : PublicKey) : bool :=
  verify_schnorr signature message (x_only pubkey).

Definition new_swap_v0 (keypair : Keypair) (unit_in unit_out : AmountUnit)
    (amount_in min_out : Z) (tweak : list Z) : AmmOutput :=
  let recipient_pk := public_key keypair in
  let pop := sign_pop keypair
    (swap_pop_message unit_in unit_out amount_in min_out recipient_pk tweak) in
  SwapV0 unit_in unit_out amount_in min_out recipient_pk tweak pop.

Definition new_deposit_v0 (keypair : Keypair) (pool : PoolId)
    (amount_lo amount_hi min_shares : Z) (tweak : list Z) : AmmOutput :=
  let owner_pk := public_key keypair in
  let pop := sign_pop keypair
    (deposit_pop_message pool amount_lo amount_hi min_shares owner_pk tweak) in
  DepositV0 pool amount_lo amount_hi min_shares owner_pk tweak pop.

Definition verify_pop (o : AmmOutput) : bool :=
  match o with
  | SwapV0 unit_in unit_out amount_in min_out recipient_pk tweak pop =>
      verify_pop_sig pop
        (swap_pop_message unit_in unit_out amount_in min_out recipient_pk tweak)
        recipient_pk
  | DepositV0 pool amount_lo amount_hi min_shares owner_pk tweak pop =>
      verify_pop_sig pop
        (deposit_pop_message pool amount_lo amount_hi min_shares owner_pk tweak)
        owner_pk
  | OutputDefault _ _ => false
  end.

(** The bytes the proof of an output commits to, before hashing. *)
Definition pop_payload (o : AmmOutput) : list Z :=
  match o with
  | SwapV0 unit_in unit_out amount_in min_out recipient_pk tweak _ =>
      SwapPopPayload_encode unit_in unit_out amount_in min_out recipient_pk tweak
  | DepositV0 pool amount_lo amount_hi min_shares owner_pk tweak _ =>
      DepositPopPayload_encode pool amount_lo amount_hi min_shares owner_pk tweak
  | OutputDefault _ _ => []
  end.

(** An output without its signature. *)
Definition same_fields (o o' : AmmOutput) : Prop :=
  match o, o' with
  | SwapV0 a b c d e f _, SwapV0 a' b' c' d' e' f' _ =>
      (a, b, c, d, e, f) = (a', b', c', d', e', f')
  | DepositV0 a b c d e f _, DepositV0 a' b' c' d' e' f' _ =>
      (a, b, c, d, e, f) = (a', b', c', d', e', f')
  | _, _ => False
  end.
End pop.

(** Decoded outputs: the integers are in range, pool ids are canonical and tweaks
    have their sixteen bytes. *)
Definition tweak_ok (tweak : list Z) : Prop := length tweak = 16%nat.
Definition pk_ok (pk : PublicKey) : Prop := 0 <= pk_bytes pk < 256 ^ 33.

Definition output_wf `{Crypto} (o : AmmOutput) : Prop :=
  match o with
  | SwapV0 unit_in unit_out amount_in min_out recipient_pk tweak _ =>
      pk_ok recipient_pk /\ is_u64 unit_in /\ is_u64 unit_out /\ is_u64 amount_in /\ is_u64 min_out /\ tweak_ok tweak
  | DepositV0 pool amount_lo amount_hi min_shares owner_pk tweak _ =>
      pk_ok owner_pk /\ canonical pool /\ is_u64 (lo pool) /\ is_u64 (hi pool) /\
      is_u64 amount_lo /\ is_u64 amount_hi /\ is_u64 min_shares /\ tweak_ok tweak
  | OutputDefault _ _ => True
  end.

Definition input_wf (i : AmmInput) : Prop :=
  match i with
  | ClaimBalanceV0 _ unit => is_u64 unit
  | WithdrawV0 pool _ shares min_lo min_hi max_lo max_hi =>
      canonical pool /\ is_u64 shares /\ is_u64 min_lo /\ is_u64 min_hi /\
      is_u64 max_lo /\ is_u64 max_hi
  | InputDefault _ _ => True
  end.

Section pop_ok.
Context `{crypto : Crypto} `{cz : Codec Z, cpk : Codec PublicKey, ct : Codec (list Z)}.
Context `{!CodecOk Z is_u64, !CodecOk PublicKey pk_ok, !CodecOk (list Z) tweak_ok}.

Lemma new_swap_v0_verifies `{!CryptoOk} kp ui uo a m t :
  verify_pop (new_swap_v0 kp ui uo a m t) = true.
Proof. apply schnorr_complete. Qed.

Lemma new_deposit_v0_verifies `{!CryptoOk} kp p l h m t :
  verify_pop (new_deposit_v0 kp p l h m t) = true.
Proof. apply schnorr_complete. Qed.

(** Splits one encoded field off both sides of an equation. *)
Ltac split_field E := apply encode_app_inj in E as [? E]; [|done..].

Lemma tweak_encode_inj (t t' : list Z) :
  tweak_ok t -> tweak_ok t' -> encode t = encode t' -> t = t'.
Proof. intros Ht Ht' E. apply (encode_app_inj t t' [] [] Ht Ht'). by rewrite E. Qed.

Lemma swap_payload_inj ui uo a m pk t ui' uo' a' m' pk' t' :
  pk_ok pk -> is_u64 ui -> is_u64 uo -> is_u64 a -> is_u64 m -> tweak_ok t ->
  pk_ok pk' -> is_u64 ui' -> is_u64 uo' -> is_u64 a' -> is_u64 m' -> tweak_ok t' ->
  SwapPopPayload_encode ui uo a m pk t = SwapPopPayload_encode ui' uo' a' m' pk' t' ->
  (ui, uo, a, m, pk, t) = (ui', uo', a', m', pk', t').
Proof.
  intros. unfold SwapPopPayload_encode in *.
  match goal with E : _ :: _ = _ :: _ |- _ =>
    injection E as E; do 5 split_field E; apply tweak_encode_inj in E; [|done..] end.
  congruence.
Qed.

Lemma deposit_payload_inj p l h m pk t p' l' h' m' pk' t' :
  pk_ok pk -> canonical p -> is_u64 (lo p) -> is_u64 (hi p) ->
  is_u64 l -> is_u64 h -> is_u64 m -> tweak_ok t ->
  pk_ok pk' -> canonical p' -> is_u64 (lo p') -> is_u64 (hi p') ->
  is_u64 l' -> is_u64 h' -> is_u64 m' -> tweak_ok t' ->
  DepositPopPayload_encode p l h m pk t = DepositPopPayload_encode p' l' h' m' pk' t' ->
  (p, l, h, m, pk, t) = (p', l', h', m', pk', t').
Proof.
  intros. unfold DepositPopPayload_encode in *.
  assert (CodecOk PoolId pool_wf) as Hpool by apply pool_id_codec_ok.
  match goal with E : _ :: _ = _ :: _ |- _ => injection E as E;
    apply (encode_app_inj (P := pool_wf) p p' _ _ ltac:(done) ltac:(done)) in E as [? E];
    do 4 split_field E; apply tweak_encode_inj in E; [|done..] end.
  congruence.
Qed.

(** A proof of possession commits to every field of the output that carries
    it, the full key and the tweak included, and to which kind of output it
    is: well-formed outputs with the same signed bytes agree on all fields,
    so a proof cannot be moved to another key, tweak, amount or variant
    short of a hash collision. *)
Theorem pop_commits_to_all_fields o o' :
  output_wf o -> output_wf o' -> pop_payload o <> [] ->
  pop_payload o = pop_payload o' -> same_fields o o'.
Proof.
  destruct o, o'; cbn [pop_payload output_wf same_fields]; intros Hw Hw' Hne E;
    destruct_and?; try done.
  - by apply swap_payload_inj.
  - by apply deposit_payload_inj.
Qed.
End pop_ok.

(** ** Concrete instances, for evaluation *)

Definition pk_codec : Codec PublicKey :=
  {| encode pk := le_bytes 33 (pk_bytes pk);
     decode bs := if (length bs <? 33)%nat then None
                  else Some (mkPublicKey (le_value (take 33 bs)), drop 33 bs) |}.

Definition tweak_codec : Codec (list Z) :=
  {| encode t := t;
     decode bs := if (length bs <? 16)%nat then None else Some (take 16 bs, drop 16 bs) |}.

Lemma pk_codec_ok : @CodecOk PublicKey pk_codec pk_ok.
Proof.
  intros [n] rest Hn. unfold encode, decode, pk_codec. cbn [pk_bytes].
  rewrite length_app, length_le_bytes. case_match; [rewrite Nat.ltb_lt in *; lia|].
  rewrite take_app_le, drop_app_le by (rewrite length_le_bytes; lia).
  rewrite take_ge, drop_ge by (rewrite length_le_bytes; lia).
  by rewrite le_value_bytes.
Qed.

Lemma tweak_codec_ok : @CodecOk (list Z) tweak_codec tweak_ok.
Proof.
  intros t rest Ht. unfold encode, decode, tweak_codec, tweak_ok in *.
  rewrite length_app. case_match; [rewrite Nat.ltb_lt in *; lia|].
  rewrite take_app_le, drop_app_le by lia. by rewrite take_ge, drop_ge by lia.
Qed.

(** A toy signature scheme: the signature of a message is the signer's x-only key
    with the message, and the hash is the identity. *)
Definition toy_crypto : Crypto := {|
  Keypair := Z;
  Signature := Z * list Z;
  sha256 bs := bs;
  public_key k := mkPublicKey (2 * 2 ^ 256 + k mod 2 ^ 256);
  sign_schnorr msg k := ((2 * 2 ^ 256 + k mod 2 ^ 256) mod 2 ^ 256, msg);
  verify_schnorr sig msg x := bool_decide (sig = (x, msg));
|}.

Lemma toy_crypto_ok : @CryptoOk toy_crypto.
Proof. intros kp msg. simpl. by apply bool_decide_eq_true_2. Qed.

Lemma pop_commits_to_all_fields_witness :
  let pk := mkPublicKey (2 * 2 ^ 256) in
  let t := replicate 16 0 in
  same_fields (H := toy_crypto) (@SwapV0 toy_crypto 0 1 5 0 pk t (0, []))
    (@SwapV0 toy_crypto 0 1 5 0 pk t (1, [])).
Proof.
  intros pk t.
  apply (@pop_commits_to_all_fields toy_crypto u64_codec pk_codec tweak_codec
           u64_codec_ok pk_codec_ok tweak_codec_ok).
  - unfold output_wf, pk_ok, tweak_ok; unfold_widths; simpl; lia.
  - unfold output_wf, pk_ok, tweak_ok; unfold_widths; simpl; lia.
  - done.
  - reflexivity.
Defined.
