(* ===== verification/AmmServer.v ===== *)
(** * The AMM server module

    [modules/amm/fedimint-amm-server/src/lib.rs] and [db.rs]: the database
    tables, the consensus handlers, the audit and the query endpoints.  A typed
    table of the key-value store is a finite map; a handler is a computation in
    the store monad, so that what it has written when it fails is visible. *)

From S2P Require Import Prelude FedimintCore AmmMath AmmPoolId AmmConfig AmmTypes.

(** ** Tables *)

Record Pool := mkPool { reserve_lo : Z; reserve_hi : Z; total_shares : Z }.
Record LpPosition := mkLpPosition { lp_shares : Z; lp_tweak : list Z }.
Record BalanceEntry := mkBalanceEntry { bal_amount : Z; bal_tweak : list Z }.

(** One field per table; the keys are those of [db.rs]: [PoolKey],
    [LpPositionKey], [BalanceKey], [FeeVoteKey] and [DesiredFeeKey]. *)
Record AmmDb := mkAmmDb {
  pools : gmap PoolId Pool;
  lp_positions : gmap (PoolId * PublicKey) LpPosition;
  balances : gmap (PublicKey * AmountUnit) BalanceEntry;
  fee_votes : gmap (PoolId * PeerId) Z;
  desired_fees : gmap PoolId Z;
}.

Definition empty_db : AmmDb := mkAmmDb ∅ ∅ ∅ ∅ ∅.

Definition put_pool (k : PoolId) (v : Pool) (d : AmmDb) : AmmDb :=
  mkAmmDb (<[k := v]> (pools d)) (lp_positions d) (balances d) (fee_votes d) (desired_fees d).
Definition put_lp (k : PoolId * PublicKey) (v : LpPosition) (d : AmmDb) : AmmDb :=
  mkAmmDb (pools d) (<[k := v]> (lp_positions d)) (balances d) (fee_votes d) (desired_fees d).
Definition del_lp (k : PoolId * PublicKey) (d : AmmDb) : AmmDb :=
  mkAmmDb (pools d) (delete k (lp_positions d)) (balances d) (fee_votes d) (desired_fees d).
Definition put_balance (k : PublicKey * AmountUnit) (v : BalanceEntry) (d : AmmDb) : AmmDb :=
  mkAmmDb (pools d) (lp_positions d) (<[k := v]> (balances d)) (fee_votes d) (desired_fees d).
Definition del_balance (k : PublicKey * AmountUnit) (d : AmmDb) : AmmDb :=
  mkAmmDb (pools d) (lp_positions d) (delete k (balances d)) (fee_votes d) (desired_fees d).
Definition put_fee_vote (k : PoolId * PeerId) (v : Z) (d : AmmDb) : AmmDb :=
  mkAmmDb (pools d) (lp_positions d) (balances d) (<[k := v]> (fee_votes d)) (desired_fees d).
Definition put_desired_fee (k : PoolId) (v : Z) (d : AmmDb) : AmmDb :=
  mkAmmDb (pools d) (lp_positions d) (balances d) (fee_votes d) (<[k := v]> (desired_fees d)).

(** The module instance.  [threshold] is what fedimint-core's
    [NumPeers::threshold] returns for the federation's size. *)
Record Amm := mkAmm {
  cfg : AmmConfigConsensus;
  threshold : nat;
  our_peer_id : PeerId;
}.

(** ** Fee votes *)

(** The scan under [FeeVotesByPoolPrefix]. *)
Definition votes_for (d : AmmDb) (pool : PoolId) : list (PeerId * Z) :=
  omap (fun '((p, peer), fee) => if bool_decide (p = pool) then Some (peer, fee) else None)
    (map_to_list (fee_votes d)).

Definition consensus_fee_for (self : Amm) (d : AmmDb) (pool : PoolId) : Z :=
  let votes := merge_sort Z.le (votes_for d pool).*2 in
  let voted := votes !! (threshold self - 1)%nat in
  clamp_fee_to_band (cfg self) (default (fee_for (cfg self) pool) voted).

Definition consensus_proposal (self : Amm) (d : AmmDb) : list AmmConsensusItem :=
  omap (fun '(pool, fee_per_mille) =>
      match pools d !! pool with
      | None => None
      | Some _ =>
          if bool_decide (fee_votes d !! (pool, our_peer_id self) = Some fee_per_mille) then None
          else Some (FeeVoteV0 pool fee_per_mille)
      end) (rows_by_pool (desired_fees d)).

Inductive ConsensusItemError := OutsideBand | VoteNoSuchPool | RedundantVote | UnknownItem.

Definition process_consensus_item (self : Amm) (item : AmmConsensusItem) (peer_id : PeerId)
    : M AmmDb ConsensusItemError unit :=
  match item with
  | FeeVoteV0 pool fee_per_mille =>
      ensure (fee_in_band (cfg self) fee_per_mille) OutsideBand;;
      p ← gets (fun d => pools d !! pool);
      ensure (bool_decide (is_Some p)) VoteNoSuchPool;;
      previous ← gets (fun d => fee_votes d !! (pool, peer_id));
      modify (put_fee_vote (pool, peer_id) fee_per_mille);;
      ensure (bool_decide (previous <> Some fee_per_mille)) RedundantVote
  | ConsensusItemDefault _ _ => fail UnknownItem
  end.

(** ** Swaps *)

Definition map_curve_error (e : CurveError.t) : AmmOutputError.t :=
  match e with
  | CurveError.ReserveCapExceeded => AmmOutputError.ReserveCapExceeded
  | other => AmmOutputError.Curve (CurveError.to_string other)
  end.

Definition map_curve_error_input (e : CurveError.t) : AmmInputError.t :=
  match e with
  | CurveError.InsufficientShares => AmmInputError.InsufficientShares
  | other => AmmInputError.Curve (CurveError.to_string other)
  end.

Record SwapQuote := mkSwapQuote {
  dy : Z;
  in_is_lo : bool;
  quote_reserve_in : Z;
  quote_reserve_out : Z;
  reserve_in_new : Z;
}.

Definition quote_swap (self : Amm) (d : AmmDb) (pool : Pool) (pool_id : PoolId)
    (unit_in : AmountUnit) (amount_in : Z) (min_out : option Z)
    : result AmmOutputError.t SwapQuote :=
  params_in ← ok_or (units (cfg self) !! unit_in) AmmOutputError.UnknownUnit;
  let in_is_lo := unit_in =? lo pool_id in
  unit_out ← ok_or (other pool_id unit_in) AmmOutputError.UnknownUnit;
  if negb (bool_decide (is_Some (units (cfg self) !! unit_out)))
  then Err AmmOutputError.UnknownUnit
  else if amount_in <? min_swap_in params_in then Err AmmOutputError.BelowMinSwapIn
  else
    let reserve_in := if in_is_lo then reserve_lo pool else reserve_hi pool in
    let reserve_out := if in_is_lo then reserve_hi pool else reserve_lo pool in
    let fee := consensus_fee_for self d pool_id in
    dy ← map_err map_curve_error (amount_out reserve_in reserve_out amount_in fee);
    if (match min_out with Some m => dy <? m | None => false end)
    then Err AmmOutputError.SlippageExceeded
    else
      reserve_in_new ← ok_or (checked_add_u64 reserve_in amount_in)
                         AmmOutputError.ReserveCapExceeded;
      if MAX_RESERVE <? reserve_in_new then Err AmmOutputError.ReserveCapExceeded
      else Ok (mkSwapQuote dy in_is_lo reserve_in reserve_out reserve_in_new).

Section handlers.
Context `{Crypto} `{AmountsOps} `{Codec Z} `{Codec PublicKey} `{Codec (list Z)}.

(** ** Inputs *)

Definition process_input_claim (pubkey : PublicKey) (unit : AmountUnit)
    : M AmmDb AmmInputError.t InputMeta :=
  entry ← gets (fun d => balances d !! (pubkey, unit));
  modify (del_balance (pubkey, unit));;
  entry ← lift (ok_or entry AmmInputError.NoSuchBalance);
  mret (mkInputMeta
    (mkTransactionItemAmounts (new_custom unit (bal_amount entry)) Amounts_ZERO) pubkey).

Definition process_input_withdraw (pool : PoolId) (owner_pk : PublicKey) (shares : Z)
    (min_lo min_hi max_lo max_hi : Z) : M AmmDb AmmInputError.t InputMeta :=
  d ← get;
  db_pool ← lift (ok_or (pools d !! pool) AmmInputError.NoSuchPool);
  position ← lift (ok_or (lp_positions d !! (pool, owner_pk)) AmmInputError.NoSuchPosition);
  reject_if (lp_shares position <? shares) AmmInputError.InsufficientShares;;
  outcome ← lift (map_err map_curve_error_input
    (burn_shares (reserve_lo db_pool) (reserve_hi db_pool) (total_shares db_pool) shares));
  reject_if ((burn_da outcome <? min_lo) || (burn_db outcome <? min_hi)
             || (max_lo <? burn_da outcome) || (max_hi <? burn_db outcome))
    AmmInputError.SlippageExceeded;;
  amounts ← lift (ok_or
    (match checked_add_unit Amounts_ZERO (burn_da outcome) (lo pool) with
     | Some a => checked_add_unit a (burn_db outcome) (hi pool)
     | None => None
     end) (AmmInputError.Curve "amount overflow"));
  modify (put_pool pool (mkPool (u64_sub (reserve_lo db_pool) (burn_da outcome))
                                (u64_sub (reserve_hi db_pool) (burn_db outcome))
                                (burn_new_total_shares outcome)));;
  let left := u64_sub (lp_shares position) shares in
  modify (if left =? 0 then del_lp (pool, owner_pk)
          else put_lp (pool, owner_pk) (mkLpPosition left (lp_tweak position)));;
  mret (mkInputMeta (mkTransactionItemAmounts amounts Amounts_ZERO) owner_pk).

Definition process_input (input : AmmInput) : M AmmDb AmmInputError.t InputMeta :=
  match input with
  | ClaimBalanceV0 pubkey unit => process_input_claim pubkey unit
  | WithdrawV0 pool owner_pk shares min_lo min_hi max_lo max_hi =>
      process_input_withdraw pool owner_pk shares min_lo min_hi max_lo max_hi
  | InputDefault _ _ => fail AmmInputError.UnknownVariant
  end.

(** ** Outputs *)

Definition process_output_swap (self : Amm) (unit_in unit_out : AmountUnit)
    (amount_in min_out : Z) (recipient_pk : PublicKey) (tweak : list Z)
    : M AmmDb AmmOutputError.t TransactionItemAmounts :=
  d ← get;
  pool_id ← lift (ok_or (PoolId_new unit_in unit_out) AmmOutputError.IdenticalUnits);
  pool ← lift (ok_or (pools d !! pool_id) AmmOutputError.NoSuchPool);
  quote ← lift (quote_swap self d pool pool_id unit_in amount_in (Some min_out));
  let reserve_out_new := u64_sub (quote_reserve_out quote) (dy quote) in
  ensure (k_non_decreasing (quote_reserve_in quote) (quote_reserve_out quote)
            (reserve_in_new quote) reserve_out_new) AmmOutputError.KInvariantViolated;;
  let bkey := (recipient_pk, unit_out) in
  credited ← lift (match balances d !! bkey with
    | Some entry =>
        credited ← ok_or (checked_add_u64 (bal_amount entry) (dy quote))
                     AmmOutputError.ReserveCapExceeded;
        if MAX_RESERVE <? credited then Err AmmOutputError.ReserveCapExceeded
        else Ok credited
    | None => Ok (dy quote)
    end);
  modify (put_pool pool_id
    (if in_is_lo quote
     then mkPool (reserve_in_new quote) reserve_out_new (total_shares pool)
     else mkPool reserve_out_new (reserve_in_new quote) (total_shares pool)));;
  modify (put_balance bkey (mkBalanceEntry credited tweak));;
  mret (mkTransactionItemAmounts (new_custom unit_in amount_in) Amounts_ZERO).

Definition process_output_deposit (self : Amm) (pool : PoolId)
    (amount_lo amount_hi min_shares : Z) (owner_pk : PublicKey) (tweak : list Z)
    : M AmmDb AmmOutputError.t TransactionItemAmounts :=
  d ← get;
  reject_if (negb (bool_decide (is_Some (units (cfg self) !! lo pool)))
             || negb (bool_decide (is_Some (units (cfg self) !! hi pool))))
    AmmOutputError.UnknownUnit;;
  let db_pool := default (mkPool 0 0 0) (pools d !! pool) in
  outcome ← lift (map_err map_curve_error
    (mint_shares (reserve_lo db_pool) (reserve_hi db_pool) (total_shares db_pool)
       amount_lo amount_hi));
  reject_if (to_owner outcome <? min_shares) AmmOutputError.SlippageExceeded;;
  let lp_key := (pool, owner_pk) in
  let existing_shares := default 0 (lp_shares <$> lp_positions d !! lp_key) in
  shares ← lift (ok_or (checked_add_u64 existing_shares (to_owner outcome))
                   (AmmOutputError.Curve "share overflow"));
  new_lo ← lift (ok_or (checked_add_u64 (reserve_lo db_pool) amount_lo)
                   AmmOutputError.ReserveCapExceeded);
  new_hi ← lift (ok_or (checked_add_u64 (reserve_hi db_pool) amount_hi)
                   AmmOutputError.ReserveCapExceeded);
  modify (put_pool pool (mkPool new_lo new_hi (mint_new_total_shares outcome)));;
  modify (put_lp lp_key (mkLpPosition shares tweak));;
  amounts ← lift (ok_or
    (match checked_add_unit Amounts_ZERO amount_lo (lo pool) with
     | Some a => checked_add_unit a amount_hi (hi pool)
     | None => None
     end) AmmOutputError.ReserveCapExceeded);
  mret (mkTransactionItemAmounts amounts Amounts_ZERO).

Definition process_output (self : Amm) (output : AmmOutput)
    : M AmmDb AmmOutputError.t TransactionItemAmounts :=
  ensure (verify_pop output) AmmOutputError.InvalidProofOfPossession;;
  match output with
  | SwapV0 unit_in unit_out amount_in min_out recipient_pk tweak _ =>
      process_output_swap self unit_in unit_out amount_in min_out recipient_pk tweak
  | DepositV0 pool amount_lo amount_hi min_shares owner_pk tweak _ =>
      process_output_deposit self pool amount_lo amount_hi min_shares owner_pk tweak
  | OutputDefault _ _ => fail AmmOutputError.UnknownVariant
  end.
End handlers.

(** ** Audit *)

(** The three [add_items] passes: every reserve and every balance as a negated
    [i64].  [None] stands for the panic of a failing [expect]. *)
Definition audit_items {K V} `{Countable K} (f : V -> Z) (m : gmap K V) : option (list Z) :=
  mapM (fun kv : K * V => Z.opp <$> try_i64 (f kv.2)) (map_to_list m).

Definition audit (d : AmmDb) : option (list Z) :=
  los ← audit_items reserve_lo (pools d);
  his ← audit_items reserve_hi (pools d);
  bals ← audit_items bal_amount (balances d);
  Some (los ++ his ++ bals).

(** ** Query and guardian endpoints *)

Inductive ApiError := BadRequest (msg : option AmmOutputError.t) | NotFound | Unauthorized | ServerError.

Record PoolSummary := mkPoolSummary {
  sum_pool : PoolId; sum_reserve_lo : Z; sum_reserve_hi : Z;
  sum_total_shares : Z; sum_fee_per_mille : Z;
}.

Definition pools_endpoint (self : Amm) (d : AmmDb) : list PoolSummary :=
  map (fun '(k, p) => mkPoolSummary k (reserve_lo p) (reserve_hi p) (total_shares p)
                        (consensus_fee_for self d k)) (rows_by_pool (pools d)).

Record QuoteResponse := mkQuoteResponse { quote_amount_out : Z; quote_price_impact : Z }.

Definition quote_endpoint (self : Amm) (d : AmmDb) (unit_in unit_out : AmountUnit)
    (amount_in : Z) : result ApiError QuoteResponse :=
  pool_id ← ok_or (PoolId_new unit_in unit_out) (BadRequest None);
  pool ← ok_or (pools d !! pool_id) NotFound;
  quote ← map_err (fun e => BadRequest (Some e))
            (quote_swap self d pool pool_id unit_in amount_in None);
  Ok (mkQuoteResponse (dy quote)
        (price_impact_per_mille (quote_reserve_in quote) (quote_reserve_out quote)
           amount_in (dy quote))).

(** [has_auth] is core's verdict on the request's credentials. *)
Definition fee_vote_submit_endpoint (self : Amm) (has_auth : bool) (pool : PoolId)
    (fee_per_mille : Z) : M AmmDb ApiError unit :=
  ensure has_auth Unauthorized;;
  ensure (fee_in_band (cfg self) fee_per_mille) (BadRequest None);;
  p ← gets (fun d => pools d !! pool);
  ensure (bool_decide (is_Some p)) NotFound;;
  modify (put_desired_fee pool fee_per_mille).

Record FeeVotesResponse := mkFeeVotesResponse {
  resp_votes : gmap PeerId Z; effective_fee_per_mille : Z;
  resp_min_fee : Z; resp_max_fee : Z;
}.

Definition fee_votes_endpoint (self : Amm) (d : AmmDb) (pool : PoolId) : FeeVotesResponse :=
  mkFeeVotesResponse (list_to_map (votes_for d pool)) (consensus_fee_for self d pool)
    (min_fee_per_mille (cfg self)) (max_fee_per_mille (cfg self)).

Definition balance_endpoint (d : AmmDb) (pubkey : PublicKey) (unit : AmountUnit) : option Z :=
  bal_amount <$> balances d !! (pubkey, unit).
