(* ===== verification/AmmInvariant.v ===== *)
(** * The AMM database invariant

    Which databases the handlers of [AmmServer] can produce: bounded non-empty
    reserves, shares fully accounted for and backed, bounded balances, votes
    inside the band and only for existing pools.  Every handler preserves it,
    and a handler that fails has written nothing. *)

From S2P Require Import Prelude FedimintCore AmmMath AmmPoolId AmmConfig AmmTypes AmmServer.

(** What config generation and Rust's types give about a module instance. *)
Record amm_wf (self : Amm) : Prop := {
  wf_cfg : config_ok (cfg self);
  wf_min : is_u16 (min_fee_per_mille (cfg self));
  wf_threshold : (1 <= threshold self)%nat;
}.

Lemma consensus_fee_wf self d pool :
  amm_wf self ->
  fee_in_band (cfg self) (consensus_fee_for self d pool) = true /\
  is_u16 (consensus_fee_for self d pool).
Proof.
  intros [Hc Hm _]. unfold consensus_fee_for.
  edestruct (clamped_fee_valid (cfg self)) as [Hb Hr]; [done|unfold_widths; lia|].
  split; [apply Hb|]. unfold_widths. split; [apply Hr|].
  etransitivity; [apply Z.lt_le_incl, Hr|lia].
Qed.

(** Shares of a pool held by its positions. *)
Definition share_in (k : PoolId) (key : PoolId * PublicKey) (pos : LpPosition) : Z :=
  if bool_decide (key.1 = k) then lp_shares pos else 0.

Definition shares_of (d : AmmDb) (k : PoolId) : Z := map_sum (share_in k) (lp_positions d).

Record pool_ok (self : Amm) (d : AmmDb) (k : PoolId) (p : Pool) : Prop := {
  pool_canon : canonical k;
  pool_lo_unit : is_Some (units (cfg self) !! lo k);
  pool_hi_unit : is_Some (units (cfg self) !! hi k);
  pool_lo_range : 0 < reserve_lo p <= MAX_RESERVE;
  pool_hi_range : 0 < reserve_hi p <= MAX_RESERVE;
  pool_backed : backed (reserve_lo p) (reserve_hi p) (total_shares p);
  pool_shares : total_shares p = MINIMUM_LIQUIDITY + shares_of d k;
}.

Record db_inv (self : Amm) (d : AmmDb) : Prop := {
  inv_pools : map_Forall (pool_ok self d) (pools d);
  inv_lp : map_Forall (fun key pos => 0 < lp_shares pos /\ is_Some (pools d !! key.1))
             (lp_positions d);
  inv_bal : map_Forall (fun _ e => 0 < bal_amount e <= MAX_RESERVE) (balances d);
  inv_votes : map_Forall (fun key fee =>
      fee_in_band (cfg self) fee = true /\ is_Some (pools d !! key.1)) (fee_votes d);
  inv_desired : map_Forall (fun k fee =>
      fee_in_band (cfg self) fee = true /\ is_Some (pools d !! k)) (desired_fees d);
}.

Section facts.
Context (self : Amm) (d : AmmDb) (Hinv : db_inv self d).

Lemma share_in_nonneg k : map_Forall (fun key pos => 0 <= share_in k key pos) (lp_positions d).
Proof.
  intros key pos Hp. destruct (inv_lp _ _ Hinv key pos Hp) as [? _].
  unfold share_in. case_match; lia.
Qed.

Lemma shares_of_nonneg k : 0 <= shares_of d k.
Proof. apply map_sum_nonneg, share_in_nonneg. Qed.

Lemma position_le k pk pos :
  lp_positions d !! (k, pk) = Some pos -> 0 < lp_shares pos <= shares_of d k.
Proof.
  intros Hp. split; [by apply (inv_lp _ _ Hinv) in Hp as [? _]|].
  pose proof (map_sum_ge_lookup _ _ _ _ (share_in_nonneg k) Hp) as Hle.
  unfold share_in in Hle at 1. by rewrite bool_decide_eq_true_2 in Hle.
Qed.

(** Shares never exceed the geometric mean of capped reserves. *)
Lemma pool_ok_u64 k p :
  pool_ok self d k p ->
  is_u64 (reserve_lo p) /\ is_u64 (reserve_hi p) /\ is_u64 (total_shares p) /\
  MINIMUM_LIQUIDITY <= total_shares p.
Proof.
  intros [_ _ _ Hl Hh Hb Hs]. pose proof (shares_of_nonneg k).
  unfold backed, MINIMUM_LIQUIDITY in *. rewrite MAX_RESERVE_val in *. unfold_widths.
  assert (total_shares p <= 2 ^ 58); [|lia]. apply Z.square_le_simpl_nonneg; nia.
Qed.

Lemma no_pool_no_shares k : pools d !! k = None -> shares_of d k = 0.
Proof.
  intros Hk. apply map_sum_zero. intros key pos Hp. unfold share_in. case_match; zbool; [|done].
  subst. destruct (inv_lp _ _ Hinv key pos Hp) as [_ [? ?]]. congruence.
Qed.
End facts.

(** ** What a successful handler did *)

Section inversion.
Context `{Crypto} `{AmountsOps} `{Codec Z} `{Codec PublicKey} `{Codec (list Z)}.

(** The orientation and arithmetic of an accepted swap. *)
Record swap_facts (self : Amm) (d : AmmDb) (pool : Pool) (pid : PoolId)
    (unit_in : AmountUnit) (amount_in : Z) (min_out : option Z) (q : SwapQuote) : Prop := {
  sf_in_unit : is_Some (units (cfg self) !! unit_in);
  sf_lo : in_is_lo q = (unit_in =? lo pid);
  sf_in : quote_reserve_in q = if in_is_lo q then reserve_lo pool else reserve_hi pool;
  sf_out : quote_reserve_out q = if in_is_lo q then reserve_hi pool else reserve_lo pool;
  sf_dy : amount_out (quote_reserve_in q) (quote_reserve_out q) amount_in
            (consensus_fee_for self d pid) = Ok (dy q);
  sf_new : reserve_in_new q = quote_reserve_in q + amount_in;
  sf_cap : reserve_in_new q <= MAX_RESERVE;
  sf_min : match min_out with Some m => m <= dy q | None => True end;
}.

Lemma quote_swap_Ok self d pool pid ui a mo q :
  quote_swap self d pool pid ui a mo = Ok q -> swap_facts self d pool pid ui a mo q.
Proof.
  unfold quote_swap. intros Hq. run_inv Hq; ok_facts; zbool; subst.
  all: constructor; simpl; eauto; try lia; try (by case_match).
  all: repeat case_match; simplify_eq; zbool; lia || done.
Qed.

(** A quote taken without a minimum stands for every minimum it meets. *)
Lemma quote_swap_min self d pool pid ui a m q :
  quote_swap self d pool pid ui a None = Ok q -> m <= dy q ->
  quote_swap self d pool pid ui a (Some m) = Ok q.
Proof.
  unfold quote_swap. destruct (ok_or (units _ !! ui) _); simpl; [|done].
  destruct (ok_or (other pid ui) _); simpl; [|done].
  do 2 (case_match; [done|]).
  destruct (map_err map_curve_error _) as [dy'|]; simpl; [|done]. intros Hrun Hm.
  assert (dy' = dy q) as -> by (by run_inv Hrun).
  destruct (dy q <? m) eqn:E; zbool; [lia|done].
Qed.

Lemma claim_run pk u d :
  process_input_claim pk u d =
  match balances d !! (pk, u) with
  | Some e => (Ok (mkInputMeta (mkTransactionItemAmounts (new_custom u (bal_amount e))
                     Amounts_ZERO) pk), del_balance (pk, u) d)
  | None => (Err AmmInputError.NoSuchBalance, d)
  end.
Proof.
  unfold process_input_claim. simpl. destruct (balances d !! (pk, u)) eqn:E; simpl; [done|].
  unfold del_balance. rewrite delete_id by done. by destruct d.
Qed.

Record withdraw_facts (d : AmmDb) (k : PoolId) (pk : PublicKey)
    (s min_lo min_hi max_lo max_hi : Z) (r : InputMeta) (d' : AmmDb)
    (p : Pool) (pos : LpPosition) (o : BurnOutcome) : Prop := {
  wd_pool : pools d !! k = Some p;
  wd_pos : lp_positions d !! (k, pk) = Some pos;
  wd_le : s <= lp_shares pos;
  wd_burn : burn_shares (reserve_lo p) (reserve_hi p) (total_shares p) s = Ok o;
  wd_bounds : min_lo <= burn_da o <= max_lo /\ min_hi <= burn_db o <= max_hi;
  wd_meta : pub_key r = pk;
  wd_amounts : exists am, checked_add_unit Amounts_ZERO (burn_da o) (lo k) = Some am /\
                 checked_add_unit am (burn_db o) (hi k) = Some (amounts (amount r));
  wd_db : d' =
    (let left := u64_sub (lp_shares pos) s in
     if left =? 0 then del_lp (k, pk) else put_lp (k, pk) (mkLpPosition left (lp_tweak pos)))
    (put_pool k (mkPool (u64_sub (reserve_lo p) (burn_da o))
                        (u64_sub (reserve_hi p) (burn_db o)) (burn_new_total_shares o)) d);
}.

Lemma withdraw_Ok d k pk s a b x y r d' :
  process_input_withdraw k pk s a b x y d = (Ok r, d') ->
  exists p pos o, withdraw_facts d k pk s a b x y r d' p pos o.
Proof.
  unfold process_input_withdraw. intros Hr. run_inv Hr; ok_facts; zbool.
  all: destruct_or?; zbool; try lia.
  all: match goal with
       | Hp : pools _ !! _ = Some ?p, Hl : lp_positions _ !! _ = Some ?q,
         Hb : burn_shares _ _ _ _ = Ok ?o |- _ => exists p, q, o end.
  all: constructor; simpl; eauto; try lia.
Qed.

Record swap_done (self : Amm) (d : AmmDb) (ui uo : AmountUnit) (a m : Z) (pk : PublicKey)
    (t : list Z) (r : TransactionItemAmounts) (d' : AmmDb)
    (pid : PoolId) (pool : Pool) (q : SwapQuote) (credited : Z) : Prop := {
  sw_pid : PoolId_new ui uo = Some pid;
  sw_pool : pools d !! pid = Some pool;
  sw_quote : swap_facts self d pool pid ui a (Some m) q;
  sw_credit : credited = default 0 (bal_amount <$> balances d !! (pk, uo)) + dy q;
  sw_credit_cap : is_Some (balances d !! (pk, uo)) -> credited <= MAX_RESERVE;
  sw_amounts : amounts r = new_custom ui a;
  sw_db : d' = put_balance (pk, uo) (mkBalanceEntry credited t)
    (put_pool pid
      (if in_is_lo q
       then mkPool (reserve_in_new q) (u64_sub (quote_reserve_out q) (dy q)) (total_shares pool)
       else mkPool (u64_sub (quote_reserve_out q) (dy q)) (reserve_in_new q) (total_shares pool))
      d);
}.

Lemma swap_Ok self d ui uo a m pk t r d' :
  process_output_swap self ui uo a m pk t d = (Ok r, d') ->
  exists pid pool q credited, swap_done self d ui uo a m pk t r d' pid pool q credited.
Proof.
  unfold process_output_swap. intros Hr. run_inv Hr; ok_facts.
  all: match goal with
    | Hp : pools _ !! ?pid = Some ?p, Hq : quote_swap _ _ _ _ _ _ _ = Ok ?q |- _ =>
        apply quote_swap_Ok in Hq; exists pid, p, q end.
  all: eexists; constructor; simpl; eauto.
  all: match goal with E : balances _ !! _ = _ |- _ => rewrite E; simpl end.
  all: repeat case_match; simplify_eq; ok_facts; zbool; simplify_eq; try lia; try done.
  all: by intros [].
Qed.

Record deposit_done (self : Amm) (d : AmmDb) (k : PoolId) (al ah ms : Z) (pk : PublicKey)
    (t : list Z) (p : Pool) (o : MintOutcome) (shares : Z) (d' : AmmDb) : Prop := {
  dp_lo : is_Some (units (cfg self) !! lo k);
  dp_hi : is_Some (units (cfg self) !! hi k);
  dp_pool : p = default (mkPool 0 0 0) (pools d !! k);
  dp_mint : mint_shares (reserve_lo p) (reserve_hi p) (total_shares p) al ah = Ok o;
  dp_min : ms <= to_owner o;
  dp_shares : shares = default 0 (lp_shares <$> lp_positions d !! (k, pk)) + to_owner o;
  dp_db : d' = put_lp (k, pk) (mkLpPosition shares t)
    (put_pool k (mkPool (reserve_lo p + al) (reserve_hi p + ah) (mint_new_total_shares o)) d);
}.

(** Up to the final accounting of amounts, which comes after the writes. *)
Lemma deposit_run self d k al ah ms pk t r d' :
  process_output_deposit self k al ah ms pk t d = (r, d') ->
  (d' = d /\ is_ok r = false) \/
  exists p o shares, deposit_done self d k al ah ms pk t p o shares d' /\
    r = match checked_add_unit Amounts_ZERO al (lo k) with
        | Some am => match checked_add_unit am ah (hi k) with
                     | Some am' => Ok (mkTransactionItemAmounts am' Amounts_ZERO)
                     | None => Err AmmOutputError.ReserveCapExceeded
                     end
        | None => Err AmmOutputError.ReserveCapExceeded
        end.
Proof.
  unfold process_output_deposit. intros Hr.
  run_inv Hr; ok_facts; zbool; try (left; by split); right.
  all: match goal with Hm : mint_shares _ _ _ _ _ = Ok ?o |- _ => eexists _, o, _ end.
  all: split; [constructor; simpl; subst; eauto; lia|].
  all: repeat match goal with E : checked_add_unit _ _ _ = _ |- _ => rewrite E end; congruence.
Qed.
End inversion.

(** ** How the writes move the accounting *)

Lemma shares_of_put_lp d k pk pos k' :
  shares_of (put_lp (k, pk) pos d) k' =
  shares_of d k' +
    if bool_decide (k = k')
    then lp_shares pos - default 0 (lp_shares <$> lp_positions d !! (k, pk)) else 0.
Proof.
  unfold shares_of. simpl. rewrite map_sum_insert. unfold share_in at 2 3. simpl.
  destruct (lp_positions d !! (k, pk)); case_bool_decide; simpl; lia.
Qed.

Lemma shares_of_del_lp d k pk pos k' :
  lp_positions d !! (k, pk) = Some pos ->
  shares_of (del_lp (k, pk) d) k' =
  shares_of d k' - if bool_decide (k = k') then lp_shares pos else 0.
Proof.
  intros Hp. unfold shares_of. simpl. rewrite (map_sum_delete _ (lp_positions d) _ _ Hp).
  unfold share_in at 2. simpl. case_bool_decide; lia.
Qed.

Lemma pool_ok_shares self d d' k p :
  shares_of d k = shares_of d' k -> pool_ok self d k p -> pool_ok self d' k p.
Proof. intros E []. constructor; try done. by rewrite <- E. Qed.

(** Writing neither pools nor positions. *)
Lemma db_inv_same_pools self d d' :
  db_inv self d -> pools d' = pools d -> lp_positions d' = lp_positions d ->
  map_Forall (fun _ e => 0 < bal_amount e <= MAX_RESERVE) (balances d') ->
  map_Forall (fun key fee =>
      fee_in_band (cfg self) fee = true /\ is_Some (pools d !! key.1)) (fee_votes d') ->
  map_Forall (fun k fee =>
      fee_in_band (cfg self) fee = true /\ is_Some (pools d !! k)) (desired_fees d') ->
  db_inv self d'.
Proof.
  intros [Hp Hl _ _ _] Ep El Hb Hv Hd. constructor; rewrite ?Ep, ?El; try done.
  intros k p Hk. apply (pool_ok_shares _ d); [unfold shares_of; by rewrite El|auto].
Qed.

(** Tables keyed by a pool keep naming existing pools when one is written. *)
Lemma pool_insert_is_Some (m : gmap PoolId Pool) k p k' :
  is_Some (m !! k') -> is_Some (<[k := p]> m !! k').
Proof. rewrite lookup_insert_is_Some. destruct (decide (k = k')); auto. Qed.

#[export] Hint Resolve pool_insert_is_Some : amm.

(** Writing pool [k] and the position table of [k] alone: what has to be
    re-established is the new pool's own condition. *)
Lemma db_inv_put_pool self d d' k p' :
  db_inv self d ->
  pools d' = <[k := p']> (pools d) ->
  fee_votes d' = fee_votes d -> desired_fees d' = desired_fees d ->
  (forall k', k' <> k -> shares_of d k' = shares_of d' k') ->
  map_Forall (fun key pos => 0 < lp_shares pos /\
    (key.1 = k \/ is_Some (pools d !! key.1))) (lp_positions d') ->
  map_Forall (fun _ e => 0 < bal_amount e <= MAX_RESERVE) (balances d') ->
  pool_ok self d' k p' ->
  db_inv self d'.
Proof.
  intros [Hp Hl Hb Hv Hd] Ep Ev Ed Hs Hl' Hb' Hok. constructor; try done; rewrite ?Ep, ?Ev, ?Ed.
  - intros k1 p1 Hk1. destruct (decide (k1 = k)) as [->|Hne].
    + rewrite lookup_insert_eq in Hk1. by simplify_eq.
    + rewrite lookup_insert_ne in Hk1 by done. apply (pool_ok_shares _ d); auto.
  - intros key pos Hk. destruct (Hl' key pos Hk) as [? [->|?]]; split; auto with amm.
    rewrite lookup_insert_eq. eauto.
  - intros key fee Hk. destruct (Hv key fee Hk). split; auto with amm.
  - intros key fee Hk. destruct (Hd key fee Hk). split; auto with amm.
Qed.

Section preservation.
Context `{Crypto} `{AmountsOps} `{Codec Z} `{Codec PublicKey} `{Codec (list Z)}.
Context (self : Amm) (Hwf : amm_wf self).

(** The arithmetic of an accepted swap against an invariant pool: no subtraction
    wraps and both new reserves are in range and back the same shares. *)
Lemma swap_reserves d pid pool ui a mo q :
  db_inv self d -> is_u64 a -> pools d !! pid = Some pool ->
  swap_facts self d pool pid ui a mo q ->
  0 < dy q < quote_reserve_out q /\
  u64_sub (quote_reserve_out q) (dy q) = quote_reserve_out q - dy q /\
  quote_reserve_in q * quote_reserve_out q <=
    reserve_in_new q * (quote_reserve_out q - dy q) /\
  0 < quote_reserve_in q /\ quote_reserve_out q <= MAX_RESERVE.
Proof.
  intros Hinv Ha Hp [? Hlo Hin Hout Hdy Hnew Hcap _].
  pose proof (inv_pools _ _ Hinv _ _ Hp) as Hok.
  destruct (pool_ok_u64 _ _ Hinv _ _ Hok) as (Hl & Hh & _ & _).
  destruct (consensus_fee_wf self d pid Hwf) as [_ Hfee].
  assert (is_u64 (quote_reserve_in q)) as Hri by (rewrite Hin; by case_match).
  assert (is_u64 (quote_reserve_out q)) as Hro by (rewrite Hout; by case_match).
  pose proof (amount_out_range _ _ _ _ _ Hri Hro Ha Hfee Hdy) as Hr.
  pose proof (amount_out_k _ _ _ _ _ Hri Hro Ha Hfee Hdy) as Hk.
  destruct Hok as [_ _ _ Rl Rh _ _].
  unfold u64_sub. rewrite wrap64_id by (unfold_widths; lia).
  rewrite Hnew. split_and!; try lia; [rewrite Hin|rewrite Hout]; case_match; lia.
Qed.

Lemma swap_preserves d ui uo a m pk t r d' :
  db_inv self d -> is_u64 a ->
  process_output_swap self ui uo a m pk t d = (Ok r, d') -> db_inv self d'.
Proof.
  intros Hinv Ha Hr. apply swap_Ok in Hr as (pid & pool & q & cr & []).
  destruct (swap_reserves _ _ _ _ _ _ _ Hinv Ha sw_pool0 sw_quote0) as (Hdy & Hsub & Hk & Hi & Ho).
  rewrite Hsub in *. pose proof (inv_pools _ _ Hinv _ _ sw_pool0) as Hok.
  destruct sw_quote0. subst d'. eapply db_inv_put_pool; [done|simpl; reflexivity|..]; try done.
  - simpl. intros key pos Hk'. destruct (inv_lp _ _ Hinv key pos Hk'). auto.
  - simpl. apply map_Forall_insert_2; [|apply Hinv]. simpl.
    destruct (balances d !! (pk, uo)) as [e|] eqn:Eb; simpl in *; [|lia].
    pose proof (inv_bal _ _ Hinv _ _ Eb). specialize (sw_credit_cap0 ltac:(eauto)). simpl in *. lia.
  - destruct Hok as [? ? ? Rl Rh Hb Hs]. unfold backed in *.
    unfold_widths. destruct (in_is_lo q); rewrite sf_in0, sf_out0 in *;
      constructor; simpl; try done; unfold backed; lia.
Qed.

Lemma deposit_preserves d k al ah ms pk t r d' :
  db_inv self d -> canonical k -> is_u64 al -> is_u64 ah ->
  process_output_deposit self k al ah ms pk t d = (r, d') -> db_inv self d'.
Proof.
  intros Hinv Hc Hal Hah Hr. apply deposit_run in Hr as [[-> _]|(p & o & sh & [] & _)]; [done|].
  assert (is_u64 (reserve_lo p) /\ is_u64 (reserve_hi p) /\ is_u64 (total_shares p) /\
    backed (reserve_lo p) (reserve_hi p) (total_shares p) /\
    (total_shares p = 0 -> reserve_lo p = 0 /\ reserve_hi p = 0) /\
    total_shares p = (if total_shares p =? 0 then 0 else MINIMUM_LIQUIDITY) + shares_of d k)
    as (Hl & Hh & HS & Hb & Hz & Hsh).
  { destruct (pools d !! k) as [p'|] eqn:Ek; simpl in *; subst p.
    - pose proof (inv_pools _ _ Hinv _ _ Ek) as Hok.
      destruct (pool_ok_u64 _ _ Hinv _ _ Hok) as (?&?&?&Hm). destruct Hok.
      unfold MINIMUM_LIQUIDITY in *. split_and!; try done; [lia|]. case_match; zbool; lia.
    - simpl. rewrite (no_pool_no_shares _ _ Hinv k Ek). unfold backed. unfold_widths. lia. }
  pose proof (mint_backed _ _ _ Hl Hh HS al ah o Hal Hah ltac:(apply Hl) ltac:(apply Hh) Hz Hb dp_mint0).
  apply mint_shares_Ok in dp_mint0 as (?&?&?&?&?&Hown&Hif); [|done..].
  assert (0 < sh) as Hsh0.
  { destruct (lp_positions d !! (k, pk)) as [pos|] eqn:Ep; simpl in *; [|lia].
    pose proof (position_le _ _ Hinv _ _ _ Ep). lia. }
  subst d'. eapply db_inv_put_pool; [done|simpl; reflexivity|..]; try done.
  - intros k' Hne. rewrite shares_of_put_lp. rewrite bool_decide_eq_false_2 by done.
    unfold shares_of. simpl. lia.
  - simpl. apply map_Forall_insert_2; [simpl; auto|].
    intros key pos Hk'. destruct (inv_lp _ _ Hinv key pos Hk'). auto.
  - apply Hinv.
  - constructor; simpl; try done; try (unfold_widths; lia).
    rewrite shares_of_put_lp, bool_decide_eq_true_2 by done. simpl.
    change (shares_of (put_pool _ _ d) k) with (shares_of d k).
    destruct (total_shares p =? 0) eqn:E0; zbool; lia.
Qed.

Lemma withdraw_preserves d k pk s a b x y r d' :
  db_inv self d -> is_u64 s ->
  process_input_withdraw k pk s a b x y d = (Ok r, d') -> db_inv self d'.
Proof.
  intros Hinv Hs Hr. apply withdraw_Ok in Hr as (p & pos & o & []).
  pose proof (inv_pools _ _ Hinv _ _ wd_pool0) as Hok.
  destruct (pool_ok_u64 _ _ Hinv _ _ Hok) as (Hl & Hh & HS & Hm).
  pose proof (position_le _ _ Hinv _ _ _ wd_pos0) as Hpos. destruct Hok.
  unfold MINIMUM_LIQUIDITY in *.
  pose proof (burn_backed _ _ _ Hl Hh HS s o Hs pool_backed0 wd_burn0) as Hb.
  destruct (burn_keeps_positive _ _ _ Hl Hh HS s o Hs) as [Hpl Hph]; [lia..|done|].
  apply burn_shares_Ok in wd_burn0 as (?&_&_&ES&?&?&_); [|done..].
  assert (u64_sub (lp_shares pos) s = lp_shares pos - s) as Eleft
    by (apply wrap64_id; unfold_widths; lia).
  assert (u64_sub (reserve_lo p) (burn_da o) = reserve_lo p - burn_da o) as El
    by (apply wrap64_id; unfold_widths; lia).
  assert (u64_sub (reserve_hi p) (burn_db o) = reserve_hi p - burn_db o) as Eh
    by (apply wrap64_id; unfold_widths; lia).
  rewrite Eleft, El, Eh in *. clear Eleft El Eh.
  set (d1 := put_pool k _ d) in *.
  assert (forall k', shares_of d' k' = shares_of d k' - if bool_decide (k = k') then s else 0) as Hsh.
  { intros k'. subst d'. cbv zeta. destruct (lp_shares pos - s =? 0) eqn:E0; zbool.
    - rewrite (shares_of_del_lp _ _ _ pos) by done.
      change (shares_of d1 k') with (shares_of d k'). case_match; lia.
    - rewrite shares_of_put_lp. change (shares_of d1 k') with (shares_of d k').
      change (lp_positions d1) with (lp_positions d). rewrite wd_pos0. simpl. case_match; lia. }
  eapply (db_inv_put_pool self d d' k); [done|..].
  - subst d'. cbv zeta. case_match; reflexivity.
  - subst d'. cbv zeta. case_match; reflexivity.
  - subst d'. cbv zeta. case_match; reflexivity.
  - intros k' Hne. rewrite Hsh, bool_decide_eq_false_2 by done. lia.
  - assert (map_Forall (fun (key : PoolId * PublicKey) pos => 0 < lp_shares pos /\
      (key.1 = k \/ is_Some (pools d !! key.1))) (lp_positions d)) as Hall
      by (intros key q Hq; destruct (inv_lp _ _ Hinv key q Hq); auto).
    subst d'. cbv zeta. case_match; zbool; simpl.
    + by apply map_Forall_delete.
    + apply map_Forall_insert_2; simpl; [split; [lia|auto]|done].
  - subst d'. cbv zeta. case_match; apply Hinv.
  - constructor; simpl; try done; try lia.
    unfold MINIMUM_LIQUIDITY. rewrite Hsh, bool_decide_eq_true_2 by done. lia.
Qed.
End preservation.
