(* ===== verification/AmmSafety.v ===== *)
(** * Safety of the AMM server

    Atomicity of the handlers, the database invariant over whole histories,
    conservation of value per unit, and the audit. *)

From S2P Require Import Prelude FedimintCore AmmMath AmmPoolId AmmConfig AmmTypes AmmServer AmmInvariant.

Section safety.
Context `{Crypto} `{AmountsOps} `{Codec Z} `{Codec PublicKey} `{Codec (list Z)}.

(** ** A failing handler has written nothing *)

Lemma process_input_atomic i d e d' : process_input i d = (Err e, d') -> d' = d.
Proof.
  destruct i as [pk u|k pk s a b x y|v bs]; simpl; [|unfold process_input_withdraw|congruence].
  - rewrite claim_run. case_match; congruence.
  - intros Hr. run_inv Hr; done.
Qed.

Lemma swap_atomic self ui uo a m pk t d e d' :
  process_output_swap self ui uo a m pk t d = (Err e, d') -> d' = d.
Proof. unfold process_output_swap. intros Hr. run_inv Hr; done. Qed.

Lemma process_consensus_item_atomic self it peer d e d' :
  process_consensus_item self it peer d = (Err e, d') -> d' = d.
Proof.
  destruct it as [pool fee|v bs]; simpl; [|congruence]. intros Hr. run_inv Hr; try done.
  zbool. match goal with E : ~ (_ <> _) |- _ => apply dec_stable in E end.
  unfold put_fee_vote. rewrite insert_id by done. by destruct d.
Qed.

Lemma fee_vote_submit_atomic self auth pool fee d e d' :
  fee_vote_submit_endpoint self auth pool fee d = (Err e, d') -> d' = d.
Proof. unfold fee_vote_submit_endpoint. intros Hr. run_inv Hr; done. Qed.

Lemma process_output_atomic `{!AmountsOk} self o d e d' :
  output_wf o -> process_output self o d = (Err e, d') -> d' = d.
Proof.
  intros Hwf Hr. unfold process_output in Hr. simpl in Hr.
  destruct (verify_pop o); simpl in Hr; [|congruence].
  destruct o as [ui uo a m pk t sg|k al ah ms pk t sg|]; simpl in Hr.
  - by eapply swap_atomic.
  - apply deposit_run in Hr as [[? _]|(p & o & sh & Hd & Hr)]; [done|exfalso].
    simpl in Hwf. destruct_and!.
    destruct (checked_add_unit_total Amounts_ZERO al (lo k)) as [am Ham];
      [rewrite amount_of_ZERO; unfold_widths; lia|].
    destruct (checked_add_unit_total am ah (hi k)) as [am' Ham'].
    { rewrite (checked_add_unit_Some _ _ _ _ Ham), amount_of_ZERO. unfold canonical in *.
      destruct (hi k =? lo k) eqn:E; zbool; unfold_widths; lia. }
    by rewrite Ham, Ham' in Hr.
  - congruence.
Qed.

(** Every handler is atomic: when it returns an error the tables are exactly
    as they were, including the redundant fee vote, which is rejected only
    after its write, and the deposit, whose amounts are accounted for after
    its writes. *)
Theorem handlers_atomic `{!AmountsOk} self d :
  (forall i e d', process_input i d = (Err e, d') -> d' = d) /\
  (forall o e d', output_wf o -> process_output self o d = (Err e, d') -> d' = d) /\
  (forall it peer e d', process_consensus_item self it peer d = (Err e, d') -> d' = d) /\
  (forall auth pool fee e d', fee_vote_submit_endpoint self auth pool fee d = (Err e, d') -> d' = d).
Proof.
  split_and!; intros.
  - by eapply process_input_atomic.
  - by eapply process_output_atomic.
  - by eapply process_consensus_item_atomic.
  - by eapply fee_vote_submit_atomic.
Qed.

(** ** The invariant over histories *)

Section invariant.
Context (self : Amm) (Hwf : amm_wf self).

Lemma claim_preserves pk u r d d' :
  db_inv self d -> process_input_claim pk u d = (Ok r, d') -> db_inv self d'.
Proof.
  intros Hinv. rewrite claim_run. case_match; [|congruence]. intros E. simplify_eq.
  apply (db_inv_same_pools _ d); try apply Hinv; try done.
  by apply map_Forall_delete, Hinv.
Qed.

Lemma process_input_preserves i r d d' :
  db_inv self d -> input_wf i -> process_input i d = (Ok r, d') -> db_inv self d'.
Proof.
  intros Hinv Hi. destruct i; simpl in *; [by apply claim_preserves| |congruence].
  destruct_and!. by eapply withdraw_preserves.
Qed.

Lemma process_output_preserves o r d d' :
  db_inv self d -> output_wf o -> process_output self o d = (Ok r, d') -> db_inv self d'.
Proof.
  intros Hinv Ho. unfold process_output. simpl. destruct (verify_pop o); simpl; [|congruence].
  destruct o; simpl in *; destruct_and?; [by eapply swap_preserves|
    by eapply deposit_preserves|congruence].
Qed.

Lemma process_consensus_item_preserves it peer r d d' :
  db_inv self d -> process_consensus_item self it peer d = (Ok r, d') -> db_inv self d'.
Proof.
  intros Hinv Hr. destruct it; simpl in Hr; [|congruence]. run_inv Hr. zbool.
  apply (db_inv_same_pools _ d); try apply Hinv; try done.
  apply map_Forall_insert_2; [done|apply Hinv].
Qed.

Lemma fee_vote_submit_preserves auth pool fee r d d' :
  db_inv self d -> fee_vote_submit_endpoint self auth pool fee d = (Ok r, d') -> db_inv self d'.
Proof.
  intros Hinv Hr. unfold fee_vote_submit_endpoint in Hr. run_inv Hr. zbool.
  apply (db_inv_same_pools _ d); try apply Hinv; try done.
  apply map_Forall_insert_2; [done|apply Hinv].
Qed.

(** One accepted item: a transaction input or output, an ordered fee vote, or
    a guardian's own submission. *)
Inductive step (d : AmmDb) : AmmDb -> Prop :=
| step_input i r d' : input_wf i -> process_input i d = (Ok r, d') -> step d d'
| step_output o r d' : output_wf o -> process_output self o d = (Ok r, d') -> step d d'
| step_item it peer r d' : process_consensus_item self it peer d = (Ok r, d') -> step d d'
| step_submit auth pool fee r d' :
    fee_vote_submit_endpoint self auth pool fee d = (Ok r, d') -> step d d'.

Lemma step_preserves d d' : db_inv self d -> step d d' -> db_inv self d'.
Proof.
  intros Hinv []; eauto using process_input_preserves, process_output_preserves,
    process_consensus_item_preserves, fee_vote_submit_preserves.
Qed.

Lemma empty_db_inv : db_inv self empty_db.
Proof. constructor; simpl; apply map_Forall_empty. Qed.

Lemma reachable_inv_db d : rtc step empty_db d -> db_inv self d.
Proof. apply rtc_invariant; [apply step_preserves|apply empty_db_inv]. Qed.

(** C16: every database a federation can reach from the empty one, by any
    sequence of accepted inputs, outputs, votes and submissions, satisfies
    the invariant: reserves are positive and capped, shares sum to the
    total less the permanently locked minimum and are backed by the
    reserves, balances are positive and capped, votes lie in the band and
    name existing pools. *)
Theorem reachable_inv d : rtc step empty_db d -> db_inv self d.
Proof. apply reachable_inv_db. Qed.

(** A pool, once created, always keeps a positive amount on both sides and
    at least the minimum liquidity in shares, and is never deleted. *)
Theorem pool_persists d d' k p :
  rtc step empty_db d -> pools d !! k = Some p -> rtc step d d' ->
  exists p', pools d' !! k = Some p' /\ 0 < reserve_lo p' /\ 0 < reserve_hi p' /\
    MINIMUM_LIQUIDITY <= total_shares p'.
Proof.
  intros H0' Hp Hr. assert (is_Some (pools d' !! k)) as [p' Hp'].
  { revert Hr. apply (rtc_invariant step (fun d => is_Some (pools d !! k))); [|eauto]. intros y z Hy Hs. destruct Hs as [i r d1 _ E|o r d1 _ E|it peer r d1 E|a q f r d1 E].
    - destruct i; simpl in E; [rewrite claim_run in E; run_inv E; done| |congruence].
      apply withdraw_Ok in E as (? & ? & ? & []). subst. simpl.
      case_match; by apply pool_insert_is_Some.
    - unfold process_output in E. simpl in E.
      destruct (verify_pop o); simpl in E; [|congruence].
      destruct o; simpl in E; [| |congruence].
      + apply swap_Ok in E as (? & ? & ? & ? & []). subst. by apply pool_insert_is_Some.
      + apply deposit_run in E as [[-> _]|(? & ? & ? & [] & _)]; [done|].
        subst. by apply pool_insert_is_Some.
    - destruct it; simpl in E; run_inv E; done.
    - unfold fee_vote_submit_endpoint in E. run_inv E; done. }
  assert (db_inv self d') as Hinv by (apply reachable_inv_db; by etrans).
  pose proof (inv_pools _ _ Hinv _ _ Hp') as Hok.
  destruct (pool_ok_u64 _ _ Hinv _ _ Hok) as (_ & _ & _ & ?). destruct Hok.
  exists p'. split_and!; done || lia.
Qed.
End invariant.

(** ** Conservation of value *)

(** What the module owes in unit [u]: its reserves and its balances. *)
Definition reserve_in_unit (u : AmountUnit) (k : PoolId) (p : Pool) : Z :=
  (if u =? lo k then reserve_lo p else 0) + (if u =? hi k then reserve_hi p else 0).

Definition balance_in_unit (u : AmountUnit) (key : PublicKey * AmountUnit) (e : BalanceEntry) : Z :=
  if u =? key.2 then bal_amount e else 0.

Definition liabilities (d : AmmDb) (u : AmountUnit) : Z :=
  map_sum (reserve_in_unit u) (pools d) + map_sum (balance_in_unit u) (balances d).

Section conservation.
Context `{!AmountsOk} (self : Amm) (Hwf : amm_wf self) (d : AmmDb) (Hinv : db_inv self d).

Lemma claim_conserves pk u r d' u' :
  process_input_claim pk u d = (Ok r, d') ->
  liabilities d' u' = liabilities d u' - amount_of (amounts (amount r)) u'.
Proof.
  rewrite claim_run. destruct (balances d !! (pk, u)) as [e|] eqn:E; [|congruence].
  intros Hr. simplify_eq. unfold liabilities. simpl.
  rewrite (map_sum_delete _ (balances d) _ _ E), amount_of_new_custom.
  unfold balance_in_unit at 2. simpl. lia.
Qed.

Lemma withdraw_conserves k pk s a b x y r d' u :
  is_u64 s -> process_input_withdraw k pk s a b x y d = (Ok r, d') ->
  liabilities d' u = liabilities d u - amount_of (amounts (amount r)) u.
Proof.
  intros Hs Hr. apply withdraw_Ok in Hr as (p & pos & o & []).
  pose proof (inv_pools _ _ Hinv _ _ wd_pool) as Hok.
  destruct (pool_ok_u64 _ _ Hinv _ _ Hok) as (Hl & Hh & HS & _).
  apply burn_shares_Ok in wd_burn as (_&_&_&_&?&?&_); [|done..].
  destruct wd_amounts as (am & Ha1 & Ha2).
  rewrite (checked_add_unit_Some _ _ _ _ Ha2), (checked_add_unit_Some _ _ _ _ Ha1), amount_of_ZERO.
  transitivity (liabilities (put_pool k (mkPool (reserve_lo p - burn_da o)
    (reserve_hi p - burn_db o) (burn_new_total_shares o)) d) u).
  - rewrite wd_db, (u64_sub_id (reserve_lo p)), (u64_sub_id (reserve_hi p)) by (unfold_widths; lia).
    cbv zeta. case_match; reflexivity.
  - unfold liabilities. simpl. rewrite map_sum_insert, wd_pool.
    unfold reserve_in_unit at 2 3. simpl. repeat case_match; lia.
Qed.

Lemma swap_conserves ui uo a m pk t r d' u :
  is_u64 a -> process_output_swap self ui uo a m pk t d = (Ok r, d') ->
  liabilities d' u = liabilities d u + amount_of (amounts r) u.
Proof.
  intros Ha Hr. apply swap_Ok in Hr as (pid & pool & q & cr & []).
  destruct (swap_reserves _ Hwf _ _ _ _ _ _ _ Hinv Ha sw_pool sw_quote) as (_ & Hsub & _).
  destruct sw_quote. apply PoolId_new_Some in sw_pid as [Hc Hor]. unfold canonical in Hc.
  rewrite sw_amounts, amount_of_new_custom, sw_db, Hsub.
  unfold liabilities. simpl. rewrite !map_sum_insert, sw_pool.
  unfold balance_in_unit at 2 3, reserve_in_unit at 2 3. simpl.
  destruct (balances d !! (pk, uo)) eqn:Eb; simpl in *;
    destruct (in_is_lo q) eqn:El; simpl; symmetry in sf_lo; zbool;
    repeat case_match; zbool; lia.
Qed.

Lemma deposit_conserves k al ah ms pk t r d' u :
  canonical k -> is_u64 al -> is_u64 ah ->
  process_output_deposit self k al ah ms pk t d = (Ok r, d') ->
  liabilities d' u = liabilities d u + amount_of (amounts r) u.
Proof.
  intros Hc Hal Hah Hr. apply deposit_run in Hr as [[_ ?]|(p & o & sh & [] & Hr)]; [done|].
  destruct (checked_add_unit Amounts_ZERO al (lo k)) as [am|] eqn:E1; [|done].
  destruct (checked_add_unit am ah (hi k)) as [am'|] eqn:E2; [|done]. simplify_eq Hr. intros ->.
  simpl. rewrite (checked_add_unit_Some _ _ _ _ E2), (checked_add_unit_Some _ _ _ _ E1), amount_of_ZERO.
  subst d'. unfold liabilities. simpl. rewrite map_sum_insert.
  unfold reserve_in_unit at 2 3. simpl.
  destruct (pools d !! k) eqn:Ek; subst p; simpl; repeat case_match; lia.
Qed.
End conservation.

(** C2: value is conserved in every unit: an accepted output raises what the
    module owes in each unit by exactly the amount core is told it consumed,
    and an accepted input lowers it by exactly the amount it provides. *)
Theorem value_conserved `{!AmountsOk} self d :
  amm_wf self -> db_inv self d ->
  (forall o r d' u, output_wf o -> process_output self o d = (Ok r, d') ->
     liabilities d' u = liabilities d u + amount_of (amounts r) u) /\
  (forall i r d' u, input_wf i -> process_input i d = (Ok r, d') ->
     liabilities d' u = liabilities d u - amount_of (amounts (amount r)) u).
Proof.
  intros Hwf Hinv. split.
  - intros o r d' u Ho. unfold process_output. simpl.
    destruct (verify_pop o); simpl; [|congruence].
    destruct o; simpl in *; destruct_and?; [by eapply swap_conserves|
      by eapply deposit_conserves|congruence].
  - intros i r d' u Hi. destruct i; simpl in *; destruct_and?;
      [by apply claim_conserves|by eapply withdraw_conserves|congruence].
Qed.

(** ** Audit *)

Definition sum_list (l : list Z) : Z := foldr Z.add 0 l.

Lemma audit_items_ok {K V} `{Countable K} (f : V -> Z) (m : gmap K V) :
  map_Forall (fun _ v => f v <= I64_MAX) m ->
  exists items, audit_items f m = Some items /\
    sum_list items = - map_sum (fun _ v => f v) m /\
    length items = size m.
Proof.
  intros HF. unfold audit_items, map_sum. rewrite map_fold_foldr.
  rewrite map_Forall_to_list in HF. rewrite <- length_map_to_list.
  induction (map_to_list m) as [|[k v] l IH]; simpl; [by eexists|].
  apply Forall_cons in HF as [Hv HF]. destruct (IH HF) as (items & E & Hs & Hl).
  simpl in Hv. assert (try_i64 (f v) = Some (f v)) as -> by (by apply try_i64_Some).
  change (Z.opp <$> Some (f v)) with (Some (- f v)).
  unfold option_bind in E. rewrite E.
  eexists. split; [done|]. simpl. split; lia.
Qed.

(** On every database satisfying the invariant the audit succeeds (no
    conversion to [i64] panics) and reports exactly the negated reserves and
    balances. *)
Theorem audit_total self d :
  db_inv self d ->
  exists items, audit d = Some items /\
    length items = (2 * size (pools d) + size (balances d))%nat /\
    sum_list items = - (map_sum (fun _ p => reserve_lo p + reserve_hi p) (pools d)
                        + map_sum (fun _ e => bal_amount e) (balances d)).
Proof.
  intros Hinv.
  assert (MAX_RESERVE <= I64_MAX) as Hmax by (by vm_compute).
  destruct (audit_items_ok reserve_lo (pools d)) as (l1 & E1 & S1 & L1).
  { intros k p Hp. destruct (inv_pools _ _ Hinv k p Hp). lia. }
  destruct (audit_items_ok reserve_hi (pools d)) as (l2 & E2 & S2 & L2).
  { intros k p Hp. destruct (inv_pools _ _ Hinv k p Hp). lia. }
  destruct (audit_items_ok bal_amount (balances d)) as (l3 & E3 & S3 & L3).
  { intros k e He. pose proof (inv_bal _ _ Hinv k e He). simpl in *. lia. }
  exists (l1 ++ l2 ++ l3). unfold audit. rewrite E1, E2, E3. simpl. split; [done|].
  assert (forall a b, sum_list (a ++ b) = sum_list a + sum_list b) as Happ.
  { induction a as [|x a IH]; intros b; simpl; [done|]. rewrite IH. lia. }
  rewrite !length_app, !Happ, S1, S2, S3, L1, L2, L3. split; [lia|].
  rewrite (map_sum_add (fun _ p => reserve_lo p) (fun _ p => reserve_hi p)). lia.
Qed.

(** ** Claims and quotes *)

(** A balance is claimed in full and once: a claim succeeds exactly when the
    record exists, reports its whole amount under the claimed unit, asks for
    the owner's signature, and a second claim finds nothing. *)
Theorem claim_once pk u d :
  (forall e, balances d !! (pk, u) = Some e ->
     exists d', process_input (ClaimBalanceV0 pk u) d =
       (Ok (mkInputMeta (mkTransactionItemAmounts (new_custom u (bal_amount e)) Amounts_ZERO) pk), d') /\
       process_input (ClaimBalanceV0 pk u) d' = (Err AmmInputError.NoSuchBalance, d')) /\
  (balances d !! (pk, u) = None ->
     process_input (ClaimBalanceV0 pk u) d = (Err AmmInputError.NoSuchBalance, d)).
Proof.
  simpl. split.
  - intros e E. rewrite claim_run, E. eexists. split; [done|].
    rewrite claim_run. simpl. by rewrite lookup_delete_eq.
  - intros E. by rewrite claim_run, E.
Qed.

(** A quote carried out in the state it was taken in: the run, and the two tables
    it writes. *)
Lemma quote_settles self d ui uo a m pk t sg q :
  amm_wf self -> db_inv self d -> is_u64 a ->
  quote_endpoint self d ui uo a = Ok q ->
  verify_pop (SwapV0 ui uo a m pk t sg) = true ->
  m <= quote_amount_out q ->
  default 0 (bal_amount <$> balances d !! (pk, uo)) + quote_amount_out q <= MAX_RESERVE ->
  exists d' pid pool sq, PoolId_new ui uo = Some pid /\ pools d !! pid = Some pool /\
    swap_facts self d pool pid ui a None sq /\ dy sq = quote_amount_out q /\
    process_output self (SwapV0 ui uo a m pk t sg) d =
      (Ok (mkTransactionItemAmounts (new_custom ui a) Amounts_ZERO), d') /\
    pools d' = <[pid := if in_is_lo sq
                        then mkPool (reserve_in_new sq) (quote_reserve_out sq - dy sq) (total_shares pool)
                        else mkPool (quote_reserve_out sq - dy sq) (reserve_in_new sq) (total_shares pool)]> (pools d) /\
    balances d' = <[(pk, uo) := mkBalanceEntry
      (default 0 (bal_amount <$> balances d !! (pk, uo)) + quote_amount_out q) t]> (balances d).
Proof.
  intros Hwf Hinv Ha Hq Hv Hm Hroom. unfold quote_endpoint in Hq. run_inv Hq. ok_facts.
  rename a0 into pid, a1 into pool, a2 into sq. simpl in *.
  pose proof (quote_swap_min _ _ _ _ _ _ m _ Heqr1 Hm) as Hs.
  apply quote_swap_Ok in Heqr1 as Hf.
  destruct (swap_reserves _ Hwf _ _ _ _ _ _ _ Hinv Ha Heqr0 Hf) as (Hdy & Hsub & Hk & Hi & Ho).
  unfold process_output. simpl. rewrite Hv. unfold process_output_swap. simpl.
  rewrite Heqr. simpl. rewrite Heqr0. simpl. rewrite Hs. simpl.
  assert (k_non_decreasing (quote_reserve_in sq) (quote_reserve_out sq) (reserve_in_new sq)
    (u64_sub (quote_reserve_out sq) (dy sq)) = true) as ->.
  { rewrite Hsub. destruct Hf. rewrite sf_new.
    pose proof (inv_pools _ _ Hinv _ _ Heqr0) as Hok.
    destruct (pool_ok_u64 _ _ Hinv _ _ Hok) as (Hl & Hh & _ & _).
    eapply swap_passes_k; [rewrite sf_in; by case_match|rewrite sf_out; by case_match|done| |done].
    by apply consensus_fee_wf. }
  simpl. rewrite Hsub.
  destruct (balances d !! (pk, uo)) as [e|] eqn:Eb; simpl in *.
  - pose proof (inv_bal _ _ Hinv _ _ Eb). simpl in *.
    unfold checked_add_u64. rewrite MAX_RESERVE_val in *.
    rewrite (proj2 (Z.leb_le _ _)) by (unfold U64_MAX; lia). simpl.
    rewrite (proj2 (Z.ltb_ge _ _)) by lia. simpl.
    eexists _, pid, pool, sq. split_and!; done.
  - eexists _, pid, pool, sq. split_and!; done.
Qed.

(** A quote is what settlement pays: when the quote endpoint answers [dy] for
    a swap, a swap of the same amount with a valid proof and a minimum of at
    most [dy] is accepted in the same state, provided the recipient's balance
    has room, and credits exactly [dy] to the recipient. *)
Theorem quote_is_settlement self d ui uo a m pk t sg q :
  amm_wf self -> db_inv self d -> is_u64 a ->
  quote_endpoint self d ui uo a = Ok q ->
  verify_pop (SwapV0 ui uo a m pk t sg) = true ->
  m <= quote_amount_out q ->
  default 0 (bal_amount <$> balances d !! (pk, uo)) + quote_amount_out q <= MAX_RESERVE ->
  exists d', process_output self (SwapV0 ui uo a m pk t sg) d =
      (Ok (mkTransactionItemAmounts (new_custom ui a) Amounts_ZERO), d') /\
    balances d' !! (pk, uo) = Some (mkBalanceEntry
      (default 0 (bal_amount <$> balances d !! (pk, uo)) + quote_amount_out q) t).
Proof.
  intros Hwf Hinv Ha Hq Hv Hm Hroom.
  destruct (quote_settles self d ui uo a m pk t sg q Hwf Hinv Ha Hq Hv Hm Hroom)
    as (d' & pid & pool & sq & _ & _ & _ & _ & Hr & _ & Hb).
  exists d'. split; [exact Hr|]. rewrite Hb. apply lookup_insert_eq.
Qed.
End safety.

(** ** A concrete history *)

Definition demo_amm : Amm := mkAmm default_consensus_config 3 0.
Definition demo_pool : PoolId := mkPoolId 0 1.
Definition demo_tweak : list Z := replicate 16 7.

Lemma demo_amm_wf : amm_wf demo_amm.
Proof.
  constructor; [apply validate_correct; by vm_compute|by vm_compute|simpl; lia].
Qed.

Section demo.
#[local] Existing Instance toy_crypto.
#[local] Existing Instance map_amounts.
#[local] Existing Instance u64_codec.
#[local] Existing Instance pk_codec.
#[local] Existing Instance tweak_codec.

Definition demo_deposit : @AmmOutput toy_crypto :=
  new_deposit_v0 (5 : @Keypair toy_crypto) demo_pool 1000000 2000000 0 demo_tweak.
Definition demo_swap : @AmmOutput toy_crypto :=
  new_swap_v0 (9 : @Keypair toy_crypto) 0 1 10000 19000 demo_tweak.
Definition demo_swapper : PublicKey := @public_key toy_crypto (9 : @Keypair toy_crypto).

Definition demo_db1 : AmmDb := (process_output demo_amm demo_deposit empty_db).2.
Definition demo_db2 : AmmDb := (process_output demo_amm demo_swap demo_db1).2.

Lemma demo_deposit_wf : output_wf demo_deposit.
Proof. unfold output_wf, demo_deposit, new_deposit_v0, canonical, pk_ok, tweak_ok; unfold_widths;
  vm_compute; intuition discriminate. Qed.
Lemma demo_swap_wf : output_wf demo_swap.
Proof. unfold output_wf, demo_swap, new_swap_v0, pk_ok, tweak_ok; unfold_widths;
  vm_compute; intuition discriminate. Qed.

Lemma demo_run1 : rtc (step demo_amm) empty_db demo_db1.
Proof.
  destruct (run_ok (process_output demo_amm demo_deposit empty_db)) as [r E]; [by vm_compute|].
  eapply rtc_once, step_output; [apply demo_deposit_wf|apply E].
Qed.

Lemma demo_run2 : exists r, process_output demo_amm demo_swap demo_db1 = (Ok r, demo_db2) /\
  amount_of (amounts r) 0 = 10000.
Proof.
  apply (run_ok_val (process_output demo_amm demo_swap demo_db1)
           (fun r => amount_of (amounts r) 0)).
  by vm_compute.
Qed.

Lemma demo_run : rtc (step demo_amm) empty_db demo_db2.
Proof.
  destruct demo_run2 as (r & E & _).
  eapply rtc_r; [apply demo_run1|]. eapply step_output; [apply demo_swap_wf|apply E].
Qed.

Lemma reachable_inv_witness : db_inv demo_amm demo_db2.
Proof. apply (reachable_inv demo_amm demo_amm_wf). apply demo_run. Defined.

Lemma pool_persists_witness :
  exists p', pools demo_db2 !! demo_pool = Some p' /\ 0 < reserve_lo p' /\ 0 < reserve_hi p' /\
    MINIMUM_LIQUIDITY <= total_shares p'.
Proof.
  apply (pool_persists demo_amm demo_amm_wf demo_db2 demo_db2 demo_pool
           (mkPool 1010000 1980257 1414213)); [apply demo_run|vm_compute; reflexivity|apply rtc_refl].
Defined.

Lemma handlers_atomic_witness : (process_output demo_amm demo_swap empty_db).2 = empty_db.
Proof.
  destruct (@handlers_atomic toy_crypto map_amounts u64_codec pk_codec tweak_codec
              map_amounts_ok demo_amm empty_db) as (_ & Hout & _).
  destruct (run_err (process_output demo_amm demo_swap empty_db)) as [e E]; [by vm_compute|].
  apply (Hout demo_swap e _ demo_swap_wf E).
Defined.

Lemma value_conserved_witness :
  liabilities demo_db2 0 = liabilities demo_db1 0 + 10000.
Proof.
  destruct (@value_conserved toy_crypto map_amounts u64_codec pk_codec tweak_codec
              map_amounts_ok demo_amm demo_db1 demo_amm_wf) as [Hout _].
  - apply (reachable_inv_db demo_amm demo_amm_wf), demo_run1.
  - destruct demo_run2 as (r & E & Ha). rewrite (Hout demo_swap r demo_db2 0 demo_swap_wf E).
    by rewrite Ha.
Defined.

Lemma audit_total_witness :
  exists items, audit demo_db2 = Some items /\ length items = 3%nat /\
    sum_list items = - (1010000 + 1980257 + 19743).
Proof.
  destruct (audit_total demo_amm demo_db2) as (items & H1 & H2 & H3).
  - apply (reachable_inv_db demo_amm demo_amm_wf), demo_run.
  - exists items. split; [done|]. split; [rewrite H2; by vm_compute|rewrite H3; by vm_compute].
Defined.

Definition demo_swap_sig : @Signature toy_crypto :=
  sign_pop (9 : @Keypair toy_crypto) (swap_pop_message 0 1 10000 19000 demo_swapper demo_tweak).

Lemma quote_is_settlement_witness :
  exists d', process_output demo_amm
      (SwapV0 0 1 10000 19000 demo_swapper demo_tweak demo_swap_sig) demo_db1 =
      (Ok (mkTransactionItemAmounts (new_custom 0 10000) Amounts_ZERO), d') /\
    bal_amount <$> balances d' !! (demo_swapper, 1) = Some 19743.
Proof.
  destruct (quote_is_settlement demo_amm demo_db1 0 1 10000 19000 demo_swapper demo_tweak
           demo_swap_sig (mkQuoteResponse 19743 13) demo_amm_wf) as (d' & E1 & E2).
  - apply (reachable_inv_db demo_amm demo_amm_wf), demo_run1.
  - unfold_widths; lia.
  - vm_compute; reflexivity.
  - vm_compute; reflexivity.
  - simpl; lia.
  - vm_compute. discriminate.
  - exists d'. split; [exact E1|]. rewrite E2. by vm_compute.
Defined.
End demo.
