(* ===== verification/AmmFees.v ===== *)
(** * Fee votes

    How the guardians' votes become the fee a pool charges
    ([Amm::consensus_fee_for]), and why a vote that did not land is proposed
    again until it does ([consensus_proposal]). *)

From S2P Require Import Prelude OrderStats FedimintCore AmmMath AmmPoolId AmmConfig AmmTypes AmmServer AmmInvariant.

(** ** The voted fee *)

Lemma votes_for_elem d pool peer fee :
  (peer, fee) ∈ votes_for d pool <-> fee_votes d !! (pool, peer) = Some fee.
Proof.
  unfold votes_for. rewrite list_elem_of_omap. split.
  - intros ([[p peer'] fee'] & Hin & E). apply elem_of_map_to_list in Hin.
    case_bool_decide; by simplify_eq.
  - intros Hv. exists ((pool, peer), fee). split; [by apply elem_of_map_to_list|].
    by rewrite bool_decide_eq_true_2.
Qed.

Section aggregation.
Context (self : Amm) (d : AmmDb) (pool : PoolId).
Context (honest : PeerId -> Prop) `{!forall p, Decision (honest p)}.

Definition honest_votes : list (PeerId * Z) := filter (fun v => honest v.1) (votes_for d pool).
Definition faulty_votes : list (PeerId * Z) := filter (fun v => ~ honest v.1) (votes_for d pool).

Lemma votes_split : (length honest_votes + length faulty_votes)%nat = length (votes_for d pool).
Proof. apply length_filter_split. Qed.

Lemma voted_fee_bracketed x :
  (length faulty_votes < threshold self)%nat -> (threshold self <= length honest_votes)%nat ->
  merge_sort Z.le (votes_for d pool).*2 !! (threshold self - 1)%nat = Some x ->
  exists v1 v2, v1 ∈ honest_votes /\ v2 ∈ honest_votes /\ v1.2 <= x <= v2.2.
Proof.
  intros Hf Hh Hx. pose proof votes_split. unfold honest_votes, faulty_votes in *.
  destruct (kth_bracketed snd (fun v : PeerId * Z => honest v.1) (votes_for d pool)
    (threshold self - 1) x) as [(v1 & ? & ? & ?) (v2 & ? & ? & ?)]; [lia|lia|exact Hx|].
  exists v1, v2. by rewrite !list_elem_of_filter.
Qed.
End aggregation.

(** The fee a pool charges is bracketed by honest votes: when at least a
    threshold of honest guardians have voted and fewer than a threshold of the
    votes are faulty, some honest vote is at most the charged fee and some
    honest vote is at least it. *)
Theorem consensus_fee_bracketed self d pool (honest : PeerId -> Prop)
    `{!forall p, Decision (honest p)} :
  amm_wf self -> db_inv self d ->
  (length (faulty_votes d pool honest) < threshold self)%nat ->
  (threshold self <= length (honest_votes d pool honest))%nat ->
  exists v1 v2, v1 ∈ honest_votes d pool honest /\ v2 ∈ honest_votes d pool honest /\
    v1.2 <= consensus_fee_for self d pool <= v2.2.
Proof.
  intros Hwf Hinv Hf Hh. pose proof (votes_split d pool honest).
  destruct (lookup_lt_is_Some_2 (merge_sort Z.le (votes_for d pool).*2) (threshold self - 1))
    as [x Hx].
  { rewrite merge_sort_Permutation, length_fmap. destruct Hwf. lia. }
  destruct (voted_fee_bracketed self d pool honest x Hf Hh Hx) as (v1 & v2 & H1 & H2 & Hb).
  exists v1, v2. split; [done|]. split; [done|].
  unfold consensus_fee_for. rewrite Hx. simpl.
  assert (forall v, v ∈ honest_votes d pool honest -> fee_in_band (cfg self) v.2 = true) as Hin.
  { intros [peer fee] Hv. apply list_elem_of_filter in Hv as [_ Hv].
    apply votes_for_elem in Hv. by apply (inv_votes _ _ Hinv) in Hv as [? _]. }
  pose proof (Hin _ H1) as B1. pose proof (Hin _ H2) as B2.
  unfold fee_in_band in B1, B2. zbool.
  unfold clamp_fee_to_band. rewrite clamp_id; lia.
Qed.

(** Four guardians, threshold three; the pool of units 0 and 1. *)
Definition vote_amm : Amm := mkAmm default_consensus_config 3 0.
Definition vote_db (votes : list (Z * Z)) : AmmDb :=
  mkAmmDb {[ mkPoolId 0 1 := mkPool 2000000 2000000 1000 ]} ∅ ∅
    (list_to_map (map (fun v => ((mkPoolId 0 1, v.1), v.2)) votes)) ∅.

Lemma vote_amm_wf : amm_wf vote_amm.
Proof. constructor; [apply validate_correct; by vm_compute|by vm_compute|simpl; lia]. Qed.

Lemma vote_db_inv votes :
  Forall (fun v => fee_in_band default_consensus_config v.2 = true) votes ->
  db_inv vote_amm (vote_db votes).
Proof.
  intros HF. constructor; simpl.
  - apply map_Forall_singleton. constructor; simpl; rewrite ?MAX_RESERVE_val;
      unfold canonical, backed; simpl; try lia; try (by eexists).
  - apply map_Forall_empty.
  - apply map_Forall_empty.
  - intros key fee Hk. apply elem_of_list_to_map_2 in Hk.
    apply list_elem_of_In, in_map_iff in Hk as ([p f] & E & Hin). simplify_eq E. intros <- ->.
    split; [|by rewrite lookup_singleton_eq].
    rewrite Forall_forall in HF. apply (HF (p, fee)). by apply list_elem_of_In.
  - apply map_Forall_empty.
Qed.

Lemma consensus_fee_bracketed_witness :
  exists v1 v2,
    v1 ∈ honest_votes (vote_db [(0, 3); (1, 4); (2, 5); (3, 50)]) (mkPoolId 0 1) (fun p => p < 3) /\
    v2 ∈ honest_votes (vote_db [(0, 3); (1, 4); (2, 5); (3, 50)]) (mkPoolId 0 1) (fun p => p < 3) /\
    v1.2 <= consensus_fee_for vote_amm (vote_db [(0, 3); (1, 4); (2, 5); (3, 50)]) (mkPoolId 0 1)
      <= v2.2.
Proof.
  apply (consensus_fee_bracketed vote_amm (vote_db [(0, 3); (1, 4); (2, 5); (3, 50)])
           (mkPoolId 0 1) (fun p => p < 3) vote_amm_wf).
  - apply vote_db_inv. repeat constructor.
  - vm_compute. lia.
  - vm_compute. lia.
Defined.

(** Below a quorum of honest votes the bracket fails: in a federation of four
    with threshold three, one faulty guardian, and one honest guardian who has
    not voted yet, the faulty guardian alone sets the fee to the top of the
    band although both honest votes are three per mille. *)
Theorem one_faulty_vote_sets_fee :
  let d := vote_db [(0, 3); (1, 3); (3, 50)] in
  let pool := mkPoolId 0 1 in
  db_inv vote_amm d /\
  length (faulty_votes d pool (fun p => p <> 3)) = 1%nat /\
  Forall (fun v => v.2 = 3) (honest_votes d pool (fun p => p <> 3)) /\
  consensus_fee_for vote_amm d pool = 50.
Proof.
  cbv zeta. split; [apply vote_db_inv; repeat constructor|].
  split; [by vm_compute|]. split; [|by vm_compute].
  vm_compute. repeat constructor.
Qed.

(** ** Proposals *)

Lemma consensus_proposal_elem self d pool fee :
  FeeVoteV0 pool fee ∈ consensus_proposal self d <->
  desired_fees d !! pool = Some fee /\ is_Some (pools d !! pool) /\
  fee_votes d !! (pool, our_peer_id self) <> Some fee.
Proof.
  unfold consensus_proposal. rewrite list_elem_of_omap. split.
  - intros ([p f] & Hin & E). apply rows_by_pool_elem in Hin.
    destruct (pools d !! p) eqn:Ep; [|done]. case_bool_decide; [done|]. simplify_eq. eauto.
  - intros (Hd & [p Hp] & Hv). exists (pool, fee). split; [by apply rows_by_pool_elem|].
    by rewrite Hp, bool_decide_eq_false_2.
Qed.

(** Ordering one's own proposal: the item is accepted and leaves the others
    standing. *)
Lemma own_vote_lands self d pool fee :
  db_inv self d -> FeeVoteV0 pool fee ∈ consensus_proposal self d ->
  process_consensus_item self (FeeVoteV0 pool fee) (our_peer_id self) d =
    (Ok tt, put_fee_vote (pool, our_peer_id self) fee d).
Proof.
  intros Hinv Hin. apply consensus_proposal_elem in Hin as (Hd & Hp & Hv).
  apply (inv_desired _ _ Hinv) in Hd as [Hb _]. simpl. rewrite Hb.
  rewrite bool_decide_eq_true_2 by done. simpl. by rewrite bool_decide_eq_true_2 by done.
Qed.

(** One's own votes, ordered one after the other. *)
Fixpoint order_own_votes (self : Amm) (items : list AmmConsensusItem) (d : AmmDb)
    : result ConsensusItemError unit * AmmDb :=
  match items with
  | [] => (Ok tt, d)
  | item :: items =>
      match process_consensus_item self item (our_peer_id self) d with
      | (Ok _, d') => order_own_votes self items d'
      | (Err e, d') => (Err e, d')
      end
  end.

(** What is left to propose once the votes in [items] have landed. *)
Lemma order_own_votes_spec self items d :
  db_inv self d ->
  NoDup items -> (forall item, item ∈ items -> item ∈ consensus_proposal self d) ->
  exists d', order_own_votes self items d = (Ok tt, d') /\
    desired_fees d' = desired_fees d /\ pools d' = pools d /\
    (forall pool fee, FeeVoteV0 pool fee ∈ items \/
       fee_votes d !! (pool, our_peer_id self) = Some fee /\ desired_fees d !! pool = Some fee ->
       fee_votes d' !! (pool, our_peer_id self) = Some fee).
Proof.
  revert d. induction items as [|item items IH]; intros d Hinv Hnd Hsub.
  - exists d. split_and!; try done. intros pool fee [?|[? _]]; [set_solver|done].
  - apply NoDup_cons in Hnd as [Hni Hnd]. destruct item as [pool fee|v bs].
    2:{ exfalso. assert (ConsensusItemDefault v bs ∈ consensus_proposal self d) as Hc by (apply Hsub; set_solver).
        unfold consensus_proposal in Hc. apply list_elem_of_omap in Hc as ([p f] & _ & E).
        repeat case_match; done. }
    assert (FeeVoteV0 pool fee ∈ consensus_proposal self d) as Hin by (apply Hsub; set_solver).
    pose proof (own_vote_lands _ _ _ _ Hinv Hin) as Hrun. cbn [order_own_votes]. rewrite Hrun.
    apply consensus_proposal_elem in Hin as (Hd & Hp & Hv).
    assert (db_inv self (put_fee_vote (pool, our_peer_id self) fee d)) as Hinv'.
    { apply (db_inv_same_pools _ d); try apply Hinv; try done.
      apply map_Forall_insert_2; [|apply Hinv]. simpl. split; [|done].
      by apply (inv_desired _ _ Hinv) in Hd as [? _]. }
    destruct (IH (put_fee_vote (pool, our_peer_id self) fee d) Hinv' Hnd) as (d' & Hr & E1 & E2 & Hl).
    { intros it Hit. assert (it ∈ consensus_proposal self d) as Hpi by (apply Hsub; set_solver).
      destruct it as [p f|]; [|unfold consensus_proposal in Hpi;
        apply list_elem_of_omap in Hpi as ([? ?] & _ & E); repeat case_match; done].
      apply consensus_proposal_elem in Hpi as (Hd' & Hp' & Hv').
      apply consensus_proposal_elem. split_and!; try done. simpl.
      rewrite lookup_insert_ne; [done|]. intros E. by simplify_eq. }
    exists d'. split_and!; [done|done|done|]. intros p f Hor.
    apply Hl. simpl. destruct (decide ((p, f) = (pool, fee))) as [E|Hne].
    + simplify_eq. right. by rewrite lookup_insert_eq.
    + destruct Hor as [Hor|[Hv' Hd']]; [left; set_solver|right].
      rewrite lookup_insert_ne; [done|]. intros E. simplify_eq.
Qed.

Lemma consensus_proposal_nodup self d : NoDup (consensus_proposal self d).
Proof.
  unfold consensus_proposal.
  assert (NoDup (rows_by_pool (desired_fees d)).*1) as Hnd.
  { unfold rows_by_pool. rewrite merge_sort_Permutation. apply NoDup_fst_map_to_list. }
  induction (rows_by_pool (desired_fees d)) as [|[p f] l IH]; simpl in *; [constructor|].
  apply NoDup_cons in Hnd as [Hni Hnd]. specialize (IH Hnd).
  destruct (pools d !! p); [|done]. case_bool_decide; [done|]. simpl. constructor; [|done].
  intros Hin. apply list_elem_of_omap in Hin as ([p' f'] & Hin & E).
  repeat case_match; simplify_eq. apply Hni. apply list_elem_of_fmap. by exists (p, f).
Qed.

(** Proposals converge: once the items a guardian proposes have been ordered,
    each is accepted, the guardian's recorded votes equal its intents, and it
    has nothing left to propose. *)
Theorem proposals_drain self d :
  db_inv self d ->
  exists d', order_own_votes self (consensus_proposal self d) d = (Ok tt, d') /\
    consensus_proposal self d' = [].
Proof.
  intros Hinv.
  destruct (order_own_votes_spec self (consensus_proposal self d) d Hinv) as (d' & Hr & Ed & Ep & Hl);
    [apply consensus_proposal_nodup|done|].
  exists d'. split; [done|]. apply elem_of_nil_inv. intros [pool fee|v bs] Hin.
  - apply consensus_proposal_elem in Hin as (Hd & Hp & Hv). apply Hv, Hl.
    rewrite Ed in Hd. rewrite Ep in Hp.
    destruct (decide (fee_votes d !! (pool, our_peer_id self) = Some fee)); [by right|left].
    by apply consensus_proposal_elem.
  - unfold consensus_proposal in Hin. apply list_elem_of_omap in Hin as ([p f] & _ & E).
    repeat case_match; done.
Qed.

Lemma proposals_drain_witness :
  let d := mkAmmDb (pools (vote_db [])) ∅ ∅ ∅ {[ mkPoolId 0 1 := 7 ]} in
  exists d', order_own_votes vote_amm (consensus_proposal vote_amm d) d = (Ok tt, d') /\
    consensus_proposal vote_amm d' = [].
Proof.
  intros d. apply (proposals_drain vote_amm d).
  apply (db_inv_same_pools _ (vote_db [])); try done; try apply map_Forall_empty.
  - apply vote_db_inv. constructor.
  - apply map_Forall_singleton. split; [by vm_compute|by eexists].
Defined.
