(* ===== verification/AmmRecovery.v ===== *)
(** * Recovery pagination

    The keyset-cursor scan of [modules/amm/fedimint-amm-server/src/lib.rs]
    ([recovery_page_limit], [recovery_range], [recovery_page]) behind the two
    recovery endpoints.  The store is its ordered sequence of raw key-value
    rows; [raw_find_by_range] yields those between two byte strings. *)

From S2P Require Import Prelude FedimintCore AmmPoolId AmmTypes AmmServer.

Abbreviation bytes := (list Z).

Definition bytes_clamp (x lo hi : bytes) : bytes :=
  if bytes_lt x lo then lo else if bytes_lt hi x then hi else x.

Definition MAX_RECOVERY_PAGE_SIZE : Z := 500.
Definition MAX_RECOVERY_CURSOR_LEN : Z := 256.

Definition recovery_page_limit (requested : option Z) : nat :=
  Z.to_nat (clamp (default MAX_RECOVERY_PAGE_SIZE requested) 1 MAX_RECOVERY_PAGE_SIZE).

Definition recovery_range (db_prefix : Z) (cursor : option bytes) : bytes * bytes :=
  let prefix_start := [db_prefix] in
  let prefix_end := [db_prefix + 1] in
  let start := match cursor with
    | Some last_key_bytes => bytes_clamp (last_key_bytes ++ [0]) prefix_start prefix_end
    | None => prefix_start
    end in
  (start, prefix_end).

(** Rows of the store in ascending key order. *)
Abbreviation raw_db := (list (bytes * bytes)).

Definition raw_find_by_range (db : raw_db) (start stop : bytes) : raw_db :=
  filter (fun kv => Is_true (negb (bytes_lt kv.1 start) && bytes_lt kv.1 stop)) db.

Inductive RecoveryError := CursorTooLarge | MalformedCursor | CorruptKey | CorruptValue.

Record RecoveryPage (K V : Type) := mkRecoveryPage {
  page_rows : list (K * V);
  next_cursor : option bytes;
}.
Arguments mkRecoveryPage {K V} _ _.
Arguments page_rows {K V} _.
Arguments next_cursor {K V} _.

Section page.
Context {K V : Type} (key_from_bytes : bytes -> option K) (value_from_bytes : bytes -> option V).

(** The decoding loop, which keeps the raw key beside the decoded row. *)
Fixpoint decode_rows (rows : raw_db) : result RecoveryError (list (bytes * K * V)) :=
  match rows with
  | [] => Ok []
  | (key_bytes, value_bytes) :: rows =>
      key ← ok_or (key_from_bytes key_bytes) CorruptKey;
      value ← ok_or (value_from_bytes value_bytes) CorruptValue;
      rest ← decode_rows rows;
      Ok ((key_bytes, key, value) :: rest)
  end.

Definition recovery_page (db : raw_db) (db_prefix : Z) (cursor : option bytes)
    (requested : option Z) : result RecoveryError (RecoveryPage K V) :=
  if (match cursor with Some c => MAX_RECOVERY_CURSOR_LEN <? Z.of_nat (length c) | None => false end)
  then Err CursorTooLarge
  else
    let limit := recovery_page_limit requested in
    if (match cursor with
        | Some c => negb (bool_decide (is_Some (key_from_bytes c)))
        | None => false end)
    then Err MalformedCursor
    else
      let '(start, stop) := recovery_range db_prefix cursor in
      rows ← decode_rows (take (limit + 1) (raw_find_by_range db start stop));
      let has_more := (limit <? length rows)%nat in
      let rows := if has_more then take limit rows else rows in
      let next_cursor := if has_more then (fun r => r.1.1) <$> last rows else None in
      Ok (mkRecoveryPage (map (fun r => (r.1.2, r.2)) rows) next_cursor).

(** A client following [next_cursor] to the end. *)
Fixpoint collect (fuel : nat) (db : raw_db) (db_prefix : Z) (cursor : option bytes)
    (requested : option Z) : result RecoveryError (list (K * V) * bool) :=
  match fuel with
  | O => Ok ([], false)
  | S fuel =>
      page ← recovery_page db db_prefix cursor requested;
      match next_cursor page with
      | None => Ok (page_rows page, true)
      | Some c =>
          '(rest, done) ← collect fuel db db_prefix (Some c) requested;
          Ok (page_rows page ++ rest, done)
      end
  end.
End page.

(** ** The byte order *)

Definition is_bytes (b : bytes) : Prop := Forall (fun x => 0 <= x) b.

Lemma bytes_lt_irrefl a : bytes_lt a a = false.
Proof. induction a as [|x a IH]; simpl; [done|]. rewrite Z.ltb_irrefl, Z.eqb_refl. simpl. done. Qed.

Lemma bytes_lt_trans a b c : bytes_lt a b = true -> bytes_lt b c = true -> bytes_lt a c = true.
Proof.
  revert b c. induction a as [|x a IH]; intros [|y b] [|z c]; simpl; try done.
  rewrite !orb_true_iff, !andb_true_iff, !Z.ltb_lt, !Z.eqb_eq.
  intros [?|[-> ?]] [?|[-> ?]]; [left; lia|left; lia|left; lia|right]. eauto.
Qed.

Lemma bytes_lt_total a b : bytes_lt a b = false -> bytes_lt b a = true \/ a = b.
Proof.
  revert b. induction a as [|x a IH]; intros [|y b]; simpl; try done; auto.
  rewrite orb_false_iff, andb_false_iff, Z.ltb_ge, Z.eqb_neq. intros [? H].
  rewrite orb_true_iff, andb_true_iff, Z.ltb_lt, Z.eqb_eq.
  destruct (decide (x = y)) as [->|]; [|left; left; lia].
  destruct H as [?|H]; [lia|]. destruct (IH _ H) as [?| ->]; auto.
Qed.

(** Appending a zero byte is the successor of a key among byte strings. *)
Lemma bytes_lt_succ a k : is_bytes k -> bytes_lt k (a ++ [0]) = negb (bytes_lt a k).
Proof.
  revert k. induction a as [|x a IH]; intros [|y k] Hk; simpl; try done.
  - inversion Hk. rewrite (proj2 (Z.ltb_ge _ _)) by lia. simpl.
    destruct k; simpl; by rewrite andb_false_r.
  - inversion Hk. rewrite IH by done.
    destruct (Z.ltb_spec x y), (Z.ltb_spec y x), (Z.eqb_spec x y), (Z.eqb_spec y x); simpl; lia || done.
Qed.

(** ** Pages of a table *)

Definition row_lt (r r' : bytes * bytes) : Prop := bytes_lt r.1 r'.1 = true.

(** The rows whose keys carry the table's prefix byte. *)
Definition table (db : raw_db) (db_prefix : Z) : raw_db :=
  raw_find_by_range db [db_prefix] [db_prefix + 1].

(** The rows of a table that follow a cursor. *)
Definition rest_of (db : raw_db) (db_prefix : Z) (cursor : option bytes) : raw_db :=
  match cursor with
  | None => table db db_prefix
  | Some c => filter (fun kv => Is_true (bytes_lt c kv.1)) (table db db_prefix)
  end.

Lemma filter_sorted (P : bytes * bytes -> Prop) `{!forall x, Decision (P x)} l :
  StronglySorted row_lt l -> StronglySorted row_lt (filter P l).
Proof.
  induction 1 as [|x l Hs IH HF]; [constructor|]. rewrite filter_cons. case_decide; [|done].
  constructor; [done|]. rewrite !Forall_forall in *. intros y Hy.
  apply HF. by apply list_elem_of_filter in Hy as [_ ?].
Qed.

Lemma filter_after (a b : raw_db) x :
  StronglySorted row_lt (a ++ x :: b) ->
  filter (fun kv => Is_true (bytes_lt x.1 kv.1)) (a ++ x :: b) = b.
Proof.
  induction a as [|y a IH]; simpl; intros Hs; inversion Hs as [|? ? Hs' HF]; subst.
  - rewrite filter_cons_False by (rewrite bytes_lt_irrefl; auto).
    clear -HF. induction HF as [|z l Hz _ IH]; [done|].
    rewrite filter_cons_True by (unfold row_lt in Hz; rewrite Hz; done). by rewrite IH.
  - rewrite filter_cons_False; [auto|]. rewrite Forall_app, Forall_cons in HF.
    destruct HF as (_ & Hyx & _). unfold row_lt in Hyx. intros Hc%Is_true_true.
    pose proof (bytes_lt_trans _ _ _ Hyx Hc) as Hr. by rewrite bytes_lt_irrefl in Hr.
Qed.

(** The scan never leaves the table: whatever the cursor, the range start is at
    least the prefix and the range ends before the next one. *)
Lemma recovery_range_in_table p cursor :
  let '(start, stop) := recovery_range p cursor in
  bytes_lt start [p] = false /\ stop = [p + 1].
Proof.
  unfold recovery_range. destruct cursor as [c|]; [|by rewrite bytes_lt_irrefl].
  split; [|done]. unfold bytes_clamp.
  destruct (bytes_lt (c ++ [0]) [p]) eqn:E1; [apply bytes_lt_irrefl|].
  destruct (bytes_lt [p + 1] (c ++ [0])) eqn:E2; [|done].
  simpl. rewrite (proj2 (Z.ltb_ge _ _)) by lia. by rewrite andb_false_r.
Qed.

Lemma scan_sub_table db p cursor :
  let '(start, stop) := recovery_range p cursor in
  forall r, r ∈ raw_find_by_range db start stop -> r ∈ table db p.
Proof.
  pose proof (recovery_range_in_table p cursor) as Hr. destruct (recovery_range p cursor) as [start stop].
  destruct Hr as [Hs ->]. intros r. unfold table, raw_find_by_range.
  rewrite !list_elem_of_filter, !Is_true_true, !andb_true_iff, !negb_true_iff.
  intros ((H1 & H2) & Hin). split_and!; try done.
  destruct (bytes_lt r.1 [p]) eqn:E; [|done].
  apply bytes_lt_total in Hs as [Hs|Hs]; [|congruence].
  by rewrite (bytes_lt_trans _ _ _ E Hs) in H1.
Qed.

(** From a cursor inside the table, the scan is what follows it. *)
Lemma scan_rest db p cursor :
  Forall (fun r => is_bytes r.1) db ->
  match cursor with
  | Some c => bytes_lt c [p] = false /\ bytes_lt c [p + 1] = true /\ is_bytes c
  | None => True
  end ->
  0 <= p ->
  let '(start, stop) := recovery_range p cursor in
  raw_find_by_range db start stop = rest_of db p cursor.
Proof.
  intros Hb Hc Hp. unfold recovery_range, rest_of. destruct cursor as [c|]; [|done].
  destruct Hc as (H1 & H2 & H3).
  assert (bytes_clamp (c ++ [0]) [p] [p + 1] = c ++ [0]) as ->.
  { unfold bytes_clamp.
    rewrite (bytes_lt_succ c [p + 1]) by (repeat constructor; lia). rewrite H2. simpl.
    destruct (bytes_lt (c ++ [0]) [p]) eqn:E; [|done].
    exfalso. assert (bytes_lt c (c ++ [0]) = true) as Hcc.
    { clear. induction c as [|x c IH]; simpl; [done|]. by rewrite Z.eqb_refl, IH, orb_true_r. }
    by rewrite (bytes_lt_trans _ _ _ Hcc E) in H1. }
  unfold table, raw_find_by_range. rewrite list_filter_filter.
  apply list_filter_iff'. intros r Hr. rewrite Forall_forall in Hb.
  rewrite (bytes_lt_succ c r.1) by auto. rewrite negb_involutive.
  rewrite !Is_true_true, !andb_true_iff, negb_true_iff. split; [|tauto].
  intros [Hcr Hr2]. split_and!; try done.
  destruct (bytes_lt r.1 [p]) eqn:E; [|done].
  by rewrite (bytes_lt_trans _ _ _ Hcr E) in H1.
Qed.

Section pages.
Context {K V : Type} (key_from_bytes : bytes -> option K) (value_from_bytes : bytes -> option V).
Implicit Types db : raw_db.

Definition decode_row (r : bytes * bytes) : option (K * V) :=
  match key_from_bytes r.1, value_from_bytes r.2 with
  | Some k, Some v => Some (k, v)
  | _, _ => None
  end.

Definition decoded (rows : raw_db) : list (K * V) := omap decode_row rows.

(** What the server itself wrote: decodable rows with short byte-string keys. *)
Definition row_ok (r : bytes * bytes) : Prop :=
  is_Some (decode_row r) /\ is_bytes r.1 /\ Z.of_nat (length r.1) <= MAX_RECOVERY_CURSOR_LEN.

Record store_ok (db : raw_db) (p : Z) : Prop := {
  store_sorted : StronglySorted row_lt db;
  store_bytes : Forall (fun r => is_bytes r.1) db;
  store_rows : Forall row_ok (table db p);
  store_prefix : 0 <= p;
}.

(** A decoded row beside the raw row it came from. *)
Definition row_rel (r : bytes * bytes) (o : bytes * K * V) : Prop :=
  o.1.1 = r.1 /\ decode_row r = Some (o.1.2, o.2).

Lemma decode_rows_ok rows :
  Forall row_ok rows ->
  exists out, decode_rows key_from_bytes value_from_bytes rows = Ok out /\
    Forall2 row_rel rows out.
Proof.
  induction 1 as [|[kb vb] rows [[[k v] Hd] _] _ IH]; simpl; [by exists []|].
  destruct IH as (out & -> & HF). unfold decode_row in *. simpl in *.
  destruct (key_from_bytes kb) as [k'|] eqn:Ek; [|done].
  destruct (value_from_bytes vb) as [v'|] eqn:Ev; [|done].
  simplify_eq. simpl. eexists. split; [done|]. constructor; [|done].
  split; [done|]. unfold decode_row. simpl. by rewrite Ek, Ev.
Qed.

Lemma row_rel_decoded rows out :
  Forall2 row_rel rows out ->
  map (fun r => (r.1.2, r.2)) out = decoded rows /\
  (fun r => r.1.1) <$> last out = fst <$> last rows.
Proof.
  intros HF. split.
  - induction HF as [|r o rows out [_ E] _ IH]; [done|]. unfold decoded in *. simpl. by rewrite E, IH.
  - induction HF as [|r o rows out [E _] HF IH]; [done|].
    destruct HF; [simpl; by rewrite E|]. by rewrite !last_cons_cons.
Qed.

Lemma limit_pos req : (1 <= recovery_page_limit req <= 500)%nat.
Proof.
  unfold recovery_page_limit, MAX_RECOVERY_PAGE_SIZE.
  pose proof (clamp_in (default 500 req) 1 500 ltac:(lia)). lia.
Qed.

Lemma rest_of_sub db p cursor r : r ∈ rest_of db p cursor -> r ∈ table db p.
Proof. destruct cursor; simpl; [|done]. by intros [_ ?]%list_elem_of_filter. Qed.

Definition cursor_ok db p (cursor : option bytes) : Prop :=
  match cursor with Some c => exists v, (c, v) ∈ table db p | None => True end.

Lemma table_key_range db p c v :
  (c, v) ∈ table db p -> bytes_lt c [p] = false /\ bytes_lt c [p + 1] = true.
Proof.
  unfold table, raw_find_by_range.
  rewrite list_elem_of_filter, Is_true_true, andb_true_iff, negb_true_iff. tauto.
Qed.

(** One page from a cursor the server handed out: the next [limit] rows, and a
    cursor exactly when more remain. *)
Lemma recovery_page_spec db p cursor req :
  store_ok db p -> cursor_ok db p cursor ->
  let limit := recovery_page_limit req in
  let rest := rest_of db p cursor in
  recovery_page key_from_bytes value_from_bytes db p cursor req =
    Ok (if (limit <? length rest)%nat
        then mkRecoveryPage (decoded (take limit rest)) (fst <$> last (take limit rest))
        else mkRecoveryPage (decoded rest) None).
Proof.
  intros Hst Hc limit rest. destruct Hst as [Hs Hb Hr Hp].
  assert (forall c, cursor = Some c -> exists v, (c, v) ∈ table db p /\ row_ok (c, v)) as Hrow.
  { intros c ->. destruct Hc as [v Hv]. exists v. split; [done|].
    rewrite Forall_forall in Hr. auto. }
  unfold recovery_page.
  assert ((match cursor with Some c => MAX_RECOVERY_CURSOR_LEN <? Z.of_nat (length c)
           | None => false end) = false) as ->.
  { destruct cursor as [c|]; [|done]. destruct (Hrow c eq_refl) as (v & _ & _ & _ & Hl).
    by apply Z.ltb_ge. }
  assert ((match cursor with Some c => negb (bool_decide (is_Some (key_from_bytes c)))
           | None => false end) = false) as ->.
  { destruct cursor as [c|]; [|done]. destruct (Hrow c eq_refl) as (v & _ & [kv Hd] & _).
    unfold decode_row in Hd. simpl in Hd. destruct (key_from_bytes c); [|done].
    by rewrite bool_decide_eq_true_2 by eauto. }
  pose proof (scan_rest db p cursor Hb) as Hscan. destruct (recovery_range p cursor) as [start stop].
  rewrite Hscan; [|destruct cursor as [c|]; [|done]|done].
  2: { destruct (Hrow c eq_refl) as (v & Hin & _ & Hcb & _). simpl in Hcb.
       destruct (table_key_range _ _ _ _ Hin). auto. }
  fold rest. fold limit.
  assert (Forall row_ok rest) as Hrest.
  { rewrite Forall_forall in *. intros r Hin. apply Hr. by eapply rest_of_sub. }
  destruct (decode_rows_ok (take (limit + 1) rest)) as (out & -> & HF); [by apply Forall_take|]. simpl.
  pose proof (Forall2_length _ _ _ HF) as Hlen. rewrite length_take in Hlen.
  assert ((limit <? length out)%nat = (limit <? length rest)%nat) as ->.
  { destruct (Nat.ltb_spec limit (length out)), (Nat.ltb_spec limit (length rest)); lia. }
  destruct (Nat.ltb_spec limit (length rest)).
  - apply (Forall2_take _ _ _ limit) in HF. rewrite take_take, Nat.min_l in HF by lia.
    by destruct (row_rel_decoded _ _ HF) as [-> ->].
  - rewrite take_ge in HF by lia. by destruct (row_rel_decoded _ _ HF) as [-> _].
Qed.

(** What remains after a full page is what the page's cursor names. *)
Lemma rest_after_page db p cursor req c :
  store_ok db p ->
  let limit := recovery_page_limit req in
  let rest := rest_of db p cursor in
  fst <$> last (take limit rest) = Some c ->
  cursor_ok db p (Some c) /\ rest_of db p (Some c) = drop limit rest.
Proof.
  intros [Hs _ _ _] limit rest E.
  destruct (last (take limit rest)) as [r|] eqn:El; [|done]. simpl in E. simplify_eq.
  apply last_Some in El as [a El].
  assert (rest = a ++ r :: drop limit rest) as Hsplit.
  { rewrite <- (take_drop limit rest) at 1. rewrite El, <- app_assoc. done. }
  assert (r ∈ rest) as Hin by (rewrite Hsplit; set_solver).
  pose proof (rest_of_sub _ _ _ _ Hin) as Htab.
  split; [exists r.2; by destruct r|]. simpl.
  assert (filter (fun kv => Is_true (bytes_lt r.1 kv.1)) (table db p) =
          filter (fun kv => Is_true (bytes_lt r.1 kv.1)) rest) as ->.
  { subst rest. destruct cursor as [c|]; [|done]. simpl. rewrite list_filter_filter.
    apply list_filter_iff'. intros x Hx. split; [|tauto]. intros Hrx. split; [done|].
    apply list_elem_of_filter in Hin as [Hcr _].
    apply Is_true_true in Hrx, Hcr. apply Is_true_true. by eapply bytes_lt_trans. }
  rewrite Hsplit at 1. apply filter_after. rewrite <- Hsplit.
  unfold rest, rest_of, table, raw_find_by_range. destruct cursor; repeat apply filter_sorted; done.
Qed.

Lemma collect_rest fuel db p cursor req :
  store_ok db p -> cursor_ok db p cursor ->
  (length (rest_of db p cursor) < fuel)%nat ->
  collect key_from_bytes value_from_bytes fuel db p cursor req =
    Ok (decoded (rest_of db p cursor), true).
Proof.
  intros Hst. revert cursor. induction fuel as [|fuel IH]; intros cursor Hc Hf; [lia|].
  cbn [collect]. rewrite recovery_page_spec by done. cbv zeta. simpl.
  pose proof (limit_pos req) as Hlim.
  destruct (Nat.ltb_spec (recovery_page_limit req) (length (rest_of db p cursor))) as [Hlt|Hge];
    [|done]. simpl.
  destruct (fst <$> last (take (recovery_page_limit req) (rest_of db p cursor))) as [c|] eqn:El.
  - destruct (rest_after_page _ _ _ _ _ Hst El) as [Hc' Er].
    rewrite IH, Er; [|done|rewrite Er, length_drop; lia]. simpl.
    unfold decoded. rewrite <- omap_app. by rewrite take_drop.
  - exfalso. destruct (last _) eqn:El'; [done|]. apply last_None in El'.
    apply (f_equal length) in El'. rewrite length_take in El'. simpl in El'. lia.
Qed.
End pages.

(** Following the cursors reads the whole table: from the start, a client that
    asks page after page receives every row of the table exactly once, in key
    order, after at most one more request than there are rows, for any
    requested page size. *)
Theorem recovery_reads_whole_table {K V} (kdec : bytes -> option K) (vdec : bytes -> option V)
    (db : raw_db) (p : Z) (req : option Z) :
  store_ok kdec vdec db p ->
  collect kdec vdec (S (length (table db p))) db p None req =
    Ok (decoded kdec vdec (table db p), true) /\
  length (decoded kdec vdec (table db p)) = length (table db p).
Proof.
  intros Hst. split; [apply collect_rest; done || (simpl; lia)|].
  destruct Hst as [_ _ Hr _]. unfold decoded.
  induction Hr as [|r l [[kv E] _] _ IH]; [done|]. simpl. rewrite E. simpl. f_equal. apply IH.
Qed.

Lemma decode_rows_sound {K V} (kdec : bytes -> option K) (vdec : bytes -> option V) rows out :
  decode_rows kdec vdec rows = Ok out ->
  forall o, o ∈ out -> exists r, r ∈ rows /\ kdec r.1 = Some o.1.2 /\ vdec r.2 = Some o.2.
Proof.
  revert out. induction rows as [|[kb vb] rows IH]; simpl; intros out E; run_inv E; [set_solver|].
  ok_facts. intros o [->|Ho]%elem_of_cons.
  - exists (kb, vb). split; [set_solver|done].
  - destruct (IH _ eq_refl o Ho) as (r & ? & ?). exists r. set_solver.
Qed.

(** No request reaches outside its table: whatever bytes a caller supplies as a
    cursor and whatever page size it asks for, a page holds at most 500 rows
    and each of them is a row of the requested table. *)
Theorem recovery_page_confined {K V} (kdec : bytes -> option K) (vdec : bytes -> option V)
    (db : raw_db) (p : Z) (cursor : option bytes) (req : option Z) page :
  recovery_page kdec vdec db p cursor req = Ok page ->
  (length (page_rows page) <= 500)%nat /\
  forall k v, (k, v) ∈ page_rows page ->
    exists r, r ∈ table db p /\ kdec r.1 = Some k /\ vdec r.2 = Some v.
Proof.
  unfold recovery_page. intros Hrun. pose proof (scan_sub_table db p cursor) as Hsub.
  destruct (recovery_range p cursor) as [start stop]. pose proof (limit_pos req) as Hl.
  do 2 (match type of Hrun with (if ?b then _ else _) = _ => destruct b; [done|] end).
  destruct (decode_rows _ _ _) as [out|] eqn:Ed; simpl in Hrun; [|done].
  pose proof (decode_rows_sound _ _ _ _ Ed) as Hdec.
  set (rows := if (recovery_page_limit req <? length out)%nat then take (recovery_page_limit req) out else out) in *.
  assert (length rows <= 500)%nat as Hlen.
  { subst rows. destruct (Nat.ltb_spec (recovery_page_limit req) (length out)); [rewrite length_take|]; lia. }
  assert (forall o, o ∈ rows -> o ∈ out) as Hsubrows.
  { subst rows. case_match; [|done]. intros o Ho. rewrite <- (take_drop (recovery_page_limit req) out). set_solver. }
  simplify_eq. simpl. split; [by rewrite length_map|].
  intros k v Hin. apply list_elem_of_In, in_map_iff in Hin as ([[kb k'] v'] & E & Hin). simplify_eq E. intros <- <-.
  destruct (Hdec (kb, k', v')) as (r & Hr & ? & ?); [by apply Hsubrows, list_elem_of_In|].
  exists r. split_and!; try done. apply Hsub.
  rewrite <- (take_drop (recovery_page_limit req + 1) (raw_find_by_range db start stop)). set_solver.
Qed.

(** Two rows of table 3 between rows of tables 2 and 4. *)
Definition demo_store : raw_db :=
  [([2; 9], [1]); ([3; 1], [10]); ([3; 4], [11]); ([4; 0], [12])].
Definition demo_kdec (b : bytes) : option Z := match b with [3; x] => Some x | _ => None end.
Definition demo_vdec (b : bytes) : option Z := match b with [x] => Some x | _ => None end.

Lemma recovery_reads_whole_table_witness :
  collect demo_kdec demo_vdec 3 demo_store 3 None (Some 1) = Ok ([(1, 10); (4, 11)], true).
Proof.
  apply (recovery_reads_whole_table demo_kdec demo_vdec demo_store 3 (Some 1)).
  constructor; [repeat constructor|repeat constructor; simpl; lia| |lia].
  vm_compute. repeat constructor; try lia; try (by eexists); vm_compute; discriminate.
Defined.

Lemma recovery_page_confined_witness :
  (length [(1, 10)] <= 500)%nat /\
  forall k v, (k, v) ∈ [(1, 10)] ->
    exists r, r ∈ table demo_store 3 /\ demo_kdec r.1 = Some k /\ demo_vdec r.2 = Some v.
Proof.
  apply (recovery_page_confined demo_kdec demo_vdec demo_store 3 None (Some 1)
           (mkRecoveryPage [(1, 10)] (Some [3; 1]))).
  reflexivity.
Defined.

(** ** The two endpoints *)

Record BalanceRecoveryEntry := mkBalanceRecoveryEntry {
  br_tweak : list Z; br_pubkey : PublicKey; br_unit : AmountUnit; br_amount : Z;
}.

Record LpRecoveryEntry := mkLpRecoveryEntry {
  lr_tweak : list Z; lr_pool : PoolId; lr_pubkey : PublicKey; lr_shares : Z;
}.

(** [DbKeyPrefix::Balance] and [DbKeyPrefix::LpPosition]. *)
Definition BALANCE_PREFIX : Z := 3.
Definition LP_POSITION_PREFIX : Z := 2.

Definition balance_recovery_endpoint
    (kdec : bytes -> option (PublicKey * AmountUnit)) (vdec : bytes -> option BalanceEntry)
    (db : raw_db) (cursor : option bytes) (limit : option Z)
    : result RecoveryError (list BalanceRecoveryEntry * option bytes) :=
  page ← recovery_page kdec vdec db BALANCE_PREFIX cursor limit;
  Ok (map (fun '((owner, unit), entry) =>
        mkBalanceRecoveryEntry (bal_tweak entry) owner unit (bal_amount entry)) (page_rows page),
      next_cursor page).

Definition lp_recovery_endpoint
    (kdec : bytes -> option (PoolId * PublicKey)) (vdec : bytes -> option LpPosition)
    (db : raw_db) (cursor : option bytes) (limit : option Z)
    : result RecoveryError (list LpRecoveryEntry * option bytes) :=
  page ← recovery_page kdec vdec db LP_POSITION_PREFIX cursor limit;
  Ok (map (fun '((pool, owner), position) =>
        mkLpRecoveryEntry (lp_tweak position) pool owner (lp_shares position)) (page_rows page),
      next_cursor page).
