(* ===== verification/AmmFaucet.v ===== *)
(** * The second currency of the AMM's tests

    [modules/amm/fedimint-amm-tests/src/faucet/]: the issuing module the AMM is traded
    against.  Its server keeps a balance per key and a permanent record of what was
    minted for free ([server.rs]); its client is the primary module of its unit: it
    debits its wallet when it builds a spend, credits it when a receive is accepted and
    refunds a rejected spend ([client/mod.rs], [input_sm.rs], [output_sm.rs]).  The
    theorems say that the server's books balance and that wallet and server never lose
    track of each other. *)

From S2P Require Import Prelude FedimintCore.

#[local] Abbreviation OutPoint := (Z * Z)%type.
#[local] Abbreviation TransactionId := Z.

Definition faucet_unit : AmountUnit := 1.

(** ** Wire types *)

Record FaucetInput := mkFaucetInput { fi_amount : Z; fi_pub_key : PublicKey }.

Inductive FaucetOutput :=
| MintV0 (amount : Z) (pub_key : PublicKey)
| ReceiveV0 (amount : Z) (pub_key : PublicKey)
| FaucetOutputDefault (variant : Z) (bytes : list Z).

Inductive FaucetInputError := InsufficientBalance | UnknownInputVariant.
Inductive FaucetOutputError := BalanceOverflow | UnknownOutputVariant.

(** ** The server *)

Record FaucetDb := mkFaucetDb {
  faucet_balances : gmap PublicKey Z;
  minted_audit : gmap OutPoint Z;
}.

Definition set_faucet_balances (f : gmap PublicKey Z -> gmap PublicKey Z) (d : FaucetDb) : FaucetDb :=
  mkFaucetDb (f (faucet_balances d)) (minted_audit d).
Definition set_minted_audit (f : gmap OutPoint Z -> gmap OutPoint Z) (d : FaucetDb) : FaucetDb :=
  mkFaucetDb (faucet_balances d) (f (minted_audit d)).

(** [get_value(&BalanceKey(pk)).unwrap_or(Amount::ZERO)]. *)
Definition balance_of (d : FaucetDb) (pk : PublicKey) : Z := default 0 (faucet_balances d !! pk).

(** Rust's [as i64]. *)
Definition as_i64 (x : Z) : Z := (x + 2 ^ 63) mod 2 ^ 64 - 2 ^ 63.

Section server.
Context `{AmountsOps}.

Definition process_input (input : FaucetInput) : M FaucetDb FaucetInputError InputMeta :=
  d ← get;
  let balance := balance_of d (fi_pub_key input) in
  remaining ← lift (ok_or (checked_sub_u64 balance (fi_amount input)) InsufficientBalance);
  (if remaining =? 0
   then modify (set_faucet_balances (delete (fi_pub_key input)))
   else modify (set_faucet_balances (insert (fi_pub_key input) remaining)));;
  mret (mkInputMeta (mkTransactionItemAmounts (new_custom faucet_unit (fi_amount input)) Amounts_ZERO)
          (fi_pub_key input)).

(** The value an output declares to core: minting declares none. *)
Definition declared_of (output : FaucetOutput) : result FaucetOutputError (Z * PublicKey * Amounts) :=
  match output with
  | MintV0 amount pub_key => Ok (amount, pub_key, Amounts_ZERO)
  | ReceiveV0 amount pub_key => Ok (amount, pub_key, new_custom faucet_unit amount)
  | FaucetOutputDefault _ _ => Err UnknownOutputVariant
  end.

Definition process_output (output : FaucetOutput) (out_point : OutPoint)
    : M FaucetDb FaucetOutputError TransactionItemAmounts :=
  what ← lift (declared_of output);
  let '(amount, pub_key, declared) := what in
  d ← get;
  credited ← lift (ok_or (checked_add_u64 (balance_of d pub_key) amount) BalanceOverflow);
  (match output with
   | MintV0 _ _ => modify (set_minted_audit (insert out_point amount))
   | _ => mret tt
   end);;
  modify (set_faucet_balances (insert pub_key credited));;
  mret (mkTransactionItemAmounts declared Amounts_ZERO).

Definition consensus_proposal (d : FaucetDb) : list unit := [].

Definition process_consensus_item (item : unit) : M FaucetDb string unit :=
  fail "The test faucet module does not use consensus items".
End server.

(** The two [add_items] passes. *)
Definition audit (d : FaucetDb) : list Z :=
  ((fun row : OutPoint * Z => as_i64 row.2) <$> map_to_list (minted_audit d)) ++
  ((fun row : PublicKey * Z => as_i64 (- as_i64 row.2)) <$> map_to_list (faucet_balances d)).

(** ** The client's machines *)

Inductive FaucetInputSMState := InputCreated | InputAccepted | InputRefunded.
Inductive FaucetOutputSMState := OutputCreated | OutputAccepted | OutputRejected.

Record FaucetSMCommon := mkFaucetSMCommon {
  fc_operation_id : Z;
  fc_out_point : OutPoint;
  fc_amount : Z;
}.

Record FaucetInputStateMachine := mkFaucetInputStateMachine {
  in_common : FaucetSMCommon;
  in_state : FaucetInputSMState;
}.
Record FaucetOutputStateMachine := mkFaucetOutputStateMachine {
  out_common : FaucetSMCommon;
  out_state : FaucetOutputSMState;
}.

Inductive FaucetClientStateMachines :=
| InputMachine (sm : FaucetInputStateMachine)
| OutputMachine (sm : FaucetOutputStateMachine).

(** The wallet's believed balance, the row of [FaucetClientFundsKey]. *)
Abbreviation Funds := (option Z).
Definition get_funds (funds : Funds) : Z := default 0 funds.

Definition in_update (sm : FaucetInputStateMachine) (s : FaucetInputSMState) : FaucetInputStateMachine :=
  mkFaucetInputStateMachine (in_common sm) s.
Definition out_update (sm : FaucetOutputStateMachine) (s : FaucetOutputSMState) : FaucetOutputStateMachine :=
  mkFaucetOutputStateMachine (out_common sm) s.

Definition transition_created_in (funds : Funds) (res : result string unit) (sm : FaucetInputStateMachine)
    : FaucetInputStateMachine * Funds :=
  match res with
  | Ok _ => (in_update sm InputAccepted, funds)
  | Err _ => (in_update sm InputRefunded, Some (u64_add (get_funds funds) (fc_amount (in_common sm))))
  end.

Definition transition_created_out (funds : Funds) (res : result string unit) (sm : FaucetOutputStateMachine)
    : FaucetOutputStateMachine * Funds :=
  match res with
  | Ok _ => (out_update sm OutputAccepted, Some (u64_add (get_funds funds) (fc_amount (out_common sm))))
  | Err _ => (out_update sm OutputRejected, funds)
  end.

(** The machines' transitions on the transaction's outcome; a final state has none. *)
Definition transition (funds : Funds) (res : result string unit) (m : FaucetClientStateMachines)
    : option (FaucetClientStateMachines * Funds) :=
  match m with
  | InputMachine sm =>
      match in_state sm with
      | InputCreated => let '(sm, funds) := transition_created_in funds res sm in Some (InputMachine sm, funds)
      | InputAccepted | InputRefunded => None
      end
  | OutputMachine sm =>
      match out_state sm with
      | OutputCreated => let '(sm, funds) := transition_created_out funds res sm in Some (OutputMachine sm, funds)
      | OutputAccepted | OutputRejected => None
      end
  end.

(** ** Building transactions *)

(** What the state machines of a bundle are, given the range of its items. *)
Abbreviation SMGen := (list OutPoint -> list FaucetClientStateMachines).

Record Bundle (A : Type) := mkBundle { b_items : list A; b_sms : list SMGen }.
Arguments mkBundle {A}.
Arguments b_items {A}.
Arguments b_sms {A}.

Section client.
Context `{AmountsOps}.
Variable key : PublicKey.

Record ClientInput := mkClientInput { ci_input : FaucetInput; ci_amounts : Amounts; ci_keys : list PublicKey }.
Record ClientOutput := mkClientOutput { co_output : FaucetOutput; co_amounts : Amounts }.

Definition input_sm (operation_id amount : Z) : SMGen :=
  fmap (fun out_point => InputMachine
    (mkFaucetInputStateMachine (mkFaucetSMCommon operation_id out_point amount) InputCreated)).
Definition output_sm (operation_id amount : Z) : SMGen :=
  fmap (fun out_point => OutputMachine
    (mkFaucetOutputStateMachine (mkFaucetSMCommon operation_id out_point amount) OutputCreated)).

Definition create_final_inputs_and_outputs (operation_id : Z) (unit : AmountUnit) (input_amount output_amount : Z)
    : M Funds string (Bundle ClientInput * Bundle ClientOutput) :=
  match input_amount ?= output_amount with
  | Lt =>
      let missing_input_amount := saturating_sub output_amount input_amount in
      our_funds ← gets get_funds;
      reject_if (our_funds <? missing_input_amount) "Insufficient funds"%string;;
      modify (fun _ => Some (saturating_sub our_funds missing_input_amount));;
      mret (mkBundle [mkClientInput (mkFaucetInput missing_input_amount key)
                        (new_custom unit missing_input_amount) [key]]
                     [input_sm operation_id missing_input_amount],
            mkBundle [] [])
  | Eq => mret (mkBundle [] [], mkBundle [] [])
  | Gt =>
      let missing_output_amount := saturating_sub input_amount output_amount in
      mret (mkBundle [] [],
            mkBundle [mkClientOutput (ReceiveV0 missing_output_amount key) (new_custom unit missing_output_amount)]
                     [output_sm operation_id missing_output_amount])
  end.

(** The bundle [mint] submits. *)
Definition mint (operation_id amount : Z) : Bundle ClientOutput :=
  mkBundle [mkClientOutput (MintV0 amount key) Amounts_ZERO] [output_sm operation_id amount].
End client.

(** The wait for one output: the first final state of its machine on the notifier's
    stream; [None] when the stream ends first, the [expect]. *)
Fixpoint await_primary_module_output (stream : list FaucetClientStateMachines) (out_point : OutPoint)
    : option (result string unit) :=
  match stream with
  | [] => None
  | InputMachine _ :: stream => await_primary_module_output stream out_point
  | OutputMachine sm :: stream =>
      if bool_decide (fc_out_point (out_common sm) ≠ out_point)
      then await_primary_module_output stream out_point
      else match out_state sm with
           | OutputCreated => await_primary_module_output stream out_point
           | OutputAccepted => Some (Ok tt)
           | OutputRejected => Some (Err "Transaction was rejected"%string)
           end
  end.

(** [mint]'s own wait takes the first output machine of its operation. *)
Fixpoint await_mint (stream : list FaucetClientStateMachines) : option (result string unit) :=
  match stream with
  | [] => None
  | InputMachine _ :: stream => await_mint stream
  | OutputMachine sm :: stream =>
      match out_state sm with
      | OutputCreated => await_mint stream
      | OutputAccepted => Some (Ok tt)
      | OutputRejected => Some (Err "mint transaction was rejected"%string)
      end
  end.

(** ** The books *)

Section books.
Context `{AmountsOps} `{!AmountsOk}.

(** What core has been told of the items processed: the value spent into, and taken
    out of, the rest of the federation. *)
Record Books := mkBooks { bk_db : FaucetDb; bk_spent : Z; bk_received : Z }.

Inductive books_step : Books -> Books -> Prop :=
| bs_input b input meta d' :
    is_u64 (fi_amount input) ->
    process_input input (bk_db b) = (Ok meta, d') ->
    books_step b (mkBooks d' (bk_spent b + amount_of (amounts (amount meta)) faucet_unit) (bk_received b))
| bs_output b output out_point item d' :
    (* core numbers every output of every transaction once *)
    minted_audit (bk_db b) !! out_point = None ->
    process_output output out_point (bk_db b) = (Ok item, d') ->
    books_step b (mkBooks d' (bk_spent b) (bk_received b + amount_of (amounts item) faucet_unit)).

Definition no_books : Books := mkBooks (mkFaucetDb ∅ ∅) 0 0.

(** The faucet's contribution to the audit. *)
Definition net_assets (d : FaucetDb) : Z :=
  map_sum (fun _ v => v) (minted_audit d) - map_sum (fun _ v => v) (faucet_balances d).

Lemma sum_insert_balance d pk v :
  map_sum (fun _ v => v) (<[pk := v]> (faucet_balances d)) =
  map_sum (fun _ v => v) (faucet_balances d) + v - balance_of d pk.
Proof. rewrite map_sum_insert. unfold balance_of. by case_match. Qed.

Lemma sum_delete_balance d pk :
  map_sum (fun _ v => v) (delete pk (faucet_balances d)) =
  map_sum (fun _ v => v) (faucet_balances d) - balance_of d pk.
Proof.
  unfold balance_of. destruct (faucet_balances d !! pk) as [v|] eqn:E; simpl.
  - rewrite (map_sum_delete _ (faucet_balances d) pk v E). lia.
  - rewrite delete_id by done. lia.
Qed.

Lemma balance_insert d k v pk :
  balance_of (set_faucet_balances (insert k v) d) pk = if bool_decide (pk = k) then v else balance_of d pk.
Proof.
  unfold balance_of. simpl. case_bool_decide as E; [subst; by rewrite lookup_insert_eq|by rewrite lookup_insert_ne].
Qed.

Lemma balance_delete d k pk :
  balance_of (set_faucet_balances (delete k) d) pk = if bool_decide (pk = k) then 0 else balance_of d pk.
Proof.
  unfold balance_of. simpl. case_bool_decide as E; [subst; by rewrite lookup_delete_eq|by rewrite lookup_delete_ne].
Qed.

(** What an accepted input does. *)
Lemma input_Ok input d meta d' :
  process_input input d = (Ok meta, d') ->
  fi_amount input <= balance_of d (fi_pub_key input) /\
  (forall pk, balance_of d' pk = balance_of d pk - (if bool_decide (pk = fi_pub_key input) then fi_amount input else 0)) /\
  net_assets d' = net_assets d + fi_amount input /\
  amounts (amount meta) = new_custom faucet_unit (fi_amount input) /\ pub_key meta = fi_pub_key input.
Proof.
  unfold process_input. simpl. unfold checked_sub_u64.
  destruct (fi_amount input <=? balance_of d (fi_pub_key input)) eqn:Hle; simpl; [|done].
  apply Z.leb_le in Hle. set (v := balance_of d (fi_pub_key input) - fi_amount input).
  destruct (v =? 0) eqn:Hv; intros [= <- <-]; (split_and!; [exact Hle| | |done|done]).
  - apply Z.eqb_eq in Hv. intros pk. rewrite balance_delete. case_bool_decide; subst; lia.
  - apply Z.eqb_eq in Hv. unfold net_assets. simpl. rewrite sum_delete_balance. lia.
  - intros pk. rewrite balance_insert. case_bool_decide; subst; lia.
  - unfold net_assets. simpl. rewrite sum_insert_balance. lia.
Qed.

Lemma input_accepted input d :
  fi_amount input <= balance_of d (fi_pub_key input) -> exists meta d', process_input input d = (Ok meta, d').
Proof.
  intros Hle. unfold process_input. simpl. unfold checked_sub_u64. rewrite (proj2 (Z.leb_le _ _)) by done. simpl.
  destruct (_ =? 0); simpl; eauto.
Qed.

(** What an accepted output credits, to whom, and what it declares. *)
Definition credit_of (output : FaucetOutput) (pk : PublicKey) : Z :=
  match output with
  | MintV0 a k | ReceiveV0 a k => if bool_decide (pk = k) then a else 0
  | FaucetOutputDefault _ _ => 0
  end.
Definition received_by (output : FaucetOutput) : Z := match output with ReceiveV0 a _ => a | _ => 0 end.

Lemma output_Ok output out_point d item d' :
  process_output output out_point d = (Ok item, d') ->
  (forall pk, balance_of d' pk = balance_of d pk + credit_of output pk /\
    (credit_of output pk <> 0 -> balance_of d' pk <= U64_MAX)) /\
  (minted_audit d !! out_point = None -> net_assets d' = net_assets d - received_by output) /\
  amount_of (amounts item) faucet_unit = received_by output.
Proof.
  unfold process_output. destruct output as [a k|a k|]; simpl; [| |done];
    (destruct (checked_add_u64 (balance_of d k) a) as [v|] eqn:Ev; [|done]);
    apply checked_add_u64_Some in Ev as [-> Hmax]; intros [= <- <-]; split_and!.
  - intros pk. rewrite balance_insert. case_bool_decide; subst; [lia|]. split; [|done].
    unfold balance_of. simpl. lia.
  - intros Hfresh. unfold net_assets. simpl. rewrite map_sum_insert_new, sum_insert_balance by done. lia.
  - simpl. apply amount_of_ZERO.
  - intros pk. rewrite balance_insert. case_bool_decide; subst; lia.
  - intros _. unfold net_assets. simpl. rewrite sum_insert_balance. lia.
  - simpl. rewrite amount_of_new_custom. by rewrite Z.eqb_refl.
Qed.

(** The faucet never opens a hole in the federation's audit: what it reports, the
    minted record less the live balances, is exactly the value its inputs have brought
    into other modules less the value its receives have taken out of them, however
    much was minted for free. *)
Theorem faucet_books_balance b :
  rtc books_step no_books b -> net_assets (bk_db b) = bk_spent b - bk_received b.
Proof.
  apply (rtc_invariant _ (fun b => net_assets (bk_db b) = bk_spent b - bk_received b)); [|done].
  intros b1 b2 IH Hs. destruct Hs as [b0 input meta d' Hu Hp|b0 output op item d' Hf Hp]; simpl in *.
  - apply input_Ok in Hp as (_ & _ & -> & -> & _). rewrite amount_of_new_custom, Z.eqb_refl. lia.
  - apply output_Ok in Hp as (_ & Hn & ->). rewrite (Hn Hf). lia.
Qed.
End books.

(** ** Wallet and server *)

Inductive Item := SpendItem (input : FaucetInput) | ReceiveItem (output : FaucetOutput).
Inductive Fate := InFlight | Accepted | Rejected (error : string).

Definition verdict (f : Fate) : option (result string unit) :=
  match f with InFlight => None | Accepted => Some (Ok tt) | Rejected e => Some (Err e) end.

(** A transaction of this client's: its faucet item, what core made of it, and the
    machine that watches it. *)
Record Tracked := mkTracked { tr_item : Item; tr_fate : Fate; tr_machine : FaucetClientStateMachines }.

Section wallet.
Context `{AmountsOps} `{!AmountsOk}.
Variable key : PublicKey.

(** The transaction that carries a bundle's item, as the [idx]-th of its side. *)
Definition track (bundles : Bundle ClientInput * Bundle ClientOutput) (txid : TransactionId) (idx : Z)
    : option Tracked :=
  match b_items bundles.1, b_items bundles.2 with
  | [i], [] =>
      match mjoin ((fun gen => gen [(txid, idx)]) <$> b_sms bundles.1) with
      | [m] => Some (mkTracked (SpendItem (ci_input i)) InFlight m)
      | _ => None
      end
  | [], [o] =>
      match mjoin ((fun gen => gen [(txid, idx)]) <$> b_sms bundles.2) with
      | [m] => Some (mkTracked (ReceiveItem (co_output o)) InFlight m)
      | _ => None
      end
  | _, _ => None
  end.

(** [fw_gifts] is what others have paid to this wallet's key. *)
Record World := mkWorld {
  fw_db : FaucetDb;
  fw_funds : Funds;
  fw_txs : gmap TransactionId Tracked;
  fw_gifts : Z;
}.

Inductive wstep : World -> World -> Prop :=
| fs_balance w op unit inp out bundles funds' txid idx tx :
    is_u64 inp -> is_u64 out -> fw_txs w !! txid = None ->
    create_final_inputs_and_outputs key op unit inp out (fw_funds w) = (Ok bundles, funds') ->
    track bundles txid idx = Some tx ->
    wstep w (mkWorld (fw_db w) funds' (<[txid := tx]> (fw_txs w)) (fw_gifts w))
| fs_mint w op amount txid idx tx :
    is_u64 amount -> fw_txs w !! txid = None ->
    track (mkBundle [] [], mint key op amount) txid idx = Some tx ->
    wstep w (mkWorld (fw_db w) (fw_funds w) (<[txid := tx]> (fw_txs w)) (fw_gifts w))
| fs_spend_lands w txid input m meta d' :
    fw_txs w !! txid = Some (mkTracked (SpendItem input) InFlight m) ->
    process_input input (fw_db w) = (Ok meta, d') ->
    wstep w (mkWorld d' (fw_funds w) (<[txid := mkTracked (SpendItem input) Accepted m]> (fw_txs w)) (fw_gifts w))
| fs_receive_lands w txid idx output m item d' :
    fw_txs w !! txid = Some (mkTracked (ReceiveItem output) InFlight m) ->
    process_output output (txid, idx) (fw_db w) = (Ok item, d') ->
    wstep w (mkWorld d' (fw_funds w) (<[txid := mkTracked (ReceiveItem output) Accepted m]> (fw_txs w)) (fw_gifts w))
| fs_refused w txid i m e :
    fw_txs w !! txid = Some (mkTracked i InFlight m) ->
    wstep w (mkWorld (fw_db w) (fw_funds w) (<[txid := mkTracked i (Rejected e) m]> (fw_txs w)) (fw_gifts w))
| fs_seen w txid tx res m' funds' :
    fw_txs w !! txid = Some tx -> verdict (tr_fate tx) = Some res ->
    transition (fw_funds w) res (tr_machine tx) = Some (m', funds') ->
    wstep w (mkWorld (fw_db w) funds' (<[txid := mkTracked (tr_item tx) (tr_fate tx) m']> (fw_txs w)) (fw_gifts w))
| fs_foreign_input w input meta d' :
    (* core checks the input's signature: nobody else spends from this key *)
    fi_pub_key input <> key -> process_input input (fw_db w) = (Ok meta, d') ->
    wstep w (mkWorld d' (fw_funds w) (fw_txs w) (fw_gifts w))
| fs_foreign_output w output out_point item d' :
    0 <= credit_of output key -> process_output output out_point (fw_db w) = (Ok item, d') ->
    wstep w (mkWorld d' (fw_funds w) (fw_txs w) (fw_gifts w + credit_of output key)).

(** What a transaction still owes the wallet's own ledger: a debit that the server has
    not taken, a credit it has given that the wallet has not seen. *)
Definition outstanding (tx : Tracked) : Z :=
  match tr_machine tx, tr_fate tx with
  | InputMachine sm, (InFlight | Rejected _) =>
      match in_state sm with InputCreated => fc_amount (in_common sm) | _ => 0 end
  | OutputMachine sm, Accepted =>
      match out_state sm with OutputCreated => fc_amount (out_common sm) | _ => 0 end
  | _, _ => 0
  end.

(** A machine watches its own transaction's item. *)
Definition watches (tx : Tracked) : Prop :=
  match tr_machine tx, tr_item tx with
  | InputMachine sm, SpendItem input =>
      0 <= fi_amount input /\ fi_pub_key input = key /\ fc_amount (in_common sm) = fi_amount input /\
      (tr_fate tx = InFlight -> in_state sm = InputCreated)
  | OutputMachine sm, ReceiveItem output =>
      0 <= fc_amount (out_common sm) /\ credit_of output key = fc_amount (out_common sm) /\
      (tr_fate tx = InFlight -> out_state sm = OutputCreated)
  | _, _ => False
  end.

Definition settled (tx : Tracked) : Prop :=
  match tr_machine tx with
  | InputMachine sm => in_state sm <> InputCreated
  | OutputMachine sm => out_state sm <> OutputCreated
  end.

Definition owed (w : World) : Z := map_sum (fun _ tx => outstanding tx) (fw_txs w).

Record wallet_inv (w : World) : Prop := {
  wi_exact : balance_of (fw_db w) key = get_funds (fw_funds w) + owed w + fw_gifts w;
  wi_funds : 0 <= get_funds (fw_funds w);
  wi_gifts : 0 <= fw_gifts w;
  wi_max : balance_of (fw_db w) key <= U64_MAX;
  wi_txs : map_Forall (fun _ tx => watches tx) (fw_txs w);
}.

Lemma outstanding_nonneg tx : watches tx -> 0 <= outstanding tx.
Proof.
  unfold watches, outstanding. destruct (tr_machine tx) as [sm|sm], (tr_item tx), (tr_fate tx); try lia.
  all: destruct (in_state sm) || destruct (out_state sm); lia.
Qed.

Lemma owed_insert (txs : gmap TransactionId Tracked) txid tx :
  map_sum (fun _ tx => outstanding tx) (<[txid := tx]> txs) =
  map_sum (fun _ tx => outstanding tx) txs + outstanding tx -
  match txs !! txid with Some tx0 => outstanding tx0 | None => 0 end.
Proof. apply map_sum_insert. Qed.

Lemma owed_ge w txid tx :
  wallet_inv w -> fw_txs w !! txid = Some tx -> outstanding tx <= owed w.
Proof.
  intros I Ht. apply (map_sum_ge_lookup (fun _ tx => outstanding tx) _ txid tx); [|done].
  intros i x Hx. apply outstanding_nonneg. by apply (wi_txs _ I) in Hx.
Qed.

Lemma owed_nonneg w : wallet_inv w -> 0 <= owed w.
Proof. intros I. apply map_sum_nonneg. intros i x Hx. apply outstanding_nonneg. by apply (wi_txs _ I) in Hx. Qed.

(** The server's and the wallet's sides of a step add up. *)
Lemma inv_step w d' funds' (txs' : gmap TransactionId Tracked) gifts' :
  wallet_inv w ->
  balance_of d' key - balance_of (fw_db w) key =
    (get_funds funds' - get_funds (fw_funds w)) +
    (map_sum (fun _ tx => outstanding tx) txs' - owed w) + (gifts' - fw_gifts w) ->
  0 <= get_funds funds' -> 0 <= gifts' -> balance_of d' key <= U64_MAX ->
  map_Forall (fun _ tx => watches tx) txs' ->
  wallet_inv (mkWorld d' funds' txs' gifts').
Proof. intros I E Hf Hg Hm Ht. pose proof (wi_exact _ I). constructor; simpl; try done. unfold owed. simpl. lia. Qed.

Lemma inv_track w funds' txid tx :
  wallet_inv w -> fw_txs w !! txid = None -> tr_fate tx = InFlight -> watches tx ->
  get_funds (fw_funds w) = get_funds funds' + outstanding tx -> 0 <= get_funds funds' ->
  wallet_inv (mkWorld (fw_db w) funds' (<[txid := tx]> (fw_txs w)) (fw_gifts w)).
Proof.
  intros I Hn Hfate Hw Hf Hpos. apply (inv_step w); try done.
  - rewrite owed_insert, Hn. unfold owed. lia.
  - apply (wi_gifts _ I).
  - apply (wi_max _ I).
  - by apply map_Forall_insert_2, wi_txs.
Qed.

(** A transaction changes from [tx0] to [tx], the server to [d'] and the wallet to
    [funds']. *)
Lemma inv_retrack w d' funds' txid tx0 tx :
  wallet_inv w -> fw_txs w !! txid = Some tx0 -> watches tx ->
  balance_of d' key + outstanding tx0 =
    balance_of (fw_db w) key + outstanding tx + (get_funds funds' - get_funds (fw_funds w)) ->
  0 <= get_funds funds' -> balance_of d' key <= U64_MAX ->
  wallet_inv (mkWorld d' funds' (<[txid := tx]> (fw_txs w)) (fw_gifts w)).
Proof.
  intros I Ht Hw E Hf Hm. apply (inv_step w); try done.
  - rewrite owed_insert, Ht. unfold owed. lia.
  - apply (wi_gifts _ I).
  - by apply map_Forall_insert_2, wi_txs.
Qed.

(** The balancing call debits what it spends; the bundle's machine watches its item. *)
Lemma built_watches op unit inp out funds bundles funds' txid idx tx :
  create_final_inputs_and_outputs key op unit inp out funds = (Ok bundles, funds') ->
  track bundles txid idx = Some tx -> 0 <= get_funds funds -> is_u64 inp -> is_u64 out ->
  watches tx /\ tr_fate tx = InFlight /\ get_funds funds = get_funds funds' + outstanding tx /\
  0 <= get_funds funds'.
Proof.
  unfold create_final_inputs_and_outputs. destruct (inp ?= out) eqn:Hc; simpl.
  - intros [= <- <-]. done.
  - pose proof (proj1 (Z.compare_lt_iff _ _) Hc). destruct (get_funds funds <? _) eqn:Hlt; simpl; [done|].
    apply Z.ltb_ge in Hlt. intros [= <- <-] [= <-] Hf Hi Ho. unfold saturating_sub in *. unfold_widths.
    unfold watches, outstanding. simpl. split_and!; try done; lia.
  - pose proof (proj1 (Z.compare_gt_iff _ _) Hc). intros [= <- <-] [= <-] Hf Hi Ho. unfold_widths.
    unfold watches, outstanding, saturating_sub. simpl. rewrite bool_decide_true by done. split_and!; try done; lia.
Qed.

Lemma seen_inv w txid tx res m' funds' :
  wallet_inv w -> fw_txs w !! txid = Some tx -> verdict (tr_fate tx) = Some res ->
  transition (fw_funds w) res (tr_machine tx) = Some (m', funds') ->
  wallet_inv (mkWorld (fw_db w) funds' (<[txid := mkTracked (tr_item tx) (tr_fate tx) m']> (fw_txs w)) (fw_gifts w)).
Proof.
  intros I Ht Hv Htr. pose proof (owed_ge _ _ _ I Ht) as Hle. pose proof (wi_exact _ I). pose proof (wi_gifts _ I).
  pose proof (wi_funds _ I). pose proof (wi_max _ I) as Hmax. pose proof (wi_txs _ I _ _ Ht) as Hw.
  destruct tx as [i f m]. unfold watches, outstanding in *. simpl in *.
  assert (Hno : forall a, 0 <= a -> a <= owed w ->
    u64_add (get_funds (fw_funds w)) a = get_funds (fw_funds w) + a).
  { intros a Ha Ho. unfold u64_add, wrap64. apply Z.mod_small. unfold_widths. lia. }
  apply (inv_retrack _ _ _ _ _ _ I Ht); unfold watches, outstanding; simpl; [| | |done].
  all: destruct m as [sm|sm], i as [i|o]; simpl in *; try done.
  all: destruct f as [| |e]; try done; injection Hv as <-.
  all: (destruct (in_state sm) eqn:Es || destruct (out_state sm) eqn:Es); simplify_eq/=; try done; try lia.
  all: try (by naive_solver). all: rewrite Hno by lia; lia.
Qed.

Lemma wallet_step w w' : wallet_inv w -> wstep w w' -> wallet_inv w'.
Proof.
  intros I Hs. pose proof (wi_funds _ I) as Hfunds. pose proof (wi_max _ I) as Hmax.
  destruct Hs as [w op unit inp out bundles funds' txid idx tx Hi Ho Hn Hb Ht|w op amount txid idx tx Ha Hn Ht
    |w txid input m meta d' Ht Hp|w txid idx output m item d' Ht Hp|w txid i m e Ht|w txid tx res m' funds' Ht Hv Htr
    |w input meta d' Hk Hp|w output op item d' Hg Hp].
  - destruct (built_watches _ _ _ _ _ _ _ _ _ _ Hb Ht Hfunds Hi Ho) as (Hw & Hf & E & H0'). by apply inv_track.
  - injection Ht as <-. apply inv_track; try done; unfold watches, outstanding; simpl; unfold_widths; [|lia].
    rewrite bool_decide_true by done. split_and!; try done; lia.
  - apply input_Ok in Hp as (Hle & Hb & _). pose proof (wi_txs _ I _ _ Ht) as Hw. specialize (Hb key).
    eapply inv_retrack; [exact I|exact Ht| | |exact Hfunds|]; unfold watches, outstanding in *; simpl in *;
      destruct m as [sm|sm]; try done; destruct Hw as (Hpos & Hkey & Ham & Hst).
    + done.
    + rewrite Hst by done. rewrite Hb, bool_decide_true by done. lia.
    + rewrite Hb, bool_decide_true by done. lia.
  - apply output_Ok in Hp as (Hb & _). pose proof (wi_txs _ I _ _ Ht) as Hw. destruct (Hb key) as [Hb1 Hb2].
    eapply inv_retrack; [exact I|exact Ht| | |exact Hfunds|]; unfold watches, outstanding in *; simpl in *;
      destruct m as [sm|sm]; try done; destruct Hw as (Hpos & Hcr & Hst).
    + done.
    + rewrite Hst by done. lia.
    + destruct (decide (credit_of output key = 0)); [lia|by apply Hb2].
  - pose proof (wi_txs _ I _ _ Ht) as Hw.
    eapply inv_retrack; [exact I|exact Ht| | |exact Hfunds|exact Hmax]; unfold watches, outstanding in *; simpl in *;
      destruct m as [sm|sm], i; try done; naive_solver lia.
  - by apply seen_inv with res.
  - apply input_Ok in Hp as (_ & Hb & _). specialize (Hb key). rewrite bool_decide_false in Hb by congruence.
    apply (inv_step w); try done; [unfold owed; lia|apply (wi_gifts _ I)|lia|apply (wi_txs _ I)].
  - apply output_Ok in Hp as (Hb & _). destruct (Hb key) as [Hb1 Hb2]. pose proof (wi_gifts _ I).
    apply (inv_step w); try done; [unfold owed; lia|lia| |apply (wi_txs _ I)].
    destruct (decide (credit_of output key = 0)); [lia|by apply Hb2].
Qed.

(** C32: Wallet and server never lose track of each other.  From any state in which the
    server's balance for the key covers the wallet's belief, whatever the client spends,
    receives and mints, in whatever order core accepts or rejects its transactions and
    the machines see it, and whatever others do: the server's balance is the wallet's,
    plus the debits it has yet to take or the client to get back, plus the credits the
    client has yet to see, plus what others have paid in; so core never refuses a spend
    for want of balance, no addition in the wallet wraps, and when every machine has
    finished the wallet holds exactly the server's balance less those payments. *)
Theorem faucet_wallet_exact d funds w :
  0 <= get_funds funds <= balance_of d key -> balance_of d key <= U64_MAX ->
  rtc wstep (mkWorld d funds ∅ (balance_of d key - get_funds funds)) w ->
  balance_of (fw_db w) key = get_funds (fw_funds w) + owed w + fw_gifts w /\
  is_u64 (get_funds (fw_funds w) + owed w) /\
  (forall txid input m, fw_txs w !! txid = Some (mkTracked (SpendItem input) InFlight m) ->
    exists meta d', process_input input (fw_db w) = (Ok meta, d')) /\
  (map_Forall (fun _ tx => settled tx) (fw_txs w) ->
    get_funds (fw_funds w) = balance_of (fw_db w) key - fw_gifts w).
Proof.
  intros Hf Hm Hr.
  assert (I : wallet_inv w).
  { eapply rtc_invariant; [exact wallet_step| |exact Hr].
    constructor; simpl; [|lia|lia|done|apply map_Forall_empty]. unfold owed. simpl. rewrite map_sum_empty. lia. }
  pose proof (wi_exact _ I). pose proof (wi_funds _ I). pose proof (wi_gifts _ I). pose proof (wi_max _ I).
  pose proof (owed_nonneg _ I). split_and!; [done|unfold_widths; lia| |].
  - intros txid input m Ht. pose proof (owed_ge _ _ _ I Ht) as Hle. pose proof (wi_txs _ I _ _ Ht) as Hw.
    apply input_accepted. unfold watches, outstanding in *. simpl in *. destruct m as [sm|sm]; [|done].
    destruct Hw as (Hp & Hk & Ha & Hst). rewrite Hst in Hle by done. rewrite Hk. lia.
  - intros Hall. assert (owed w = 0); [|lia]. apply map_sum_zero. intros txid tx Ht.
    apply Hall in Ht. unfold settled, outstanding in *. by repeat case_match.
Qed.
End wallet.

(** ** The transactions it completes *)

Section balance.
Context `{AmountsOps} `{!AmountsOk}.

(** The bundles make up exactly the difference between the two sides of a transaction;
    the call fails, writing nothing, exactly when the wallet does not hold it. *)
Theorem bundles_balance key op unit inp out funds :
  is_u64 inp -> is_u64 out ->
  match create_final_inputs_and_outputs key op unit inp out funds with
  | (Ok (ins, outs), funds') =>
      inp + foldr Z.add 0 ((fun i => amount_of (ci_amounts i) unit) <$> b_items ins) =
      out + foldr Z.add 0 ((fun o => amount_of (co_amounts o) unit) <$> b_items outs) /\
      get_funds funds' = get_funds funds - Z.max 0 (out - inp)
  | (Err _, funds') => funds' = funds /\ get_funds funds < out - inp
  end.
Proof.
  intros Hi Ho. unfold create_final_inputs_and_outputs, saturating_sub. unfold_widths.
  destruct (inp ?= out) eqn:Hc; simpl.
  - apply Z.compare_eq_iff in Hc. lia.
  - pose proof (proj1 (Z.compare_lt_iff _ _) Hc). destruct (get_funds funds <? _) eqn:Hlt; simpl.
    + apply Z.ltb_lt in Hlt. split; [done|lia].
    + apply Z.ltb_ge in Hlt. rewrite amount_of_new_custom, Z.eqb_refl. unfold get_funds in *. simpl. lia.
  - pose proof (proj1 (Z.compare_gt_iff _ _) Hc). rewrite amount_of_new_custom, Z.eqb_refl. lia.
Qed.

(** A wait reports what the output's machine ended in. *)
Lemma await_reports stream out_point v :
  await_primary_module_output stream out_point = Some v ->
  exists sm, OutputMachine sm ∈ stream /\ fc_out_point (out_common sm) = out_point /\
    out_state sm = (if is_ok v then OutputAccepted else OutputRejected).
Proof.
  induction stream as [|m stream IH]; [done|]. simpl.
  destruct m as [sm|sm]; [|case_bool_decide as Ho]; [| |destruct (out_state sm) eqn:Es].
  all: try (intros (sm' & Hin & ?)%IH; exists sm'; by split; [apply list_elem_of_further|]).
  all: intros [= <-]; exists sm; split_and!; [apply list_elem_of_here|done|exact Es].
Qed.
End balance.

Section faucet_witness.
#[local] Existing Instance map_amounts.
#[local] Existing Instance map_amounts_ok.

Definition faucet_key : PublicKey := mkPublicKey 2.

(** A mint that core accepts and the wallet sees, then a spend in flight. *)
Definition demo_spend : FaucetClientStateMachines :=
  InputMachine (mkFaucetInputStateMachine (mkFaucetSMCommon 8 (80, 0) 300) InputCreated).
Definition demo_bundles : Bundle ClientInput * Bundle ClientOutput :=
  (mkBundle [mkClientInput (mkFaucetInput 300 faucet_key) (new_custom 1 300) [faucet_key]] [input_sm 8 300],
   mkBundle [] []).

Lemma faucet_wallet_exact_witness :
  exists w, rtc (wstep faucet_key) (mkWorld (mkFaucetDb ∅ ∅) None ∅ 0) w /\
    fw_txs w !! 80 = Some (mkTracked (SpendItem (mkFaucetInput 300 faucet_key)) InFlight demo_spend) /\
    exists meta d', process_input (mkFaucetInput 300 faucet_key) (fw_db w) = (Ok meta, d').
Proof.
  assert (exists w, rtc (wstep faucet_key) (mkWorld (mkFaucetDb ∅ ∅) None ∅ 0) w /\
    fw_txs w !! 80 = Some (mkTracked (SpendItem (mkFaucetInput 300 faucet_key)) InFlight demo_spend))
    as (w & Hr & Ht).
  { eexists. split.
    - eapply rtc_l; [eapply (fs_mint _ _ 7 1000 70 0); [by vm_compute|done|reflexivity]|].
      eapply rtc_l; [eapply (fs_receive_lands _ _ 70 0); reflexivity|].
      eapply rtc_l; [eapply (fs_seen _ _ 70); reflexivity|].
      eapply rtc_l; [|apply rtc_refl].
      eapply (fs_balance _ _ 8 1 0 300 demo_bundles (Some 700) 80 0);
        [by vm_compute|by vm_compute|reflexivity|reflexivity|reflexivity].
    - apply lookup_insert_eq. }
  exists w. split; [exact Hr|]. split; [exact Ht|].
  destruct (faucet_wallet_exact faucet_key (mkFaucetDb ∅ ∅) None w) as (_ & _ & Hp & _);
    [by vm_compute|by vm_compute|exact Hr|exact (Hp 80 _ _ Ht)].
Defined.
End faucet_witness.
