(* ===== verification/AmmClient.v ===== *)
(** * The AMM client's operations

    [modules/amm/fedimint-amm-client/src]: key derivation and the recovery filter
    (derivation.rs), the slippage guards and the transactions that [swap],
    [deposit] and [withdraw] submit (lib.rs).  The theorems run those transactions
    against the server of [AmmServer]: what the client put on the wire as a guard
    is what bounds how they can settle. *)

From S2P Require Import Prelude FedimintCore AmmMath AmmPoolId AmmConfig AmmTypes AmmServer.
From S2P Require Import AmmInvariant AmmSafety.

(** ** Key derivation *)

(** fedimint-derive-secret: the random bytes of a secret, and the key pair of a
    child id and tweak. *)
Class Derivation `{Crypto} := {
  DerivableSecret : Type;
  to_random_bytes : DerivableSecret -> list Z;
  child_tweak_keypair : DerivableSecret -> Z -> list Z -> Keypair;
}.

Definition CHILD_SWAP : Z := 0.
Definition CHILD_LP : Z := 1.

Section derivation.
Context `{Derivation} `{Codec (list Z)}.

Definition tweak_filter (root : DerivableSecret) : list Z := to_random_bytes root.

Definition check_tweak (tweak filter : list Z) : bool :=
  forallb (fun b => b =? 0) (take 2 (sha256 (encode tweak ++ encode filter))).

(** The loop over the thread's random tweaks, up to the first that passes. *)
Fixpoint grind_tweak (root : DerivableSecret) (samples : list (list Z)) : option (list Z) :=
  match samples with
  | [] => None
  | tweak :: samples =>
      if check_tweak tweak (tweak_filter root) then Some tweak else grind_tweak root samples
  end.

Definition derive_keypair (root : DerivableSecret) (child : Z) (tweak : list Z) : Keypair :=
  child_tweak_keypair root child tweak.

Definition matches_own_key (root : DerivableSecret) (filter : list Z) (child : Z)
    (tweak : list Z) (pubkey : PublicKey) : bool :=
  check_tweak tweak filter && bool_decide (public_key (derive_keypair root child tweak) = pubkey).
End derivation.

(** ** Guards *)

Inductive SlippageError := SlippageOutOfRange.

Definition min_after_slippage (amount max_slippage_bps : Z) : result SlippageError Z :=
  if 10000 <? max_slippage_bps then Err SlippageOutOfRange
  else
    let retained_bps := 10000 - max_slippage_bps in
    let min := u128_mul amount retained_bps / 10000 in
    Ok (default amount (try_u64 min)).

(** What an operation can fail with before anything is submitted. *)
Inductive ClientError :=
| SameUnit
| UnitNotAllowed
| Api (e : ApiError)
| BadSlippage (e : SlippageError)
| BadCurve (e : CurveError.t)
| AmountOverflow
| NoLocalPosition
| ZeroShares
| WrongTweak
| PoolNotFound.

Definition fetch_min_out (quote : result ApiError QuoteResponse) (max_slippage_bps : Z)
    : result ClientError (Z * QuoteResponse) :=
  quote ← map_err Api quote;
  min_out ← map_err BadSlippage (min_after_slippage (quote_amount_out quote) max_slippage_bps);
  Ok (min_out, quote).

Definition deposit_min_shares (reserve_lo reserve_hi total_shares amount_lo amount_hi
    max_slippage_bps : Z) : result ClientError (Z * MintOutcome) :=
  preview ← map_err BadCurve (mint_shares reserve_lo reserve_hi total_shares amount_lo amount_hi);
  min_shares ← map_err BadSlippage (min_after_slippage (to_owner preview) max_slippage_bps);
  Ok (min_shares, preview).

(** [(min_lo, min_hi, max_lo, max_hi)]. *)
Definition withdraw_guards (preview : BurnOutcome) : Z * Z * Z * Z :=
  let min_lo := burn_da preview in
  let min_hi := burn_db preview in
  (min_lo, min_hi, min_lo, min_hi).

(** ** Operations *)

Record SwapCommon `{Crypto} := mkSwapCommon {
  swap_operation_id : Z;
  swap_unit_out : AmountUnit;
  recipient_keypair : Keypair;
}.

Record DepositCommon := mkDepositCommon {
  deposit_operation_id : Z;
  deposit_pool : PoolId;
  deposit_owner_pk : PublicKey;
  deposit_tweak : list Z;
  expected_shares : Z;
}.

Record WithdrawCommon := mkWithdrawCommon {
  withdraw_operation_id : Z;
  withdraw_pool : PoolId;
  withdraw_owner_pk : PublicKey;
  withdraw_shares : Z;
}.

Record LpPositionRecord := mkLpPositionRecord { rec_tweak : list Z; rec_shares : Z }.

Section operations.
Context `{Derivation} `{AmountsOps} `{Codec Z} `{Codec PublicKey} `{Codec (list Z)}.

(** What goes into the transaction builder, with the amounts declared for it. *)
Record ClientOutput := mkClientOutput { co_output : AmmOutput; co_amounts : Amounts }.
Record ClientInput := mkClientInput {
  ci_input : AmmInput; ci_keys : list Keypair; ci_amounts : Amounts;
}.

Record AmmClientModule := mkAmmClientModule {
  client_cfg : AmmClientConfig;
  root_secret : DerivableSecret;
}.

Definition in_allowlist (c : AmmClientModule) (u : AmountUnit) : bool :=
  bool_decide (is_Some (client_units (client_cfg c) !! u)).

(** [quote] is the endpoint's answer at submission, [tweak] the ground tweak. *)
Definition swap (c : AmmClientModule) (unit_in unit_out : AmountUnit)
    (amount_in max_slippage_bps : Z) (operation_id : Z)
    (quote : result ApiError QuoteResponse) (tweak : list Z)
    : result ClientError (ClientOutput * SwapCommon) :=
  if unit_in =? unit_out then Err SameUnit
  else if negb (in_allowlist c unit_in && in_allowlist c unit_out) then Err UnitNotAllowed
  else
    '(min_out, _) ← fetch_min_out quote max_slippage_bps;
    let keypair := derive_keypair (root_secret c) CHILD_SWAP tweak in
    Ok (mkClientOutput (new_swap_v0 keypair unit_in unit_out amount_in min_out tweak)
          (new_custom unit_in amount_in),
        mkSwapCommon _ operation_id unit_out keypair).

(** The pool's row of the [pools] answer. *)
Definition find_pool (pool : PoolId) (pools : list PoolSummary) : option PoolSummary :=
  find (fun p => bool_decide (sum_pool p = pool)) pools.

Definition deposit (c : AmmClientModule) (pool : PoolId) (amount_lo amount_hi max_slippage_bps : Z)
    (operation_id : Z) (pools : result ApiError (list PoolSummary)) (tweak : list Z)
    : result ClientError (ClientOutput * DepositCommon) :=
  if negb (in_allowlist c (lo pool) && in_allowlist c (hi pool)) then Err UnitNotAllowed
  else
    pools ← map_err Api pools;
    let '(reserve_lo, reserve_hi, total_shares) :=
      match find_pool pool pools with
      | Some p => (sum_reserve_lo p, sum_reserve_hi p, sum_total_shares p)
      | None => (0, 0, 0)
      end in
    '(min_shares, preview) ← deposit_min_shares reserve_lo reserve_hi total_shares
                               amount_lo amount_hi max_slippage_bps;
    let keypair := derive_keypair (root_secret c) CHILD_LP tweak in
    amounts ← ok_or (match checked_add_unit Amounts_ZERO amount_lo (lo pool) with
                     | Some a => checked_add_unit a amount_hi (hi pool)
                     | None => None
                     end) AmountOverflow;
    Ok (mkClientOutput (new_deposit_v0 keypair pool amount_lo amount_hi min_shares tweak) amounts,
        mkDepositCommon operation_id pool (public_key keypair) tweak (to_owner preview)).

Definition withdraw (c : AmmClientModule) (local : gmap (PoolId * PublicKey) LpPositionRecord)
    (pool : PoolId) (owner_pk : PublicKey) (shares : Z) (operation_id : Z)
    (pools : result ApiError (list PoolSummary)) : result ClientError (ClientInput * WithdrawCommon) :=
  record ← ok_or (local !! (pool, owner_pk)) NoLocalPosition;
  if negb (0 <? shares) then Err ZeroShares
  else
    let keypair := derive_keypair (root_secret c) CHILD_LP (rec_tweak record) in
    if negb (bool_decide (public_key keypair = owner_pk)) then Err WrongTweak
    else
      pools ← map_err Api pools;
      summary ← ok_or (find_pool pool pools) PoolNotFound;
      preview ← map_err BadCurve (burn_shares (sum_reserve_lo summary) (sum_reserve_hi summary)
                                    (sum_total_shares summary) shares);
      let '(min_lo, min_hi, max_lo, max_hi) := withdraw_guards preview in
      amounts ← ok_or (match checked_add_unit Amounts_ZERO (burn_da preview) (lo pool) with
                       | Some a => checked_add_unit a (burn_db preview) (hi pool)
                       | None => None
                       end) AmountOverflow;
      Ok (mkClientInput (WithdrawV0 pool owner_pk shares min_lo min_hi max_lo max_hi)
            [keypair] amounts,
          mkWithdrawCommon operation_id pool owner_pk shares).

(** The module fee of an item: none for those this client knows, unknown otherwise. *)
Definition input_fee (input : AmmInput) : option Amounts :=
  match input with
  | ClaimBalanceV0 _ _ | WithdrawV0 _ _ _ _ _ _ _ => Some Amounts_ZERO
  | InputDefault _ _ => None
  end.

Definition output_fee (output : AmmOutput) : option Amounts :=
  match output with
  | SwapV0 _ _ _ _ _ _ _ | DepositV0 _ _ _ _ _ _ _ => Some Amounts_ZERO
  | OutputDefault _ _ => None
  end.
End operations.

(** ** The guards *)

Lemma min_after_slippage_spec a bps :
  is_u64 a -> 0 <= bps <= 10000 ->
  exists m, min_after_slippage a bps = Ok m /\ 0 <= m <= a /\
    m * 10000 <= a * (10000 - bps) < (m + 1) * 10000.
Proof.
  intros Ha Hb. unfold_widths. unfold min_after_slippage, u128_mul.
  rewrite (proj2 (Z.ltb_ge 10000 bps)) by lia.
  rewrite wrap128_id by (unfold_widths; nia).
  pose proof (mul_div_floor (a * (10000 - bps)) 10000 ltac:(lia)) as Hm.
  set (m := _ / 10000) in *. assert (0 <= m <= a) by nia.
  rewrite (proj2 (try_u64_Some m m)) by (unfold_widths; lia).
  exists m. split; [done|]. lia.
Qed.

Lemma min_after_slippage_Ok a bps m :
  is_u64 a -> 0 <= bps -> min_after_slippage a bps = Ok m ->
  bps <= 10000 /\ 0 <= m <= a /\ a * (10000 - bps) < (m + 1) * 10000.
Proof.
  intros Ha Hb E. destruct (Z_lt_le_dec 10000 bps) as [Hlt|Hle].
  - unfold min_after_slippage in E. by rewrite (proj2 (Z.ltb_lt 10000 bps)) in E.
  - destruct (min_after_slippage_spec a bps Ha ltac:(lia)) as (m' & E' & ? & ?).
    rewrite E' in E. injection E as <-. lia.
Qed.

(** The slippage floor: for a tolerance of up to 10000 basis points the minimum
    is the amount less the tolerance, rounded down, never above the amount and
    exact at tolerance zero; a larger tolerance is refused. *)
Theorem slippage_floor_exact a bps :
  is_u64 a -> 0 <= bps ->
  (bps <= 10000 -> exists m, min_after_slippage a bps = Ok m /\ 0 <= m <= a /\
     m = a * (10000 - bps) / 10000 /\ (bps = 0 -> m = a)) /\
  (10000 < bps -> min_after_slippage a bps = Err SlippageOutOfRange).
Proof.
  intros Ha Hb. split.
  - intros Hle. destruct (min_after_slippage_spec a bps Ha ltac:(lia)) as (m & E & Hm & Hf).
    exists m. split; [done|]. split; [done|]. split; [|intros ->; lia].
    apply (Z.div_unique _ _ _ (a * (10000 - bps) - m * 10000)); lia.
  - intros Hgt. unfold min_after_slippage. by rewrite (proj2 (Z.ltb_lt 10000 bps)).
Qed.

Lemma slippage_floor_exact_witness :
  exists m, min_after_slippage 999 50 = Ok m /\ m = 999 * (10000 - 50) / 10000.
Proof.
  destruct (slippage_floor_exact 999 50) as [H _]; [unfold_widths; lia|lia|].
  destruct (H ltac:(lia)) as (m & E & _ & Em & _). exists m. split; [exact E|exact Em].
Defined.

(** ** Client and server together *)

Lemma find_pool_rows self d pool (l : list (PoolId * Pool)) :
  NoDup l.*1 ->
  find_pool pool (map (fun '(k, p) => mkPoolSummary k (reserve_lo p) (reserve_hi p)
    (total_shares p) (consensus_fee_for self d k)) l) =
  (fun p => mkPoolSummary pool (reserve_lo p) (reserve_hi p) (total_shares p)
              (consensus_fee_for self d pool)) <$> (list_to_map l : gmap PoolId Pool) !! pool.
Proof.
  unfold find_pool. induction l as [|[k p] l IH]; intros Hnd; [done|]. simpl in *.
  apply NoDup_cons in Hnd as [Hk Hnd]. case_bool_decide as E.
  - subst. by rewrite lookup_insert_eq.
  - rewrite lookup_insert_ne by done. by apply IH.
Qed.

(** The client's lookup in the served table is the table's lookup. *)
Lemma find_pool_endpoint self d pool :
  find_pool pool (pools_endpoint self d) =
  (fun p => mkPoolSummary pool (reserve_lo p) (reserve_hi p) (total_shares p)
              (consensus_fee_for self d pool)) <$> pools d !! pool.
Proof.
  unfold pools_endpoint, rows_by_pool.
  assert (merge_sort (fun r r' : PoolId * Pool => pool_le r.1 r'.1) (map_to_list (pools d))
    ≡ₚ map_to_list (pools d)) as Hp by apply merge_sort_Permutation.
  rewrite find_pool_rows.
  - f_equal. rewrite <- (list_to_map_to_list (pools d)) at 2. f_equal.
    apply list_to_map_proper; [|done]. rewrite Hp. apply NoDup_fst_map_to_list.
  - rewrite Hp. apply NoDup_fst_map_to_list.
Qed.

Section settlement.
Context `{Hcrypto : Crypto} `{!CryptoOk} `{Hder : !Derivation} `{Ham : AmountsOps}.
Context `{cz : Codec Z} `{cpk : Codec PublicKey} `{ct : Codec (list Z)}.


Lemma swap_built c ui uo a bps op q tweak out common :
  swap c ui uo a bps op (Ok q) tweak = Ok (out, common) ->
  exists m, min_after_slippage (quote_amount_out q) bps = Ok m /\
    let kp := derive_keypair (root_secret c) CHILD_SWAP tweak in
    out = mkClientOutput (new_swap_v0 kp ui uo a m tweak) (new_custom ui a) /\
    common = mkSwapCommon _ op uo kp.
Proof.
  unfold swap, fetch_min_out. intros Hs. simpl in Hs.
  destruct (ui =? uo); [done|]. destruct (negb _); [done|].
  destruct (min_after_slippage _ _) as [m|]; [|done]. simpl in Hs. injection Hs as <- <-. eauto.
Qed.

(** A swap never settles below the user's tolerance.  Whatever happened to the
    pool since the quote, if the server accepts the submitted output it charges
    exactly the amount the client declared, and credits the client's fresh key
    with at least the quote less the tolerance, on top of what was there. *)
Theorem swap_within_tolerance self c ui uo a bps op q tweak out common d d' r :
  is_u64 (quote_amount_out q) -> 0 <= bps ->
  swap c ui uo a bps op (Ok q) tweak = Ok (out, common) ->
  process_output self (co_output out) d = (Ok r, d') ->
  let key := (public_key (recipient_keypair common), swap_unit_out common) in
  amounts r = co_amounts out /\
  exists dy, balances d' !! key =
      Some (mkBalanceEntry (default 0 (bal_amount <$> balances d !! key) + dy) tweak) /\
    quote_amount_out q * (10000 - bps) < (dy + 1) * 10000.
Proof.
  intros Hq Hb Hs Hr key. apply swap_built in Hs as (m & Em & -> & ->).
  destruct (min_after_slippage_Ok _ _ _ Hq Hb Em) as (_ & _ & Hm).
  unfold process_output, new_swap_v0 in Hr. simpl in Hr. destruct (verify_pop_sig _ _ _) in Hr; [|done].
  simpl in Hr. apply swap_Ok in Hr as (pid & pool & sq & cr & [? ? Hf -> ? Hamt ->]).
  split; [done|]. exists (dy sq). simpl. split; [apply lookup_insert_eq|].
  pose proof (sf_min _ _ _ _ _ _ _ _ Hf) as Hmin. simpl in Hmin. lia.
Qed.

Lemma deposit_built self c pool al ah bps op d tweak out common :
  deposit c pool al ah bps op (Ok (pools_endpoint self d)) tweak = Ok (out, common) ->
  exists ms o, min_after_slippage (to_owner o) bps = Ok ms /\
    let p := default (mkPool 0 0 0) (pools d !! pool) in
    let kp := derive_keypair (root_secret c) CHILD_LP tweak in
    mint_shares (reserve_lo p) (reserve_hi p) (total_shares p) al ah = Ok o /\
    co_output out = new_deposit_v0 kp pool al ah ms tweak /\
    Some (co_amounts out) = (match checked_add_unit Amounts_ZERO al (lo pool) with
                             | Some a => checked_add_unit a ah (hi pool)
                             | None => None
                             end) /\
    common = mkDepositCommon op pool (public_key kp) tweak (to_owner o).
Proof.
  unfold deposit, deposit_min_shares. intros Hs. destruct (negb _); [done|].
  simpl in Hs. rewrite find_pool_endpoint in Hs.
  destruct (pools d !! pool) as [p|]; simpl in Hs; run_inv Hs; ok_facts;
    eexists _, _; split_and!; try eassumption; try done; by simplify_eq.
Qed.

(** A deposit mints what was previewed: settled in the state the preview was
    computed in, it is charged exactly the declared amounts and adds exactly the
    cached share count to the position; in any other state, if it is accepted, at
    least the preview less the tolerance. *)
Theorem deposit_mints_preview self c pool al ah bps op d tweak out common d1 d' r :
  is_u64 (expected_shares common) -> 0 <= bps ->
  deposit c pool al ah bps op (Ok (pools_endpoint self d)) tweak = Ok (out, common) ->
  process_output self (co_output out) d1 = (Ok r, d') ->
  let key := (deposit_pool common, deposit_owner_pk common) in
  amounts r = co_amounts out /\
  exists minted, lp_positions d' !! key =
      Some (mkLpPosition (default 0 (lp_shares <$> lp_positions d1 !! key) + minted) tweak) /\
    expected_shares common * (10000 - bps) < (minted + 1) * 10000 /\
    (pools d1 !! pool = pools d !! pool -> minted = expected_shares common).
Proof.
  intros Hq Hb Hs Hr key.
  apply deposit_built in Hs as (ms & o & Em & Ho & Eout & Eamt & ->). simpl in *.
  destruct (min_after_slippage_Ok _ _ _ Hq Hb Em) as (_ & _ & Hm).
  rewrite Eout in Hr. unfold process_output, new_deposit_v0 in Hr. simpl in Hr.
  destruct (verify_pop_sig _ _ _) in Hr; [|done]. simpl in Hr.
  apply deposit_run in Hr as [[_ Hf]|(p & o1 & sh & [? ? -> Hmint Hms -> ->] & Hr)]; [done|].
  destruct (match checked_add_unit _ _ _ with Some _ => _ | None => _ end) as [am|] eqn:E in Eamt; [|done].
  injection Eamt as ->. split.
  - destruct (checked_add_unit Amounts_ZERO al (lo pool)) as [a1|]; [|done].
    rewrite E in Hr. by injection Hr as ->.
  - exists (to_owner o1). split; [apply lookup_insert_eq|]. split; [lia|].
    intros Ep. rewrite Ep, Ho in Hmint. by injection Hmint as ->.
Qed.

Lemma withdraw_built self c local pool pk s op d inp common :
  withdraw c local pool pk s op (Ok (pools_endpoint self d)) = Ok (inp, common) ->
  exists p o, pools d !! pool = Some p /\ 0 < s /\
    burn_shares (reserve_lo p) (reserve_hi p) (total_shares p) s = Ok o /\
    ci_input inp = WithdrawV0 pool pk s (burn_da o) (burn_db o) (burn_da o) (burn_db o) /\
    map public_key (ci_keys inp) = [pk] /\
    Some (ci_amounts inp) = (match checked_add_unit Amounts_ZERO (burn_da o) (lo pool) with
                             | Some a => checked_add_unit a (burn_db o) (hi pool)
                             | None => None
                             end).
Proof.
  unfold withdraw. intros Hs.
  destruct (local !! _) as [rec|]; [|done]. simpl in Hs.
  destruct (0 <? s) eqn:E0; [|done]. simpl in Hs. case_bool_decide as Epk; [|done]. simpl in Hs.
  rewrite find_pool_endpoint in Hs. destruct (pools d !! pool) as [p|]; [|done]. simpl in Hs.
  destruct (burn_shares _ _ _ s) as [o|] eqn:Eb; [|done]. simpl in Hs.
  destruct (match checked_add_unit _ _ _ with Some _ => _ | None => _ end) as [am|] eqn:E in Hs; [|done].
  simpl in Hs. injection Hs as <- <-. exists p, o. simpl. zbool. rewrite Epk. done.
Qed.

(** A withdrawal is exact or rejected: whatever happened to the pool since the
    preview, an accepted withdrawal pays exactly the amounts the client's
    transaction declared, so nothing is short and no surplus is forfeited, and it
    is authorised by the position's key; in the state of the preview, a position
    with enough shares is paid. *)
Theorem withdraw_exact_or_reject self c local pool pk s op d inp common :
  withdraw c local pool pk s op (Ok (pools_endpoint self d)) = Ok (inp, common) ->
  (forall d1 r d', process_input (ci_input inp) d1 = (Ok r, d') ->
     amounts (amount r) = ci_amounts inp /\ map public_key (ci_keys inp) = [pub_key r]) /\
  (forall pos, lp_positions d !! (pool, pk) = Some pos -> s <= lp_shares pos ->
     exists r d', process_input (ci_input inp) d = (Ok r, d')).
Proof.
  intros (p & o & Ep & Hs & Eb & Einp & Ekeys & Eamt)%withdraw_built. rewrite Einp. split.
  - intros d1 r d' Hr. simpl in Hr.
    apply withdraw_Ok in Hr as (p1 & pos & o1 & [_ _ _ _ [Hda Hdb] Hmeta (am & Ha & Ha') _]).
    assert (burn_da o1 = burn_da o) as Eda by lia. assert (burn_db o1 = burn_db o) as Edb by lia.
    rewrite Eda, Edb in *. rewrite Ha, Ha' in Eamt. injection Eamt as ->.
    by rewrite Ekeys, Hmeta.
  - intros pos Epos Hle. simpl. unfold process_input_withdraw. simpl.
    rewrite Ep. simpl. rewrite Epos. simpl. rewrite (proj2 (Z.ltb_ge _ _)) by lia. simpl.
    rewrite Eb. simpl. rewrite !(proj2 (Z.ltb_ge _ _)) by lia. simpl.
    destruct (match checked_add_unit _ _ _ with Some _ => _ | None => _ end) as [am|]; [|done].
    simpl. eauto.
Qed.
End settlement.

(** ** A concrete client *)

Section demo.
#[local] Existing Instance toy_crypto.
#[local] Existing Instance map_amounts.
#[local] Existing Instance u64_codec.
#[local] Existing Instance pk_codec.
#[local] Existing Instance tweak_codec.

Definition toy_derivation : @Derivation toy_crypto := {|
  DerivableSecret := Z;
  to_random_bytes root := replicate 32 (root mod 256);
  child_tweak_keypair root child tweak := root + 1000 * child + fold_right Z.add 0 tweak;
|}.
#[local] Existing Instance toy_derivation.

Definition demo_client : @AmmClientModule toy_crypto toy_derivation :=
  mkAmmClientModule (mkAmmClientConfig (units default_consensus_config) 3 ∅)
    (-1107 : @DerivableSecret toy_crypto toy_derivation).

(** The LP key of the demo client is the demo depositor's. *)
Definition demo_lp_pk : PublicKey := @public_key toy_crypto (5 : @Keypair toy_crypto).
Definition demo_swap_kp : @Keypair toy_crypto := (-995 : @Keypair toy_crypto).

Definition demo_quote : QuoteResponse := mkQuoteResponse 19743 13.

Definition demo_swap_out : ClientOutput :=
  mkClientOutput (new_swap_v0 demo_swap_kp 0 1 10000 19644 demo_tweak) (new_custom 0 10000).
Definition demo_swap_common : @SwapCommon toy_crypto := mkSwapCommon toy_crypto 11 1 demo_swap_kp.

Lemma demo_swap_built :
  swap demo_client 0 1 10000 50 11 (Ok demo_quote) demo_tweak = Ok (demo_swap_out, demo_swap_common).
Proof. reflexivity. Qed.

Lemma swap_within_tolerance_witness :
  exists r d' dy, process_output demo_amm (co_output demo_swap_out) demo_db1 = (Ok r, d') /\
    balances d' !! (public_key demo_swap_kp, 1) = Some (mkBalanceEntry (0 + dy) demo_tweak) /\
    19743 * (10000 - 50) < (dy + 1) * 10000.
Proof.
  destruct (run_ok (process_output demo_amm (co_output demo_swap_out) demo_db1)) as [r E];
    [by vm_compute|].
  destruct (swap_within_tolerance demo_amm demo_client 0 1 10000 50 11 demo_quote demo_tweak
    demo_swap_out demo_swap_common demo_db1
    (process_output demo_amm (co_output demo_swap_out) demo_db1).2 r) as (_ & dy & Eb & Hdy).
  - simpl. unfold_widths. lia.
  - lia.
  - exact demo_swap_built.
  - exact E.
  - eexists r, _, dy. split; [exact E|]. split; [exact Eb|exact Hdy].
Defined.

Definition demo_dep_out : ClientOutput :=
  mkClientOutput (new_deposit_v0 (5 : @Keypair toy_crypto) demo_pool 5000 10000 7035 demo_tweak)
    (default Amounts_ZERO (a ← checked_add_unit Amounts_ZERO 5000 0; checked_add_unit a 10000 1)).
Definition demo_dep_common : DepositCommon := mkDepositCommon 12 demo_pool demo_lp_pk demo_tweak 7071.

Lemma demo_dep_built :
  deposit demo_client demo_pool 5000 10000 50 12 (Ok (pools_endpoint demo_amm demo_db1)) demo_tweak
    = Ok (demo_dep_out, demo_dep_common).
Proof. reflexivity. Qed.

Lemma deposit_mints_preview_witness :
  exists r d' minted, process_output demo_amm (co_output demo_dep_out) demo_db1 = (Ok r, d') /\
    minted = 7071.
Proof.
  destruct (run_ok (process_output demo_amm (co_output demo_dep_out) demo_db1)) as [r E];
    [by vm_compute|].
  destruct (deposit_mints_preview demo_amm demo_client demo_pool 5000 10000 50 12 demo_db1 demo_tweak
    demo_dep_out demo_dep_common demo_db1
    (process_output demo_amm (co_output demo_dep_out) demo_db1).2 r) as (_ & minted & _ & _ & Hm).
  - simpl. unfold_widths. lia.
  - lia.
  - exact demo_dep_built.
  - exact E.
  - eexists r, _, minted. split; [exact E|]. apply Hm. done.
Defined.

Definition demo_local : gmap (PoolId * PublicKey) LpPositionRecord :=
  {[(demo_pool, demo_lp_pk) := mkLpPositionRecord demo_tweak 1413213]}.
Definition demo_wd_in : ClientInput :=
  mkClientInput (WithdrawV0 demo_pool demo_lp_pk 1000 707 1414 707 1414) [5 : @Keypair toy_crypto]
    (default Amounts_ZERO (a ← checked_add_unit Amounts_ZERO 707 0; checked_add_unit a 1414 1)).

Lemma demo_wd_built :
  withdraw demo_client demo_local demo_pool demo_lp_pk 1000 13 (Ok (pools_endpoint demo_amm demo_db1))
    = Ok (demo_wd_in, mkWithdrawCommon 13 demo_pool demo_lp_pk 1000).
Proof. reflexivity. Qed.

Lemma withdraw_exact_or_reject_witness :
  exists r d', process_input (ci_input demo_wd_in) demo_db1 = (Ok r, d') /\
    amounts (amount r) = ci_amounts demo_wd_in.
Proof.
  destruct (withdraw_exact_or_reject demo_amm demo_client demo_local demo_pool demo_lp_pk 1000 13
    demo_db1 _ _ demo_wd_built) as [Hany Hsame].
  destruct (Hsame (mkLpPosition 1413213 demo_tweak)) as (r & d' & E).
  - vm_compute. reflexivity.
  - simpl. lia.
  - exists r, d'. split; [exact E|]. apply (Hany _ _ _ E).
Defined.
End demo.
