(* ===== verification/AmmSwapSm.v ===== *)
(** * The AMM client's state machines

    [modules/amm/fedimint-amm-client/src/swap.rs] and [single_tx.rs].  A swap is
    two federation transactions: the first leaves a balance at a fresh key, the
    second claims it.  The machine's transitions are functions of what its trigger
    futures deliver; the world around it, the server of [AmmServer] with other
    users' items, the fate of the two transactions and the client's own recovery
    sweep, is a step relation.  The theorems say that the machine never strands or
    doubles what the federation credited and that it can always finish. *)

From S2P Require Import Prelude FedimintCore AmmMath AmmPoolId AmmConfig AmmTypes AmmServer.
From S2P Require Import AmmInvariant AmmSafety AmmClient.

Abbreviation TransactionId := Z (only parsing).

(** ** The swap machine *)

Inductive SwapState :=
| Tx1Submitted (txid : TransactionId)
| Tx1Rejected (error : string)
| Tx1Accepted (attempts : Z)
| Tx2Failed (attempts : Z) (error : string)
| Tx2Submitted (txid : TransactionId) (attempts : Z)
| Done.

Inductive SwapOutcome :=
| OutcomeTx1Rejected (error : string)
| Settled (amount_out : Z).

(** [background_backoff().nth(n)], in seconds; [None] past its end. *)
Definition retry_delay (background_backoff : nat -> option Z) (attempt : Z) : Z :=
  default 90 (background_backoff (Z.to_nat (saturating_sub attempt 1))).

Definition next_after_tx2_failure (prior_attempts : Z) (error : string) : SwapState :=
  Tx2Failed (u32_add prior_attempts 1) error.

(** The retry loop around the balance endpoint: the first answer that is not an
    error. *)
Fixpoint await_own_balance {E} (answers : list (result E (option Z))) : option (option Z) :=
  match answers with
  | [] => None
  | Ok balance :: _ => Some balance
  | Err _ :: answers => await_own_balance answers
  end.

Section machine.
Context `{Derivation} `{AmountsOps} `{Codec Z} `{Codec PublicKey} `{Codec (list Z)}.

Record SwapStateMachine := mkSwapStateMachine { common : SwapCommon; state : SwapState }.

Definition update (sm : SwapStateMachine) (s : SwapState) : SwapStateMachine :=
  mkSwapStateMachine (common sm) s.

Definition build_claim_input (keypair : Keypair) (unit : AmountUnit) (balance : Z) : ClientInput :=
  mkClientInput (ClaimBalanceV0 (public_key keypair) unit) [keypair] (new_custom unit balance).

(** The client's table of outcomes, by operation. *)
Abbreviation Outcomes := (gmap Z SwapOutcome) (only parsing).

Definition record_outcome (op : Z) (o : SwapOutcome) (t : Outcomes) : Outcomes := <[op := o]> t.

(** What a state's trigger delivers: the fate of a transaction, a balance read
    with the result of submitting its claim, or the end of a sleep. *)
Inductive Trigger :=
| OnTx (result : result string unit)
| OnBalance (balance : option Z) (claim : result string TransactionId)
| OnSlept.

Definition transition_tx1_accepted (balance : option Z) (claim : result string TransactionId)
    (attempts : Z) (old : SwapStateMachine) (t : Outcomes) : SwapStateMachine * Outcomes :=
  match balance with
  | None => (update old Done, t)
  | Some balance =>
      match claim with
      | Ok txid =>
          (update old (Tx2Submitted txid attempts),
           record_outcome (swap_operation_id (common old)) (Settled balance) t)
      | Err error => (update old (next_after_tx2_failure attempts error), t)
      end
  end.

(** [transitions]: every state waits for one kind of trigger; a terminal state
    schedules nothing. *)
Definition transition (sm : SwapStateMachine) (t : Outcomes) (e : Trigger)
    : option (SwapStateMachine * Outcomes) :=
  match state sm, e with
  | Tx1Submitted _, OnTx (Ok _) => Some (update sm (Tx1Accepted 0), t)
  | Tx1Submitted _, OnTx (Err error) =>
      Some (update sm (Tx1Rejected error),
            record_outcome (swap_operation_id (common sm)) (OutcomeTx1Rejected error) t)
  | Tx1Accepted attempts, OnBalance balance claim =>
      Some (transition_tx1_accepted balance claim attempts sm t)
  | Tx2Failed attempts _, OnSlept => Some (update sm (Tx1Accepted attempts), t)
  | Tx2Submitted _ _, OnTx (Ok _) => Some (update sm Done, t)
  | Tx2Submitted _ attempts, OnTx (Err error) =>
      Some (update sm (next_after_tx2_failure attempts error), t)
  | _, _ => None
  end.

Definition terminal (s : SwapState) : bool :=
  match s with Tx1Rejected _ | Done => true | _ => false end.

(** [await_swap] over the states the notifier streams. *)
Fixpoint await_swap (states : list SwapState) : result string unit :=
  match states with
  | [] => Err "stream ended without reaching a terminal state"%string
  | Done :: _ => Ok tt
  | Tx1Rejected error :: _ => Err error
  | _ :: states => await_swap states
  end.

(** ** The world around one swap *)

Inductive TxStatus := Unsent | InFlight (declared : Z) | Accepted | Rejected (error : string).

Record World := mkWorld {
  server : AmmDb;
  sm : SwapStateMachine;
  outcomes : Outcomes;
  tx1 : TxStatus;
  tx2 : TxStatus;
  credited : Z;   (* what the federation credited for the swap *)
  received : Z;   (* e-cash of the output unit this client has been issued *)
  swept : bool;   (* the recovery sweep has claimed the balance *)
  seen : option (option Z);   (* a balance read whose transition has not run yet *)
}.

Context (self : Amm) (out : ClientOutput) (com : SwapCommon).

Definition my_key : PublicKey * AmountUnit :=
  (public_key (recipient_keypair com), swap_unit_out com).

(** Items of other users: nobody else can sign for the fresh recipient key, so
    they neither claim its balance nor credit it. *)
Inductive foreign (d : AmmDb) : AmmDb -> Prop :=
| foreign_input i r d' :
    i <> ClaimBalanceV0 my_key.1 my_key.2 -> process_input i d = (Ok r, d') -> foreign d d'
| foreign_swap ui uo a m pk t sg r d' :
    (pk, uo) <> my_key -> process_output self (SwapV0 ui uo a m pk t sg) d = (Ok r, d') ->
    foreign d d'
| foreign_deposit k al ah ms pk t sg r d' :
    process_output self (DepositV0 k al ah ms pk t sg) d = (Ok r, d') -> foreign d d'
| foreign_item it peer r d' :
    process_consensus_item self it peer d = (Ok r, d') -> foreign d d'
| foreign_vote auth pool fee r d' :
    fee_vote_submit_endpoint self auth pool fee d = (Ok r, d') -> foreign d d'.

(** What [await_tx_accepted] resolves to, once it does. *)
Definition fate (s : TxStatus) : option (result string unit) :=
  match s with Accepted => Some (Ok tt) | Rejected e => Some (Err e) | _ => None end.

(** What [BALANCE_ENDPOINT] answers for the swap's key. *)
Definition my_balance (d : AmmDb) : option Z := bal_amount <$> balances d !! my_key.

Definition with_sm (w : World) (p : SwapStateMachine * Outcomes) : World :=
  mkWorld (server w) p.1 p.2 (tx1 w) (tx2 w) (credited w) (received w) (swept w) None.

Inductive wstep : World -> World -> Prop :=
| w_foreign w d' :
    foreign (server w) d' ->
    wstep w (mkWorld d' (sm w) (outcomes w) (tx1 w) (tx2 w) (credited w) (received w) (swept w)
               (seen w))
| w_tx1_lands w a r d' :
    tx1 w = InFlight a -> process_output self (co_output out) (server w) = (Ok r, d') ->
    wstep w (mkWorld d' (sm w) (outcomes w) Accepted (tx2 w) (default 0 (my_balance d'))
               (received w) (swept w) (seen w))
| w_tx1_fails w a e :
    tx1 w = InFlight a ->
    wstep w (mkWorld (server w) (sm w) (outcomes w) (Rejected e) (tx2 w) (credited w)
               (received w) (swept w) (seen w))
| w_tx1_seen w txid res p :
    state (sm w) = Tx1Submitted txid -> fate (tx1 w) = Some res ->
    transition (sm w) (outcomes w) (OnTx res) = Some p -> wstep w (with_sm w p)
| w_read w n :
    state (sm w) = Tx1Accepted n ->
    wstep w (mkWorld (server w) (sm w) (outcomes w) (tx1 w) (tx2 w) (credited w) (received w)
               (swept w) (Some (my_balance (server w))))
| w_claim_sent w txid b p :
    seen w = Some (Some b) ->
    transition (sm w) (outcomes w) (OnBalance (Some b) (Ok txid)) = Some p ->
    wstep w (mkWorld (server w) p.1 p.2 (tx1 w) (InFlight b) (credited w) (received w) (swept w)
               None)
| w_claim_unsent w b e p :
    seen w = Some b -> transition (sm w) (outcomes w) (OnBalance b (Err e)) = Some p ->
    wstep w (with_sm w p)
| w_tx2_lands w b r d' :
    (* core checks that the input covers the e-cash the transaction mints *)
    tx2 w = InFlight b ->
    process_input (ClaimBalanceV0 my_key.1 my_key.2) (server w) = (Ok r, d') ->
    b <= default 0 (my_balance (server w)) ->
    wstep w (mkWorld d' (sm w) (outcomes w) (tx1 w) Accepted (credited w) (received w + b) (swept w)
               (seen w))
| w_tx2_fails w b e :
    tx2 w = InFlight b ->
    wstep w (mkWorld (server w) (sm w) (outcomes w) (tx1 w) (Rejected e) (credited w)
               (received w) (swept w) (seen w))
| w_tx2_seen w txid n res p :
    state (sm w) = Tx2Submitted txid n -> fate (tx2 w) = Some res ->
    transition (sm w) (outcomes w) (OnTx res) = Some p -> wstep w (with_sm w p)
| w_slept w n e p :
    state (sm w) = Tx2Failed n e ->
    transition (sm w) (outcomes w) OnSlept = Some p -> wstep w (with_sm w p)
| w_sweep w b r d' :
    (* [claim_pending_balances]: re-read, then claim what was read *)
    my_balance (server w) = Some b ->
    process_input (ClaimBalanceV0 my_key.1 my_key.2) (server w) = (Ok r, d') ->
    wstep w (mkWorld d' (sm w) (outcomes w) (tx1 w) (tx2 w) (credited w) (received w + b) true
               (seen w)).

(** The swap has just been submitted, with a fresh key. *)
Definition submitted (d : AmmDb) (txid : TransactionId) (t : Outcomes) : World :=
  mkWorld d (mkSwapStateMachine com (Tx1Submitted txid)) t (InFlight 0) Unsent 0 0 false None.
End machine.

(** ** What the world keeps *)

Section safety.
Context `{Hcrypto : Crypto} `{Hder : !Derivation} `{Ham : AmountsOps}.
Context `{cz : Codec Z} `{cpk : Codec PublicKey} `{ct : Codec (list Z)}.
Context (self : Amm) (out : ClientOutput) (com : SwapCommon).

Context (min_out : Z).

(** The output is the one [AmmClientModule::swap] builds for this machine. *)
Definition swap_output_of : Prop :=
  exists ui a tweak,
    co_output out = new_swap_v0 (recipient_keypair com) ui (swap_unit_out com) a min_out tweak.
Hypothesis Hout : swap_output_of.

Abbreviation bal := (my_balance com) (only parsing).

Lemma foreign_keeps d d' : foreign self com d d' -> my_balance com d' = my_balance com d.
Proof.
  unfold my_balance. intros Hf. f_equal. destruct Hf as [i r d' Hi Hr|ui uo a m pk t sg r d' Hk Hr|
    k al ah ms pk t sg r d' Hr|it peer r d' Hr|auth pool fee r d' Hr].
  - destruct i as [pk u|k pk s a b x y|]; simpl in Hr; [| |congruence].
    + rewrite claim_run in Hr. destruct (balances d !! (pk, u)); [|done]. injection Hr as _ <-. simpl.
      apply lookup_delete_ne. intros E. apply Hi. by rewrite <- E.
    + apply withdraw_Ok in Hr as (p & pos & o & [_ _ _ _ _ _ _ ->]). simpl. by case_match.
  - unfold process_output in Hr. simpl in Hr. destruct (verify_pop_sig _ _ _) in Hr; [|done].
    simpl in Hr. apply swap_Ok in Hr as (pid & p & q & cr & [_ _ _ _ _ _ ->]). simpl.
    by apply lookup_insert_ne.
  - unfold process_output in Hr. simpl in Hr. destruct (verify_pop_sig _ _ _) in Hr; [|done].
    simpl in Hr. apply deposit_run in Hr as [[-> _]|(p & o & sh & [_ _ _ _ _ _ ->] & _)]; done.
  - destruct it; simpl in Hr; [|congruence]. by run_inv Hr.
  - unfold fee_vote_submit_endpoint in Hr. by run_inv Hr.
Qed.

Lemma tx1_credits d r d' :
  process_output self (co_output out) d = (Ok r, d') ->
  my_balance com d = None -> exists b, my_balance com d' = Some b /\ min_out <= b.
Proof.
  destruct Hout as (ui & a & t & ->). unfold my_balance. intros Hr Hnone.
  unfold process_output, new_swap_v0 in Hr. simpl in Hr. destruct (verify_pop_sig _ _ _) in Hr; [|done].
  simpl in Hr. apply swap_Ok in Hr as (pid & p & q & cr & [_ _ Hf Hcr _ _ ->]). simpl.
  rewrite lookup_insert_eq. eexists. split; [done|].
  change (public_key (recipient_keypair com), swap_unit_out com) with (my_key com) in Hcr.
  rewrite Hnone in Hcr. pose proof (sf_min _ _ _ _ _ _ _ _ Hf). simpl in *. lia.
Qed.

Lemma claim_takes d r d' :
  process_input (ClaimBalanceV0 (my_key com).1 (my_key com).2) d = (Ok r, d') ->
  is_Some (my_balance com d) /\ my_balance com d' = None.
Proof.
  simpl. rewrite claim_run. unfold my_balance.
  change (public_key (recipient_keypair com), swap_unit_out com) with (my_key com).
  destruct (balances d !! my_key com) as [e|]; [|done]. intros [= _ <-]. simpl.
  split; [by eexists|]. by rewrite lookup_delete_eq.
Qed.

Definition op_id : Z := swap_operation_id com.

(** Where the credited amount is: still at the key, or issued to the client. *)
Definition accounted (w : World) : Prop :=
  (my_balance com (server w) = Some (credited w) /\ received w = 0) \/
  (my_balance com (server w) = None /\ received w = credited w).

Record world_inv (w : World) : Prop := {
  wi_common : common (sm w) = com;
  wi_before : tx1 w <> Accepted ->
    my_balance com (server w) = None /\ credited w = 0 /\ received w = 0 /\ tx2 w = Unsent /\
    swept w = false /\ seen w = None /\ (forall a, outcomes w !! op_id <> Some (Settled a)) /\
    ((exists t, state (sm w) = Tx1Submitted t) \/
     (exists e, state (sm w) = Tx1Rejected e /\ tx1 w = Rejected e));
  wi_after : tx1 w = Accepted -> accounted w /\ (forall e, state (sm w) <> Tx1Rejected e);
  wi_min : tx1 w = Accepted -> min_out <= credited w;
  wi_tx2 : forall b, tx2 w = InFlight b ->
    b = credited w /\ exists t n, state (sm w) = Tx2Submitted t n;
  wi_landed : tx2 w = Accepted ->
    my_balance com (server w) = None /\
    (state (sm w) = Done \/ exists t n, state (sm w) = Tx2Submitted t n);
  wi_gone : tx1 w = Accepted -> my_balance com (server w) = None -> swept w = false -> tx2 w = Accepted;
  wi_done : state (sm w) = Done -> my_balance com (server w) = None;
  wi_sent : forall t n, state (sm w) = Tx2Submitted t n -> tx2 w <> Unsent;
  wi_seen : forall b, seen w = Some b -> exists n, state (sm w) = Tx1Accepted n /\
    (b = Some (credited w) \/ b = None /\ my_balance com (server w) = None);
  wi_settled : forall a, outcomes w !! op_id = Some (Settled a) -> a = credited w;
  wi_outcome : (exists t n, state (sm w) = Tx2Submitted t n) \/ (state (sm w) = Done /\ swept w = false) ->
    outcomes w !! op_id = Some (Settled (credited w));
}.

Lemma submitted_inv d txid t :
  my_balance com d = None -> (forall a, t !! op_id <> Some (Settled a)) ->
  world_inv (submitted com d txid t).
Proof.
  intros Hb Ht. constructor; simpl; try done.
  - intros _. split_and!; eauto.
  - intros a Ha. by apply Ht in Ha.
  - intros [(? & ? & ?)|[? _]]; done.
Qed.

Lemma past_tx1 w : world_inv w ->
  (forall t, state (sm w) <> Tx1Submitted t) -> (forall e, state (sm w) <> Tx1Rejected e) ->
  tx1 w = Accepted.
Proof.
  intros I Hs Hr. destruct (tx1 w) eqn:E; try done;
    destruct (wi_before _ I ltac:(congruence)) as (_ & _ & _ & _ & _ & _ & _ & [[? ?]|(? & ? & _)]);
    exfalso; (by eapply Hs) || by eapply Hr.
Qed.

Lemma fate_inv s res : fate s = Some res ->
  (s = Accepted /\ res = Ok tt) \/ (exists e, s = Rejected e /\ res = Err e).
Proof. destruct s; intros [= <-]; eauto. Qed.

(** Names the facts of an invariant. *)
Ltac open_inv I :=
  pose proof (past_tx1 _ I) as Hpast;
  destruct I as [Hcom Hbef Haft Hmo Htx2 Hland Hgone Hdone Hsent Hseen Hset Hout'].
Ltac rebuild := constructor; simpl; try done; try congruence.
(** Runs the transition of a known state. *)
Ltac fire Htr Hst := unfold transition in Htr; rewrite Hst in Htr; simplify_eq/=.
Ltac no_outcome := unfold next_after_tx2_failure; intros [(? & ? & ?)|[? _]]; congruence.

Lemma inv_tx1_lands w a r d' :
  world_inv w -> tx1 w = InFlight a -> process_output self (co_output out) (server w) = (Ok r, d') ->
  world_inv (mkWorld d' (sm w) (outcomes w) Accepted (tx2 w) (default 0 (my_balance com d'))
               (received w) (swept w) (seen w)).
Proof.
  intros I Ht1 Hr. open_inv I.
  destruct (Hbef ltac:(congruence)) as (Hb & Hc & Hrec & Hu & Hsw & Hse & Hno & Hst).
  destruct (tx1_credits _ _ _ Hr Hb) as (b' & Hb' & Hmin).
  assert (exists t, state (sm w) = Tx1Submitted t) as [t Ht].
  { destruct Hst as [?|(e & _ & ?)]; [done|congruence]. }
  rebuild; [| |no_outcome].
  - intros _. split; [left; simpl; by rewrite Hb'|congruence].
  - intros _. by rewrite Hb'.
Qed.

Lemma inv_tx1_fails w a e :
  world_inv w -> tx1 w = InFlight a ->
  world_inv (mkWorld (server w) (sm w) (outcomes w) (Rejected e) (tx2 w) (credited w)
               (received w) (swept w) (seen w)).
Proof.
  intros I Ht1. open_inv I.
  destruct (Hbef ltac:(congruence)) as (Hb & Hc & Hrec & Hu & Hsw & Hse & Hno & Hst).
  rebuild. intros _. split_and!; try done.
  destruct Hst as [?|(e' & _ & ?)]; [by left|congruence].
Qed.

Lemma inv_tx1_seen w txid res p :
  world_inv w -> state (sm w) = Tx1Submitted txid -> fate (tx1 w) = Some res ->
  transition (sm w) (outcomes w) (OnTx res) = Some p -> world_inv (with_sm w p).
Proof.
  intros I Hst Hfate Htr. open_inv I.
  apply fate_inv in Hfate as [[Et1 ->]|(e & Et1 & ->)]; fire Htr Hst.
  - destruct (Haft Et1) as [Hacc _]. rebuild; [| |no_outcome].
    + intros b Hb. destruct (Htx2 b Hb) as (_ & ? & ? & ?). congruence.
    + intros Ha. destruct (Hland Ha) as (_ & [?|(? & ? & ?)]); congruence.
  - destruct (Hbef ltac:(congruence)) as (Hb & Hc & Hrec & Hu & Hsw & Hse & Hno & _).
    assert (forall a, record_outcome (swap_operation_id (common (sm w))) (OutcomeTx1Rejected e)
      (outcomes w) !! op_id <> Some (Settled a)) as Hno'.
    { intros a. unfold record_outcome, op_id. by rewrite Hcom, lookup_insert_eq. }
    rebuild; [|no_outcome].
    intros _. split_and!; try done. right. by eexists.
Qed.

(** While the machine waits in [Tx1Accepted], nobody but the sweep has claimed. *)
Lemma waiting_not_gone w n : world_inv w -> state (sm w) = Tx1Accepted n ->
  my_balance com (server w) = None -> swept w = true.
Proof.
  intros I Hst Hb. open_inv I. destruct (swept w) eqn:Esw; [done|].
  assert (tx1 w = Accepted) as Ha by (apply Hpast; congruence).
  destruct (Hland (Hgone Ha Hb eq_refl)) as (_ & [?|(? & ? & ?)]); congruence.
Qed.

Lemma inv_read w n :
  world_inv w -> state (sm w) = Tx1Accepted n ->
  world_inv (mkWorld (server w) (sm w) (outcomes w) (tx1 w) (tx2 w) (credited w) (received w)
               (swept w) (Some (my_balance com (server w)))).
Proof.
  intros I Hst. open_inv I. assert (tx1 w = Accepted) as Ha by (apply Hpast; congruence). rebuild.
  intros b [= <-]. exists n. split; [done|].
  destruct (Haft Ha) as [[[E _]|[E _]] _]; rewrite E; auto.
Qed.

Lemma inv_claim_sent w txid b p :
  world_inv w -> seen w = Some (Some b) ->
  transition (sm w) (outcomes w) (OnBalance (Some b) (Ok txid)) = Some p ->
  world_inv (mkWorld (server w) p.1 p.2 (tx1 w) (InFlight b) (credited w) (received w) (swept w) None).
Proof.
  intros I Hb Htr. pose proof (fun n => waiting_not_gone w n I) as Hwait. open_inv I.
  destruct (Hseen _ Hb) as (n & Hst & [[= ->]|[? _]]); [|done].
  assert (tx1 w = Accepted) as Ha by (apply Hpast; congruence).
  destruct (Haft Ha) as [Hacc _]. fire Htr Hst.
  assert (record_outcome (swap_operation_id (common (sm w))) (Settled (credited w)) (outcomes w)
    !! op_id = Some (Settled (credited w))) as Ho.
  { unfold record_outcome, op_id. by rewrite Hcom, lookup_insert_eq. }
  rebuild.
  - intros b [= ->]. split; [done|]. by eexists _, _.
  - intros _ Hnone Hsw. specialize (Hwait n Hst Hnone). congruence.
Qed.

Lemma inv_claim_unsent w b e p :
  world_inv w -> seen w = Some b -> transition (sm w) (outcomes w) (OnBalance b (Err e)) = Some p ->
  world_inv (with_sm w p).
Proof.
  intros I Hb Htr. pose proof (fun n => waiting_not_gone w n I) as Hwait. open_inv I.
  destruct (Hseen _ Hb) as (n & Hst & Hbb).
  assert (tx1 w = Accepted) as Ha by (apply Hpast; congruence).
  destruct (Haft Ha) as [Hacc _]. fire Htr Hst.
  assert (forall b', tx2 w <> InFlight b') as Hnf.
  { intros b' E. destruct (Htx2 b' E) as (_ & ? & ? & ?). congruence. }
  assert (tx2 w <> Accepted) as Hna.
  { intros E. destruct (Hland E) as (_ & [?|(? & ? & ?)]); congruence. }
  destruct b as [b|]; simpl.
  - rebuild. no_outcome.
  - destruct Hbb as [?|[_ Hnone]]; [done|]. rebuild.
    intros [(? & ? & ?)|[_ Hsw]]; [done|]. specialize (Hwait n Hst Hnone). congruence.
Qed.

Lemma inv_tx2_lands w b r d' :
  world_inv w -> tx2 w = InFlight b ->
  process_input (ClaimBalanceV0 (my_key com).1 (my_key com).2) (server w) = (Ok r, d') ->
  world_inv (mkWorld d' (sm w) (outcomes w) (tx1 w) Accepted (credited w) (received w + b) (swept w)
               (seen w)).
Proof.
  intros I Ht2 Hr. open_inv I. destruct (Htx2 _ Ht2) as (-> & t & n & Hst).
  assert (tx1 w = Accepted) as Ha by (apply Hpast; congruence).
  destruct (claim_takes _ _ _ Hr) as [[b Hb] Hb'].
  destruct (Haft Ha) as [[[_ Hrec]|[Hnone _]] Hnr]; [|congruence]. rebuild.
  - intros _. split; [right; simpl; split; [done|lia]|done].
  - intros _. split; [done|]. right. by eexists _, _.
  - intros b' E. destruct (Hseen _ E) as (n' & ? & _). congruence.
Qed.

Lemma inv_tx2_fails w b e :
  world_inv w -> tx2 w = InFlight b ->
  world_inv (mkWorld (server w) (sm w) (outcomes w) (tx1 w) (Rejected e) (credited w)
               (received w) (swept w) (seen w)).
Proof.
  intros I Ht2. open_inv I. destruct (Htx2 _ Ht2) as (-> & t & n & Hst).
  assert (tx1 w = Accepted) as Ha by (apply Hpast; congruence). rebuild.
  intros _ Hnone Hsw. specialize (Hgone Ha Hnone Hsw). congruence.
Qed.

Lemma inv_tx2_seen w txid n res p :
  world_inv w -> state (sm w) = Tx2Submitted txid n -> fate (tx2 w) = Some res ->
  transition (sm w) (outcomes w) (OnTx res) = Some p -> world_inv (with_sm w p).
Proof.
  intros I Hst Hfate Htr. open_inv I.
  assert (tx1 w = Accepted) as Ha by (apply Hpast; congruence).
  destruct (Haft Ha) as [Hacc _].
  apply fate_inv in Hfate as [[Et2 ->]|(e & Et2 & ->)]; fire Htr Hst.
  - destruct (Hland Et2) as [Hnone _]. rebuild; auto.
    intros _. apply Hout'. left. by eexists _, _.
  - rebuild. no_outcome.
Qed.

Lemma inv_slept w n e p :
  world_inv w -> state (sm w) = Tx2Failed n e ->
  transition (sm w) (outcomes w) OnSlept = Some p -> world_inv (with_sm w p).
Proof.
  intros I Hst Htr. open_inv I.
  assert (tx1 w = Accepted) as Ha by (apply Hpast; congruence).
  destruct (Haft Ha) as [Hacc _]. fire Htr Hst. rebuild.
  - intros b E. destruct (Htx2 b E) as (_ & ? & ? & ?). congruence.
  - intros E. destruct (Hland E) as (_ & [?|(? & ? & ?)]); congruence.
  - no_outcome.
Qed.

Lemma inv_sweep w b r d' :
  world_inv w -> my_balance com (server w) = Some b ->
  process_input (ClaimBalanceV0 (my_key com).1 (my_key com).2) (server w) = (Ok r, d') ->
  world_inv (mkWorld d' (sm w) (outcomes w) (tx1 w) (tx2 w) (credited w) (received w + b) true (seen w)).
Proof.
  intros I Hb Hr. open_inv I. destruct (claim_takes _ _ _ Hr) as [_ Hb'].
  assert (tx1 w = Accepted) as Ha.
  { destruct (tx1 w) eqn:E; try done; destruct (Hbef ltac:(congruence)) as [? _]; congruence. }
  destruct (Haft Ha) as [[[Hc Hrec]|[Hnone _]] Hnr]; [|congruence]. rebuild.
  - intros _. split; [right; simpl; split; [done|]|done]. rewrite Hb in Hc. injection Hc as ->. lia.
  - intros E. destruct (Hland E). congruence.
  - intros b' E. destruct (Hseen _ E) as (n' & ? & [->|[-> _]]); eauto.
  - intros [?|[_ ?]]; [auto|done].
Qed.

Lemma step_inv w w' : world_inv w -> wstep self out com w w' -> world_inv w'.
Proof.
  intros I Hs. destruct Hs; eauto using inv_tx1_lands, inv_tx1_fails, inv_tx1_seen, inv_read,
    inv_claim_sent, inv_claim_unsent, inv_tx2_lands, inv_tx2_fails, inv_tx2_seen, inv_slept, inv_sweep.
  match goal with Hf : foreign _ _ _ _ |- _ => apply foreign_keeps in Hf as Hb end.
  destruct I. constructor; simpl; unfold accounted in *; simpl; by rewrite ?Hb.
Qed.

Lemma reachable_world_inv w w' : world_inv w -> rtc (wstep self out com) w w' -> world_inv w'.
Proof. intros I Hr. exact (rtc_invariant _ world_inv _ _ step_inv I Hr). Qed.

(** ** Finishing *)

Lemma claim_runs d b : my_balance com d = Some b ->
  exists r d', process_input (ClaimBalanceV0 (my_key com).1 (my_key com).2) d = (Ok r, d').
Proof.
  unfold my_balance. intros Hb. simpl. rewrite claim_run.
  change (public_key (recipient_keypair com), swap_unit_out com) with (my_key com).
  destruct (balances d !! my_key com); [|done]. eauto.
Qed.

(** A run that ends in [Done] with the credited amount unchanged. *)
Definition finishes (w : World) : Prop :=
  exists w', rtc (wstep self out com) w w' /\ state (sm w') = Done /\ credited w' = credited w.

Lemma finishes_step w w' :
  wstep self out com w w' -> credited w' = credited w -> finishes w' -> finishes w.
Proof.
  intros Hs Hc (w1 & Hr & Hd & Hc1). exists w1. split; [by eapply rtc_l|]. split; [done|congruence].
Qed.

Lemma finish_landed w t n : state (sm w) = Tx2Submitted t n -> tx2 w = Accepted -> finishes w.
Proof.
  intros Hst Ht2. eapply finishes_step.
  - eapply w_tx2_seen; [done|by rewrite Ht2|unfold transition; by rewrite Hst].
  - done.
  - eexists. split; [apply rtc_refl|]. done.
Qed.

Lemma finish_inflight w t n b b' :
  state (sm w) = Tx2Submitted t n -> tx2 w = InFlight b ->
  my_balance com (server w) = Some b' -> b <= b' -> finishes w.
Proof.
  intros Hst Ht2 Hb Hle. destruct (claim_runs _ _ Hb) as (r & d' & Hr).
  eapply finishes_step; [eapply w_tx2_lands; [done|done|by rewrite Hb]|done|].
  by eapply finish_landed.
Qed.

Lemma finish_waiting w n : world_inv w -> state (sm w) = Tx1Accepted n -> finishes w.
Proof.
  intros I Hst. eapply finishes_step; [by eapply w_read|done|].
  destruct (my_balance com (server w)) as [b|] eqn:Eb.
  - eapply finishes_step.
    + eapply (w_claim_sent _ _ _ _ 0); simpl; [done|]. unfold transition. simpl. by rewrite Hst.
    + done.
    + by eapply finish_inflight.
  - eapply finishes_step.
    + eapply (w_claim_unsent _ _ _ _ None ""%string); simpl; [done|].
      unfold transition. simpl. by rewrite Hst.
    + done.
    + eexists. split; [apply rtc_refl|]. done.
Qed.

Lemma finish_failed w n e : world_inv w -> state (sm w) = Tx2Failed n e -> finishes w.
Proof.
  intros I Hst.
  assert (wstep self out com w (with_sm w (update (sm w) (Tx1Accepted n), outcomes w))) as Hs.
  { eapply w_slept; [done|]. unfold transition. by rewrite Hst. }
  eapply finishes_step; [exact Hs|done|]. eapply finish_waiting; [by eapply step_inv|done].
Qed.

Lemma finish_rejected w t n e : world_inv w ->
  state (sm w) = Tx2Submitted t n -> tx2 w = Rejected e -> finishes w.
Proof.
  intros I Hst Ht2.
  assert (wstep self out com w (with_sm w (update (sm w) (next_after_tx2_failure n e), outcomes w))) as Hs.
  { eapply w_tx2_seen; [done|by rewrite Ht2|unfold transition; by rewrite Hst]. }
  eapply finishes_step; [exact Hs|done|]. eapply finish_failed; [by eapply step_inv|done].
Qed.

Lemma finish_sent w t n : world_inv w -> state (sm w) = Tx2Submitted t n -> finishes w.
Proof.
  intros I Hst. destruct (tx2 w) as [|b| |e] eqn:Et2.
  - by destruct (wi_sent _ I _ _ Hst).
  - destruct (my_balance com (server w)) as [b'|] eqn:Eb.
    + destruct (wi_tx2 _ I b Et2) as (-> & _).
      destruct (wi_after _ I) as [[[E _]|[E _]] _]; [apply past_tx1; [done|congruence..]| |congruence].
      eapply finish_inflight; [done..|]. rewrite E in Eb. injection Eb as ->. lia.
    + assert (wstep self out com w (mkWorld (server w) (sm w) (outcomes w) (tx1 w)
        (Rejected "NoSuchBalance") (credited w) (received w) (swept w) (seen w))) as Hs
        by (by eapply w_tx2_fails).
      eapply finishes_step; [exact Hs|done|]. eapply finish_rejected; [by eapply step_inv|done..].
  - by eapply finish_landed.
  - by eapply finish_rejected.
Qed.

Lemma finish_accepted w : world_inv w -> tx1 w = Accepted -> finishes w.
Proof.
  intros I Ha. destruct (wi_after _ I Ha) as [_ Hnr].
  destruct (state (sm w)) as [t|e|n|n e|t n|] eqn:Hst.
  - assert (wstep self out com w (with_sm w (update (sm w) (Tx1Accepted 0), outcomes w))) as Hs.
    { eapply w_tx1_seen; [done|by rewrite Ha|unfold transition; by rewrite Hst]. }
    eapply finishes_step; [exact Hs|done|]. eapply finish_waiting; [by eapply step_inv|done].
  - by destruct (Hnr e).
  - by eapply finish_waiting.
  - by eapply finish_failed.
  - by eapply finish_sent.
  - eexists. split; [apply rtc_refl|]. done.
Qed.



(** What the client's history shows for a swap is right: a recorded settlement is
    the credited amount, and a finished swap that was not claimed by the recovery sweep
    has one. *)
Theorem swap_outcome_recorded d txid t w :
  my_balance com d = None -> (forall a, t !! op_id <> Some (Settled a)) ->
  rtc (wstep self out com) (submitted com d txid t) w ->
  (forall a, outcomes w !! op_id = Some (Settled a) -> a = credited w) /\
  (state (sm w) = Done -> swept w = false -> outcomes w !! op_id = Some (Settled (received w))).
Proof.
  intros Hb Ht Hr. pose proof (reachable_world_inv _ _ (submitted_inv _ _ _ Hb Ht) Hr) as I.
  split; [exact (wi_settled _ I)|]. intros Hd Hsw.
  assert (tx1 w = Accepted) as Ha by (apply past_tx1; [done|congruence..]).
  destruct (wi_after _ I Ha) as [[[E _]|[_ ->]] _]; [by rewrite (wi_done _ I Hd) in E|].
  apply (wi_outcome _ I). by right.
Qed.
End safety.

(** ** A concrete swap *)

Section demo.
#[local] Existing Instance toy_crypto.
#[local] Existing Instance map_amounts.
#[local] Existing Instance u64_codec.
#[local] Existing Instance pk_codec.
#[local] Existing Instance tweak_codec.
#[local] Existing Instance toy_derivation.

Abbreviation demo_step := (wstep demo_amm demo_swap_out demo_swap_common).
Definition demo_submitted : World := submitted demo_swap_common demo_db1 77 ∅.
Definition demo_landed_db : AmmDb := (process_output demo_amm (co_output demo_swap_out) demo_db1).2.
Definition demo_landed : World :=
  mkWorld demo_landed_db (sm demo_submitted) ∅ Accepted Unsent
    (default 0 (my_balance demo_swap_common demo_landed_db)) 0 false None.

Lemma demo_output_of : swap_output_of demo_swap_out demo_swap_common 19644.
Proof. by exists 0, 10000, demo_tweak. Qed.

Lemma demo_fresh : my_balance demo_swap_common demo_db1 = None.
Proof. vm_compute. reflexivity. Qed.

Lemma demo_unsettled : forall a, (∅ : gmap Z SwapOutcome) !! op_id demo_swap_common <> Some (Settled a).
Proof. intros a. by rewrite lookup_empty. Qed.

Lemma demo_lands : demo_step demo_submitted demo_landed.
Proof.
  destruct (run_ok (process_output demo_amm (co_output demo_swap_out) demo_db1)) as [r E];
    [by vm_compute|].
  eapply (w_tx1_lands _ _ _ demo_submitted 0 r); [done|exact E].
Qed.

Lemma demo_claim d : my_balance demo_swap_common d = Some 19743 ->
  exists r, process_input (ClaimBalanceV0 (my_key demo_swap_common).1 (my_key demo_swap_common).2) d
    = (Ok r, (process_input (ClaimBalanceV0 (my_key demo_swap_common).1 (my_key demo_swap_common).2) d).2).
Proof. intros (r & d' & E)%claim_runs. exists r. by rewrite E. Qed.

(** The swap that goes through. *)
Lemma demo_done : exists w, rtc demo_step demo_submitted w /\ state (sm w) = Done /\
  swept w = false /\ received w = 19743.
Proof.
  destruct (demo_claim demo_landed_db) as [r E]; [by vm_compute|].
  eexists. split.
  - eapply rtc_l; [exact demo_lands|].
    eapply rtc_l; [eapply w_tx1_seen; reflexivity|].
    eapply rtc_l; [eapply w_read; reflexivity|].
    eapply rtc_l; [eapply (w_claim_sent _ _ _ _ 78 19743); [by vm_compute|reflexivity]|].
    eapply rtc_l; [eapply w_tx2_lands; [reflexivity|exact E|by vm_compute]|].
    eapply rtc_l; [eapply w_tx2_seen; reflexivity|apply rtc_refl].
  - split; [reflexivity|]. split; reflexivity.
Qed.

(** The recovery sweep claims first: the swap finishes without an outcome, and
    [swap_outcome] keeps answering what it answers for a swap in flight. *)
Lemma swept_swap_has_no_outcome : exists w, rtc demo_step demo_submitted w /\
  state (sm w) = Done /\ received w = 19743 /\ outcomes w !! op_id demo_swap_common = None.
Proof.
  destruct (demo_claim demo_landed_db) as [r E]; [by vm_compute|].
  eexists. split.
  - eapply rtc_l; [exact demo_lands|].
    eapply rtc_l; [eapply w_tx1_seen; reflexivity|].
    eapply rtc_l; [eapply (w_sweep _ _ _ _ 19743); [by vm_compute|exact E]|].
    eapply rtc_l; [eapply w_read; reflexivity|].
    eapply rtc_l; [eapply (w_claim_unsent _ _ _ _ None ""%string); [by vm_compute|reflexivity]|apply rtc_refl].
  - split; [reflexivity|]. split; [reflexivity|]. apply lookup_empty.
Qed.



Lemma swap_outcome_recorded_witness :
  exists w, state (sm w) = Done /\ outcomes w !! op_id demo_swap_common = Some (Settled 19743).
Proof.
  destruct demo_done as (w & Hr & Hd & Hsw & Hrec).
  destruct (swap_outcome_recorded demo_amm demo_swap_out demo_swap_common 19644 demo_output_of
    demo_db1 77 ∅ w demo_fresh demo_unsettled Hr) as [_ H].
  exists w. split; [exact Hd|]. rewrite <- Hrec. exact (H Hd Hsw).
Defined.
End demo.
