(* ===== verification/AmmClientRecovery.v ===== *)
(** * The AMM client's local state and recovery

    [modules/amm/fedimint-amm-client/src]: the deposit and withdrawal machines with
    the cache of LP positions they keep (single_tx.rs, db.rs), and recovery from the
    seed alone (api.rs, lib.rs): the scan of the server's two recovery tables, the
    rows it persists and the sweep that claims them.  The scan is composed with the
    page server of [AmmRecovery], the sweep with the handlers of [AmmServer]. *)

From S2P Require Import Prelude FedimintCore AmmMath AmmPoolId AmmConfig AmmTypes AmmServer.
From S2P Require Import AmmInvariant AmmSafety AmmRecovery AmmClient.

(** ** The single-transaction machines *)

Module DepositState.
Inductive t := Submitted (txid : Z) | Accepted | Rejected (error : string).
End DepositState.

Module WithdrawState.
Inductive t := Submitted (txid : Z) | Accepted | Rejected (error : string).
End WithdrawState.

(** The local cache. *)
Abbreviation LpCache := (gmap (PoolId * PublicKey) LpPositionRecord) (only parsing).

Record DepositStateMachine := mkDepositSm { dep_common : DepositCommon; dep_state : DepositState.t }.
Record WithdrawStateMachine := mkWithdrawSm { wd_common : WithdrawCommon; wd_state : WithdrawState.t }.

Definition transition_submitted (result : result string unit) (old : DepositStateMachine)
    (cache : LpCache) : DepositStateMachine * LpCache :=
  match result with
  | Ok _ =>
      let c := dep_common old in
      (mkDepositSm c DepositState.Accepted,
       <[(deposit_pool c, deposit_owner_pk c) :=
           mkLpPositionRecord (deposit_tweak c) (expected_shares c)]> cache)
  | Err error => (mkDepositSm (dep_common old) (DepositState.Rejected error), cache)
  end.

Definition transition_withdraw_submitted (result : result string unit) (old : WithdrawStateMachine)
    (cache : LpCache) : WithdrawStateMachine * LpCache :=
  match result with
  | Ok _ =>
      let c := wd_common old in
      let key := (withdraw_pool c, withdraw_owner_pk c) in
      (mkWithdrawSm c WithdrawState.Accepted,
       match cache !! key with
       | Some record =>
           if rec_shares record <=? withdraw_shares c then delete key cache
           else <[key := mkLpPositionRecord (rec_tweak record)
                           (u64_sub (rec_shares record) (withdraw_shares c))]> cache
       | None => cache
       end)
  | Err error => (mkWithdrawSm (wd_common old) (WithdrawState.Rejected error), cache)
  end.

(** [await_deposit] and [await_withdraw] over the states the notifier streams. *)
Fixpoint await_deposit (states : list DepositState.t) : result string unit :=
  match states with
  | [] => Err "stream ended without reaching a terminal state"%string
  | DepositState.Accepted :: _ => Ok tt
  | DepositState.Rejected error :: _ => Err error
  | DepositState.Submitted _ :: states => await_deposit states
  end.

Fixpoint await_withdraw (states : list WithdrawState.t) : result string unit :=
  match states with
  | [] => Err "stream ended without reaching a terminal state"%string
  | WithdrawState.Accepted :: _ => Ok tt
  | WithdrawState.Rejected error :: _ => Err error
  | WithdrawState.Submitted _ :: states => await_withdraw states
  end.

(** ** The scan *)

(** [for_each_balance_recovery_entry] and its LP twin: every entry of every page,
    and whether the last page was reached before the fuel ran out. *)
Fixpoint for_each {A E} (fuel : nat) (fetch_page : option bytes -> result E (list A * option bytes))
    (cursor : option bytes) : result E (list A * bool) :=
  match fuel with
  | O => Ok ([], false)
  | S fuel =>
      '(entries, next) ← fetch_page cursor;
      match next with
      | None => Ok (entries, true)
      | Some c =>
          '(rest, done) ← for_each fuel fetch_page (Some c);
          Ok (entries ++ rest, done)
      end
  end.

Record RecoveredBalanceRecord := mkRecoveredBalanceRecord { recovered_tweak : list Z }.

(** The rows of [RecoveredBalanceKey]. *)
Abbreviation Recovered := (gmap (PublicKey * AmountUnit) RecoveredBalanceRecord) (only parsing).

Record AmmRecoverySummary := mkAmmRecoverySummary {
  balances_found : nat; balances_claimed : nat; positions_restored : nat;
  claim_errors : list (PublicKey * AmountUnit);
}.

Section recovery.
Context `{Hcrypto : Crypto} `{Hder : !Derivation} `{ct : Codec (list Z)}.

Definition own_balances (root : DerivableSecret) (entries : list BalanceRecoveryEntry)
    : list BalanceRecoveryEntry :=
  List.filter (fun e => matches_own_key root (tweak_filter root) CHILD_SWAP (br_tweak e) (br_pubkey e))
    entries.

Definition own_positions (root : DerivableSecret) (entries : list LpRecoveryEntry)
    : list LpRecoveryEntry :=
  List.filter (fun e => matches_own_key root (tweak_filter root) CHILD_LP (lr_tweak e) (lr_pubkey e))
    entries.

Definition store_positions (entries : list LpRecoveryEntry) (cache : LpCache) : LpCache :=
  fold_left (fun t e => <[(lr_pool e, lr_pubkey e) := mkLpPositionRecord (lr_tweak e) (lr_shares e)]> t)
    entries cache.

Definition store_balances (entries : list BalanceRecoveryEntry) (t : Recovered) : Recovered :=
  fold_left (fun t e => <[(br_pubkey e, br_unit e) := mkRecoveredBalanceRecord (br_tweak e)]> t)
    entries t.

(** [recover_with]: an error of either scan leaves the tables alone. *)
Definition recover_with {E} (root : DerivableSecret) (fuel : nat)
    (balance_page : option bytes -> result E (list BalanceRecoveryEntry * option bytes))
    (lp_page : option bytes -> result E (list LpRecoveryEntry * option bytes))
    (cache : LpCache) (recovered : Recovered)
    : result E (AmmRecoverySummary * LpCache * Recovered) :=
  '(bs, _) ← for_each fuel balance_page None;
  '(ps, _) ← for_each fuel lp_page None;
  let own_b := own_balances root bs in
  let own_p := own_positions root ps in
  Ok (mkAmmRecoverySummary (length own_b) 0 (length own_p) [],
      store_positions own_p cache, store_balances own_b recovered).
End recovery.

(** ** The sweep *)

Section sweep.
Context `{Hcrypto : Crypto} `{Hder : !Derivation} `{Ham : AmountsOps}.

(** The claim of [claim_recovered_balance]: the key pair is derived again from the
    recovered tweak. *)
Definition recovered_claim (root : DerivableSecret) (tweak : list Z) (unit : AmountUnit)
    (amount : Z) : ClientInput :=
  let keypair := derive_keypair root CHILD_SWAP tweak in
  mkClientInput (ClaimBalanceV0 (public_key keypair) unit) [keypair] (new_custom unit amount).

(** What the sweep calls: the balance endpoint, and the submission of a transaction
    awaited to acceptance, over the state of the world. *)
Class SweepApi (World : Type) := {
  amm_balance : World -> PublicKey * AmountUnit -> result string (option Z);
  submit_claim : World -> ClientInput -> result string unit * World;
}.

(** The balance the world really holds; answers tell it, an accepted claim takes it,
    and no claim brings a balance back. *)
Class SweepApiOk (World : Type) `{SweepApi World} (balance : World -> PublicKey * AmountUnit -> option Z)
    : Prop := {
  answer_true w k b : amm_balance w k = Ok b -> balance w k = b;
  claim_takes_balance w pk u inp w' :
    ci_input inp = ClaimBalanceV0 pk u -> submit_claim w inp = (Ok tt, w') -> balance w' (pk, u) = None;
  claim_monotone w inp r w' k :
    submit_claim w inp = (r, w') -> balance w k = None -> balance w' k = None;
}.

Context {World : Type} `{!SweepApi World} (root : DerivableSecret).

Definition claim_recovered_balance (w : World) (tweak : list Z) (u : AmountUnit) (amount : Z)
    : result string unit * World :=
  submit_claim w (recovered_claim root tweak u amount).

(** One row: [(claimed, error)], the world and the table after it. *)
Definition claim_row (k : PublicKey * AmountUnit) (rec : RecoveredBalanceRecord) (w : World)
    (t : Recovered) : nat * bool * World * Recovered :=
  match amm_balance w k with
  | Ok None => (0%nat, false, w, delete k t)
  | Ok (Some amount) =>
      match claim_recovered_balance w (recovered_tweak rec) k.2 amount with
      | (Ok _, w) => (1%nat, false, w, delete k t)
      | (Err _, w) =>
          match amm_balance w k with
          | Ok None => (0%nat, false, w, delete k t)
          | _ => (0%nat, true, w, t)
          end
      end
  | Err _ => (0%nat, true, w, t)
  end.

Fixpoint claim_rows (pending : list ((PublicKey * AmountUnit) * RecoveredBalanceRecord))
    (w : World) (t : Recovered) : nat * list (PublicKey * AmountUnit) * World * Recovered :=
  match pending with
  | [] => (0%nat, [], w, t)
  | (k, rec) :: pending =>
      let '(n, err, w, t) := claim_row k rec w t in
      let '(ns, errs, w, t) := claim_rows pending w t in
      ((n + ns)%nat, (if err then [k] else []) ++ errs, w, t)
  end.

(** [claim_pending_balances] over the rows persisted when it starts. *)
Definition claim_pending_balances (w : World) (t : Recovered)
    : nat * list (PublicKey * AmountUnit) * World * Recovered :=
  claim_rows (map_to_list t) w t.

(** [AmmClientModule::recover]: the scan, then the sweep. *)
Definition recover {E} (fuel : nat)
    `{ct : Codec (list Z)}
    (balance_page : option bytes -> result E (list BalanceRecoveryEntry * option bytes))
    (lp_page : option bytes -> result E (list LpRecoveryEntry * option bytes))
    (w : World) (cache : LpCache) (recovered : Recovered)
    : result E (AmmRecoverySummary * World * LpCache * Recovered) :=
  '(scanned, cache, recovered) ← recover_with root fuel balance_page lp_page cache recovered;
  let '(claimed, errs, w, recovered) := claim_pending_balances w recovered in
  Ok (mkAmmRecoverySummary (balances_found scanned) claimed (positions_restored scanned) errs,
      w, cache, recovered).
End sweep.

(** ** The cache follows the server *)

(** The cache and the server tell the same story of one position. *)
Definition position_agrees (cache : LpCache) (d : AmmDb) (key : PoolId * PublicKey) : Prop :=
  (fun r => (rec_tweak r, rec_shares r)) <$> cache !! key =
  (fun p => (lp_tweak p, lp_shares p)) <$> lp_positions d !! key.

Section cache.
Context `{Hcrypto : Crypto} `{Hder : !Derivation} `{Ham : AmountsOps}.
Context `{cz : Codec Z} `{cpk : Codec PublicKey} `{ct : Codec (list Z)}.

Lemma deposit_cached self c pool al ah bps op d tweak out common d1 d' r txid cache :
  deposit c pool al ah bps op (Ok (pools_endpoint self d)) tweak = Ok (out, common) ->
  process_output self (co_output out) d1 = (Ok r, d') ->
  pools d1 !! pool = pools d !! pool ->
  lp_positions d1 !! (pool, deposit_owner_pk common) = None ->
  let '(sm, cache') := transition_submitted (Ok tt)
    (mkDepositSm common (DepositState.Submitted txid)) cache in
  dep_state sm = DepositState.Accepted /\
  position_agrees cache' d' (pool, deposit_owner_pk common).
Proof.
  intros Hs Hr Ep Hfresh. apply deposit_built in Hs as (ms & o & Em & Ho & Eout & Eamt & ->).
  simpl in *. rewrite Eout in Hr. unfold process_output, new_deposit_v0 in Hr. simpl in Hr.
  destruct (verify_pop_sig _ _ _) in Hr; [|done]. simpl in Hr.
  apply deposit_run in Hr as [[_ Hf]|(p & o1 & sh & [? ? -> Hmint Hms -> ->] & Hr)]; [done|].
  split; [done|]. unfold position_agrees. simpl. rewrite !lookup_insert_eq. simpl.
  rewrite Hfresh. simpl. rewrite Ep, Ho in Hmint. by injection Hmint as ->.
Qed.

Lemma withdraw_cached self c local pool pk s op d inp common d1 r d' txid cache :
  db_inv self d1 ->
  withdraw c local pool pk s op (Ok (pools_endpoint self d)) = Ok (inp, common) ->
  process_input (ci_input inp) d1 = (Ok r, d') ->
  position_agrees cache d1 (pool, pk) ->
  let '(sm, cache') := transition_withdraw_submitted (Ok tt)
    (mkWithdrawSm common (WithdrawState.Submitted txid)) cache in
  wd_state sm = WithdrawState.Accepted /\ position_agrees cache' d' (pool, pk).
Proof.
  intros Hinv Hb Hr Hag.
  assert (common = mkWithdrawCommon op pool pk s) as ->.
  { unfold withdraw in Hb. run_inv Hb; congruence. }
  apply withdraw_built in Hb as (p & o & Ep & Hs & Eb & Einp & _). rewrite Einp in Hr.
  apply withdraw_Ok in Hr as (p1 & pos & o1 & [Hp Hpos Hle _ _ _ _ ->]).
  pose proof (inv_pools _ _ Hinv _ _ Hp) as Hok.
  destruct (pool_ok_u64 _ _ Hinv _ _ Hok) as (_ & _ & Ht & _).
  pose proof (position_le _ _ Hinv pool pk pos Hpos) as Hsh.
  pose proof (pool_shares _ _ _ _ Hok) as Etot. unfold MINIMUM_LIQUIDITY in Etot. unfold_widths.
  unfold position_agrees in *. simpl in *. rewrite Hpos in Hag. simpl in Hag.
  destruct (cache !! (pool, pk)) as [rc|] eqn:Ec; [|done]. simpl in Hag. injection Hag as Et Es.
  split; [done|]. rewrite Es, u64_sub_id by (unfold_widths; lia).
  destruct (Z.leb_spec (lp_shares pos) s), (Z.eqb_spec (lp_shares pos - s) 0); try lia; simpl.
  - by rewrite !lookup_delete_eq.
  - by rewrite !lookup_insert_eq, Et.
Qed.

(** Every one of a set of positions. *)
Definition in_sync (keys : gset (PoolId * PublicKey)) (cache : LpCache) (d : AmmDb) : Prop :=
  forall key, key ∈ keys -> position_agrees cache d key.

Lemma agrees_elsewhere key cache d cache' d' key' :
  (forall k, k <> key -> cache' !! k = cache !! k /\ lp_positions d' !! k = lp_positions d !! k) ->
  key' <> key -> position_agrees cache d key' -> position_agrees cache' d' key'.
Proof. intros Hf Hne. unfold position_agrees. destruct (Hf _ Hne) as [-> ->]. done. Qed.

Lemma in_sync_step keys key cache d cache' d' :
  in_sync keys cache d ->
  (forall k, k <> key -> cache' !! k = cache !! k /\ lp_positions d' !! k = lp_positions d !! k) ->
  position_agrees cache' d' key -> in_sync ({[key]} ∪ keys) cache' d'.
Proof.
  intros Hs Hf Hk key' Hin. destruct (decide (key' = key)) as [->|Hne]; [done|].
  eapply agrees_elsewhere; [exact Hf|done|]. apply Hs. set_solver.
Qed.

(** The local cache of LP positions tracks the server.  If the cached rows of a
    set of positions agree with the server's table, they still agree after the
    client's own deposit (a fresh key, settled in the pool state it was previewed
    in; the new position joins the set) and after its own withdrawal settled in
    any state, partial or in full; a rejected operation leaves the cache alone. *)
Theorem lp_cache_tracks_server (self : Amm) (c : AmmClientModule) (pool : PoolId) (d0 d d' : AmmDb)
    (r : InputMeta) (op txid : Z) (cache : LpCache) (keys : gset (PoolId * PublicKey)) :
  db_inv self d -> in_sync keys cache d ->
  (forall al ah bps tweak out common rd,
     deposit c pool al ah bps op (Ok (pools_endpoint self d0)) tweak = Ok (out, common) ->
     process_output self (co_output out) d = (Ok rd, d') ->
     pools d !! pool = pools d0 !! pool ->
     lp_positions d !! (pool, deposit_owner_pk common) = None ->
     let old := mkDepositSm common (DepositState.Submitted txid) in
     in_sync ({[(pool, deposit_owner_pk common)]} ∪ keys) (transition_submitted (Ok tt) old cache).2 d' /\
     (forall e, (transition_submitted (Err e) old cache).2 = cache)) /\
  (forall local pk s inp common,
     withdraw c local pool pk s op (Ok (pools_endpoint self d0)) = Ok (inp, common) ->
     process_input (ci_input inp) d = (Ok r, d') -> (pool, pk) ∈ keys ->
     let old := mkWithdrawSm common (WithdrawState.Submitted txid) in
     in_sync keys (transition_withdraw_submitted (Ok tt) old cache).2 d' /\
     (forall e, (transition_withdraw_submitted (Err e) old cache).2 = cache)).
Proof.
  intros Hinv Hsync. split.
  - intros al ah bps tweak out common rd Hs Hr Ep Hfresh old. split; [|done].
    pose proof (deposit_cached _ _ _ _ _ _ _ _ _ _ _ _ _ _ txid cache Hs Hr Ep Hfresh) as [_ Hk].
    eapply in_sync_step; [exact Hsync| |exact Hk]. intros k Hne.
    apply deposit_built in Hs as (ms & o & _ & _ & Eout & _ & ->). simpl in *.
    rewrite Eout in Hr. unfold process_output, new_deposit_v0 in Hr. simpl in Hr.
    destruct (verify_pop_sig _ _ _) in Hr; [|done]. simpl in Hr.
    apply deposit_run in Hr as [[_ Hf]|(p & o1 & sh & [? ? ? ? ? ? ->] & _)]; [done|].
    simpl. by rewrite !lookup_insert_ne by done.
  - intros local pk s inp common Hs Hr Hin old. split; [|done].
    assert (Hc : common = mkWithdrawCommon op pool pk s)
      by (clear -Hs; unfold withdraw in Hs; run_inv Hs; congruence).
    pose proof (withdraw_cached _ _ _ _ _ _ _ _ _ _ _ _ _ txid cache Hinv Hs Hr (Hsync _ Hin)) as Hk.
    unfold old. destruct (transition_withdraw_submitted (Ok tt) _ cache) as [sm cache'] eqn:Et.
    destruct Hk as [_ Hk].
    assert (keys = {[(pool, pk)]} ∪ keys) as -> by set_solver.
    eapply in_sync_step; [exact Hsync| |exact Hk]. intros k Hne.
    apply withdraw_built in Hs as (p & o & _ & _ & _ & Einp & _). rewrite Einp in Hr.
    apply withdraw_Ok in Hr as (p1 & pos & o1 & [_ _ _ _ _ _ _ ->]).
    unfold transition_withdraw_submitted in Et. subst common. simpl in Et. injection Et as <- <-. split.
    + simpl. destruct (cache !! (pool, pk)) as [rc|]; [|done].
      destruct (rec_shares rc <=? s); [by rewrite lookup_delete_ne|by rewrite lookup_insert_ne].
    + simpl. destruct (u64_sub (lp_shares pos) s =? 0); simpl; [by rewrite lookup_delete_ne|by rewrite lookup_insert_ne].
Qed.
End cache.

(** ** Recovery from the seed *)

(** A scan is the page server's collection, entry by entry. *)
Lemma for_each_collect {K V A} (kdec : bytes -> option K) (vdec : bytes -> option V)
    (f : K * V -> A) fuel db p cursor req :
  for_each fuel (fun c => page ← recovery_page kdec vdec db p c req;
                          Ok (map f (page_rows page), next_cursor page)) cursor =
  ('(rows, done) ← collect kdec vdec fuel db p cursor req; Ok (map f rows, done)).
Proof.
  revert cursor. induction fuel as [|fuel IH]; intros cursor; [done|]. simpl.
  destruct (recovery_page kdec vdec db p cursor req) as [page|e]; simpl; [|done].
  destruct (next_cursor page) as [c|]; [|done]. rewrite IH.
  destruct (collect kdec vdec fuel db p (Some c) req) as [[rows b]|e]; simpl; [|done].
  by rewrite map_app.
Qed.

(** Writing rows with distinct keys one by one. *)
Lemma fold_insert_lookup {K V A} `{Countable K} (key : A -> K) (val : A -> V) (l : list A) (t : gmap K V) k :
  NoDup (map key l) ->
  fold_left (fun t a => <[key a := val a]> t) l t !! k =
  match List.find (fun a => bool_decide (key a = k)) l with
  | Some a => Some (val a)
  | None => t !! k
  end.
Proof.
  revert t. induction l as [|a l IH]; simpl; intros t Hnd; [done|].
  apply NoDup_cons in Hnd as [Ha Hnd]. rewrite IH by done.
  case_bool_decide as E; [|by rewrite lookup_insert_ne]. subst.
  replace (List.find _ l) with (@None A); [by rewrite lookup_insert_eq|].
  symmetry. destruct (List.find _ l) as [b|] eqn:Ef; [|done]. exfalso.
  apply find_some in Ef as [Hb Eb]. apply bool_decide_eq_true in Eb. apply Ha. rewrite <- Eb.
  apply list_elem_of_In, in_map, Hb.
Qed.

(** The rows of a map that pass a test have distinct keys; storing them stores
    exactly those. *)
Lemma own_rows_NoDup {K X E} `{Countable K} (m : gmap K X) (rows : list (K * X)) (mk : K * X -> E)
    (own : E -> bool) (key : E -> K) :
  rows ≡ₚ map_to_list m -> (forall r, key (mk r) = r.1) ->
  NoDup (map key (List.filter own (map mk rows))).
Proof.
  intros Hp Hkey.
  assert (Hnd : NoDup (map fst rows)).
  { change (NoDup rows.*1). rewrite Hp. apply NoDup_fst_map_to_list. }
  clear Hp. induction rows as [|r rows IH]; simpl in *; [constructor|].
  apply NoDup_cons in Hnd as [Hr Hnd]. destruct (own (mk r)); simpl; [|by apply IH].
  constructor; [|by apply IH]. rewrite Hkey. intros Hin. apply Hr.
  apply list_elem_of_In, in_map_iff in Hin as (e & Ek & Hin). apply filter_In in Hin as [Hin _].
  apply in_map_iff in Hin as (r' & <- & Hin). rewrite Hkey in Ek. rewrite <- Ek.
  by apply list_elem_of_In, in_map.
Qed.

Lemma store_own {K X V E} `{Countable K} (m : gmap K X) (rows : list (K * X)) (mk : K * X -> E)
    (own : E -> bool) (key : E -> K) (val : E -> V) (t : gmap K V) k :
  rows ≡ₚ map_to_list m -> (forall r, key (mk r) = r.1) ->
  fold_left (fun t e => <[key e := val e]> t) (List.filter own (map mk rows)) t !! k =
  match m !! k with
  | Some x => if own (mk (k, x)) then Some (val (mk (k, x))) else t !! k
  | None => t !! k
  end.
Proof.
  intros Hp Hkey. rewrite fold_insert_lookup by (by eapply own_rows_NoDup).
  assert (Hrow : forall x, m !! k = Some x <-> In (k, x) rows).
  { intros x. rewrite <- list_elem_of_In, Hp. by rewrite elem_of_map_to_list. }
  destruct (List.find _ _) as [e|] eqn:Ef.
  - apply find_some in Ef as [He Ek]. apply bool_decide_eq_true in Ek.
    apply filter_In in He as [He Hown]. apply in_map_iff in He as ([k' x] & <- & He).
    rewrite Hkey in Ek. simpl in Ek. subst k'. apply Hrow in He. by rewrite He, Hown.
  - destruct (m !! k) as [x|] eqn:Ex; [|done]. destruct (own (mk (k, x))) eqn:Eo; [|done].
    exfalso. pose proof (proj1 (Hrow x) eq_refl) as Hin.
    assert (He : In (mk (k, x)) (List.filter own (map mk rows)))
      by (apply filter_In; split; [by apply in_map|done]).
    apply (find_none _ _ Ef) in He. rewrite Hkey in He. by rewrite bool_decide_eq_true_2 in He.
Qed.

Lemma fold_insert_size {K V A} `{Countable K} (key : A -> K) (val : A -> V) (l : list A) (t : gmap K V) :
  NoDup (map key l) -> (forall a, In a l -> t !! key a = None) ->
  size (fold_left (fun t a => <[key a := val a]> t) l t) = (length l + size t)%nat.
Proof.
  revert t. induction l as [|a l IH]; simpl; intros t Hnd Ht; [done|].
  apply NoDup_cons in Hnd as [Ha Hnd]. rewrite IH; [|done|].
  - rewrite map_size_insert_None by (apply Ht; by left). lia.
  - intros b Hb. rewrite lookup_insert_ne; [apply Ht; by right|].
    intros E. apply Ha. rewrite E. apply list_elem_of_In, in_map, Hb.
Qed.

Lemma filter_id {A} (f : A -> bool) l : (forall a, In a l -> f a = true) -> List.filter f l = l.
Proof. induction l as [|a l IH]; simpl; intros Hf; [done|]. rewrite Hf by auto. rewrite IH by auto. done. Qed.

(** A raw store that holds the two recovery tables of a server state. *)
Record store_holds (bk : bytes -> option (PublicKey * AmountUnit)) (bv : bytes -> option BalanceEntry)
    (lk : bytes -> option (PoolId * PublicKey)) (lv : bytes -> option LpPosition)
    (db : raw_db) (d : AmmDb) : Prop := {
  holds_balance_ok : store_ok bk bv db BALANCE_PREFIX;
  holds_lp_ok : store_ok lk lv db LP_POSITION_PREFIX;
  holds_balances : decoded bk bv (table db BALANCE_PREFIX) ≡ₚ map_to_list (balances d);
  holds_positions : decoded lk lv (table db LP_POSITION_PREFIX) ≡ₚ map_to_list (lp_positions d);
}.

Section finds.
Context `{Hcrypto : Crypto} `{Hder : !Derivation} `{ct : Codec (list Z)}.

Lemma recover_scan (bk : bytes -> option (PublicKey * AmountUnit))
    (bv : bytes -> option BalanceEntry) (lk : bytes -> option (PoolId * PublicKey))
    (lv : bytes -> option LpPosition) (db : raw_db) (d : AmmDb) (root : DerivableSecret) (fuel : nat)
    (cache : LpCache) (recovered : Recovered) :
  store_holds bk bv lk lv db d ->
  (length (table db BALANCE_PREFIX) < fuel)%nat -> (length (table db LP_POSITION_PREFIX) < fuel)%nat ->
  exists summary cache' recovered',
    recover_with root fuel (fun c => balance_recovery_endpoint bk bv db c None)
      (fun c => lp_recovery_endpoint lk lv db c None) cache recovered
      = Ok (summary, cache', recovered') /\
    (forall pk u, recovered' !! (pk, u) =
       match balances d !! (pk, u) with
       | Some e => if matches_own_key root (tweak_filter root) CHILD_SWAP (bal_tweak e) pk
                   then Some (mkRecoveredBalanceRecord (bal_tweak e)) else recovered !! (pk, u)
       | None => recovered !! (pk, u)
       end) /\
    (forall pool pk, cache' !! (pool, pk) =
       match lp_positions d !! (pool, pk) with
       | Some p => if matches_own_key root (tweak_filter root) CHILD_LP (lp_tweak p) pk
                   then Some (mkLpPositionRecord (lp_tweak p) (lp_shares p)) else cache !! (pool, pk)
       | None => cache !! (pool, pk)
       end) /\
    (recovered = ∅ -> balances_found summary = size recovered').
Proof.
  intros [Hb Hl Hpb Hpl] Hfb Hfl. unfold recover_with, balance_recovery_endpoint, lp_recovery_endpoint.
  rewrite !for_each_collect, !collect_rest by done. simpl.
  do 3 eexists. split; [reflexivity|]. split; [|split].
  - intros pk u. unfold store_balances, own_balances.
    rewrite (store_own (balances d)) by (done || by intros [[]]). done.
  - intros pool pk. unfold store_positions, own_positions.
    rewrite (store_own (lp_positions d)) by (done || by intros [[]]). done.
  - intros ->. unfold store_balances, own_balances. rewrite fold_insert_size; [|eapply own_rows_NoDup|].
    + rewrite map_size_empty. simpl. lia.
    + exact Hpb.
    + by intros [[]].
    + intros e _. apply lookup_empty.
Qed.

(** Recovery from the seed alone finds everything.  Scanning a server page by
    page, with enough requests to read its tables, it ends and stores exactly the
    rows whose tweak passes the filter and derives their key: each such balance
    with its tweak, each such position with its tweak and share count, and
    nothing for anybody else's rows. *)
Theorem recover_finds_all (bk : bytes -> option (PublicKey * AmountUnit))
    (bv : bytes -> option BalanceEntry) (lk : bytes -> option (PoolId * PublicKey))
    (lv : bytes -> option LpPosition) (db : raw_db) (d : AmmDb) (root : DerivableSecret) (fuel : nat)
    (cache : LpCache) (recovered : Recovered) :
  store_holds bk bv lk lv db d ->
  (length (table db BALANCE_PREFIX) < fuel)%nat -> (length (table db LP_POSITION_PREFIX) < fuel)%nat ->
  exists summary cache' recovered',
    recover_with root fuel (fun c => balance_recovery_endpoint bk bv db c None)
      (fun c => lp_recovery_endpoint lk lv db c None) cache recovered
      = Ok (summary, cache', recovered') /\
    (forall pk u, recovered' !! (pk, u) =
       match balances d !! (pk, u) with
       | Some e => if matches_own_key root (tweak_filter root) CHILD_SWAP (bal_tweak e) pk
                   then Some (mkRecoveredBalanceRecord (bal_tweak e)) else recovered !! (pk, u)
       | None => recovered !! (pk, u)
       end) /\
    (forall pool pk, cache' !! (pool, pk) =
       match lp_positions d !! (pool, pk) with
       | Some p => if matches_own_key root (tweak_filter root) CHILD_LP (lp_tweak p) pk
                   then Some (mkLpPositionRecord (lp_tweak p) (lp_shares p)) else cache !! (pool, pk)
       | None => cache !! (pool, pk)
       end).
Proof.
  intros Hst Hfb Hfl.
  destruct (recover_scan bk bv lk lv db d root fuel cache recovered Hst Hfb Hfl)
    as (sm & cache' & recovered' & E & Hr & Hc & _). by exists sm, cache', recovered'.
Qed.
End finds.

(** ** The sweep drops only what is gone *)

Section sweeps.
Context `{Hcrypto : Crypto} `{Hder : !Derivation} `{Ham : AmountsOps}.
Context {World : Type} `{Hapi : !SweepApi World} (balance : World -> PublicKey * AmountUnit -> option Z).
Context `{Hok : !SweepApiOk World balance} (root : DerivableSecret).

(** A persisted row's tweak derives the row's key, as the scan's filter ensures. *)
Definition row_derives (k : PublicKey * AmountUnit) (rec : RecoveredBalanceRecord) : Prop :=
  public_key (derive_keypair root CHILD_SWAP (recovered_tweak rec)) = k.1.

Lemma claim_row_sound k rec w t n err w' t' :
  row_derives k rec -> claim_row root k rec w t = (n, err, w', t') ->
  (forall k', balance w k' = None -> balance w' k' = None) /\
  (t' = t \/ t' = delete k t /\ balance w' k = None) /\
  (err = false -> t' = delete k t).
Proof.
  unfold claim_row, claim_recovered_balance. intros Hd.
  destruct (amm_balance w k) as [[a|]|e] eqn:Ea; intros E.
  - destruct (submit_claim w _) as [[[]|e] w1] eqn:Ec.
    + simplify_eq. split; [intros k' Hk'; by eapply claim_monotone|].
      split; [|done]. right. split; [done|]. destruct k as [pk u].
      eapply claim_takes_balance; [|exact Ec]. unfold row_derives in Hd. simpl in *. by rewrite Hd.
    + destruct (amm_balance w1 k) as [[a'|]|e'] eqn:Ea'; simplify_eq;
        (split; [intros k' Hk'; by eapply claim_monotone|]); (split; [|done]); auto.
      right. split; [done|]. by apply answer_true.
  - simplify_eq. split; [done|]. split; [|done]. right. split; [done|]. by apply answer_true.
  - simplify_eq. split; [done|]. split; [by left|done].
Qed.

Lemma claim_rows_sound pending w t n errs w' t' :
  (forall k rec, (k, rec) ∈ pending -> row_derives k rec) ->
  claim_rows root pending w t = (n, errs, w', t') ->
  (forall k', balance w k' = None -> balance w' k' = None) /\
  t' ⊆ t /\
  (forall k, is_Some (t !! k) -> t' !! k = None -> balance w' k = None) /\
  (forall k, k ∈ map fst pending -> is_Some (t' !! k) -> k ∈ errs).
Proof.
  revert w t n errs. induction pending as [|[k rec] pending IH]; simpl; intros w t n errs Hd E.
  { simplify_eq. split_and!; [done..|intros k [x Hx]; congruence|set_solver]. }
  destruct (claim_row root k rec w t) as [[[n1 err] w1] t1] eqn:Er.
  destruct (claim_rows root pending w1 t1) as [[[ns errs'] w2] t2] eqn:Es. simplify_eq.
  destruct (claim_row_sound _ _ _ _ _ _ _ _ (Hd k rec ltac:(left)) Er) as (Hm1 & Ht1 & He1).
  destruct (IH _ _ _ _ (fun k r Hin => Hd k r ltac:(by right)) Es) as (Hm2 & Hsub & Hgone & Hleft).
  assert (t1 ⊆ t) as Hsub1 by (destruct Ht1 as [->|[-> _]]; [done|apply delete_subseteq]).
  split_and!.
  - auto.
  - by etrans.
  - intros k' Hk' Hn. destruct (decide (is_Some (t1 !! k'))) as [|Hk1]; [by apply Hgone|].
    apply Hm2. destruct Ht1 as [->|[-> Hb]]; [done|].
    destruct (decide (k' = k)) as [->|]; [done|]. by rewrite lookup_delete_ne in Hk1 by done.
  - intros k' [->|Hk']%elem_of_cons Hsome; [|set_solver].
    destruct err; [set_solver|]. rewrite (He1 eq_refl) in Hsub.
    destruct Hsome as [x Hx]. eapply lookup_weaken in Hx; [|exact Hsub].
    by rewrite lookup_delete_eq in Hx.
Qed.

(** The sweep of recovered balances gives up on nothing.  Over the rows a scan
    persisted, whatever the federation answers, a row leaves the table only when
    its balance is really gone from the federation (claimed here, or by somebody
    else holding the seed); every row still there afterwards is one reported as an
    error, kept for the next sweep; and no row is invented. *)
Theorem sweep_drops_only_claimed (w w' : World) (n : nat) (errs : list (PublicKey * AmountUnit))
    (t t' : Recovered) :
  map_Forall row_derives t ->
  claim_pending_balances root w t = (n, errs, w', t') ->
  t' ⊆ t /\
  (forall k, is_Some (t !! k) -> t' !! k = None -> balance w' k = None) /\
  (forall k, is_Some (t' !! k) -> k ∈ errs).
Proof.
  intros Hd E. destruct (claim_rows_sound _ _ _ _ _ _ _ ltac:(
    intros k rec Hin; apply elem_of_map_to_list in Hin; by apply Hd) E) as (_ & Hsub & Hgone & Hleft).
  split_and!; try done. intros k Hk. apply Hleft; [|done].
  destruct Hk as [x Hx]. eapply lookup_weaken in Hx; [|exact Hsub].
  apply list_elem_of_In, in_map_iff. exists (k, x). split; [done|].
  by apply list_elem_of_In, elem_of_map_to_list.
Qed.
End sweeps.

(** ** A federation nobody else is using *)

Lemma drop_key_step {K A} `{Countable K} (k k' : K) (l : list K) (m : gmap K A) :
  k ∉ l -> (if decide (k' ∈ l) then None else delete k m !! k') =
           (if decide (k' ∈ k :: l) then None else m !! k').
Proof.
  intros Hk. destruct (decide (k' = k)) as [->|Hne].
  - rewrite decide_False, lookup_delete_eq, decide_True by set_solver. done.
  - rewrite lookup_delete_ne by done. apply decide_ext. set_solver.
Qed.

Section quiet.
Context `{Hcrypto : Crypto} `{Hder : !Derivation} `{Ham : AmountsOps}.

(** The endpoint and the handler of the server itself.  The amount just read is the
    one the claim declares, so core's balance check has nothing to object to. *)
Definition quiet_api : SweepApi AmmDb := {|
  amm_balance d k := Ok (balance_endpoint d k.1 k.2);
  submit_claim d inp :=
    match process_input (ci_input inp) d with
    | (Ok _, d) => (Ok tt, d)
    | (Err _, d) => (Err "rejected"%string, d)
    end;
|}.
#[local] Existing Instance quiet_api.

Lemma quiet_api_ok : SweepApiOk AmmDb (fun d k => balance_endpoint d k.1 k.2).
Proof.
  split.
  - intros d k b E. by simplify_eq/=.
  - intros d pk u inp d' Ei. simpl. rewrite Ei. simpl. rewrite claim_run.
    destruct (balances d !! (pk, u)) as [e|] eqn:Eb; intros E; simplify_eq/=.
    unfold balance_endpoint. simpl. by rewrite lookup_delete_eq.
  - intros d inp r d' [pk u] E Hn. unfold balance_endpoint in *. simpl in *.
    destruct (process_input (ci_input inp) d) as [[m|e] d1] eqn:Er; simplify_eq.
    + destruct (ci_input inp) as [pk' u'|pool opk sh a b x y|? ?]; simpl in Er.
      * rewrite claim_run in Er. destruct (balances d !! (pk', u')) eqn:Eb; simplify_eq. simpl.
        destruct (decide ((pk, u) = (pk', u'))) as [->|]; [by rewrite lookup_delete_eq|].
        by rewrite lookup_delete_ne.
      * apply withdraw_Ok in Er as (p & pos & o & [_ _ _ _ _ _ _ ->]). simpl.
        by destruct (u64_sub (lp_shares pos) sh =? 0).
      * done.
    + by rewrite (process_input_atomic _ _ _ _ Er).
Qed.

Context (root : DerivableSecret).

Lemma quiet_row k rec d t :
  row_derives root k rec ->
  claim_row root k rec d t =
    (match balances d !! k with Some _ => 1%nat | None => 0%nat end, false,
     match balances d !! k with Some _ => del_balance k d | None => d end, delete k t).
Proof.
  intros Hd. unfold claim_row, claim_recovered_balance, recovered_claim, row_derives in *. simpl.
  unfold balance_endpoint. destruct k as [pk u]. simpl in *.
  destruct (balances d !! (pk, u)) as [e|] eqn:Eb; simpl; [|done].
  by rewrite Hd, claim_run, Eb.
Qed.

Lemma quiet_rows pending d t n errs d' t' :
  NoDup (map fst pending) -> (forall k rec, (k, rec) ∈ pending -> row_derives root k rec) ->
  claim_rows root pending d t = (n, errs, d', t') ->
  errs = [] /\
  (forall k, t' !! k = if decide (k ∈ map fst pending) then None else t !! k) /\
  (forall k, balances d' !! k = if decide (k ∈ map fst pending) then None else balances d !! k) /\
  n = length (List.filter (fun r => bool_decide (is_Some (balances d !! r.1))) pending) /\
  pools d' = pools d /\ lp_positions d' = lp_positions d.
Proof.
  revert d t n errs. induction pending as [|[k rec] pending IH]; simpl; intros d t n errs Hnd Hd E.
  { simplify_eq. split_and!; try done; intros k; by rewrite decide_False by set_solver. }
  apply NoDup_cons in Hnd as [Hk Hnd]. rewrite quiet_row in E by (apply Hd; left).
  destruct (claim_rows root pending _ _) as [[[ns errs'] d2] t2] eqn:Es. simplify_eq.
  destruct (IH _ _ _ _ Hnd (fun k r Hin => Hd k r ltac:(by right)) Es) as (-> & Ht & Hb & -> & Hp & Hl).
  assert (Hbd : balances (match balances d !! k with Some _ => del_balance k d | None => d end)
    = delete k (balances d)) by (destruct (balances d !! k) eqn:Eb; [done|by rewrite delete_id]).
  rewrite Hbd in Hb. split; [done|]. split; [|split; [|split]].
  - intros k'. by rewrite Ht, drop_key_step.
  - intros k'. by rewrite Hb, drop_key_step.
  - rewrite Hbd. assert (Hf : List.filter (fun r => bool_decide (is_Some (delete k (balances d) !! r.1))) pending
      = List.filter (fun r => bool_decide (is_Some (balances d !! r.1))) pending).
    { apply filter_ext_in. intros [k' r'] Hin. simpl. rewrite lookup_delete_ne; [done|].
      intros ->. apply Hk, list_elem_of_In, in_map_iff. by exists (k', r'). }
    rewrite Hf. by destruct (balances d !! k) eqn:Eb.
  - rewrite Hp, Hl. by destruct (balances d !! k).
Qed.

(** C36: a restored seed gets all of its money back.  Against a server nobody else is
    claiming from, one run of recovery ends with every balance of the seed
    claimed, no error and no row left over, having counted as many claims as
    balances found; the balances of others, the pools and all LP positions on the
    server are as they were. *)
Theorem seed_recovery_claims_all `{ct : Codec (list Z)} (bk : bytes -> option (PublicKey * AmountUnit))
    (bv : bytes -> option BalanceEntry) (lk : bytes -> option (PoolId * PublicKey))
    (lv : bytes -> option LpPosition) (db : raw_db) (d : AmmDb) (fuel : nat) (cache : LpCache) :
  store_holds bk bv lk lv db d ->
  (length (table db BALANCE_PREFIX) < fuel)%nat -> (length (table db LP_POSITION_PREFIX) < fuel)%nat ->
  exists summary d' cache',
    recover root fuel (fun c => balance_recovery_endpoint bk bv db c None)
      (fun c => lp_recovery_endpoint lk lv db c None) d cache ∅ = Ok (summary, d', cache', ∅) /\
    claim_errors summary = [] /\ balances_claimed summary = balances_found summary /\
    (forall pk u, balances d' !! (pk, u) =
       match balances d !! (pk, u) with
       | Some e => if matches_own_key root (tweak_filter root) CHILD_SWAP (bal_tweak e) pk
                   then None else Some e
       | None => None
       end) /\
    pools d' = pools d /\ lp_positions d' = lp_positions d.
Proof.
  intros Hst Hfb Hfl.
  destruct (recover_scan bk bv lk lv db d root fuel cache ∅ Hst Hfb Hfl)
    as (sm & cache' & recovered & E & Hr & Hc & Hsz).
  unfold recover. rewrite E. simpl. unfold claim_pending_balances.
  assert (Hown : forall k rec, recovered !! k = Some rec -> row_derives root k rec /\ is_Some (balances d !! k)).
  { intros [pk u] rec Hk. rewrite Hr, lookup_empty in Hk.
    destruct (balances d !! (pk, u)) as [e|] eqn:Eb; [|done].
    destruct (matches_own_key _ _ _ _ _) eqn:Em; [|done]. simplify_eq. split; [|eauto].
    unfold matches_own_key in Em. apply andb_true_iff in Em as [_ Em].
    by apply bool_decide_eq_true in Em. }
  destruct (claim_rows root (map_to_list recovered) d recovered) as [[[n errs] d'] t'] eqn:Ec.
  apply quiet_rows in Ec as (-> & Ht & Hb & -> & Hp & Hl); cycle 1.
  { apply NoDup_fst_map_to_list. }
  { intros k rec Hin%elem_of_map_to_list. by apply Hown. }
  assert (Hin : forall k, k ∈ map fst (map_to_list recovered) <-> is_Some (recovered !! k)).
  { intros k. rewrite list_elem_of_In, in_map_iff. split.
    - intros ([k' rec] & <- & Hk%list_elem_of_In%elem_of_map_to_list). eauto.
    - intros [rec Hk]. exists (k, rec). split; [done|]. by apply list_elem_of_In, elem_of_map_to_list. }
  assert (t' = ∅) as ->.
  { apply map_eq. intros k. rewrite Ht, lookup_empty. case_decide as Hk; [done|].
    rewrite Hin in Hk. by apply eq_None_not_Some. }
  do 3 eexists. split; [reflexivity|]. simpl. split; [done|]. split; [|split; [|done]].
  - rewrite Hsz by done. rewrite <- length_map_to_list. f_equal. apply filter_id.
    intros [k rec] Hk%list_elem_of_In%elem_of_map_to_list. apply bool_decide_eq_true_2. by eapply Hown.
  - intros pk u. rewrite Hb. destruct (decide _) as [Hk|Hk]; rewrite Hin, Hr, lookup_empty in Hk.
    + destruct (balances d !! (pk, u)) as [e|]; [|by destruct Hk].
      destruct (matches_own_key _ _ _ _ _); [done|by destruct Hk].
    + destruct (balances d !! (pk, u)) as [e|]; [|done].
      destruct (matches_own_key _ _ _ _ _); [|done]. exfalso. apply Hk. eauto.
Qed.
End quiet.

(** ** A concrete recovery *)

Section demo.
#[local] Existing Instance toy_crypto.
#[local] Existing Instance map_amounts.
#[local] Existing Instance u64_codec.
#[local] Existing Instance pk_codec.
#[local] Existing Instance tweak_codec.
#[local] Existing Instance toy_derivation.

(** A tweak that passes the toy filter, the seed's key for it, and a stranger's. *)
Definition seed_root : @DerivableSecret toy_crypto toy_derivation := 40.
Definition seed_tweak : list Z := replicate 15 0 ++ [2].
Definition seed_pk : PublicKey := @public_key toy_crypto (42 : @Keypair toy_crypto).
Definition seed_lp_pk : PublicKey := @public_key toy_crypto (1042 : @Keypair toy_crypto).
Definition stranger_pk : PublicKey := @public_key toy_crypto (7 : @Keypair toy_crypto).

Definition restore_db : AmmDb := mkAmmDb
  {[demo_pool := mkPool 1000000 2000000 1414213]}
  {[(demo_pool, seed_lp_pk) := mkLpPosition 1413213 seed_tweak]}
  {[(seed_pk, 1) := mkBalanceEntry 500 seed_tweak; (stranger_pk, 0) := mkBalanceEntry 9 demo_tweak]}
  ∅ ∅.

(** The same tables as raw rows, each under a short key. *)
Definition restore_store : raw_db := [([2; 0], [0]); ([3; 0], [0]); ([3; 1], [1])].
Definition restore_bk (b : bytes) : option (PublicKey * AmountUnit) :=
  match b with [3; 0] => Some (seed_pk, 1) | [3; 1] => Some (stranger_pk, 0) | _ => None end.
Definition restore_bv (b : bytes) : option BalanceEntry :=
  match b with
  | [0] => Some (mkBalanceEntry 500 seed_tweak) | [1] => Some (mkBalanceEntry 9 demo_tweak)
  | _ => None
  end.
Definition restore_lk (b : bytes) : option (PoolId * PublicKey) :=
  match b with [2; 0] => Some (demo_pool, seed_lp_pk) | _ => None end.
Definition restore_lv (b : bytes) : option LpPosition :=
  match b with [0] => Some (mkLpPosition 1413213 seed_tweak) | _ => None end.

Lemma restore_holds : store_holds restore_bk restore_bv restore_lk restore_lv restore_store restore_db.
Proof.
  assert (Forall (fun r => is_bytes r.1) restore_store) as Hb by (repeat constructor; simpl; lia).
  split.
  - constructor; [repeat constructor|exact Hb| |unfold BALANCE_PREFIX; lia].
    vm_compute. repeat constructor; try lia; try (by eexists); vm_compute; discriminate.
  - constructor; [repeat constructor|exact Hb| |unfold LP_POSITION_PREFIX; lia].
    vm_compute. repeat constructor; try lia; try (by eexists); vm_compute; discriminate.
  - change (decoded _ _ _) with [((seed_pk, 1), mkBalanceEntry 500 seed_tweak);
      ((stranger_pk, 0), mkBalanceEntry 9 demo_tweak)].
    unfold restore_db. simpl. rewrite map_to_list_insert by reflexivity.
    by rewrite map_to_list_singleton.
  - change (decoded _ _ _) with [((demo_pool, seed_lp_pk), mkLpPosition 1413213 seed_tweak)].
    unfold restore_db. simpl. by rewrite map_to_list_singleton.
Qed.

Lemma recover_finds_all_witness : exists summary cache recovered,
  recover_with seed_root 5 (fun c => balance_recovery_endpoint restore_bk restore_bv restore_store c None)
    (fun c => lp_recovery_endpoint restore_lk restore_lv restore_store c None) ∅ ∅
    = Ok (summary, cache, recovered) /\
  recovered !! (seed_pk, 1) = Some (mkRecoveredBalanceRecord seed_tweak) /\
  recovered !! (stranger_pk, 0) = None /\
  cache !! (demo_pool, seed_lp_pk) = Some (mkLpPositionRecord seed_tweak 1413213).
Proof.
  destruct (recover_finds_all restore_bk restore_bv restore_lk restore_lv restore_store restore_db
    seed_root 5 ∅ ∅ restore_holds) as (sm & cache & recovered & E & Hr & Hc); [vm_compute; lia..|].
  exists sm, cache, recovered. split; [exact E|]. rewrite !Hr, Hc. split; [reflexivity|split; reflexivity].
Defined.

Lemma seed_recovery_claims_all_witness : exists summary d' cache,
  recover (World := AmmDb) (SweepApi0 := quiet_api) seed_root 5
    (fun c => balance_recovery_endpoint restore_bk restore_bv restore_store c None)
    (fun c => lp_recovery_endpoint restore_lk restore_lv restore_store c None) restore_db ∅ ∅
    = Ok (summary, d', cache, ∅) /\
  balances d' !! (seed_pk, 1) = None /\
  balances d' !! (stranger_pk, 0) = Some (mkBalanceEntry 9 demo_tweak).
Proof.
  destruct (seed_recovery_claims_all seed_root restore_bk restore_bv restore_lk restore_lv
    restore_store restore_db 5 ∅ restore_holds) as (sm & d' & cache & E & _ & _ & Hb & _);
    [vm_compute; lia..|].
  exists sm, d', cache. split; [exact E|]. rewrite !Hb. split; reflexivity.
Defined.

Definition restore_rows : gmap (PublicKey * AmountUnit) RecoveredBalanceRecord :=
  {[(seed_pk, 1) := mkRecoveredBalanceRecord seed_tweak]}.

Lemma restore_rows_derive : map_Forall (row_derives seed_root) restore_rows.
Proof. intros k rec E. unfold restore_rows in E. apply lookup_singleton_Some in E as [<- <-]. reflexivity. Qed.

Lemma sweep_drops_only_claimed_witness : exists n errs d' t',
  claim_pending_balances (SweepApi0 := quiet_api) seed_root restore_db restore_rows = (n, errs, d', t') /\
  t' ⊆ restore_rows.
Proof.
  destruct (claim_pending_balances (SweepApi0 := quiet_api) seed_root restore_db restore_rows)
    as [[[n errs] d'] t'] eqn:E.
  exists n, errs, d', t'. split; [reflexivity|].
  apply (sweep_drops_only_claimed (Hapi := quiet_api) (Hok := quiet_api_ok) _ seed_root
    restore_db d' n errs restore_rows t' restore_rows_derive E).
Defined.

Definition demo_lp_keys : gset (PoolId * PublicKey) := {[(demo_pool, demo_lp_pk)]}.

Lemma demo_local_sync : in_sync demo_lp_keys demo_local demo_db1.
Proof. intros key ->%elem_of_singleton. vm_compute. reflexivity. Qed.

Lemma lp_cache_tracks_server_witness : exists r d',
  process_input (ci_input demo_wd_in) demo_db1 = (Ok r, d') /\
  in_sync demo_lp_keys (transition_withdraw_submitted (Ok tt)
    (mkWithdrawSm (mkWithdrawCommon 13 demo_pool demo_lp_pk 1000) (WithdrawState.Submitted 77)) demo_local).2 d'.
Proof.
  destruct (run_ok (process_input (ci_input demo_wd_in) demo_db1)) as [r E]; [by vm_compute|].
  exists r, (process_input (ci_input demo_wd_in) demo_db1).2. split; [exact E|].
  destruct (lp_cache_tracks_server demo_amm demo_client demo_pool demo_db1 demo_db1
    (process_input (ci_input demo_wd_in) demo_db1).2 r 13 77 demo_local demo_lp_keys
    (reachable_inv_db demo_amm demo_amm_wf _ demo_run1) demo_local_sync) as [_ Hw].
  apply (Hw demo_local demo_lp_pk 1000 demo_wd_in _ demo_wd_built E).
  by apply elem_of_singleton.
Defined.
End demo.
