(* ===== verification/AmmCli.v ===== *)
(** * The AMM client's command line

    [modules/amm/fedimint-amm-client/src/cli.rs]: the commands after clap, over the
    client operations of [AmmClient] and the waits of [AmmSwapSm] and
    [AmmClientRecovery].  The theorem: a command submits at most one transaction, the one
    it was asked for at the tolerance it was given, and calls it completed only when its
    machine has ended well. *)

From S2P Require Import Prelude FedimintCore AmmMath AmmPoolId AmmConfig AmmTypes AmmServer AmmClient.
From S2P Require Import AmmSwapSm AmmClientRecovery.

Inductive Opts :=
| Pools
| Quote (unit_in unit_out amount_in : Z)
| Swap (unit_in unit_out amount_in max_slippage_bps : Z) (no_wait : bool)
| Deposit (pool : PoolId) (amount_lo amount_hi max_slippage_bps : Z) (no_wait : bool)
| Withdraw (pool : PoolId) (owner_pk : PublicKey) (shares : Z) (no_wait : bool)
| ListPositions
| Recover.

(** [AmountUnit::new_custom]. *)
Definition unit_of (id : Z) : AmountUnit := id.

(** A pool argument is read by the pool id's own [Deserialize]. *)
Definition parse_pool_id (s : string) : result PoolIdDeError PoolId := deserialize s.

Inductive CliError :=
| NotSubmitted (e : ClientError)
| SubmissionFailed (e : string)
| OperationFailed (e : string)
| QueryFailed (e : ApiError)
| RecoveryFailed (e : string).

Inductive Reply :=
| PoolsReply (pools : list PoolSummary)
| QuoteReply (quote : QuoteResponse)
| OperationReply (operation_id : Z) (completed : bool)
| PositionsReply (positions : gmap (PoolId * PublicKey) Z)
| RecoverReply (summary : AmmRecoverySummary).

Section cli.
Context `{Hcrypto : Crypto} `{Hder : !Derivation} `{Ham : AmountsOps}.
Context `{cz : Codec Z} `{cpk : Codec PublicKey} `{ct : Codec (list Z)}.

(** The transactions handed to the framework. *)
Inductive Submission :=
| SwapTx (out : ClientOutput) (common : SwapCommon)
| DepositTx (out : ClientOutput) (common : DepositCommon)
| WithdrawTx (inp : ClientInput) (common : WithdrawCommon).

(** What the command meets while it runs: the endpoints' answers, the tweak ground for
    it, the framework's verdict on its submission and the states of its machine. *)
Record Session := mkSession {
  ss_pools : result ApiError (list PoolSummary);
  ss_quote : AmountUnit -> AmountUnit -> Z -> result ApiError QuoteResponse;
  ss_tweak : list Z;
  ss_operation_id : Z;
  ss_submit : Submission -> result string unit;
  ss_swap_states : list SwapState;
  ss_deposit_states : list DepositState.t;
  ss_withdraw_states : list WithdrawState.t;
  ss_positions : gmap (PoolId * PublicKey) LpPositionRecord;
  ss_recovery : result string AmmRecoverySummary;
}.

Variables (c : AmmClientModule) (ss : Session).

Definition submit (x : Submission) : M (list Submission) CliError unit :=
  lift (map_err SubmissionFailed (ss_submit ss x));;
  modify (fun sent => sent ++ [x]).

Definition finish_operation (operation_id : Z) (no_wait : bool) (wait : result string unit)
    : M (list Submission) CliError Reply :=
  (if no_wait then mret tt else lift (map_err OperationFailed wait));;
  mret (OperationReply operation_id (negb no_wait)).

Definition handle_swap (unit_in unit_out amount_in max_slippage_bps : Z) (no_wait : bool)
    : M (list Submission) CliError Reply :=
  '(out, common) ← lift (map_err NotSubmitted (swap c (unit_of unit_in) (unit_of unit_out) amount_in
      max_slippage_bps (ss_operation_id ss) (ss_quote ss (unit_of unit_in) (unit_of unit_out) amount_in)
      (ss_tweak ss)));
  submit (SwapTx out common);;
  finish_operation (ss_operation_id ss) no_wait (await_swap (ss_swap_states ss)).

Definition handle_deposit (pool : PoolId) (amount_lo amount_hi max_slippage_bps : Z) (no_wait : bool)
    : M (list Submission) CliError Reply :=
  '(out, common) ← lift (map_err NotSubmitted (deposit c pool amount_lo amount_hi max_slippage_bps
      (ss_operation_id ss) (ss_pools ss) (ss_tweak ss)));
  submit (DepositTx out common);;
  finish_operation (ss_operation_id ss) no_wait (await_deposit (ss_deposit_states ss)).

Definition handle_withdraw (pool : PoolId) (owner_pk : PublicKey) (shares : Z) (no_wait : bool)
    : M (list Submission) CliError Reply :=
  '(inp, common) ← lift (map_err NotSubmitted (withdraw c (ss_positions ss) pool owner_pk shares
      (ss_operation_id ss) (ss_pools ss)));
  submit (WithdrawTx inp common);;
  finish_operation (ss_operation_id ss) no_wait (await_withdraw (ss_withdraw_states ss)).

Definition handle_cli_command (opts : Opts) : M (list Submission) CliError Reply :=
  match opts with
  | Pools => pools ← lift (map_err QueryFailed (ss_pools ss)); mret (PoolsReply pools)
  | Quote unit_in unit_out amount_in =>
      quote ← lift (map_err QueryFailed (ss_quote ss (unit_of unit_in) (unit_of unit_out) amount_in));
      mret (QuoteReply quote)
  | Swap unit_in unit_out amount_in max_slippage_bps no_wait =>
      handle_swap unit_in unit_out amount_in max_slippage_bps no_wait
  | Deposit pool amount_lo amount_hi max_slippage_bps no_wait =>
      handle_deposit pool amount_lo amount_hi max_slippage_bps no_wait
  | Withdraw pool owner_pk shares no_wait => handle_withdraw pool owner_pk shares no_wait
  | ListPositions =>
      (* the cached rows, without their tweaks *)
      mret (PositionsReply (rec_shares <$> ss_positions ss))
  | Recover => summary ← lift (map_err RecoveryFailed (ss_recovery ss)); mret (RecoverReply summary)
  end.

(** ** What a command asks for *)

(** The floor is what the user's tolerance leaves of the endpoint's own quote. *)
Definition asked (opts : Opts) (x : Submission) : Prop :=
  match opts, x with
  | Swap ui uo a bps _, SwapTx out common =>
      exists q m kp, ss_quote ss ui uo a = Ok q /\ min_after_slippage (quote_amount_out q) bps = Ok m /\
        out = mkClientOutput (new_swap_v0 kp ui uo a m (ss_tweak ss)) (new_custom ui a) /\
        swap_operation_id common = ss_operation_id ss
  | Deposit pool al ah bps _, DepositTx out common =>
      exists m kp, min_after_slippage (expected_shares common) bps = Ok m /\
        co_output out = new_deposit_v0 kp pool al ah m (ss_tweak ss) /\
        deposit_operation_id common = ss_operation_id ss
  | Withdraw pool pk shares _, WithdrawTx inp common =>
      exists da db, ci_input inp = WithdrawV0 pool pk shares da db da db /\ 0 < shares /\
        map public_key (ci_keys inp) = [pk] /\ withdraw_operation_id common = ss_operation_id ss
  | _, _ => False
  end.

(** The command's machine has ended in its success state. *)
Definition ended_well (opts : Opts) : Prop :=
  match opts with
  | Swap _ _ _ _ _ => Done ∈ ss_swap_states ss
  | Deposit _ _ _ _ _ => DepositState.Accepted ∈ ss_deposit_states ss
  | Withdraw _ _ _ _ => WithdrawState.Accepted ∈ ss_withdraw_states ss
  | _ => False
  end.

Lemma await_swap_done l : await_swap l = Ok tt -> Done ∈ l.
Proof. induction l as [|[] l IH]; simpl; intros; try done; (by left) || (right; auto). Qed.
Lemma await_deposit_done l : await_deposit l = Ok tt -> DepositState.Accepted ∈ l.
Proof. induction l as [|[] l IH]; simpl; intros; try done; (by left) || (right; auto). Qed.
Lemma await_withdraw_done l : await_withdraw l = Ok tt -> WithdrawState.Accepted ∈ l.
Proof. induction l as [|[] l IH]; simpl; intros; try done; (by left) || (right; auto). Qed.

Lemma swap_asked ui uo a bps no_wait out common :
  swap c ui uo a bps (ss_operation_id ss) (ss_quote ss ui uo a) (ss_tweak ss) = Ok (out, common) ->
  asked (Swap ui uo a bps no_wait) (SwapTx out common).
Proof.
  destruct (ss_quote ss ui uo a) as [q|e] eqn:Eq.
  - intros Hs. apply swap_built in Hs as (m & Em & -> & ->). simpl. eauto 10.
  - unfold swap. destruct (ui =? uo); [done|]. by destruct (negb _).
Qed.

Lemma deposit_asked pool al ah bps no_wait out common :
  deposit c pool al ah bps (ss_operation_id ss) (ss_pools ss) (ss_tweak ss) = Ok (out, common) ->
  asked (Deposit pool al ah bps no_wait) (DepositTx out common).
Proof.
  unfold deposit, deposit_min_shares. destruct (negb _); [done|]. destruct (ss_pools ss) as [pools|]; simpl; [|done].
  destruct (match find_pool pool pools with Some p => _ | None => _ end) as [[rl rh] ts].
  destruct (mint_shares rl rh ts al ah) as [o|] eqn:Em; simpl; [|done].
  destruct (min_after_slippage (to_owner o) bps) as [m|] eqn:Ef; simpl; [|done].
  destruct (match checked_add_unit _ _ _ with Some _ => _ | None => _ end); simpl; [|done].
  intros [= <- <-]. simpl. eauto 10.
Qed.

Lemma withdraw_asked pool pk shares no_wait inp common :
  withdraw c (ss_positions ss) pool pk shares (ss_operation_id ss) (ss_pools ss) = Ok (inp, common) ->
  asked (Withdraw pool pk shares no_wait) (WithdrawTx inp common).
Proof.
  unfold withdraw. destruct (ss_positions ss !! _) as [rec|]; simpl; [|done].
  destruct (0 <? shares) eqn:Hs; simpl; [zbool|done]. case_bool_decide as Hk; simpl; [|done].
  destruct (ss_pools ss) as [pools|]; simpl; [|done]. destruct (find_pool pool pools); simpl; [|done].
  destruct (burn_shares _ _ _ _) as [o|]; simpl; [|done].
  destruct (match checked_add_unit _ _ _ with Some _ => _ | None => _ end); simpl; [|done].
  intros [= <- <-]. simpl. exists (burn_da o), (burn_db o). by rewrite Hk.
Qed.

(** A command's outcome is as reported. *)
Definition reported (opts : Opts) (sent : list Submission) (p : result CliError Reply * list Submission) : Prop :=
  (p.2 = sent \/ exists x, p.2 = sent ++ [x] /\ asked opts x) /\
  forall id done, p.1 = Ok (OperationReply id done) ->
    id = ss_operation_id ss /\ (exists x, p.2 = sent ++ [x] /\ asked opts x) /\ (done = true -> ended_well opts).

(** Of a command that submits nothing, and of the tail of one that does. *)
Lemma only_reads opts sent r : (forall id done, r <> Ok (OperationReply id done)) -> reported opts sent (r, sent).
Proof. intros Hr. split; [by left|]. intros id b E. by apply Hr in E. Qed.

Lemma submit_and_finish opts x no_wait wait sent :
  asked opts x -> (wait = Ok tt -> ended_well opts) ->
  reported opts sent ((submit x;; finish_operation (ss_operation_id ss) no_wait wait) sent).
Proof.
  intros Hx Hw. unfold submit, finish_operation, reported. simpl.
  destruct (ss_submit ss x) as [[]|e]; simpl; [|split; [by left|done]].
  destruct no_wait; simpl; [|destruct wait as [[]|e]; simpl]; (split; [by eauto|]); try done.
  all: intros id b [= -> <-]; split_and!; eauto; done.
Qed.

(** Whatever the endpoints answer and the machines go through: a command submits nothing
    or the one transaction it was asked for, with the floor its tolerance leaves of the
    quote, under its own operation id; the commands that only read submit nothing; and
    an operation is reported completed only when its machine has ended in success. *)
Theorem command_does_what_it_says opts sent : reported opts sent (handle_cli_command opts sent).
Proof.
  destruct opts as [|ui uo a|ui uo a bps nw|pool al ah bps nw|pool pk shares nw| |];
    unfold handle_cli_command, handle_swap, handle_deposit, handle_withdraw; simpl mbind; unfold M_bind, lift.
  - destruct (ss_pools ss); apply only_reads; by intros.
  - destruct (ss_quote ss _ _ _); apply only_reads; by intros.
  - destruct (swap c _ _ _ _ _ _ _) as [[out com]|e] eqn:E; [|apply only_reads; by intros].
    apply submit_and_finish; [by apply swap_asked|apply await_swap_done].
  - destruct (deposit c _ _ _ _ _ _ _) as [[out com]|e] eqn:E; [|apply only_reads; by intros].
    apply submit_and_finish; [by apply deposit_asked|apply await_deposit_done].
  - destruct (withdraw c _ _ _ _ _ _) as [[inp com]|e] eqn:E; [|apply only_reads; by intros].
    apply submit_and_finish; [by apply withdraw_asked|apply await_withdraw_done].
  - apply only_reads; by intros.
  - destruct (ss_recovery ss); apply only_reads; by intros.
Qed.
End cli.
