(* ===== verification/KeeperOracle.v ===== *)
(** * The price keeper's oracle

    [bin/amm-price-keeper/src/oracle.rs]: what stands between a price feed and a
    trade.  The feed's JSON parser is a parameter; everything behind it is here:
    the single float-to-integer conversion (on the standard library's binary64),
    the strict RFC 3339 reader with its days-from-civil arithmetic, the staleness
    window and the tick-over-tick jump limit. *)

From S2P Require Import Prelude FedimintCore AmmPoolId.
From Stdlib Require Import Ascii SpecFloat.

(** ** Data *)

Definition MAX_MICRO_USD_PER_BTC : Z := 1000000000000000000.
Definition BTC_USD : string := "BTC/USD".

Abbreviation f64 := spec_float (only parsing).

Record FeedQuote := mkFeedQuote { rate : f64; timestamp : list ascii }.

Record Feed := mkFeed { prices : gmap string FeedQuote }.

Record OraclePrice := mkOraclePrice { micro_usd_per_btc : Z; timestamp_unix : Z }.

Inductive OracleError :=
| Malformed (e : string)
| MissingPair
| BadRate (rate : f64)
| RateOutOfRange (rate : f64)
| BadTimestamp (ts : list ascii)
| Stale (age_secs max_age_secs : Z)
| Jump (moved_pct max_pct : Z).

(** ** The rate *)

(** [f64] multiplication, and the integer [f64::round] yields for a finite value:
    nearest, ties away from zero. *)
Definition f64_mul (a b : f64) : f64 := SFmul 53 1024 a b.
Definition f64_of_Z (z : Z) : f64 := binary_normalize 53 1024 z 0 false.

Definition round_half_away (m : positive) (e : Z) : Z :=
  if 0 <=? e then Z.pos m * 2 ^ e else (Z.pos m + 2 ^ (- e - 1)) / 2 ^ (- e).

(** [None] is an infinity or a NaN. *)
Definition f64_round (x : f64) : option Z :=
  match x with
  | S754_zero _ => Some 0
  | S754_finite s m e => Some (if s then - round_half_away m e else round_half_away m e)
  | _ => None
  end.

Definition is_finite (x : f64) : bool :=
  match x with S754_zero _ | S754_finite _ _ _ => true | _ => false end.

(** [x <= 0.0] for a finite [x]. *)
Definition non_positive (x : f64) : bool :=
  match x with S754_zero _ => true | S754_finite s _ _ => s | _ => false end.

Definition micro_usd_from_rate (r : f64) : result OracleError Z :=
  if negb (is_finite r) || non_positive r then Err (BadRate r)
  else
    match f64_round (f64_mul r (f64_of_Z 1000000)) with
    | None => Err (RateOutOfRange r)
    | Some micro =>
        if micro <? 1 then Err (BadRate r)
        else if MAX_MICRO_USD_PER_BTC <? micro then Err (RateOutOfRange r)
        else Ok micro
    end.

(** ** The jump limit *)

Definition abs_diff (a b : Z) : Z := Z.abs (a - b).

Definition check_jump (prev_micro new_micro max_pct : Z) : result OracleError unit :=
  let delta := abs_diff prev_micro new_micro in
  let moved_bound := saturating_mul_u128 prev_micro max_pct in
  if moved_bound <? saturating_mul_u128 delta 100 then
    Err (Jump (default U128_MAX (checked_div (saturating_mul_u128 delta 100) prev_micro)) max_pct)
  else Ok tt.

(** ** The calendar *)

Definition is_leap_year (year : Z) : bool :=
  ((Z.rem year 4 =? 0) && negb (Z.rem year 100 =? 0)) || (Z.rem year 400 =? 0).

Definition days_in_month (year month : Z) : Z :=
  if (month =? 1) || (month =? 3) || (month =? 5) || (month =? 7) || (month =? 8)
     || (month =? 10) || (month =? 12) then 31
  else if (month =? 4) || (month =? 6) || (month =? 9) || (month =? 11) then 30
  else if month =? 2 then if is_leap_year year then 29 else 28
  else 0.

Definition days_from_civil (year month day : Z) : Z :=
  let year := if month <=? 2 then year - 1 else year in
  let era := Z.quot (if 0 <=? year then year else year - 399) 400 in
  let year_of_era := year - era * 400 in
  let day_of_year :=
    Z.quot (153 * (month + (if 2 <? month then -3 else 9)) + 2) 5 + day - 1 in
  let day_of_era :=
    year_of_era * 365 + Z.quot year_of_era 4 - Z.quot year_of_era 100 + day_of_year in
  era * 146097 + day_of_era - 719468.

(** ** RFC 3339 *)

(** [str::parse::<i64>]. *)
Fixpoint i64_digits (bound v : Z) (s : list ascii) : option Z :=
  match s with
  | [] => Some v
  | c :: s =>
      d ← char_digit c;
      if v * 10 + d <=? bound then i64_digits bound (v * 10 + d) s else None
  end.

Definition parse_i64 (s : list ascii) : option Z :=
  match s with
  | [] => None
  | "+"%char :: s' => match s' with [] => None | _ => i64_digits I64_MAX 0 s' end
  | "-"%char :: s' => match s' with [] => None | _ => Z.opp <$> i64_digits (2 ^ 63) 0 s' end
  | _ => i64_digits I64_MAX 0 s
  end.

Definition is_ascii_digit (c : ascii) : bool :=
  match char_digit c with Some _ => true | None => false end.

Definition byte_is (c : ascii) (o : option ascii) : bool := bool_decide (o = Some c).

(** The shape of the 19 fixed bytes. *)
Definition shape_at (bytes : list ascii) (i : nat) : bool :=
  match i with
  | 4%nat | 7%nat => byte_is "-" (bytes !! i)
  | 10%nat => byte_is "T" (bytes !! i) || byte_is "t" (bytes !! i)
  | 13%nat | 16%nat => byte_is ":" (bytes !! i)
  | _ => match bytes !! i with Some c => is_ascii_digit c | None => false end
  end.

Definition num (bytes : list ascii) (from to : nat) : option Z :=
  parse_i64 (take (to - from) (drop from bytes)).

(** Drops the leading digits; the flag says whether there was one. *)
Fixpoint trim_digits (s : list ascii) : list ascii :=
  match s with
  | c :: s' => if is_ascii_digit c then trim_digits s' else s
  | [] => []
  end.

(** The optional fraction, then the zone. *)
Definition zone_ok (rest : list ascii) : bool :=
  match rest with
  | "."%char :: frac =>
      let rest := trim_digits frac in
      negb (length frac - length rest =? 0)%nat &&
      (bool_decide (rest = ["Z"%char]) || bool_decide (rest = ["z"%char]))
  | _ => bool_decide (rest = ["Z"%char]) || bool_decide (rest = ["z"%char])
  end.

Definition parse_rfc3339_utc (bytes : list ascii) : option Z :=
  if (length bytes <? 19)%nat then None
  else if negb (forallb (shape_at bytes) (seq 0 19)) then None
  else
    year ← num bytes 0 4;
    month ← num bytes 5 7;
    day ← num bytes 8 10;
    hour ← num bytes 11 13;
    minute ← num bytes 14 16;
    second ← num bytes 17 19;
    if negb ((1 <=? month) && (month <=? 12)) || (day <? 1) || (days_in_month year month <? day)
    then None
    else if (23 <? hour) || (59 <? minute) || (60 <? second) then None
    else if negb (zone_ok (drop 19 bytes)) then None
    else
      let days := days_from_civil year month day in
      Some (days * 86400 + hour * 3600 + minute * 60 + second).

(** ** The feed *)

Section feed.
(** [serde_json::from_str::<Feed>]. *)
Context (from_json : string -> result string Feed).

Definition wrap_i64 (x : Z) : Z := (x + 2 ^ 63) mod 2 ^ 64 - 2 ^ 63.

Definition parse_feed (body : string) (now_unix max_age_secs : Z)
    : result OracleError OraclePrice :=
  feed ← map_err Malformed (from_json body);
  quote ← ok_or (prices feed !! BTC_USD) MissingPair;
  micro ← micro_usd_from_rate (rate quote);
  ts ← ok_or (parse_rfc3339_utc (timestamp quote)) (BadTimestamp (timestamp quote));
  let age_secs := wrap_i64 (now_unix - ts) in
  let max := default I64_MAX (try_i64 max_age_secs) in
  if (max <? age_secs) || (age_secs <? - max) then Err (Stale age_secs max_age_secs)
  else Ok (mkOraclePrice micro ts).
End feed.

(** The vectors of the source's tests. *)
Definition bytes_of (s : string) : list ascii := String.list_ascii_of_string s.

Example fixture_rate :
  micro_usd_from_rate (binary_normalize 53 1024 311141 (-2) false) = Ok 77785250000.
Proof. vm_compute. reflexivity. Qed.

Example fixture_timestamp :
  parse_rfc3339_utc (bytes_of "2026-09-01T13:15:33Z") = Some 1788268533.
Proof. vm_compute. reflexivity. Qed.

Example known_epochs :
  (parse_rfc3339_utc (bytes_of "1970-01-01T00:00:00Z"),
   parse_rfc3339_utc (bytes_of "1969-12-31T23:59:59.25Z"),
   parse_rfc3339_utc (bytes_of "2026-02-29T00:00:00Z"),
   parse_rfc3339_utc (bytes_of "2026-09-01T13:15:33+02:00"))
  = (Some 0, Some (-1), None, None).
Proof. vm_compute. reflexivity. Qed.

(** ** The calendar counts days *)

Definition valid_civil (y m d : Z) : Prop :=
  0 <= y /\ 1 <= m <= 12 /\ 1 <= d <= days_in_month y m.

(** The next day of the Gregorian calendar. *)
Definition next_day (y m d : Z) : Z * Z * Z :=
  if d <? days_in_month y m then (y, m, d + 1)
  else if m <? 12 then (y, m + 1, 1)
  else (y + 1, 1, 1).

(** Days before the first of March of year [y], counted from year 0. *)
Definition march_days (y : Z) : Z := 365 * y + y / 4 - y / 100 + y / 400.

Lemma div_pred y k : 0 < k -> y / k - (y - 1) / k = if y mod k =? 0 then 1 else 0.
Proof.
  intros Hk. pose proof (Z.mod_pos_bound y k Hk). pose proof (Z.div_mod y k ltac:(lia)).
  destruct (Z.eqb_spec (y mod k) 0).
  - rewrite <- (Z.div_unique (y - 1) k (y / k - 1) (k - 1)); lia.
  - rewrite <- (Z.div_unique (y - 1) k (y / k) (y mod k - 1)); lia.
Qed.

Lemma mod_zero_trans y a b : 0 < a -> 0 < b -> y mod (a * b) = 0 -> y mod a = 0.
Proof.
  intros ? ? E%Z.mod_divide; [|lia]. apply Z.mod_divide; [lia|].
  apply (Z.divide_trans _ (a * b)); [by exists b; ring_simplify|done].
Qed.

Lemma march_days_succ y : 0 <= y ->
  march_days y - march_days (y - 1) = if is_leap_year y then 366 else 365.
Proof.
  intros. unfold march_days, is_leap_year.
  rewrite !Z.rem_mod_nonneg by lia.
  pose proof (div_pred y 4 ltac:(lia)). pose proof (div_pred y 100 ltac:(lia)).
  pose proof (div_pred y 400 ltac:(lia)).
  pose proof (mod_zero_trans y 4 25 ltac:(lia) ltac:(lia)).
  pose proof (mod_zero_trans y 100 4 ltac:(lia) ltac:(lia)).
  destruct (Z.eqb_spec (y mod 4) 0), (Z.eqb_spec (y mod 100) 0), (Z.eqb_spec (y mod 400) 0);
    simpl in *; try lia; exfalso; auto with lia.
Qed.

Lemma days_from_civil_march y m d : 0 <= y -> 1 <= m <= 12 ->
  days_from_civil y m d =
    march_days (if m <=? 2 then y - 1 else y)
    + (153 * (if 2 <? m then m - 3 else m + 9) + 2) / 5 + d - 1 - 719468.
Proof.
  intros Hy Hm. unfold days_from_civil.
  replace (m + (if 2 <? m then -3 else 9)) with (if 2 <? m then m - 3 else m + 9)
    by (case_match; lia).
  set (y' := if m <=? 2 then y - 1 else y). assert (-1 <= y') by (subst y'; case_match; lia).
  set (k := if 2 <? m then m - 3 else m + 9). assert (0 <= k) by (subst k; case_match; zbool; lia).
  assert (Z.quot (if 0 <=? y' then y' else y' - 399) 400 = y' / 400) as ->.
  { destruct (Z.leb_spec 0 y'); [apply Z.quot_div_nonneg; lia|].
    assert (y' = -1) as -> by lia. reflexivity. }
  rewrite (Z.quot_div_nonneg (153 * k + 2)) by lia.
  pose proof (Z.mod_pos_bound y' 400 ltac:(lia)). pose proof (Z.div_mod y' 400 ltac:(lia)).
  rewrite !Z.quot_div_nonneg by lia. unfold march_days. clearbody y' k.
  set (q := (153 * k + 2) / 5). clearbody q. zdiv.
Qed.

Lemma days_from_civil_succ y m d :
  valid_civil y m d ->
  let '(y', m', d') := next_day y m d in
  valid_civil y' m' d' /\ days_from_civil y' m' d' = days_from_civil y m d + 1.
Proof.
  intros (Hy & Hm & Hd). unfold next_day.
  pose proof (march_days_succ y Hy) as Hmar.
  assert (m = 1 \/ m = 2 \/ m = 3 \/ m = 4 \/ m = 5 \/ m = 6 \/ m = 7 \/ m = 8 \/ m = 9
    \/ m = 10 \/ m = 11 \/ m = 12) as Hcase by lia.
  destruct (Z.ltb_spec d (days_in_month y m)) as [Hlt|Hge].
  { split; [unfold valid_civil; lia|]. rewrite !days_from_civil_march by lia. lia. }
  assert (d = days_in_month y m) as -> by lia. clear Hge Hd.
  repeat (destruct Hcase as [->|Hcase]); try subst m;
    unfold days_in_month, valid_civil; simpl;
    (split; [split; [lia|split; [lia|]]; unfold days_in_month; simpl; repeat case_match; lia|]);
    rewrite !days_from_civil_march by lia; simpl;
    repeat match goal with |- context [?a + 1 - 1] => replace (a + 1 - 1) with a by lia end;
    repeat case_match; zdiv.
Qed.

(** The day number is the Gregorian calendar's: the epoch is day zero and every
    step to the next calendar day, month and year ends and leap years included,
    adds exactly one. *)
Theorem days_from_civil_counts_days :
  days_from_civil 1970 1 1 = 0 /\
  forall y m d, valid_civil y m d ->
    let '(y', m', d') := next_day y m d in
    valid_civil y' m' d' /\ days_from_civil y' m' d' = days_from_civil y m d + 1.
Proof. split; [reflexivity|exact days_from_civil_succ]. Qed.

Lemma days_from_civil_counts_days_witness :
  days_from_civil 2024 3 1 = days_from_civil 2024 2 29 + 1.
Proof.
  apply (proj2 days_from_civil_counts_days 2024 2 29).
  unfold valid_civil. split; [lia|]. split; [lia|]. vm_compute. split; discriminate.
Defined.

(** ** The reader accepts exactly the strict grammar *)

Definition two (n : Z) : list ascii := [digit_char (n / 10); digit_char (n mod 10)].
Definition four (n : Z) : list ascii := two (n / 100) ++ two (n mod 100).

(** [YYYY-MM-DDTHH:MM:SS]. *)
Definition stamp (y mo d : Z) (t : ascii) (h mi s : Z) : list ascii :=
  four y ++ "-"%char :: two mo ++ "-"%char :: two d ++ t ::
  two h ++ ":"%char :: two mi ++ ":"%char :: two s.

Definition is_sep (t : ascii) : Prop := t = "T"%char \/ t = "t"%char.

(** [Z], or a fraction of at least one digit and [Z]. *)
Definition is_zone (tail : list ascii) : Prop :=
  exists z, (z = "Z"%char \/ z = "z"%char) /\
    (tail = [z] \/
     exists ds, ds <> [] /\ Forall (fun c => is_ascii_digit c = true) ds /\
       tail = "."%char :: ds ++ [z]).

Lemma is_ascii_digit_char c :
  is_ascii_digit c = true -> exists d, 0 <= d <= 9 /\ c = digit_char d.
Proof.
  unfold is_ascii_digit, char_digit. intros H.
  destruct ((0 <=? _) && _) eqn:E in H; [|done]. zbool.
  exists (Z.of_nat (nat_of_ascii c) - 48). split; [lia|]. unfold digit_char.
  replace (Z.to_nat _) with (nat_of_ascii c) by lia. by rewrite ascii_nat_embedding.
Qed.

Lemma digit_char_digit d : 0 <= d <= 9 -> is_ascii_digit (digit_char d) = true.
Proof. intros. unfold is_ascii_digit. by rewrite char_digit_char. Qed.

Lemma two_pair a b : 0 <= a <= 9 -> 0 <= b <= 9 -> two (10 * a + b) = [digit_char a; digit_char b].
Proof.
  intros. unfold two. replace ((10 * a + b) / 10) with a by zdiv.
  by replace ((10 * a + b) mod 10) with b by zdiv.
Qed.

Lemma two_digits n : 0 <= n <= 99 -> Forall (fun c => is_ascii_digit c = true) (two n).
Proof. intros. unfold two. repeat constructor; apply digit_char_digit; zdiv. Qed.

Lemma parse_i64_head c s : is_ascii_digit c = true ->
  parse_i64 (c :: s) = i64_digits I64_MAX 0 (c :: s).
Proof.
  intros H. destruct c as [b0 b1 b2 b3 b4 b5 b6 b7].
  destruct b0, b1, b2, b3, b4, b5, b6, b7; try done; vm_compute in H; done.
Qed.

Lemma i64_two v n rest : 0 <= v <= 99 -> 0 <= n <= 99 ->
  i64_digits I64_MAX v (two n ++ rest) = i64_digits I64_MAX (100 * v + n) rest.
Proof.
  intros. unfold two. simpl. rewrite char_digit_char by zdiv. simpl.
  rewrite (proj2 (Z.leb_le _ _)) by (unfold_widths; zdiv). rewrite char_digit_char by zdiv. simpl.
  rewrite (proj2 (Z.leb_le _ _)) by (unfold_widths; zdiv). f_equal. zdiv.
Qed.

Lemma parse_two n : 0 <= n <= 99 -> parse_i64 (two n) = Some n.
Proof.
  intros. unfold two at 1. rewrite parse_i64_head by (apply digit_char_digit; zdiv).
  fold (two n). rewrite <- (app_nil_r (two n)), i64_two by lia. by f_equal.
Qed.

Lemma parse_four n : 0 <= n <= 9999 -> parse_i64 (four n) = Some n.
Proof.
  intros. unfold four. unfold two at 1. simpl app.
  rewrite parse_i64_head by (apply digit_char_digit; zdiv).
  change (digit_char (n / 100 / 10) :: _) with (two (n / 100) ++ two (n mod 100)).
  rewrite i64_two by zdiv. rewrite <- (app_nil_r (two _)), i64_two by zdiv.
  simpl. f_equal. zdiv.
Qed.

Lemma digits_two a b : is_ascii_digit a = true -> is_ascii_digit b = true ->
  exists n, 0 <= n <= 99 /\ [a; b] = two n.
Proof.
  intros (x & ? & ->)%is_ascii_digit_char (y & ? & ->)%is_ascii_digit_char.
  exists (10 * x + y). split; [lia|]. by rewrite two_pair.
Qed.

Lemma four_two a b : 0 <= a <= 99 -> 0 <= b <= 99 -> four (100 * a + b) = two a ++ two b.
Proof.
  intros. unfold four. replace ((100 * a + b) / 100) with a by zdiv.
  by replace ((100 * a + b) mod 100) with b by zdiv.
Qed.

(** The fields of a well-shaped prefix. *)
Lemma shape_stamp bytes :
  (length bytes <? 19)%nat = false -> forallb (shape_at bytes) (seq 0 19) = true ->
  exists y mo d t h mi s, bytes = stamp y mo d t h mi s ++ drop 19 bytes /\ is_sep t /\
    0 <= y <= 9999 /\ 0 <= mo <= 99 /\ 0 <= d <= 99 /\ 0 <= h <= 99 /\ 0 <= mi <= 99 /\ 0 <= s <= 99.
Proof.
  intros Hlen Hs. apply Nat.ltb_ge in Hlen.
  destruct bytes as [|c0 [|c1 [|c2 [|c3 [|c4 [|c5 [|c6 [|c7 [|c8 [|c9 [|c10 [|c11 [|c12
    [|c13 [|c14 [|c15 [|c16 [|c17 [|c18 bytes]]]]]]]]]]]]]]]]]]]; try (simpl in Hlen; lia).
  clear Hlen. cbn -[is_ascii_digit byte_is] in Hs.
  repeat match type of Hs with _ && _ = true => apply andb_true_iff in Hs as [? Hs] end.
  unfold byte_is in *. zbool. simplify_eq.
  destruct (digits_two c0 c1) as (yh & ? & E1); [done..|].
  destruct (digits_two c2 c3) as (yl & ? & E2); [done..|].
  destruct (digits_two c5 c6) as (mo & ? & E3); [done..|].
  destruct (digits_two c8 c9) as (d & ? & E4); [done..|].
  destruct (digits_two c11 c12) as (h & ? & E5); [done..|].
  destruct (digits_two c14 c15) as (mi & ? & E6); [done..|].
  destruct (digits_two c17 c18) as (s & ? & E7); [done..|].
  exists (100 * yh + yl), mo, d, c10, h, mi, s. split.
  - unfold stamp. rewrite four_two by done. by rewrite <- E1, <- E2, <- E3, <- E4, <- E5, <- E6, <- E7.
  - split; [|lia]. unfold is_sep.
    match goal with H : _ = true \/ _ = true |- _ => destruct H end; zbool; simplify_eq; auto.
Qed.

Lemma stamp_shape y mo d t h mi s tail :
  is_sep t -> 0 <= y <= 9999 -> 0 <= mo <= 99 -> 0 <= d <= 99 -> 0 <= h <= 99 ->
  0 <= mi <= 99 -> 0 <= s <= 99 ->
  forallb (shape_at (stamp y mo d t h mi s ++ tail)) (seq 0 19) = true.
Proof.
  intros Ht Hy Hmo Hd Hh Hmi Hs.
  pose proof (two_digits (y / 100) ltac:(zdiv)) as F1.
  pose proof (two_digits (y mod 100) ltac:(zdiv)) as F2.
  pose proof (two_digits mo Hmo) as F3. pose proof (two_digits d Hd) as F4.
  pose proof (two_digits h Hh) as F5. pose proof (two_digits mi Hmi) as F6.
  pose proof (two_digits s Hs) as F7.
  unfold two in *. repeat rewrite Forall_cons in *.
  destruct F1 as (A1 & B1 & _), F2 as (A2 & B2 & _), F3 as (A3 & B3 & _), F4 as (A4 & B4 & _),
    F5 as (A5 & B5 & _), F6 as (A6 & B6 & _), F7 as (A7 & B7 & _).
  unfold stamp, four, two. cbn -[is_ascii_digit byte_is digit_char Z.div Z.modulo].
  rewrite A1, B1, A2, B2, A3, B3, A4, B4, A5, B5, A6, B6, A7, B7.
  by destruct Ht as [-> | ->].
Qed.

Lemma zone_ok_spec tail : zone_ok tail = true <-> is_zone tail.
Proof.
  assert (forall ds z, Forall (fun c => is_ascii_digit c = true) ds -> is_ascii_digit z = false ->
    trim_digits (ds ++ [z]) = [z]) as Htrim.
  { intros ds z Hds Hz. induction Hds as [|c ds Hc _ IH]; simpl; [by rewrite Hz|by rewrite Hc]. }
  assert (forall l, exists ds, Forall (fun c => is_ascii_digit c = true) ds /\ l = ds ++ trim_digits l) as Hsplit.
  { induction l as [|c l (ds & Hds & El)]; [by exists []|]. simpl. destruct (is_ascii_digit c) eqn:Ec.
    - exists (c :: ds). split; [by constructor|]. simpl. by rewrite <- El.
    - by exists []. }
  unfold is_zone. split.
  - intros H. unfold zone_ok in H.
    assert (forall l : list ascii, bool_decide (l = ["Z"%char]) || bool_decide (l = ["z"%char]) = true ->
      exists z, (z = "Z"%char \/ z = "z"%char) /\ l = [z]) as Hz.
    { intros l Hl. apply orb_true_iff in Hl as [Hl|Hl]; zbool; subst l; eauto. }
    destruct tail as [|c frac]; [done|].
    destruct (decide (c = "."%char)) as [->|Hc].
    + apply andb_true_iff in H as [H H0]. apply negb_true_iff in H.
      destruct (Hz _ H0) as (z & ? & E). exists z. split; [done|]. right.
      destruct (Hsplit frac) as (ds & Hds & Ef). exists ds. split_and!; [|done|by rewrite <- E, <- Ef].
      intros ->. simpl in Ef. rewrite <- Ef in H. by rewrite Nat.sub_diag in H.
    + destruct (Hz (c :: frac)) as (z & ? & E); [|exists z; split; [done|by left]].
      destruct c as [[] [] [] [] [] [] [] []]; done.
  - intros (z & Hz & [->|(ds & Hne & Hds & ->)]); [by destruct Hz as [-> | ->]|].
    unfold zone_ok. rewrite Htrim; [|done|by destruct Hz as [-> | ->]].
    rewrite length_app. simpl. replace (length ds + 1 - 1)%nat with (length ds) by lia.
    destruct ds; [done|]. simpl. by destruct Hz as [-> | ->].
Qed.

(** The guards left once the shape is right. *)
Lemma parse_stamp y mo d t h mi s tail :
  is_sep t -> 0 <= y <= 9999 -> 0 <= mo <= 99 -> 0 <= d <= 99 -> 0 <= h <= 99 ->
  0 <= mi <= 99 -> 0 <= s <= 99 ->
  parse_rfc3339_utc (stamp y mo d t h mi s ++ tail) =
    if negb ((1 <=? mo) && (mo <=? 12)) || (d <? 1) || (days_in_month y mo <? d) then None
    else if (23 <? h) || (59 <? mi) || (60 <? s) then None
    else if negb (zone_ok tail) then None
    else Some (days_from_civil y mo d * 86400 + h * 3600 + mi * 60 + s).
Proof.
  intros Ht Hy Hmo Hd Hh Hmi Hs. unfold parse_rfc3339_utc. rewrite stamp_shape by done. simpl negb.
  cbv iota. change ((length (stamp y mo d t h mi s ++ tail) <? 19)%nat) with false. cbv iota.
  change (num _ 0 4) with (parse_i64 (four y)). change (num _ 5 7) with (parse_i64 (two mo)).
  change (num _ 8 10) with (parse_i64 (two d)). change (num _ 11 13) with (parse_i64 (two h)).
  change (num _ 14 16) with (parse_i64 (two mi)). change (num _ 17 19) with (parse_i64 (two s)).
  rewrite parse_four, !parse_two by done. reflexivity.
Qed.

Lemma parse_rfc3339_iff bytes t :
  parse_rfc3339_utc bytes = Some t <->
  exists y mo d sep h mi s tail,
    bytes = stamp y mo d sep h mi s ++ tail /\ is_sep sep /\ is_zone tail /\
    valid_civil y mo d /\ y <= 9999 /\ 0 <= h <= 23 /\ 0 <= mi <= 59 /\ 0 <= s <= 60 /\
    t = days_from_civil y mo d * 86400 + h * 3600 + mi * 60 + s.
Proof.
  split.
  - intros H. pose proof H as H'. unfold parse_rfc3339_utc in H'.
    destruct (length bytes <? 19)%nat eqn:El; [done|].
    destruct (forallb (shape_at bytes) (seq 0 19)) eqn:Es; [|done]. clear H'.
    destruct (shape_stamp bytes El Es)
      as (y & mo & d & sep & h & mi & s & Eb & Hsep & Hy & Hmo & Hd & Hh & Hmi & Hs).
    rewrite Eb, parse_stamp in H by done.
    destruct (negb _ || _ || _) eqn:G1; [done|].
    destruct ((23 <? h) || (59 <? mi) || (60 <? s)) eqn:G2; [done|].
    destruct (zone_ok (drop 19 bytes)) eqn:G3; [|done]. simpl in H.
    apply zone_ok_spec in G3. zbool.
    exists y, mo, d, sep, h, mi, s, (drop 19 bytes). split; [done|]. split; [done|]. split; [done|].
    unfold valid_civil. split; [lia|]. split; [lia|]. split; [lia|]. split; [lia|]. split; [lia|].
    congruence.
  - intros (y & mo & d & sep & h & mi & s & tail & -> & Hsep & Hz%zone_ok_spec & (Hy & Hmo & Hd)
      & Hy' & Hh & Hmi & Hs & ->).
    assert (days_in_month y mo <= 31).
    { unfold days_in_month. repeat case_match; lia. }
    rewrite parse_stamp by (done || lia). rewrite Hz.
    rewrite (proj2 (Z.leb_le 1 mo)), (proj2 (Z.leb_le mo 12)), (proj2 (Z.ltb_ge d 1)),
      (proj2 (Z.ltb_ge _ d)), (proj2 (Z.ltb_ge 23 h)), (proj2 (Z.ltb_ge 59 mi)),
      (proj2 (Z.ltb_ge 60 s)) by lia. done.
Qed.

(** The four-digit years bound the epoch seconds. *)
Lemma parse_rfc3339_range bytes t :
  parse_rfc3339_utc bytes = Some t -> - 2 ^ 40 <= t <= 2 ^ 40.
Proof.
  intros (y & mo & d & sep & h & mi & s & tail & _ & _ & _ & (Hy & Hmo & Hd) & Hy' & Hh & Hmi & Hs & ->)
    %parse_rfc3339_iff.
  assert (days_in_month y mo <= 31) by (unfold days_in_month; repeat case_match; lia).
  rewrite days_from_civil_march by lia. unfold march_days.
  set (y' := if mo <=? 2 then _ else _). assert (-1 <= y' <= 9999) by (subst y'; case_match; lia).
  set (k := if 2 <? mo then _ else _). assert (0 <= k <= 11) by (subst k; case_match; zbool; lia).
  clearbody y' k. zdiv.
Qed.

Lemma micro_usd_range r micro :
  micro_usd_from_rate r = Ok micro -> 0 < micro <= MAX_MICRO_USD_PER_BTC.
Proof.
  unfold micro_usd_from_rate. case_match; [done|]. case_match; [|done].
  repeat (case_match; [done|]). intros [= <-]. zbool. lia.
Qed.

Lemma check_jump_Ok prev new pct :
  0 <= prev <= MAX_MICRO_USD_PER_BTC -> 0 <= new <= MAX_MICRO_USD_PER_BTC -> is_u64 pct ->
  check_jump prev new pct = Ok tt <-> Z.abs (new - prev) * 100 <= prev * pct.
Proof.
  unfold MAX_MICRO_USD_PER_BTC. intros Hp Hn Hpct. unfold is_u64, U64_MAX in Hpct.
  unfold check_jump, abs_diff, saturating_mul_u128.
  assert (prev * pct <= U128_MAX) by (unfold_widths; nia).
  rewrite !Z.min_r by (unfold_widths; lia).
  replace (Z.abs (prev - new)) with (Z.abs (new - prev)) by lia.
  case_match; zbool; split; intros; try done; lia.
Qed.

Lemma parse_feed_range from_json body now max_age price :
  parse_feed from_json body now max_age = Ok price ->
  0 < micro_usd_per_btc price <= MAX_MICRO_USD_PER_BTC.
Proof. intros H. unfold parse_feed in H. run_inv H. ok_facts. by eapply micro_usd_range. Qed.

(** A price that leaves the feed reader is usable: it is the feed's own rate,
    between one micro-dollar and the ceiling that keeps the policy's products
    exact, and its timestamp is within the staleness window on either side of
    the clock. *)
Theorem parse_feed_sound from_json body now max_age price :
  0 <= now <= 2 ^ 62 -> is_u64 max_age ->
  parse_feed from_json body now max_age = Ok price ->
  exists feed quote, from_json body = Ok feed /\ prices feed !! BTC_USD = Some quote /\
    micro_usd_from_rate (rate quote) = Ok (micro_usd_per_btc price) /\
    0 < micro_usd_per_btc price <= MAX_MICRO_USD_PER_BTC /\
    parse_rfc3339_utc (timestamp quote) = Some (timestamp_unix price) /\
    Z.abs (now - timestamp_unix price) <= max_age.
Proof.
  intros Hnow Hage H. unfold parse_feed in H. run_inv H. ok_facts.
  pose proof (micro_usd_range _ _ ltac:(eassumption)).
  pose proof (parse_rfc3339_range _ _ ltac:(eassumption)).
  eexists _, _. split_and!; try eassumption; simpl; try lia.
  assert (forall x, - 2 ^ 63 <= x < 2 ^ 63 -> wrap_i64 x = x) as Hw.
  { intros x Hx. unfold wrap_i64. rewrite Z.mod_small; lia. }
  rewrite Hw in * by lia. unfold try_i64 in *. unfold_widths. zbool.
  destruct (max_age <=? _) eqn:?; simpl in *; zbool; lia.
Qed.

(** The timestamp reader is exact: it accepts a byte string iff it is an
    existing calendar date and time of day in the strict form, optionally with a
    fraction of at least one digit, in UTC; and then it returns the seconds since
    the epoch by the calendar's day count. *)
Theorem parse_rfc3339_exact bytes t :
  parse_rfc3339_utc bytes = Some t <->
  exists y mo d sep h mi s tail,
    bytes = stamp y mo d sep h mi s ++ tail /\ is_sep sep /\ is_zone tail /\
    valid_civil y mo d /\ y <= 9999 /\ 0 <= h <= 23 /\ 0 <= mi <= 59 /\ 0 <= s <= 60 /\
    t = days_from_civil y mo d * 86400 + h * 3600 + mi * 60 + s.
Proof. apply parse_rfc3339_iff. Qed.

(** The fixture of the source's tests, behind a parser that yields it. *)
Definition demo_quote : FeedQuote :=
  mkFeedQuote (binary_normalize 53 1024 311141 (-2) false) (bytes_of "2026-09-01T13:15:33Z").
Definition demo_json (body : string) : result string Feed :=
  if bool_decide (body = "feed"%string) then Ok (mkFeed {[BTC_USD := demo_quote]})
  else Err "EOF while parsing"%string.

Lemma demo_feed : parse_feed demo_json "feed" 1788268538 300 = Ok (mkOraclePrice 77785250000 1788268533).
Proof. vm_compute. reflexivity. Qed.

Lemma parse_feed_sound_witness :
  Z.abs (1788268538 - 1788268533) <= 300.
Proof.
  destruct (parse_feed_sound demo_json "feed" 1788268538 300 (mkOraclePrice 77785250000 1788268533))
    as (feed & quote & _ & _ & _ & _ & _ & H).
  - lia.
  - unfold_widths. lia.
  - apply demo_feed.
  - exact H.
Defined.
