(* ===== verification/KeeperPolicy.v ===== *)
(** * The price keeper's policy

    [bin/amm-price-keeper/src/policy.rs]: the pure decision of one tick, from
    the pool, the oracle price, the balances and the operator's knobs to a hold
    or one swap.  Sizing is a binary search over the settlement curve of
    [AmmMath]; that its 64 rounds end, and end on the largest size that does not
    carry the price past the oracle, is proved from the monotonicity of
    [crosses_target]. *)

From S2P Require Import Prelude FedimintCore AmmMath KeeperOracle.

(** ** Data *)

Definition DECIMAL_GAP : Z := 100000000000.
Definition BPS : Z := 10000.

Record PoolState := mkPoolState {
  unit_lo : AmountUnit;
  unit_hi : AmountUnit;
  reserve_lo : Z;
  reserve_hi : Z;
  fee_per_mille : Z;
}.

Record MinSwapIn := mkMinSwapIn { min_lo : Z; min_hi : Z }.

Record Balances := mkBalances { bal_lo : Z; bal_hi : Z }.

Record KeeperConfig := mkKeeperConfig {
  band_bps : Z;
  max_trade_micro_usd : Z;
  btc_floor_msat : Z;
  usdt_floor_micros : Z;
}.

Inductive Side := SellBtc | BuyBtc.

#[export] Instance Side_eq_dec : EqDecision Side.
Proof. solve_decision. Defined.

Inductive HoldReason :=
| EmptyPool
| ZeroReserve (reserve_lo reserve_hi : Z)
| Unpriceable
| BandBelowFee (band_bps fee_per_mille : Z)
| InBand (dev_bps : Z)
| NoSizeAvailable (dev_bps : Z)
| BelowMinSwapIn (unit_in : AmountUnit) (amount_in min_swap_in : Z)
| OutputRoundsToZero (unit_in : AmountUnit) (amount_in : Z).

Inductive Decision :=
| Hold (reason : HoldReason)
| Trade (unit_in unit_out : AmountUnit) (amount_in : Z).

Definition is_warning (r : HoldReason) : bool :=
  match r with
  | InBand _ | NoSizeAvailable _ => false
  | _ => true
  end.

Record BandTooNarrow := mkBandTooNarrow { narrow_band : Z; narrow_fee : Z }.

(** ** The deadband and the deviation *)

Definition check_band_exceeds_fee (band_bps fee_per_mille : Z) : result BandTooNarrow unit :=
  if band_bps <? fee_per_mille * 10 then Err (mkBandTooNarrow band_bps fee_per_mille)
  else Ok tt.

Definition pool_price_micro_usd (reserve_lo reserve_hi : Z) : option Z :=
  if reserve_lo =? 0 then None
  else Some (u128_mul reserve_hi DECIMAL_GAP / reserve_lo).

Definition dev_bps (reserve_lo reserve_hi oracle_micro : Z) : option Z :=
  oracle_side ← checked_mul_u128 reserve_lo oracle_micro;
  if oracle_side =? 0 then None
  else
    pool_side ← checked_mul_u128 reserve_hi DECIMAL_GAP;
    p ← try_i128 pool_side;
    o ← try_i128 oracle_side;
    Some (Z.quot (saturating_mul_i128 (p - o) BPS) o).

(** ** Sizing *)

(** [(reserve_in, reserve_out)] for a side. *)
Definition reserves_for (side : Side) (pool : PoolState) : Z * Z :=
  match side with
  | SellBtc => (reserve_lo pool, reserve_hi pool)
  | BuyBtc => (reserve_hi pool, reserve_lo pool)
  end.

Definition max_trade_cap (side : Side) (max_trade_micro_usd oracle_micro : Z) : Z :=
  match side with
  | BuyBtc => default U64_MAX (try_u64 max_trade_micro_usd)
  | SellBtc =>
      if oracle_micro =? 0 then 0
      else default U64_MAX
             (try_u64 (saturating_mul_u128 max_trade_micro_usd DECIMAL_GAP / oracle_micro))
  end.

Definition crosses_target (side : Side) (pool : PoolState) (dx oracle_micro : Z) : bool :=
  let '(reserve_in, reserve_out) := reserves_for side pool in
  match amount_out reserve_in reserve_out dx (fee_per_mille pool) with
  | Err CurveError.ZeroAmount | Err CurveError.OutputRoundsToZero => false
  | Err _ => true
  | Ok out =>
      match checked_add_u64 reserve_in dx, checked_sub_u64 reserve_out out with
      | Some reserve_in_new, Some reserve_out_new =>
          let '(lo, hi) :=
            match side with
            | SellBtc => (reserve_in_new, reserve_out_new)
            | BuyBtc => (reserve_out_new, reserve_in_new)
            end in
          match checked_mul_u128 hi DECIMAL_GAP, checked_mul_u128 lo oracle_micro with
          | Some pool_side, Some oracle_side =>
              match side with
              | SellBtc => pool_side <? oracle_side
              | BuyBtc => oracle_side <? pool_side
              end
          | _, _ => true
          end
      | _, _ => true
      end
  end.

(** The [while low <= high] loop; [None] when the fuel runs out first. *)
Fixpoint search (fuel : nat) (crosses : Z -> bool) (low high best : Z) : option Z :=
  match fuel with
  | O => None
  | S fuel =>
      if low <=? high then
        let mid := u64_add low (u64_sub high low / 2) in
        if crosses mid then search fuel crosses low (u64_sub mid 1) best
        else search fuel crosses (u64_add mid 1) high mid
      else Some best
  end.

(** One round per bit of the range, and the round that sees it empty. *)
Definition SEARCH_FUEL : nat := 65.

Definition largest_non_crossing (side : Side) (pool : PoolState) (oracle_micro : Z) : option Z :=
  let '(reserve_in, _) := reserves_for side pool in
  search SEARCH_FUEL (fun dx => crosses_target side pool dx oracle_micro)
    1 (saturating_sub MAX_RESERVE reserve_in) 0.

(** ** The decision *)

(** The sides of a trade: [(unit_in, unit_out)] and [(floor, balance, min_in)]. *)
Definition units_for (side : Side) (pool : PoolState) : AmountUnit * AmountUnit :=
  match side with
  | SellBtc => (unit_lo pool, unit_hi pool)
  | BuyBtc => (unit_hi pool, unit_lo pool)
  end.

Definition limits_for (side : Side) (min_swap_in : MinSwapIn) (balances : Balances)
    (cfg : KeeperConfig) : Z * Z * Z :=
  match side with
  | SellBtc => (btc_floor_msat cfg, bal_lo balances, min_lo min_swap_in)
  | BuyBtc => (usdt_floor_micros cfg, bal_hi balances, min_hi min_swap_in)
  end.

(** The direction rule: [None] inside the deadband. *)
Definition side_of (deviation band : Z) : option Side :=
  if band <? deviation then Some SellBtc
  else if deviation <? - band then Some BuyBtc
  else None.

(** The clamps and the two final checks on the size the search found. *)
Definition clamp_trade (side : Side) (pool : PoolState) (min_swap_in : MinSwapIn)
    (oracle_micro : Z) (balances : Balances) (cfg : KeeperConfig) (size : Z) : Decision :=
  let '(unit_in, unit_out) := units_for side pool in
  let '(reserve_in, reserve_out) := reserves_for side pool in
  let '(floor, balance, min_in) := limits_for side min_swap_in balances cfg in
  let amount_in := Z.min size (max_trade_cap side (max_trade_micro_usd cfg) oracle_micro) in
  let amount_in := Z.min amount_in (saturating_sub balance floor) in
  if amount_in <? min_in then Hold (BelowMinSwapIn unit_in amount_in min_in)
  else if negb (is_ok (amount_out reserve_in reserve_out amount_in (fee_per_mille pool)))
  then Hold (OutputRoundsToZero unit_in amount_in)
  else Trade unit_in unit_out amount_in.

Definition decide (pool : PoolState) (min_swap_in : MinSwapIn) (oracle_micro : Z)
    (balances : Balances) (cfg : KeeperConfig) : Decision :=
  if (reserve_lo pool =? 0) && (reserve_hi pool =? 0) then Hold EmptyPool
  else if (reserve_lo pool =? 0) || (reserve_hi pool =? 0)
  then Hold (ZeroReserve (reserve_lo pool) (reserve_hi pool))
  else
    match check_band_exceeds_fee (band_bps cfg) (fee_per_mille pool) with
    | Err e => Hold (BandBelowFee (narrow_band e) (narrow_fee e))
    | Ok _ =>
        match dev_bps (reserve_lo pool) (reserve_hi pool) oracle_micro with
        | None => Hold Unpriceable
        | Some deviation =>
            match side_of deviation (band_bps cfg) with
            | None => Hold (InBand deviation)
            | Some side =>
                let size := default 0 (largest_non_crossing side pool oracle_micro) in
                if size =? 0 then Hold (NoSizeAvailable deviation)
                else clamp_trade side pool min_swap_in oracle_micro balances cfg size
            end
        end
    end.

(** The reserves a trade would leave behind. *)
Definition apply_trade (pool : PoolState) (unit_in : AmountUnit) (amount_in : Z)
    : option (Z * Z) :=
  side ← (if bool_decide (unit_in = unit_lo pool) then Some SellBtc
          else if bool_decide (unit_in = unit_hi pool) then Some BuyBtc
          else None);
  let '(reserve_in, reserve_out) := reserves_for side pool in
  match amount_out reserve_in reserve_out amount_in (fee_per_mille pool) with
  | Err _ => None
  | Ok out =>
      reserve_in_new ← checked_add_u64 reserve_in amount_in;
      reserve_out_new ← checked_sub_u64 reserve_out out;
      Some (match side with
            | SellBtc => (reserve_in_new, reserve_out_new)
            | BuyBtc => (reserve_out_new, reserve_in_new)
            end)
  end.

(** The vectors of the source's tests. *)
Example dev_bps_vectors :
  (dev_bps 1000000000 1000000000 100000000000, dev_bps 1000000000 1000000000 101000000000,
   dev_bps 1000000000 1000000000 99000000000, dev_bps 0 1000000000 100000000000)
  = (Some 0, Some (-99), Some 101, None).
Proof. vm_compute. reflexivity. Qed.

(** ** The binary search *)

Section search.
Context (f : Z -> bool) (H : Z).
Hypothesis f_mono : forall x y, 1 <= x -> x <= y -> y <= H -> f x = true -> f y = true.
Hypothesis H_range : 0 <= H < 2 ^ 64 - 1.

(** Everything below [low] passes, everything above [high] crosses. *)
Definition bracketed (low high best : Z) : Prop :=
  1 <= low /\ low <= high + 1 /\ high <= H /\ best = low - 1 /\
  (forall x, 1 <= x < low -> f x = false) /\ (forall x, high < x <= H -> f x = true).

Definition greatest_passing (b : Z) : Prop :=
  0 <= b <= H /\ (forall x, 1 <= x <= b -> f x = false) /\
  (forall x, b < x <= H -> f x = true).

Lemma search_step low high best :
  bracketed low high best -> low <= high ->
  let mid := u64_add low (u64_sub high low / 2) in
  mid = low + (high - low) / 2 /\ low <= mid <= high /\
  u64_sub mid 1 = mid - 1 /\ u64_add mid 1 = mid + 1 /\
  if f mid then bracketed low (mid - 1) best else bracketed (mid + 1) high mid.
Proof.
  intros (? & ? & ? & -> & Hlo & Hhi) Hle mid. unfold_widths.
  assert (mid = low + (high - low) / 2) as Em.
  { subst mid. rewrite u64_sub_id by (unfold_widths; lia).
    apply wrap64_id. unfold_widths. zdiv. }
  assert (low <= mid <= high) by (rewrite Em; zdiv). rewrite Em in *. clear mid Em.
  set (mid := low + (high - low) / 2) in *. split_and!; [done|lia..| | |].
  - unfold u64_sub. apply wrap64_id. unfold_widths. lia.
  - unfold u64_add. apply wrap64_id. unfold_widths. lia.
  - destruct (f mid) eqn:E; unfold bracketed; split_and!; try done; try lia.
    + intros x Hx. destruct (Z_lt_le_dec high x); [apply Hhi; lia|].
      apply (f_mono mid); [lia..|done].
    + intros x Hx. destruct (Z_lt_le_dec x low); [apply Hlo; lia|].
      destruct (f x) eqn:Ex; [|done]. assert (f mid = true); [|congruence].
      apply (f_mono x); [lia..|done].
Qed.

Lemma search_spec fuel low high best :
  bracketed low high best -> high - low + 1 < 2 ^ Z.of_nat fuel ->
  exists b, search (S fuel) f low high best = Some b /\ greatest_passing b.
Proof.
  revert low high best. induction fuel as [|fuel IH]; intros low high best B Hf;
    pose proof B as (? & ? & ? & -> & Hlo & Hhi).
  - cbn [search]. rewrite (proj2 (Z.leb_gt low high)) by lia. exists (low - 1). split; [done|].
    split_and!; [lia..| |]; intros; [apply Hlo|apply Hhi]; lia.
  - remember (S fuel) as k eqn:Ek. cbn [search]. subst k.
    destruct (Z.leb_spec low high) as [Hle|].
    + rewrite Nat2Z.inj_succ, Z.pow_succ_r in Hf by lia.
      destruct (search_step _ _ _ B Hle) as (Em & Hm & E1 & E2 & B').
      cbv zeta. set (mid := u64_add _ _) in *. clearbody mid.
      destruct (f mid); rewrite ?E1, ?E2; apply IH; try done; subst mid; zdiv.
    + exists (low - 1). split; [done|].
      split_and!; [lia..| |]; intros; [apply Hlo|apply Hhi]; lia.
Qed.

Lemma search_greatest :
  exists b, search SEARCH_FUEL f 1 H 0 = Some b /\ greatest_passing b.
Proof.
  apply search_spec; [|change (Z.of_nat 64) with 64; lia].
  unfold bracketed. split_and!; try lia; intros; lia.
Qed.
End search.

(** ** The predicate the search runs on *)

Lemma amount_out_exact_mono ri ro a b fee :
  swap_admissible ri ro a fee -> swap_admissible ri ro b fee -> a <= b ->
  amount_out_exact ri ro a fee <= amount_out_exact ri ro b fee.
Proof.
  unfold swap_admissible, amount_out_exact. rewrite MAX_RESERVE_val. intros Ha Hb Hab.
  apply div_le_iff; [nia|].
  pose proof (Z.mul_div_le (a * (1000 - fee) * ro) (ri * 1000 + a * (1000 - fee)) ltac:(nia)) as E.
  set (d := _ / _) in *.
  assert (0 <= d < ro) as Hd.
  { pose proof (amount_out_exact_lt ri ro a fee) as B. unfold amount_out_exact in B.
    apply B. unfold swap_admissible. rewrite MAX_RESERVE_val. lia. }
  assert (0 <= (b - a) * (1000 - fee)) by (apply Z.mul_nonneg_nonneg; lia).
  assert (0 <= (b - a) * (1000 - fee) * (ro - d)) by (apply Z.mul_nonneg_nonneg; lia). lia.
Qed.

(** The prices [crate::oracle] lets through, and reserves the pool can hold. *)
Definition plausible (pool : PoolState) (oracle_micro : Z) : Prop :=
  is_u64 (reserve_lo pool) /\ is_u64 (reserve_hi pool) /\ is_u16 (fee_per_mille pool) /\
  0 < oracle_micro <= MAX_MICRO_USD_PER_BTC.

(** Where the pool stands against the oracle: positive when it overvalues BTC. *)
Definition excess (lo hi oracle_micro : Z) : Z := hi * DECIMAL_GAP - lo * oracle_micro.

(** Negative once a trade on [side] has gone past the oracle. *)
Definition room (side : Side) (lo hi oracle_micro : Z) : Z :=
  match side with
  | SellBtc => excess lo hi oracle_micro
  | BuyBtc => - excess lo hi oracle_micro
  end.

(** The reserves after an input [dx] on [side] that gives out [dy]. *)
Definition after (side : Side) (pool : PoolState) (dx dy : Z) : Z * Z :=
  match side with
  | SellBtc => (reserve_lo pool + dx, reserve_hi pool - dy)
  | BuyBtc => (reserve_lo pool - dy, reserve_hi pool + dx)
  end.

Section crossing.
Context (side : Side) (pool : PoolState) (oracle_micro : Z).
Hypothesis ok : plausible pool oracle_micro.

Let ri : Z := (reserves_for side pool).1.
Let ro : Z := (reserves_for side pool).2.
Let fee : Z := fee_per_mille pool.

Lemma reserves_u64 : is_u64 ri /\ is_u64 ro.
Proof. subst ri ro. unfold plausible in ok. destruct side; simpl; tauto. Qed.

(** Inside the curve's domain the predicate is the sign of [room]. *)
Lemma crosses_admissible dx :
  swap_admissible ri ro dx fee ->
  crosses_target side pool dx oracle_micro =
    (0 <? amount_out_exact ri ro dx fee) &&
    (let '(lo, hi) := after side pool dx (amount_out_exact ri ro dx fee) in
     room side lo hi oracle_micro <? 0).
Proof.
  intros adm. pose proof (amount_out_exact_lt _ _ _ _ adm) as Hlt.
  unfold crosses_target. rewrite (surjective_pairing (reserves_for side pool)).
  fold ri ro fee. rewrite amount_out_run by done.
  set (out := amount_out_exact ri ro dx fee) in *.
  destruct (Z.eqb_spec out 0) as [->|]; [done|].
  rewrite (proj2 (Z.ltb_lt 0 out)) by lia.
  unfold swap_admissible in adm. rewrite MAX_RESERVE_val in adm.
  destruct ok as (_ & _ & _ & Hp). unfold MAX_MICRO_USD_PER_BTC in Hp.
  rewrite (proj2 (checked_add_u64_Some ri dx (ri + dx))) by (unfold_widths; lia).
  rewrite (proj2 (checked_sub_u64_Some ro out (ro - out))) by lia.
  subst ri ro. destruct side; simpl in *; unfold DECIMAL_GAP, excess, room in *.
  - rewrite !(proj2 (checked_mul_u128_Some _ _ _)) by (split; [reflexivity|unfold_widths; nia]).
    destruct (Z.ltb_spec ((reserve_hi pool - out) * 100000000000) ((reserve_lo pool + dx) * oracle_micro));
      symmetry; [apply Z.ltb_lt|apply Z.ltb_ge]; unfold DECIMAL_GAP; lia.
  - rewrite !(proj2 (checked_mul_u128_Some _ _ _)) by (split; [reflexivity|unfold_widths; nia]).
    destruct (Z.ltb_spec ((reserve_lo pool - out) * oracle_micro) ((reserve_hi pool + dx) * 100000000000));
      symmetry; [apply Z.ltb_lt|apply Z.ltb_ge]; unfold DECIMAL_GAP; lia.
Qed.

(** Outside it every positive size crosses. *)
Lemma crosses_inadmissible dx :
  0 < dx -> ~ swap_admissible ri ro dx fee -> crosses_target side pool dx oracle_micro = true.
Proof.
  intros Hdx Hn. pose proof reserves_u64 as [Hri Hro].
  destruct ok as (_ & _ & Hfee & _). fold fee in Hfee.
  unfold crosses_target. rewrite (surjective_pairing (reserves_for side pool)). fold ri ro fee.
  assert (amount_out ri ro dx fee <> Err CurveError.ZeroAmount) as Hz.
  { unfold amount_out. rewrite (proj2 (Z.eqb_neq dx 0)) by lia. repeat case_match; try done.
    by unfold ok_or; case_match. }
  destruct (amount_out_guards ri ro dx fee) as (e & E & He); [unfold_widths; lia..|done|].
  rewrite E in Hz |- *. destruct e; try done; set_solver.
Qed.

Lemma crosses_mono x y :
  1 <= x -> x <= y -> y <= saturating_sub MAX_RESERVE ri ->
  crosses_target side pool x oracle_micro = true ->
  crosses_target side pool y oracle_micro = true.
Proof.
  intros Hx Hxy Hy E. pose proof reserves_u64 as [Hri Hro]. unfold saturating_sub in Hy.
  destruct (swap_admissible_dec ri ro y fee) as [ay|ny];
    [|apply crosses_inadmissible; [lia|done]].
  assert (swap_admissible ri ro x fee) as ax by (unfold swap_admissible in *; lia).
  rewrite crosses_admissible in E |- * by done.
  pose proof (amount_out_exact_mono ri ro x y fee ax ay Hxy).
  unfold fee in *. destruct ok as (_ & _ & _ & Hp).
  apply andb_true_iff in E as [E1 E2]. apply andb_true_iff. zbool.
  destruct side; simpl in *; zbool; split; apply Z.ltb_lt; try lia;
    unfold room, excess, DECIMAL_GAP in *; nia.
Qed.

Lemma largest_greatest :
  exists b, largest_non_crossing side pool oracle_micro = Some b /\
    greatest_passing (fun dx => crosses_target side pool dx oracle_micro)
      (saturating_sub MAX_RESERVE ri) b.
Proof.
  unfold largest_non_crossing. rewrite (surjective_pairing (reserves_for side pool)). fold ri.
  apply search_greatest; [apply crosses_mono|].
  pose proof reserves_u64 as [Hri _]. unfold saturating_sub. rewrite MAX_RESERVE_val.
  unfold_widths. lia.
Qed.
End crossing.

(** ** The decision *)

Lemma dev_bps_run pool oracle_micro :
  plausible pool oracle_micro -> 0 < reserve_lo pool ->
  dev_bps (reserve_lo pool) (reserve_hi pool) oracle_micro =
    Some (Z.quot (saturating_mul_i128
                    (excess (reserve_lo pool) (reserve_hi pool) oracle_micro) BPS)
            (reserve_lo pool * oracle_micro)).
Proof.
  intros (Hlo & Hhi & _ & Hp) Hpos. unfold MAX_MICRO_USD_PER_BTC in Hp. unfold dev_bps, DECIMAL_GAP.
  rewrite (proj2 (checked_mul_u128_Some _ oracle_micro _)) by (split; [reflexivity|unfold_widths; nia]).
  simpl. rewrite (proj2 (Z.eqb_neq _ 0)) by nia.
  rewrite (proj2 (checked_mul_u128_Some _ _ _)) by (split; [reflexivity|unfold_widths; lia]).
  simpl. rewrite !(proj2 (try_i128_Some _ _)) by (split; [reflexivity|unfold_widths; nia]). done.
Qed.

Lemma side_room pool oracle_micro d band side :
  plausible pool oracle_micro -> 0 < reserve_lo pool -> 0 <= band ->
  dev_bps (reserve_lo pool) (reserve_hi pool) oracle_micro = Some d ->
  side_of d band = Some side ->
  0 < room side (reserve_lo pool) (reserve_hi pool) oracle_micro.
Proof.
  intros ok Hlo Hb Hd Hs. rewrite dev_bps_run in Hd by done. injection Hd as <-.
  destruct ok as (_ & _ & _ & Hp).
  set (e := excess _ _ _) in *. assert (0 < reserve_lo pool * oracle_micro) by nia.
  set (o := _ * oracle_micro) in *. unfold side_of in Hs. repeat case_match; simplify_eq; zbool; simpl; fold e.
  - destruct (Z_lt_le_dec 0 e); [done|]. exfalso.
    assert (saturating_mul_i128 e BPS <= 0) by (unfold saturating_mul_i128, BPS; unfold_widths; lia).
    assert (Z.quot (saturating_mul_i128 e BPS) o <= 0); [|lia].
    rewrite <- (Z.opp_involutive (saturating_mul_i128 e BPS)), Z.quot_opp_l by lia.
    pose proof (Z.quot_pos (- saturating_mul_i128 e BPS) o). lia.
  - destruct (Z_lt_le_dec e 0); [lia|]. exfalso.
    assert (0 <= saturating_mul_i128 e BPS) by (unfold saturating_mul_i128, BPS; unfold_widths; lia).
    pose proof (Z.quot_pos (saturating_mul_i128 e BPS) o). lia.
Qed.

(** What a [Trade] decision says about the branch that produced it. *)
Record trade_facts (pool : PoolState) (min_swap_in : MinSwapIn) (oracle_micro : Z)
    (balances : Balances) (cfg : KeeperConfig) (side : Side) (amount_in dev dy size : Z) : Prop := {
  tf_dev : dev_bps (reserve_lo pool) (reserve_hi pool) oracle_micro = Some dev;
  tf_side : side_of dev (band_bps cfg) = Some side;
  tf_reserves : 0 < reserve_lo pool /\ 0 < reserve_hi pool;
  tf_band : fee_per_mille pool * 10 <= band_bps cfg;
  tf_size : largest_non_crossing side pool oracle_micro = Some size;
  tf_out : amount_out (reserves_for side pool).1 (reserves_for side pool).2 amount_in
             (fee_per_mille pool) = Ok dy;
  tf_min : (limits_for side min_swap_in balances cfg).2 <= amount_in;
  tf_amount : amount_in =
    Z.min (Z.min size (max_trade_cap side (max_trade_micro_usd cfg) oracle_micro))
      (saturating_sub (limits_for side min_swap_in balances cfg).1.2
                      (limits_for side min_swap_in balances cfg).1.1);
}.

Lemma decide_trade pool min_swap_in oracle_micro balances cfg ui uo a :
  plausible pool oracle_micro ->
  decide pool min_swap_in oracle_micro balances cfg = Trade ui uo a ->
  exists side dev dy size, (ui, uo) = units_for side pool /\
    trade_facts pool min_swap_in oracle_micro balances cfg side a dev dy size.
Proof.
  intros ok H. unfold decide, check_band_exceeds_fee in H.
  destruct (reserve_lo pool =? 0) eqn:E1; [by case_match|].
  destruct (reserve_hi pool =? 0) eqn:E2; [done|]. simpl in H.
  destruct (band_bps cfg <? fee_per_mille pool * 10) eqn:E3; [done|].
  destruct (dev_bps _ _ _) as [dev|] eqn:Ed; [|done].
  destruct (side_of dev (band_bps cfg)) as [side|] eqn:Es; [|done].
  destruct (largest_greatest side pool oracle_micro ok) as (size & El & _).
  rewrite El in H. simpl in H. destruct (size =? 0) eqn:E0; [done|].
  unfold clamp_trade in H.
  destruct (units_for side pool) as [u1 u2] eqn:Eu.
  destruct (reserves_for side pool) as [r1 r2] eqn:Er.
  destruct (limits_for side min_swap_in balances cfg) as [[fl bal] mi] eqn:Elim.
  destruct (_ <? mi) eqn:Emin in H; [done|].
  destruct (amount_out r1 r2 _ _) as [dy|] eqn:Eo in H; [|done]. simpl in H.
  injection H as <- <- <-. exists side, dev, dy, size. split; [done|].
  destruct ok as (? & ? & _). unfold_widths. zbool.
  by split; rewrite ?Er, ?Elim; simpl; try lia.
Qed.

Definition cfg_ok (cfg : KeeperConfig) : Prop :=
  is_u64 (band_bps cfg) /\ is_u128 (max_trade_micro_usd cfg) /\
  is_u64 (btc_floor_msat cfg) /\ is_u64 (usdt_floor_micros cfg).

Lemma max_trade_cap_value side m p :
  is_u128 m -> 0 < p -> 0 <= max_trade_cap side m p /\
  match side with
  | SellBtc => max_trade_cap side m p * p <= m * DECIMAL_GAP
  | BuyBtc => max_trade_cap side m p <= m
  end.
Proof.
  intros Hm Hp. unfold is_u128 in Hm. destruct side; unfold max_trade_cap.
  - rewrite (proj2 (Z.eqb_neq p 0)) by lia. unfold saturating_mul_u128.
    set (n := Z.min _ _). assert (0 <= n <= m * DECIMAL_GAP) by (unfold n, DECIMAL_GAP; unfold_widths; lia).
    pose proof (Z.mul_div_le n p ltac:(lia)). pose proof (Z.div_pos n p ltac:(lia) ltac:(lia)).
    unfold try_u64. case_match; simpl; zbool; [lia|]. unfold_widths. split; [lia|]. nia.
  - unfold try_u64. case_match; simpl; zbool; unfold_widths; lia.
Qed.

Section trade.
Context (pool : PoolState) (min_swap_in : MinSwapIn) (oracle_micro : Z).
Context (balances : Balances) (cfg : KeeperConfig) (side : Side) (a dev dy size : Z).
Hypothesis (ok : plausible pool oracle_micro) (Hcfg : cfg_ok cfg).
Hypothesis T : trade_facts pool min_swap_in oracle_micro balances cfg side a dev dy size.

Let ri : Z := (reserves_for side pool).1.
Let ro : Z := (reserves_for side pool).2.

Lemma trade_size : 1 <= a <= size /\
  greatest_passing (fun dx => crosses_target side pool dx oracle_micro)
    (saturating_sub MAX_RESERVE ri) size.
Proof.
  destruct (largest_greatest side pool oracle_micro ok) as (b & El & B).
  rewrite (tf_size _ _ _ _ _ _ _ _ _ _ T) in El. injection El as <-. split; [|done].
  destruct B as (? & _), Hcfg as (_ & Hm & _), ok as (_ & _ & _ & Hp).
  pose proof (max_trade_cap_value side _ oracle_micro Hm ltac:(lia)) as [? _].
  pose proof (tf_amount _ _ _ _ _ _ _ _ _ _ T) as Ea.
  pose proof (tf_out _ _ _ _ _ _ _ _ _ _ T) as Eo. unfold saturating_sub in Ea.
  destruct (Z.eq_dec a 0) as [->|]; [|lia]. unfold amount_out in Eo; done.
Qed.

Lemma trade_curve :
  swap_admissible ri ro a (fee_per_mille pool) /\
  dy = amount_out_exact ri ro a (fee_per_mille pool) /\ 0 < dy < ro.
Proof.
  pose proof (reserves_u64 side pool oracle_micro ok) as [Hri Hro].
  pose proof ok as (_ & _ & Hfee & _). pose proof trade_size as [? _].
  pose proof (tf_out _ _ _ _ _ _ _ _ _ _ T) as Eo.
  apply amount_out_Ok in Eo as (adm & -> & ?); try (subst ri ro; unfold_widths; lia).
  split; [done|]. split; [done|].
  pose proof (amount_out_exact_lt _ _ _ _ adm). subst ri ro. lia.
Qed.

(** The price ends between where it was and the oracle. *)
Lemma trade_room :
  let '(lo, hi) := after side pool a dy in
  0 < lo /\ 0 < hi /\
  0 <= room side lo hi oracle_micro < room side (reserve_lo pool) (reserve_hi pool) oracle_micro.
Proof.
  destruct trade_curve as (adm & Ey & Hy), trade_size as [Ha (_ & Hpass & _)].
  specialize (Hpass a ltac:(lia)). rewrite crosses_admissible in Hpass by done.
  fold ri ro in Hpass. rewrite <- Ey in Hpass. rewrite (proj2 (Z.ltb_lt 0 dy)) in Hpass by lia.
  destruct (tf_reserves _ _ _ _ _ _ _ _ _ _ T), ok as (_ & _ & _ & Hp).
  subst ri ro. destruct side; simpl in *; zbool; unfold room, excess, DECIMAL_GAP in *; nia.
Qed.
End trade.

(** ** Properties *)

(** C38: the sizing search always ends within its fuel, and on the largest size:
    every size up to the result keeps the pool's price on its side of the oracle
    and every larger executable size carries it past. *)
Theorem sizing_ends_maximal side pool oracle_micro :
  plausible pool oracle_micro ->
  exists b, largest_non_crossing side pool oracle_micro = Some b /\
    0 <= b <= saturating_sub MAX_RESERVE (reserves_for side pool).1 /\
    (forall dx, 1 <= dx <= b -> crosses_target side pool dx oracle_micro = false) /\
    (forall dx, b < dx <= saturating_sub MAX_RESERVE (reserves_for side pool).1 ->
       crosses_target side pool dx oracle_micro = true).
Proof. intros ok. exact (largest_greatest side pool oracle_micro ok). Qed.

Definition demo_pool : PoolState := mkPoolState 0 1 1000000000 1000000000 3.
Definition demo_oracle : Z := 99000000000.
Definition demo_cfg : KeeperConfig := mkKeeperConfig 50 25000000 1000000 1000000.

Lemma demo_plausible : plausible demo_pool demo_oracle.
Proof. unfold plausible, demo_oracle, MAX_MICRO_USD_PER_BTC. simpl. unfold_widths. lia. Qed.

Lemma demo_cfg_ok : cfg_ok demo_cfg.
Proof. unfold cfg_ok. simpl. unfold_widths. lia. Qed.

Lemma sizing_ends_maximal_witness :
  exists b, largest_non_crossing SellBtc demo_pool demo_oracle = Some b /\
    crosses_target SellBtc demo_pool b demo_oracle = false.
Proof.
  destruct (sizing_ends_maximal SellBtc demo_pool demo_oracle demo_plausible)
    as (b & E & _ & Hb & _).
  exists b. split; [done|]. apply Hb.
  vm_compute in E. injection E as <-. lia.
Defined.

(** Where a trade leaves the pool: closer to the oracle, on the same side of it. *)
Definition toward_oracle (pool : PoolState) (oracle_micro : Z) (ui uo : AmountUnit) (lo hi : Z) : Prop :=
  (ui = unit_lo pool /\ uo = unit_hi pool /\
   reserve_lo pool * oracle_micro < reserve_hi pool * DECIMAL_GAP /\
   lo * oracle_micro <= hi * DECIMAL_GAP /\
   hi * reserve_lo pool < reserve_hi pool * lo) \/
  (ui = unit_hi pool /\ uo = unit_lo pool /\
   reserve_hi pool * DECIMAL_GAP < reserve_lo pool * oracle_micro /\
   hi * DECIMAL_GAP <= lo * oracle_micro /\
   reserve_hi pool * lo < hi * reserve_lo pool).

(** What a decided trade does on the curve. *)
Lemma trade_outcome pool min_swap_in oracle_micro balances cfg ui uo a :
  plausible pool oracle_micro -> cfg_ok cfg ->
  decide pool min_swap_in oracle_micro balances cfg = Trade ui uo a ->
  exists side dy, (ui, uo) = units_for side pool /\
    (limits_for side min_swap_in balances cfg).2 <= a /\
    amount_out (reserves_for side pool).1 (reserves_for side pool).2 a (fee_per_mille pool) = Ok dy /\
    1 <= a /\ (reserves_for side pool).1 + a <= MAX_RESERVE /\ 0 < dy < (reserves_for side pool).2 /\
    toward_oracle pool oracle_micro ui uo (after side pool a dy).1 (after side pool a dy).2.
Proof.
  intros ok Hcfg H. destruct (decide_trade _ _ _ _ _ _ _ _ ok H) as (side & dev & dy & size & Eu & T).
  pose proof (trade_curve _ _ _ _ _ _ _ _ _ _ ok Hcfg T) as (adm & _ & Hy).
  pose proof (trade_size _ _ _ _ _ _ _ _ _ _ ok Hcfg T) as [Ha (Hb & _)].
  pose proof (trade_room _ _ _ _ _ _ _ _ _ _ ok Hcfg T) as Hr.
  pose proof (tf_reserves _ _ _ _ _ _ _ _ _ _ T) as Hpos.
  exists side, dy. split; [done|]. split; [apply T|]. split; [apply T|]. split; [lia|].
  unfold saturating_sub in Hb. split; [lia|]. split; [exact Hy|].
  unfold swap_admissible in adm. rewrite MAX_RESERVE_val in adm. unfold toward_oracle.
  destruct side; simpl in *; injection Eu as -> ->; unfold excess in Hr;
    [left|right]; split_and!; try done; nia.
Qed.

(** A trade the policy decides on pushes the pool's price towards the oracle
    and never past it: it starts strictly on one side of the oracle, the curve
    accepts it, the price after it is strictly closer, and still on that side. *)
Theorem trade_moves_toward_oracle pool min_swap_in oracle_micro balances cfg ui uo a :
  plausible pool oracle_micro -> cfg_ok cfg -> unit_lo pool <> unit_hi pool ->
  decide pool min_swap_in oracle_micro balances cfg = Trade ui uo a ->
  exists lo hi, apply_trade pool ui a = Some (lo, hi) /\ toward_oracle pool oracle_micro ui uo lo hi.
Proof.
  intros ok Hcfg Hu H.
  destruct (trade_outcome _ _ _ _ _ _ _ _ ok Hcfg H) as (side & dy & Eu & _ & Eo & Ha & Hcap & Hy & Ht).
  rewrite MAX_RESERVE_val in Hcap. destruct ok as (? & ? & _).
  exists (after side pool a dy).1, (after side pool a dy).2. split; [|done]. unfold apply_trade.
  destruct side; simpl in *; injection Eu as -> ->.
  - rewrite bool_decide_true by done. simpl. rewrite Eo. simpl.
    rewrite (proj2 (checked_add_u64_Some _ _ _)) by (split; [reflexivity|unfold_widths; lia]).
    simpl. by rewrite (proj2 (checked_sub_u64_Some _ _ _)) by (split; [reflexivity|lia]).
  - rewrite bool_decide_false by done. rewrite bool_decide_true by done. simpl. rewrite Eo. simpl.
    rewrite (proj2 (checked_add_u64_Some _ _ _)) by (split; [reflexivity|unfold_widths; lia]).
    simpl. by rewrite (proj2 (checked_sub_u64_Some _ _ _)) by (split; [reflexivity|lia]).
Qed.

Lemma trade_moves_toward_oracle_witness :
  exists lo hi, apply_trade demo_pool 0 4000000 = Some (lo, hi) /\ lo * demo_oracle <= hi * DECIMAL_GAP.
Proof.
  destruct (trade_moves_toward_oracle demo_pool (mkMinSwapIn 1000 1000) demo_oracle
    (mkBalances 5000000 5000000) demo_cfg 0 1 4000000) as (lo & hi & E & [F|F]).
  - apply demo_plausible.
  - apply demo_cfg_ok.
  - done.
  - vm_compute. reflexivity.
  - exists lo, hi. split; [done|]. apply F.
  - exists lo, hi. split; [done|]. destruct F. done.
Defined.

(** The operator's limits: a trade leaves at least the inventory floor of the
    unit it spends, is worth at most the per-tick cap at the oracle price, is not
    dust for the module, happens only outside a deadband at least as wide as the
    pool's fee, and is the largest size for which all of this holds. *)
Theorem trade_within_limits pool min_swap_in oracle_micro balances cfg ui uo a :
  plausible pool oracle_micro -> cfg_ok cfg ->
  decide pool min_swap_in oracle_micro balances cfg = Trade ui uo a ->
  exists side dev, (ui, uo) = units_for side pool /\
    dev_bps (reserve_lo pool) (reserve_hi pool) oracle_micro = Some dev /\
    side_of dev (band_bps cfg) = Some side /\ fee_per_mille pool * 10 <= band_bps cfg /\
    let '(floor, balance, min_in) := limits_for side min_swap_in balances cfg in
    1 <= a /\ min_in <= a /\ floor + a <= balance /\
    match side with
    | SellBtc => a * oracle_micro <= max_trade_micro_usd cfg * DECIMAL_GAP
    | BuyBtc => a <= max_trade_micro_usd cfg
    end /\
    (forall a', a < a' -> floor + a' <= balance ->
       a' <= max_trade_cap side (max_trade_micro_usd cfg) oracle_micro ->
       a' <= saturating_sub MAX_RESERVE (reserves_for side pool).1 ->
       crosses_target side pool a' oracle_micro = true).
Proof.
  intros ok Hcfg H. destruct (decide_trade _ _ _ _ _ _ _ _ ok H) as (side & dev & dy & size & Eu & T).
  exists side, dev. pose proof (trade_size _ _ _ _ _ _ _ _ _ _ ok Hcfg T) as [Ha (_ & _ & Hgt)].
  pose proof Hcfg as (_ & Hm & _). pose proof ok as (_ & _ & _ & Hp).
  pose proof (max_trade_cap_value side _ oracle_micro Hm ltac:(lia)) as [? Hv].
  destruct T as [Hd Hs _ Hb _ _ Hmin Ea].
  destruct (limits_for side min_swap_in balances cfg) as [[floor balance] min_in].
  unfold saturating_sub in Ea. simpl in *. split_and!; try done; try lia.
  - destruct side; nia.
  - intros a' ? ? ? ?. apply Hgt. lia.
Qed.

Lemma trade_within_limits_witness : 1000000 + 4000000 <= 5000000.
Proof.
  destruct (trade_within_limits demo_pool (mkMinSwapIn 1000 1000) demo_oracle
    (mkBalances 5000000 5000000) demo_cfg 0 1 4000000) as ([] & dev & Eu & _ & _ & _ & F).
  - apply demo_plausible.
  - apply demo_cfg_ok.
  - vm_compute. reflexivity.
  - simpl in F. apply F.
  - done.
Defined.

(** The operator's band may equal the fee it is documented to exceed. *)
Lemma band_equal_to_fee_passes fee : check_band_exceeds_fee (fee * 10) fee = Ok tt.
Proof. unfold check_band_exceeds_fee. by rewrite Z.ltb_irrefl. Qed.
