(* ===== verification/Keeper.v ===== *)
(** * The price keeper's loop

    [bin/amm-price-keeper/src/main.rs] and [exec.rs]: one tick reads the oracle,
    the pool and the balances and places at most one swap; the only state carried
    from tick to tick is the last accepted rate.  Reads are the tick's inputs,
    with the pool table taken from the AMM's own endpoint, so that what a tick
    asks for can be run against the server of [AmmServer].  The operator's flags
    (pool ids, dollar amounts, durations) are parsed here too. *)

From S2P Require Import Prelude FedimintCore AmmMath AmmPoolId AmmConfig AmmTypes AmmServer.
From S2P Require Import AmmInvariant AmmSafety KeeperOracle KeeperPolicy.
From Stdlib Require Import Ascii String.

Open Scope Z_scope.

(** ** State and inputs *)

Record Keeper := mkKeeper {
  keeper_pool : PoolId;
  keeper_min_swap_in : MinSwapIn;
  keeper_cfg : KeeperConfig;
  max_oracle_age_secs : Z;
  max_rate_jump_pct : Z;
  max_slippage_bps : Z;
  last_rate_micro : option Z;
}.

Definition set_last_rate (r : Z) (k : Keeper) : Keeper :=
  mkKeeper (keeper_pool k) (keeper_min_swap_in k) (keeper_cfg k) (max_oracle_age_secs k)
    (max_rate_jump_pct k) (max_slippage_bps k) (Some r).

(** What one tick sees; [None] is a read that failed. *)
Record Reads := mkReads {
  read_body : option string;
  read_now : Z;
  read_pools : option (list PoolSummary);
  read_balances : option Balances;
}.

(** The arguments [exec::execute_swap] passes to [AmmClientModule::swap]. *)
Record SwapRequest := mkSwapRequest {
  req_unit_in : AmountUnit;
  req_unit_out : AmountUnit;
  req_amount_in : Z;
  req_max_slippage_bps : Z;
}.

Section keeper.
Context (from_json : string -> result string Feed).

Definition read_oracle (k : Keeper) (body : option string) (now : Z) : option Z * Keeper :=
  match body with
  | None => (None, k)
  | Some body =>
      match parse_feed from_json body now (max_oracle_age_secs k) with
      | Err _ => (None, k)
      | Ok price =>
          let refused :=
            match last_rate_micro k with
            | Some previous =>
                negb (is_ok (check_jump previous (micro_usd_per_btc price) (max_rate_jump_pct k)))
            | None => false
            end in
          if refused then (None, k)
          else (Some (micro_usd_per_btc price), set_last_rate (micro_usd_per_btc price) k)
      end
  end.

Definition read_pool (k : Keeper) (pools : list PoolSummary) : option PoolState :=
  summary ← find (fun s => bool_decide (sum_pool s = keeper_pool k)) pools;
  Some (mkPoolState (lo (keeper_pool k)) (hi (keeper_pool k))
          (sum_reserve_lo summary) (sum_reserve_hi summary) (sum_fee_per_mille summary)).

Definition tick (k : Keeper) (r : Reads) : option SwapRequest * Keeper :=
  match read_oracle k (read_body r) (read_now r) with
  | (None, k) => (None, k)
  | (Some oracle_micro, k) =>
      (match read_pools r ≫= read_pool k, read_balances r with
       | Some pool_state, Some balances =>
           match decide pool_state (keeper_min_swap_in k) oracle_micro balances (keeper_cfg k) with
           | Trade unit_in unit_out amount_in =>
               Some (mkSwapRequest unit_in unit_out amount_in (max_slippage_bps k))
           | Hold _ => None
           end
       | _, _ => None
       end, k)
  end.

(** The loop, with what each tick asked for. *)
Fixpoint run (k : Keeper) (rs : list Reads) : list (option SwapRequest) * Keeper :=
  match rs with
  | [] => ([], k)
  | r :: rs =>
      let '(q, k) := tick k r in
      let '(qs, k) := run k rs in
      (q :: qs, k)
  end.
End keeper.

Inductive StartError := PoolNotBitcoin | PoolUnreadable | TooNarrow (e : BandTooNarrow).

(** The checks [main] makes before the first tick: the low side is bitcoin, and the
    band covers the fee of the pool, when there is one. *)
Definition start (k : Keeper) (pools : option (list PoolSummary)) : result StartError unit :=
  if negb (lo (keeper_pool k) =? 0) then Err PoolNotBitcoin
  else
    match pools with
    | None => Err PoolUnreadable
    | Some pools =>
        match read_pool k pools with
        | None => Ok tt
        | Some p =>
            map_err TooNarrow (check_band_exceeds_fee (band_bps (keeper_cfg k)) (fee_per_mille p))
        end
    end.

Definition unit_params (config : AmmClientConfig) (unit : AmountUnit) : option Z :=
  min_swap_in <$> client_units config !! unit.

(** The dust minimums [main] reads from the federation's config. *)
Definition resolve_min_swap_in (config : AmmClientConfig) (pool : PoolId) : option MinSwapIn :=
  lo ← unit_params config (lo pool);
  hi ← unit_params config (hi pool);
  Some (mkMinSwapIn lo hi).

(** ** The operator's flags *)

Definition BITCOIN : AmountUnit := 0.

Definition format_pool (p : PoolId) : string :=
  (show_u64 (lo p) ++ String ":" (show_u64 (hi p)))%string.

(** The three refusals of [parse_pool_id], its message strings left out. *)
Definition parse_pool_id (value : string) : option PoolId :=
  '(lo_str, hi_str) ← split_once ":" value;
  lo ← parse_u64 lo_str;
  hi ← parse_u64 hi_str;
  pool ← PoolId_new lo hi;
  if lo <? hi then Some pool else None.

Fixpoint last_char (s : string) : option ascii :=
  match s with
  | EmptyString => None
  | String c EmptyString => Some c
  | String _ s => last_char s
  end.

(** [&value[..value.len() - 1]]. *)
Fixpoint but_last (s : string) : string :=
  match s with
  | EmptyString => EmptyString
  | String c EmptyString => EmptyString
  | String c s => String c (but_last s)
  end.

Definition checked_mul_u64 (a b : Z) : option Z := try_u64 (a * b).

(** In seconds. *)
Definition parse_duration (value : string) : option Z :=
  let '(digits, multiplier) :=
    match last_char value with
    | Some "s"%char => (but_last value, 1)
    | Some "m"%char => (but_last value, 60)
    | Some "h"%char => (but_last value, 3600)
    | _ => (value, 1)
    end in
  amount ← parse_u64 digits;
  checked_mul_u64 amount multiplier.

(** [u128] text: thirty-nine decimal digits are enough. *)
Definition show_u128 (n : Z) : string := show_u64_go 39 n "".

(** [{:06}]. *)
Definition show_06 (n : Z) : string :=
  String (digit_char (n / 100000 mod 10)) (String (digit_char (n / 10000 mod 10))
  (String (digit_char (n / 1000 mod 10)) (String (digit_char (n / 100 mod 10))
  (String (digit_char (n / 10 mod 10)) (String (digit_char (n mod 10)) ""))))).

Definition format_micro_usd (micro : Z) : string :=
  (show_u128 (micro / 1000000) ++ String "." (show_06 (micro mod 1000000)))%string.

Fixpoint all_digits (s : string) : bool :=
  match s with
  | EmptyString => true
  | String c s => is_ascii_digit c && all_digits s
  end.

Definition parse_micro_usd (value : string) : option Z :=
  let '(whole, fraction) := default (value, EmptyString) (split_once "." value) in
  if (String.length whole =? 0)%nat && (String.length fraction =? 0)%nat then None
  else if negb (all_digits whole) || negb (all_digits fraction) then None
  else if (6 <? String.length fraction)%nat then None
  else
    whole ← (if (String.length whole =? 0)%nat then Some 0 else parse_digits U128_MAX 0 whole);
    fraction ← (if (String.length fraction =? 0)%nat then Some 0
                else f ← parse_digits U128_MAX 0 fraction;
                     Some (u128_mul f (10 ^ (6 - Z.of_nat (String.length fraction)))));
    micro ← checked_mul_u128 whole 1000000;
    checked_add_u128 micro fraction.

(** The vectors of the source's tests. *)
Example micro_usd_vectors :
  (map parse_micro_usd ["1"; "12.50"; "12.5"; "0.000001"; ".5"; "0"]%string,
   map parse_micro_usd [""; "."; "-1"; "1.2345678"; "1e6"; "1,5"; "abc"]%string,
   map format_micro_usd [0; 12500000; 77785250000])
  = ([Some 1000000; Some 12500000; Some 12500000; Some 1; Some 500000; Some 0],
     [None; None; None; None; None; None; None],
     ["0.000000"; "12.500000"; "77785.250000"]%string).
Proof. vm_compute. reflexivity. Qed.

Example duration_vectors :
  (map parse_duration ["60"; "60s"; "5m"; "2h"; "0s"]%string,
   map parse_duration [""; "s"; "-1s"; "1.5m"; "1d"; "60 s"]%string)
  = ([Some 60; Some 60; Some 300; Some 7200; Some 0], [None; None; None; None; None; None]).
Proof. vm_compute. reflexivity. Qed.

Example pool_id_vectors :
  (parse_pool_id "0:1", map parse_pool_id ["1:0"; "1:1"; "0"; "0:"; ":1"; "0:1:2"; "a:b"; "-1:1"]%string)
  = (Some (mkPoolId 0 1), [None; None; None; None; None; None; None; None]).
Proof. vm_compute. reflexivity. Qed.

(** ** The flags' text *)

Lemma all_digits_show fuel n acc :
  0 <= n -> all_digits (show_u64_go fuel n acc) = all_digits acc.
Proof.
  revert n acc. induction fuel as [|fuel IH]; intros n acc Hn; [done|]. simpl.
  destruct (n <? 10) eqn:E; zbool; simpl.
  - by rewrite digit_char_digit by lia.
  - pose proof (Z.mod_pos_bound n 10 ltac:(lia)).
    rewrite IH by (apply Z.div_pos; lia). simpl. by rewrite digit_char_digit by lia.
Qed.

Lemma show_u128_head n : is_u128 n -> (String.length (show_u128 n) =? 0)%nat = false.
Proof.
  intros Hn. unfold_widths. destruct (show_go_head 39 n "") as (d & s & E & _); [lia..| |].
  - change (10 ^ Z.of_nat 39) with 1000000000000000000000000000000000000000. lia.
  - unfold show_u128. by rewrite E.
Qed.

Lemma show_06_digits n : 0 <= n < 1000000 ->
  all_digits (show_06 n) = true /\ parse_digits U128_MAX 0 (show_06 n) = Some n.
Proof.
  intros Hn. unfold show_06.
  assert (forall k, 0 <= k mod 10 <= 9) as Hd by (intros; pose proof (Z.mod_pos_bound k 10); lia).
  split; [simpl; by rewrite !digit_char_digit by apply Hd|].
  cbn [parse_digits]. do 6 (rewrite char_digit_char by apply Hd;
    rewrite (proj2 (Z.leb_le _ _)) by (unfold_widths; zdiv)).
  f_equal. zdiv.
Qed.

Lemma parse_format_micro_usd micro :
  is_u128 micro -> parse_micro_usd (format_micro_usd micro) = Some micro.
Proof.
  intros Hm. pose proof (Z.mod_pos_bound micro 1000000 ltac:(lia)) as Hf.
  assert (is_u128 (micro / 1000000)) as Hw by (unfold_widths; zdiv).
  destruct (show_06_digits _ Hf) as [Hd06 Hp06].
  assert (String.length (show_06 (micro mod 1000000)) = 6%nat) as Hlen by done.
  pose proof (show_u128_head _ Hw) as Hhead.
  assert (all_digits (show_u128 (micro / 1000000)) = true) as Hdw
    by (unfold show_u128; rewrite all_digits_show by (unfold_widths; lia); done).
  assert (parse_digits U128_MAX 0 (show_u128 (micro / 1000000)) = Some (micro / 1000000)) as Hpw.
  { unfold show_u128. rewrite parse_show_go; [done| |lia|unfold_widths; lia].
    change (10 ^ Z.of_nat 39) with 1000000000000000000000000000000000000000. unfold_widths. lia. }
  unfold parse_micro_usd, format_micro_usd.
  rewrite split_once_app by (unfold show_u128; rewrite show_go_sep; unfold_widths; auto with lia).
  set (w := show_u128 _) in *. set (f := show_06 _) in *. clearbody w f. simpl.
  rewrite Hhead, Hdw, Hd06, Hlen, Hpw, Hp06. simpl.
  unfold u128_mul. rewrite wrap128_id by (unfold_widths; lia).
  rewrite (proj2 (checked_mul_u128_Some _ _ _)) by (split; [reflexivity|unfold_widths; zdiv]). simpl.
  apply checked_add_u128_Some. rewrite Z.mul_1_r. unfold_widths. zdiv.
Qed.

(** The operator's figures are read exactly: a dollar amount printed with six
    decimals parses back to the same number of micro-dollars, no float in
    between, and a canonical pool id printed as [lo:hi] parses back to it. *)
Theorem flags_round_trip :
  (forall micro, is_u128 micro -> parse_micro_usd (format_micro_usd micro) = Some micro) /\
  (forall p, pool_wf p -> parse_pool_id (format_pool p) = Some p).
Proof.
  split; [exact parse_format_micro_usd|].
  intros [l h] (Hc & Hl & Hh). unfold canonical in Hc. simpl in *.
  unfold parse_pool_id, format_pool. cbn [lo hi].
  destruct (split_pool_string l h Hl Hh) as [-> _]. cbn -[show_u64 parse_u64].
  rewrite parse_show_u64 by done. cbn -[show_u64 parse_u64]. rewrite parse_show_u64 by done. simpl.
  unfold PoolId_new. rewrite (proj2 (Z.compare_lt_iff l h)) by lia. simpl.
  by rewrite (proj2 (Z.ltb_lt l h)) by lia.
Qed.

Lemma flags_round_trip_witness : parse_micro_usd (format_micro_usd 12500000) = Some 12500000.
Proof. apply (proj1 flags_round_trip). unfold_widths. lia. Defined.
