(* ===== verification/KeeperLoop.v ===== *)
(** * The price keeper in the loop

    What the keeper of [Keeper] does over time and to the pool: how far a hostile
    feed can move the rate it trades on, what a tick must have read to ask for a
    swap, and that the swap it asks for, built by the client of [AmmClient] and
    settled by the server of [AmmServer], lands the pool on the near side of the
    oracle. *)

From S2P Require Import Prelude FedimintCore AmmMath AmmPoolId AmmConfig AmmTypes AmmServer.
From S2P Require Import AmmInvariant AmmSafety AmmClient KeeperOracle KeeperPolicy Keeper.

(** ** Rates over time *)

Section rates.
Context (from_json : string -> result string Feed).

(** The keeper's limits are machine words and its last rate one the reader accepted. *)
Definition keeper_ok (k : Keeper) : Prop :=
  is_u64 (max_rate_jump_pct k) /\
  match last_rate_micro k with Some p => 0 < p <= MAX_MICRO_USD_PER_BTC | None => True end.

(** A new reference rate: at most the tolerated jump away from the old one. *)
Definition rate_step (pct : Z) (old new : option Z) : Prop :=
  match old, new with
  | None, Some q => 0 < q <= MAX_MICRO_USD_PER_BTC
  | Some p, Some q => 0 < q <= MAX_MICRO_USD_PER_BTC /\ Z.abs (q - p) * 100 <= p * pct
  | None, None => True
  | Some _, None => False
  end.

Lemma rate_step_refl k : keeper_ok k ->
  rate_step (max_rate_jump_pct k) (last_rate_micro k) (last_rate_micro k).
Proof.
  intros [Hpct Hr]. unfold rate_step. destruct (last_rate_micro k) as [p|]; [|done].
  unfold_widths. split; [done|]. rewrite Z.sub_diag. simpl. nia.
Qed.

Lemma read_oracle_spec k body now p k' :
  keeper_ok k -> read_oracle from_json k body now = (p, k') ->
  rate_step (max_rate_jump_pct k) (last_rate_micro k) (last_rate_micro k') /\
  match p with
  | None => k' = k
  | Some p => k' = set_last_rate p k /\
      exists text price, body = Some text /\
        parse_feed from_json text now (max_oracle_age_secs k) = Ok price /\
        micro_usd_per_btc price = p
  end.
Proof.
  intros Hk. pose proof (rate_step_refl k Hk) as Hrefl. destruct Hk as [Hpct Hr].
  unfold read_oracle. destruct body as [text|]; [|by intros [= <- <-]].
  destruct (parse_feed from_json text now _) as [price|e] eqn:Ep; [|by intros [= <- <-]].
  pose proof (parse_feed_range _ _ _ _ _ Ep) as Hrange.
  destruct (last_rate_micro k) as [prev|] eqn:El.
  - destruct (check_jump prev _ _) as [[]|] eqn:Ej; simpl; intros [= <- <-]; [|by rewrite El].
    simpl. apply check_jump_Ok in Ej; [|lia|lia|done]. split; [done|]. split; [done|]. eauto.
  - intros [= <- <-]. simpl. split; [done|]. split; [done|]. eauto.
Qed.

Lemma keeper_ok_step k p : keeper_ok k ->
  rate_step (max_rate_jump_pct k) (last_rate_micro k) (Some p) -> keeper_ok (set_last_rate p k).
Proof. intros [Hpct _] Hs. split; [done|]. simpl. unfold rate_step in Hs. destruct (last_rate_micro k); tauto. Qed.

Lemma tick_spec k r q k' :
  keeper_ok k -> tick from_json k r = (q, k') ->
  rate_step (max_rate_jump_pct k) (last_rate_micro k) (last_rate_micro k') /\
  keeper_ok k' /\ max_rate_jump_pct k' = max_rate_jump_pct k /\
  forall req, q = Some req ->
    exists text price pools pool_state balances,
      read_body r = Some text /\
      parse_feed from_json text (read_now r) (max_oracle_age_secs k) = Ok price /\
      last_rate_micro k' = Some (micro_usd_per_btc price) /\
      read_pools r = Some pools /\ read_pool k pools = Some pool_state /\ read_balances r = Some balances /\
      decide pool_state (keeper_min_swap_in k) (micro_usd_per_btc price) balances (keeper_cfg k) =
        Trade (req_unit_in req) (req_unit_out req) (req_amount_in req) /\
      req_max_slippage_bps req = max_slippage_bps k.
Proof.
  intros Hk. unfold tick. destruct (read_oracle from_json k (read_body r) (read_now r)) as [p k1] eqn:Eo.
  destruct (read_oracle_spec _ _ _ _ _ Hk Eo) as [Hs Hp]. destruct p as [p|]; cycle 1.
  { subst k1. intros [= <- <-]. done. }
  destruct Hp as (-> & text & price & Eb & Ef & <-). intros [= <- <-].
  split; [done|]. split; [by apply keeper_ok_step|]. split; [done|]. intros req Hreq.
  destruct (read_pools r) as [pools|]; [|done].
  change (read_pool (set_last_rate (micro_usd_per_btc price) k) pools) with (read_pool k pools) in Hreq.
  cbn [mbind option_bind] in Hreq. destruct (read_pool k pools) as [ps|] eqn:Epl; [|done].
  destruct (read_balances r) as [bals|]; [|done]. simpl in Hreq.
  destruct (decide _ _ _ _ _) as [h|ui uo a] eqn:Ed in Hreq; [done|]. simplify_eq. simpl.
  exists text, price, pools, ps, bals. done.
Qed.

Lemma run_rates k rs qs k' p :
  keeper_ok k -> run from_json k rs = (qs, k') -> last_rate_micro k = Some p ->
  let pct := max_rate_jump_pct k in
  let n := Z.of_nat (length rs) in
  exists q, last_rate_micro k' = Some q /\ 0 < q <= MAX_MICRO_USD_PER_BTC /\
    q * 100 ^ n <= p * (100 + pct) ^ n /\
    (pct <= 100 -> p * (100 - pct) ^ n <= q * 100 ^ n).
Proof.
  revert k qs p. induction rs as [|r rs IH]; intros k qs p Hk; cbn [run].
  { intros [= <- <-] Hp. destruct Hk as [Hpct Hr]. rewrite Hp in Hr. exists p.
    simpl length. rewrite !Z.pow_0_r. split_and!; try done; lia. }
  destruct (tick from_json k r) as [q1 k1] eqn:Et.
  destruct (run from_json k1 rs) as [qs' k2] eqn:Er. intros [= <- <-] Hp.
  destruct (tick_spec _ _ _ _ Hk Et) as (Hs & Hk1 & Epct & _). rewrite Hp in Hs.
  destruct (last_rate_micro k1) as [p1|] eqn:E1; [|done]. destruct Hs as [Hp1 Hj].
  destruct (IH _ _ _ Hk1 Er E1) as (q & Eq & Hq & Hup & Hdown). rewrite Epct in *.
  destruct Hk as [Hpct Hr]. rewrite Hp in Hr. unfold_widths.
  exists q. split; [done|]. split; [done|]. simpl length. rewrite Nat2Z.inj_succ, !Z.pow_succ_r by lia.
  set (n := Z.of_nat (length rs)) in *. set (pct := max_rate_jump_pct k) in *.
  assert (0 <= (100 + pct) ^ n) by (apply Z.pow_nonneg; lia).
  split.
  - assert (p1 * 100 <= p * (100 + pct)) by lia.
    transitivity (p1 * 100 * (100 + pct) ^ n); [|nia]. nia.
  - intros Hle. specialize (Hdown Hle). assert (0 <= (100 - pct) ^ n) by (apply Z.pow_nonneg; lia).
    assert (p * (100 - pct) <= p1 * 100) by lia.
    transitivity (p1 * 100 * (100 - pct) ^ n); [nia|]. nia.
Qed.

(** A hostile feed moves the rate the keeper trades on at most a step at a time.
    From a keeper with an accepted rate, after any sequence of ticks, whatever
    bodies the feed served, the reference rate is positive, below the ceiling, and
    within the tolerated jump compounded once per tick, in both directions. *)
Theorem rate_drift_bounded k rs qs k' p :
  keeper_ok k -> run from_json k rs = (qs, k') -> last_rate_micro k = Some p ->
  let pct := max_rate_jump_pct k in
  let n := Z.of_nat (length rs) in
  exists q, last_rate_micro k' = Some q /\ 0 < q <= MAX_MICRO_USD_PER_BTC /\
    q * 100 ^ n <= p * (100 + pct) ^ n /\
    (pct <= 100 -> p * (100 - pct) ^ n <= q * 100 ^ n).
Proof. apply run_rates. Qed.
End rates.

(** ** Keeper, client and server together *)

Section closed_loop.
Context `{Hcrypto : Crypto} `{!CryptoOk} `{Hder : !Derivation} `{Ham : AmountsOps}.
Context `{cz : Codec Z} `{cpk : Codec PublicKey} `{ct : Codec (list Z)}.
Context (from_json : string -> result string Feed).

(** The pool row the keeper reads off the server's own table. *)
Lemma read_pool_endpoint self d k :
  read_pool k (pools_endpoint self d) =
  (fun p => mkPoolState (lo (keeper_pool k)) (hi (keeper_pool k)) (AmmServer.reserve_lo p)
              (AmmServer.reserve_hi p) (consensus_fee_for self d (keeper_pool k)))
  <$> pools d !! keeper_pool k.
Proof.
  unfold read_pool. change (find _ _) with (find_pool (keeper_pool k) (pools_endpoint self d)).
  rewrite find_pool_endpoint. by destruct (pools d !! keeper_pool k).
Qed.

(** The pool and the orientation of a side's units. *)
Lemma side_units pid ps side :
  canonical pid -> unit_lo ps = lo pid -> unit_hi ps = hi pid ->
  let '(ui, uo) := units_for side ps in
  PoolId_new ui uo = Some pid /\ (ui =? uo) = false /\
  (ui =? lo pid) = match side with SellBtc => true | BuyBtc => false end.
Proof.
  unfold canonical. destruct pid as [l h]. simpl. intros Hcan El Eh.
  unfold units_for, PoolId_new. destruct side; rewrite El, Eh.
  - rewrite (proj2 (Z.compare_lt_iff l h)), Z.eqb_refl by lia.
    split_and!; [done|by apply Z.eqb_neq; lia|done].
  - rewrite (proj2 (Z.compare_gt_iff h l)) by lia. split_and!; [done|by apply Z.eqb_neq; lia..].
Qed.

(** The curve's verdict on a trade is the quote endpoint's. *)
Lemma quote_of_trade self d pid p side a y min :
  amm_wf self -> pools d !! pid = Some p -> pool_ok self d pid p ->
  let ps := mkPoolState (lo pid) (hi pid) (AmmServer.reserve_lo p) (AmmServer.reserve_hi p)
              (consensus_fee_for self d pid) in
  let '(ui, uo) := units_for side ps in
  (params ← units (cfg self) !! ui; Some (AmmConfig.min_swap_in params)) = Some min -> min <= a -> 1 <= a ->
  amount_out (reserves_for side ps).1 (reserves_for side ps).2 a (fee_per_mille ps) = Ok y ->
  (reserves_for side ps).1 + a <= MAX_RESERVE ->
  exists q, quote_endpoint self d ui uo a = Ok q /\ quote_amount_out q = y.
Proof.
  intros Hwf Hp [Hcan Hlu Hhu Hlr Hhr _ _] ps.
  pose proof (side_units pid ps side Hcan eq_refl eq_refl) as Hside.
  destruct (units_for side ps) as [ui uo] eqn:Eu. destruct Hside as (Ep & _ & Elo).
  rewrite MAX_RESERVE_val in *. intros Hmin Hle Ha Hy Hcap.
  unfold quote_endpoint, quote_swap. rewrite Ep. simpl. rewrite Hp. simpl.
  destruct (units (cfg self) !! ui) as [up|]; [|done]. simpl in Hmin. simplify_eq. simpl.
  rewrite (other_new _ _ _ Ep). simpl.
  rewrite bool_decide_eq_true_2 by (destruct side; simpl in Eu; injection Eu as <- <-; done). simpl.
  rewrite (proj2 (Z.ltb_ge _ _)) by lia. rewrite Elo.
  destruct side; simpl in *; rewrite Hy; simpl;
    (rewrite (proj2 (checked_add_u64_Some _ _ _)) by (split; [reflexivity|unfold_widths; lia])); simpl;
    (rewrite (proj2 (Z.ltb_ge _ _)) by (rewrite MAX_RESERVE_val; lia)); simpl; by eexists.
Qed.

(** The keeper a config and a canonical pool give, on a server run from that config,
    driving a client of the same federation. *)
Record wired (self : Amm) (c : AmmClientModule) (k : Keeper) : Prop := {
  wired_units : client_units (client_cfg c) = units (cfg self);
  wired_min : resolve_min_swap_in (client_cfg c) (keeper_pool k) = Some (keeper_min_swap_in k);
  wired_cfg : cfg_ok (keeper_cfg k);
  wired_bps : 0 <= max_slippage_bps k <= 10000;
}.

Lemma wired_side self c k ps balances side :
  wired self c k -> unit_lo ps = lo (keeper_pool k) -> unit_hi ps = hi (keeper_pool k) ->
  let '(ui, uo) := units_for side ps in
  (params ← units (cfg self) !! ui; Some (AmmConfig.min_swap_in params)) =
    Some (limits_for side (keeper_min_swap_in k) balances (keeper_cfg k)).2 /\
  in_allowlist c ui = true /\ in_allowlist c uo = true.
Proof.
  intros [Hu Hm _ _] El Eh. unfold resolve_min_swap_in, unit_params in Hm. rewrite Hu in Hm.
  unfold in_allowlist. rewrite Hu.
  destruct (units (cfg self) !! lo (keeper_pool k)) as [pl|] eqn:E1; [|done].
  destruct (units (cfg self) !! hi (keeper_pool k)) as [ph|] eqn:E2; [|done].
  simpl in Hm. injection Hm as <-. destruct side; simpl; by rewrite El, Eh, E1, E2.
Qed.

(** A quoted swap built by the client settles where the curve says. *)
Lemma quoted_swap_settles self c d pid p side a q bps op tweak :
  amm_wf self -> db_inv self d -> pools d !! pid = Some p -> is_u64 a -> 0 <= bps <= 10000 ->
  let ps := mkPoolState (lo pid) (hi pid) (AmmServer.reserve_lo p) (AmmServer.reserve_hi p)
              (consensus_fee_for self d pid) in
  let '(ui, uo) := units_for side ps in
  quote_endpoint self d ui uo a = Ok q ->
  in_allowlist c ui = true -> in_allowlist c uo = true ->
  balances d !! (public_key (derive_keypair (root_secret c) CHILD_SWAP tweak), uo) = None ->
  exists out common am d' p',
    swap c ui uo a bps op (Ok q) tweak = Ok (out, common) /\
    process_output self (co_output out) d = (Ok am, d') /\
    pools d' !! pid = Some p' /\
    (AmmServer.reserve_lo p', AmmServer.reserve_hi p') = after side ps a (quote_amount_out q).
Proof.
  intros Hwf Hinv Hp Ha Hbps ps. pose proof (inv_pools _ _ Hinv _ _ Hp) as Hok.
  pose proof (side_units pid ps side (pool_canon _ _ _ _ Hok) eq_refl eq_refl) as Hside.
  destruct (units_for side ps) as [ui uo] eqn:Eu. destruct Hside as (Ep & Hne & Elo).
  intros Eq Hin Hout Hfresh. set (kp := derive_keypair (root_secret c) CHILD_SWAP tweak) in *.
  assert (0 < quote_amount_out q <= MAX_RESERVE) as Hy.
  { pose proof Eq as Hq. unfold quote_endpoint in Hq. rewrite Ep in Hq. simpl in Hq. rewrite Hp in Hq.
    run_inv Hq. ok_facts. apply quote_swap_Ok in Heqr as Hf.
    destruct (swap_reserves _ Hwf _ _ _ _ _ _ _ Hinv Ha Hp Hf) as (? & _ & _ & _ & ?). simpl. lia. }
  rewrite MAX_RESERVE_val in Hy.
  destruct (min_after_slippage_spec (quote_amount_out q) bps ltac:(unfold_widths; lia) Hbps)
    as (m & Em & Hmb & _).
  destruct (quote_settles self d ui uo a m (public_key kp) tweak
    (sign_pop kp (swap_pop_message ui uo a m (public_key kp) tweak)) q Hwf Hinv Ha Eq)
    as (d' & pid' & pool & sq & Epid & Epool & Hf & Edy & Hrun & Hpools & _).
  { apply new_swap_v0_verifies. }
  { lia. }
  { rewrite Hfresh. simpl. rewrite MAX_RESERVE_val. lia. }
  rewrite Ep in Epid. injection Epid as <-. rewrite Hp in Epool. injection Epool as <-.
  eexists (mkClientOutput (new_swap_v0 kp ui uo a m tweak) (new_custom ui a)), (mkSwapCommon _ op uo kp), _, d', _.
  split; [|split; [exact Hrun|split; [rewrite Hpools; apply lookup_insert_eq|]]].
  - unfold swap, fetch_min_out. rewrite Hne, Hin, Hout. simpl. by rewrite Em.
  - destruct Hf as [_ Hlo Hqi Hqo _ Hnew _ _]. rewrite Hnew, Hqi, Hqo, Hlo, Edy, Elo.
    by destruct side.
Qed.

(** C21: the keeper's swap settles, and moves the market the right way.  When a tick
    that read the server's pool table asks for a swap, the quote at that state
    succeeds, the client builds the transaction, and the server, in that state and
    for a fresh key, accepts it; the pool it leaves is strictly closer to the price
    the tick accepted from the feed than before, and not past it. *)
Theorem keeper_trade_settles self c k r req k' d op tweak :
  amm_wf self -> db_inv self d -> wired self c k -> keeper_ok k ->
  read_pools r = Some (pools_endpoint self d) ->
  tick from_json k r = (Some req, k') ->
  let key := public_key (derive_keypair (root_secret c) CHILD_SWAP tweak) in
  balances d !! (key, req_unit_out req) = None ->
  exists p q out common d' p' rate,
    pools d !! keeper_pool k = Some p /\ last_rate_micro k' = Some rate /\
    quote_endpoint self d (req_unit_in req) (req_unit_out req) (req_amount_in req) = Ok q /\
    swap c (req_unit_in req) (req_unit_out req) (req_amount_in req) (req_max_slippage_bps req) op
      (Ok q) tweak = Ok (out, common) /\
    (exists am, process_output self (co_output out) d = (Ok am, d')) /\
    pools d' !! keeper_pool k = Some p' /\
    toward_oracle (mkPoolState (lo (keeper_pool k)) (hi (keeper_pool k)) (AmmServer.reserve_lo p)
        (AmmServer.reserve_hi p) (consensus_fee_for self d (keeper_pool k)))
      rate (req_unit_in req) (req_unit_out req) (AmmServer.reserve_lo p') (AmmServer.reserve_hi p').
Proof.
  intros Hwf Hinv Hw Hk Hread Ht key Hfresh.
  destruct (tick_spec _ _ _ _ _ Hk Ht) as (_ & [_ Hrange] & _ & Hreq).
  destruct (Hreq req eq_refl) as (text & price & ps & pool & bals & _ & _ & Er & Eps & Epool & _ & Hd & Hbps).
  rewrite Hread in Eps. injection Eps as <-. rewrite read_pool_endpoint in Epool.
  destruct (pools d !! keeper_pool k) as [p|] eqn:Ep; [|done]. simpl in Epool. injection Epool as <-.
  pose proof (inv_pools _ _ Hinv _ _ Ep) as Hok. rewrite Er in Hrange.
  destruct (pool_ok_u64 _ _ Hinv _ _ Hok) as (Hl & Hh & _ & _).
  destruct (consensus_fee_wf self d (keeper_pool k) Hwf) as [_ Hfee].
  set (ps := mkPoolState _ _ _ _ _) in *.
  destruct (trade_outcome ps _ _ _ _ _ _ _ ltac:(done) (wired_cfg _ _ _ Hw) Hd)
    as (side & y & Eu & Hmin & Ey & Ha & Hcap & Hy & Htow).
  pose proof (wired_side self c k ps bals side Hw eq_refl eq_refl) as Hside.
  pose proof (quote_of_trade self d (keeper_pool k) p side (req_amount_in req) y
    (limits_for side (keeper_min_swap_in k) bals (keeper_cfg k)).2 Hwf Ep Hok) as Hq.
  assert (is_u64 (req_amount_in req)) as Hau.
  { destruct side; simpl in *; rewrite MAX_RESERVE_val in *; unfold_widths; lia. }
  pose proof (quoted_swap_settles self c d (keeper_pool k) p side (req_amount_in req)) as Hset.
  fold ps in Hq, Hset. cbv zeta in Hq, Hset. rewrite <- Eu in Hq, Hside, Hset.
  destruct Hside as (Hm & Hin & Hout). destruct (Hq Hm Hmin Ha Ey Hcap) as (q & Eq & <-).
  destruct (Hset q (max_slippage_bps k) op tweak Hwf Hinv Ep Hau (wired_bps _ _ _ Hw) Eq Hin Hout Hfresh)
    as (out & common & am & d' & p' & Esw & Hrun & Ep' & Eafter).
  exists p, q, out, common, d', p', (micro_usd_per_btc price). rewrite Hbps.
  split_and!; try done; [by exists am|]. by rewrite <- Eafter in Htow.
Qed.
End closed_loop.

(** ** A concrete keeper *)

Section demo.
#[local] Existing Instance toy_crypto.
#[local] Existing Instance map_amounts.
#[local] Existing Instance u64_codec.
#[local] Existing Instance pk_codec.
#[local] Existing Instance tweak_codec.
#[local] Existing Instance toy_derivation.

Definition demo_keeper (rate : option Z) : Keeper :=
  mkKeeper AmmSafety.demo_pool (mkMinSwapIn 1000 10) demo_cfg 300 10 50 rate.
Definition demo_reads : Reads :=
  mkReads (Some "feed"%string) 1788268538 (Some (pools_endpoint demo_amm demo_db1))
    (Some (mkBalances 5000000 5000000)).
Definition demo_request : SwapRequest := mkSwapRequest 0 1 604397 50.

Lemma demo_tick :
  tick demo_json (demo_keeper None) demo_reads = (Some demo_request, demo_keeper (Some 77785250000)).
Proof. vm_compute. reflexivity. Qed.

Lemma demo_wired : wired demo_amm demo_client (demo_keeper None).
Proof. split; [done|reflexivity|apply demo_cfg_ok|simpl; lia]. Qed.

Lemma rate_drift_bounded_witness : exists q,
  last_rate_micro (run demo_json (demo_keeper (Some 75000000000)) [demo_reads]).2 = Some q /\
  q * 100 <= 75000000000 * 110.
Proof.
  destruct (rate_drift_bounded demo_json (demo_keeper (Some 75000000000)) [demo_reads]
    (run demo_json (demo_keeper (Some 75000000000)) [demo_reads]).1
    (run demo_json (demo_keeper (Some 75000000000)) [demo_reads]).2 75000000000)
    as (q & Eq & _ & Hq & _).
  - split; [simpl; unfold_widths; lia|simpl; unfold MAX_MICRO_USD_PER_BTC; lia].
  - vm_compute. reflexivity.
  - reflexivity.
  - exists q. split; [exact Eq|exact Hq].
Defined.

Lemma keeper_trade_settles_witness : exists q out common am d',
  quote_endpoint demo_amm demo_db1 0 1 604397 = Ok q /\
  swap demo_client 0 1 604397 50 21 (Ok q) demo_tweak = Ok (out, common) /\
  process_output demo_amm (co_output out) demo_db1 = (Ok am, d').
Proof.
  destruct (@keeper_trade_settles _ toy_crypto_ok _ _ _ _ _ demo_json demo_amm demo_client
    (demo_keeper None) demo_reads demo_request (demo_keeper (Some 77785250000)) demo_db1 21 demo_tweak
    demo_amm_wf (reachable_inv_db demo_amm demo_amm_wf _ demo_run1) demo_wired)
    as (p & q & out & common & d' & p' & rate & _ & _ & Eq & Es & [am Er] & _).
  - split; [simpl; unfold_widths; lia|done].
  - reflexivity.
  - exact demo_tick.
  - vm_compute. reflexivity.
  - exists q, out, common, am, d'. split; [exact Eq|]. split; [exact Es|exact Er].
Defined.
End demo.
