(* ===== verification/KeeperStartup.v ===== *)
(** * Arming the price keeper

    The start of [main] in [bin/amm-price-keeper/src/main.rs]: the checks on the flags
    and the federation's configuration, the retry loop around the recovery of stranded
    swaps, and the keeper it arms. *)

From S2P Require Import Prelude FedimintCore AmmMath AmmPoolId AmmConfig AmmTypes AmmServer AmmClient.
From S2P Require Import AmmClientRecovery KeeperOracle KeeperPolicy Keeper KeeperLoop.
From stdpp Require Import strings.
#[local] Open Scope Z_scope.

(** The flags after clap and their parsers; the client's directory, the feed's URL and
    the interval are used as they are. *)
Record Opts := mkOpts {
  o_pool : PoolId;
  o_band_bps : Z;
  o_max_trade_usd : Z;
  o_btc_floor_msat : Z;
  o_usdt_floor_micros : Z;
  o_max_oracle_age : Z;
  o_max_rate_jump_pct : Z;
  o_max_slippage_bps : Z;
}.

(** [SystemTime::now()] as seconds since the epoch; [None] before it. *)
Definition unix_now (since_epoch : option Z) : Z :=
  match since_epoch with
  | None => 0
  | Some secs => default I64_MAX (try_i64 secs)
  end.

Inductive StartupError :=
| NotBitcoin (lo hi : AmountUnit)
| InstanceCount (instances : list Z)
| ConfigUndecodable
| UnitNotListed (unit : AmountUnit)
| NoMinimum
| NoModule
| RecoveryFailed (e : string)
| NotStarted (e : StartError).

(** ** The federation's AMM instance *)

(** The client configuration's modules: instance ids, ascending, with their kind and,
    for those that decode as an AMM's, that configuration. *)
Abbreviation Modules := (list (Z * (string * option AmmClientConfig))).

Definition resolve_amm_config (modules : Modules) (pool : PoolId) : result StartupError AmmClientConfig :=
  let instances := fst <$> filter (fun m : Z * (string * option AmmClientConfig) => m.2.1 = AMM_KIND) modules in
  match instances with
  | [instance] =>
      config ← ok_or ((m ← find (fun m => fst m =? instance) modules; m.2.2)) ConfigUndecodable;
      if negb (bool_decide (is_Some (client_units config !! lo pool))) then Err (UnitNotListed (lo pool))
      else if negb (bool_decide (is_Some (client_units config !! hi pool))) then Err (UnitNotListed (hi pool))
      else Ok config
  | _ => Err (InstanceCount instances)
  end.

(** ** Retrying *)

(** The loop of [with_startup_retry]: each attempt with the seconds it takes; [None]
    when the attempts given run out first. *)
Fixpoint retry_loop {A} (deadline now delay : Z) (attempts : list (Z * result string A))
    : option (result string A) :=
  match attempts with
  | [] => None
  | (took, Ok value) :: _ => Some (Ok value)
  | (took, Err e) :: attempts =>
      let now := now + took in
      if now <? deadline then retry_loop deadline (now + delay) (Z.min (delay * 2) 30) attempts
      else Some (Err e)
  end.

Definition with_startup_retry {A} (now : Z) (attempts : list (Z * result string A)) : option (result string A) :=
  retry_loop (now + 300) now 2 attempts.

(** ** [main], up to the first tick *)

Record Armed := mkArmed { a_keeper : Keeper; a_recovered : AmmRecoverySummary }.

Definition arm (opts : Opts) (modules : Modules) (has_module : bool) (now : Z)
    (recoveries : list (Z * result string AmmRecoverySummary)) (pools : option (list PoolSummary))
    : option (result StartupError Armed) :=
  if negb (lo (o_pool opts) =? BITCOIN) then Some (Err (NotBitcoin (lo (o_pool opts)) (hi (o_pool opts))))
  else
    match (amm_config ← resolve_amm_config modules (o_pool opts);
           min_swap_in ← ok_or (resolve_min_swap_in amm_config (o_pool opts)) NoMinimum;
           if has_module then Ok min_swap_in else Err NoModule) with
    | Err e => Some (Err e)
    | Ok min_swap_in =>
        recovered ← with_startup_retry now recoveries;
        Some (recovered ← map_err RecoveryFailed recovered;
              let keeper := mkKeeper (o_pool opts) min_swap_in
                (mkKeeperConfig (o_band_bps opts) (o_max_trade_usd opts) (o_btc_floor_msat opts)
                   (o_usdt_floor_micros opts))
                (o_max_oracle_age opts) (o_max_rate_jump_pct opts) (o_max_slippage_bps opts) None in
              _ ← map_err NotStarted (start keeper pools);
              Ok (mkArmed keeper recovered))
    end.

(** ** The loop ends, with what it was told *)

(** The time at which the [i]-th attempt has failed. *)
Fixpoint failed_at {A} (now delay : Z) (attempts : list (Z * A)) (i : nat) : Z :=
  match attempts, i with
  | (took, _) :: _, O => now + took
  | (took, _) :: attempts, S i => failed_at (now + took + delay) (Z.min (delay * 2) 30) attempts i
  | [], _ => now
  end.

(** What an attempt answers is the loop's answer exactly when it succeeds or fails at
    or past the deadline and all before it failed in time. *)
Lemma retry_loop_answer {A} deadline now delay (attempts : list (Z * result string A)) r :
  retry_loop deadline now delay attempts = Some r ->
  exists i took, attempts !! i = Some (took, r) /\
    (is_ok r = true \/ deadline <= failed_at now delay attempts i) /\
    forall j, (j < i)%nat -> failed_at now delay attempts j < deadline /\
      exists t e, attempts !! j = Some (t, Err e).
Proof.
  revert now delay. induction attempts as [|[took [v|e]] attempts IH]; intros now delay; simpl; [done|..].
  - intros [= <-]. exists 0%nat, took. split_and!; [done|by left|]. intros j. lia.
  - destruct (now + took <? deadline) eqn:Hlt; zbool.
    + intros E. destruct (IH _ _ E) as (i & t & Hi & Hr & Hb). exists (S i), t. split_and!; [done|done|].
      intros [|j] Hj; simpl; [eauto|apply Hb; lia].
    + intros [= <-]. exists 0%nat, took. split_and!; [done|by right|]. intros j. lia.
Qed.

(** At its longest delay the loop ends within one attempt per thirty seconds left. *)
Lemma retry_loop_capped {A} n deadline now (attempts : list (Z * result string A)) :
  Forall (fun a => 0 <= a.1) attempts -> (n < length attempts)%nat -> deadline - now <= 30 * Z.of_nat n ->
  is_Some (retry_loop deadline now 30 attempts).
Proof.
  revert now attempts. induction n as [|n IH]; intros now [|[took [v|e]] attempts] Ht Hl Hd; simpl in *;
    try lia; try done; apply Forall_cons in Ht as [Ht0 Ht]; simpl in *; (destruct (_ <? _) eqn:Hlt; [zbool|done]).
  - lia.
  - apply IH; [done|lia|lia].
Qed.

(** One failed attempt, whatever the delay. *)
Lemma retry_loop_step {A} deadline now delay took (attempts : list (Z * result string A)) r :
  (now + took < deadline -> is_Some (retry_loop deadline (now + took + delay) (Z.min (delay * 2) 30) attempts)) ->
  is_Some (retry_loop deadline now delay ((took, r) :: attempts)).
Proof. intros Hnext. simpl. destruct r; [done|]. destruct (_ <? _) eqn:Hlt; [zbool; auto|done]. Qed.

(** Startup never hangs: within fourteen attempts, however long each takes, the loop
    has an answer, and it is the first success or, five minutes in, a failure. *)
Theorem startup_retry_ends {A} now (attempts : list (Z * result string A)) :
  Forall (fun a => 0 <= a.1) attempts -> (14 <= length attempts)%nat ->
  exists r i took, with_startup_retry now attempts = Some r /\ attempts !! i = Some (took, r) /\
    (is_ok r = true \/ now + 300 <= failed_at now 2 attempts i) /\
    forall j, (j < i)%nat -> exists t e, attempts !! j = Some (t, Err e).
Proof.
  intros Ht Hl. assert (is_Some (with_startup_retry now attempts)) as [r Hr].
  { unfold with_startup_retry.
    do 4 (destruct attempts as [|[? ?] attempts]; simpl in Hl; [lia|]; apply Forall_cons in Ht as [? Ht]; simpl in *;
      apply retry_loop_step; intros _).
    apply (retry_loop_capped 9); [done|lia|lia]. }
  destruct (retry_loop_answer _ _ _ _ _ Hr) as (i & took & Hi & Hok & Hb). exists r, i, took.
  split_and!; [done..|]. intros j Hj. by destruct (Hb j Hj).
Qed.

(** ** The keeper it arms *)

(** Whatever the federation's configuration, the keeper is armed only for a pool of
    bitcoin and a unit of its one AMM instance, both on that instance's allowlist and
    with its minimums, after the recovery of stranded swaps has succeeded, with no
    remembered rate, and with a band that covers the fee the pool has. *)
Theorem armed_keeper_is_sound opts modules has_module now recoveries pools armed :
  arm opts modules has_module now recoveries pools = Some (Ok armed) ->
  lo (keeper_pool (a_keeper armed)) = BITCOIN /\ keeper_pool (a_keeper armed) = o_pool opts /\
  last_rate_micro (a_keeper armed) = None /\
  (exists i took, recoveries !! i = Some (took, Ok (a_recovered armed))) /\
  (exists instance config,
    fst <$> filter (fun m : Z * (string * option AmmClientConfig) => m.2.1 = AMM_KIND) modules = [instance] /\
    resolve_amm_config modules (o_pool opts) = Ok config /\
    resolve_min_swap_in config (o_pool opts) = Some (keeper_min_swap_in (a_keeper armed))) /\
  (exists summaries, pools = Some summaries /\
    forall p, read_pool (a_keeper armed) summaries = Some p -> fee_per_mille p * 10 <= o_band_bps opts).
Proof.
  unfold arm. destruct (lo (o_pool opts) =? BITCOIN) eqn:Hbtc; simpl; [zbool|done].
  destruct (resolve_amm_config modules (o_pool opts)) as [config|] eqn:Hc; simpl; [|done].
  destruct (resolve_min_swap_in config (o_pool opts)) as [mins|] eqn:Hm; simpl; [|done].
  destruct has_module; simpl; [|done].
  destruct (with_startup_retry now recoveries) as [[rec|e]|] eqn:Hr; simpl; [|done..].
  set (k := mkKeeper _ _ _ _ _ _ _). destruct (start k pools) as [[]|] eqn:Hs; simpl; [|done]. intros [= <-]. simpl.
  split_and!; try done.
  - destruct (retry_loop_answer _ _ _ _ _ Hr) as (i & t & Hi & _). eauto.
  - unfold resolve_amm_config in Hc. destruct (fst <$> _) as [|i [|]] eqn:Ei; [done| |done]. eauto.
  - unfold start in Hs. simpl in Hs. rewrite Hbtc in Hs. simpl in Hs. destruct pools as [summaries|]; [|done].
    exists summaries. split; [done|]. intros p Hp. rewrite Hp in Hs. unfold check_band_exceeds_fee in Hs. simpl in Hs.
    destruct (_ <? _) eqn:Hlt in Hs; [done|]. zbool. lia.
Qed.

(** An armed keeper meets the invariant its ticks keep. *)
Lemma armed_keeper_ok opts modules has_module now recoveries pools armed :
  is_u64 (o_max_rate_jump_pct opts) ->
  arm opts modules has_module now recoveries pools = Some (Ok armed) -> keeper_ok (a_keeper armed).
Proof.
  unfold arm. intros Hu E. run_inv E; simplify_eq/=; done.
Qed.

(** A federation with one AMM that lists both units, reached at the second attempt. *)
Lemma armed_keeper_is_sound_witness :
  let opts := mkOpts (mkPoolId 0 1) 50 1000000 0 0 300 10 50 in
  let config := mkAmmClientConfig {[0 := mkUnitParams 1000; 1 := mkUnitParams 5]} 3 ∅ in
  let modules := [(0, ("mintv2"%string, None)); (4, (AMM_KIND, Some config))] in
  exists armed, arm opts modules true 100 [(7, Err "down"%string); (1, Ok (mkAmmRecoverySummary 0 0 0 []))] (Some [])
    = Some (Ok armed) /\ lo (keeper_pool (a_keeper armed)) = BITCOIN.
Proof.
  intros opts config modules. eexists. split; [reflexivity|].
  refine (proj1 (armed_keeper_is_sound opts modules true 100
    [(7, Err "down"%string); (1, Ok (mkAmmRecoverySummary 0 0 0 []))] (Some []) _ _)). reflexivity.
Defined.
