(* ===== verification/MpcCodec.v ===== *)
(** * The encrypted round codec of the signing protocol

    [crypto/threshold-ecdsa/src/transport/codec.rs]: one round's outgoing messages
    are packed into a single payload, the broadcast in the clear and every
    point-to-point message boxed to its recipient, under a key bound to the run, the
    round, the sender and the recipient.  bincode, ECDH, HKDF and the AEAD are
    interfaces; the randomness of a box is an argument. *)

From S2P Require Import Prelude.

Abbreviation bytes := (list Z) (only parsing).
Abbreviation PartyIndex := Z (only parsing).

Definition U32_MAX : Z := 2 ^ 32 - 1.
Definition P2P_SALT : string := "fedimint-threshold-ecdsa/round-p2p/v0".

(** bincode for one type of values. *)
Class Serde (A : Type) := {
  serde_encode : A -> option bytes;
  serde_decode : bytes -> option A;
}.
Class SerdeOk (A : Type) `{Serde A} : Prop :=
  serde_round_trip (a : A) b : serde_encode a = Some b -> serde_decode b = Some a.

(** secp256k1's keys and ECDH, HKDF-SHA256, and fedimint_aead, whose [encrypt] draws a
    nonce. *)
Class RoundCrypto := {
  PublicKey : Type;
  SecretKey : Type;
  AeadKey : Type;
  Nonce : Type;
  public_key : SecretKey -> PublicKey;
  serialize_pk : PublicKey -> bytes;
  from_slice : bytes -> option PublicKey;
  shared_secret : PublicKey -> SecretKey -> bytes;
  hkdf_derive : string -> bytes -> bytes -> AeadKey;
  aead_encrypt : AeadKey -> Nonce -> bytes -> bytes;
  aead_decrypt : AeadKey -> bytes -> option bytes;
}.

Class RoundCryptoOk `{RoundCrypto} : Prop := {
  from_slice_serialize pk : from_slice (serialize_pk pk) = Some pk;
  shared_secret_comm a b : shared_secret (public_key a) b = shared_secret (public_key b) a;
  decrypt_encrypt k nonce m : aead_decrypt k (aead_encrypt k nonce m) = Some m;
}.

(** Authenticated encryption and key derivation without the negligible chance of a
    forgery or a collision. *)
Class IdealAead `{RoundCrypto} : Prop := {
  decrypt_key k k' nonce m m' : aead_decrypt k' (aead_encrypt k nonce m) = Some m' -> k' = k;
  hkdf_derive_inj salt :: Inj2 (=) (=) (=) (hkdf_derive salt);
}.

(** [Option::transpose]. *)
Definition transpose {E A} (o : option (result E A)) : result E (option A) :=
  match o with
  | Some (Ok a) => Ok (Some a)
  | Some (Err e) => Err e
  | None => Ok None
  end.

(** The entries of a [BTreeMap] in the order it is iterated. *)
Definition key_le {A} (a b : PartyIndex * A) : Prop := a.1 <= b.1.
#[export] Instance key_le_dec {A} : RelDecision (@key_le A).
Proof. intros a b. unfold key_le. apply _. Defined.
Definition entries {A} (m : gmap PartyIndex A) : list (PartyIndex * A) :=
  merge_sort key_le (map_to_list m).

Lemma elem_of_entries {A} (m : gmap PartyIndex A) i x : (i, x) ∈ entries m <-> m !! i = Some x.
Proof. unfold entries. by rewrite merge_sort_Permutation, elem_of_map_to_list. Qed.

Lemma entries_nodup {A} (m : gmap PartyIndex A) : NoDup (entries m).*1.
Proof. unfold entries. rewrite merge_sort_Permutation. apply NoDup_fst_map_to_list. Qed.

Record EciesBox := mkEciesBox { ephemeral_pk : bytes; ciphertext : bytes }.
Record RoundPacket := mkRoundPacket {
  pkt_broadcast : option bytes;
  pkt_p2p : gmap PartyIndex EciesBox;
}.
Record OpenedRound (Msg : Type) := mkOpenedRound { broadcast : option Msg; p2p_to_me : option Msg }.
Arguments mkOpenedRound {Msg} _ _.
Arguments broadcast {Msg} _.
Arguments p2p_to_me {Msg} _.

Inductive CodecError :=
| SerializeFailed
| NoKeyFor (recipient : PartyIndex)
| DomainTooLong
| BadPacket (sender : PartyIndex)
| BadBroadcast (sender : PartyIndex)
| BadEphemeralKey
| DecryptFailed (sender : PartyIndex)
| BadP2p.

Section codec.
Context `{RoundCrypto} `{Serde RoundPacket}.

Record EncryptedRoundCodec := mkEncryptedRoundCodec {
  my_index : PartyIndex;
  my_secret : SecretKey;
  party_pubkeys : list PublicKey;
  domain : bytes;
}.

Definition aead_info (domain : bytes) (round : Z) (sender recipient : PartyIndex) : bytes :=
  be_bytes 4 (Z.of_nat (length domain)) ++ domain ++ be_bytes 8 round ++ be_bytes 2 sender
  ++ be_bytes 2 recipient.

Definition aead_key (shared domain : bytes) (round : Z) (sender recipient : PartyIndex)
    : result CodecError AeadKey :=
  if U32_MAX <? Z.of_nat (length domain) then Err DomainTooLong
  else Ok (hkdf_derive P2P_SALT shared (aead_info domain round sender recipient)).

Section messages.
Context {Msg : Type} `{Serde Msg}.

(** The box of one message, with its ephemeral key and nonce. *)
Definition seal_box (c : EncryptedRoundCodec) (round : Z) (coin : SecretKey * Nonce)
    (recipient : PartyIndex) (message : Msg) : result CodecError EciesBox :=
  recipient_pk ← ok_or (party_pubkeys c !! Z.to_nat recipient) (NoKeyFor recipient);
  let '(ephemeral_sk, nonce) := coin in
  let shared := shared_secret recipient_pk ephemeral_sk in
  key ← aead_key shared (domain c) round (my_index c) recipient;
  plaintext ← ok_or (serde_encode message) SerializeFailed;
  Ok (mkEciesBox (serialize_pk (public_key ephemeral_sk)) (aead_encrypt key nonce plaintext)).

(** The loop over the recipients, in the map's order. *)
Fixpoint seal_boxes (c : EncryptedRoundCodec) (round : Z) (coins : PartyIndex -> SecretKey * Nonce)
    (p2p : list (PartyIndex * Msg)) (boxes : gmap PartyIndex EciesBox)
    : result CodecError (gmap PartyIndex EciesBox) :=
  match p2p with
  | [] => Ok boxes
  | (recipient, message) :: p2p =>
      box ← seal_box c round (coins recipient) recipient message;
      seal_boxes c round coins p2p (<[recipient := box]> boxes)
  end.

(** [coins] gives the randomness of the box to each recipient. *)
Definition seal_round (c : EncryptedRoundCodec) (round : Z)
    (coins : PartyIndex -> SecretKey * Nonce) (broadcast : option Msg) (p2p : gmap PartyIndex Msg)
    : result CodecError bytes :=
  broadcast ← transpose ((fun m => ok_or (serde_encode m) SerializeFailed) <$> broadcast);
  boxes ← seal_boxes c round coins (entries p2p) ∅;
  ok_or (serde_encode (mkRoundPacket broadcast boxes)) SerializeFailed.

Definition open_box (c : EncryptedRoundCodec) (round : Z) (sender : PartyIndex) (box : EciesBox)
    : result CodecError Msg :=
  ephemeral_pk ← ok_or (from_slice (ephemeral_pk box)) BadEphemeralKey;
  let shared := shared_secret ephemeral_pk (my_secret c) in
  key ← aead_key shared (domain c) round sender (my_index c);
  plaintext ← ok_or (aead_decrypt key (ciphertext box)) (DecryptFailed sender);
  ok_or (serde_decode plaintext) BadP2p.

Definition open_round (c : EncryptedRoundCodec) (round : Z) (sender : PartyIndex) (payload : bytes)
    : result CodecError (OpenedRound Msg) :=
  packet ← ok_or (serde_decode payload) (BadPacket sender);
  broadcast ← transpose ((fun b => ok_or (serde_decode b) (BadBroadcast sender))
                           <$> pkt_broadcast packet);
  p2p_to_me ← transpose (open_box c round sender <$> pkt_p2p packet !! my_index c);
  Ok (mkOpenedRound broadcast p2p_to_me).
End messages.
End codec.

(** ** What is sealed is what is opened *)

Section round_trip.
Context `{RoundCryptoOk} `{SerdeOk RoundPacket} {Msg : Type} `{SerdeOk Msg}.

(** Party [a] runs the same execution as [b] and knows its public key. *)
Definition addresses (a b : EncryptedRoundCodec) : Prop :=
  domain a = domain b /\
  party_pubkeys a !! Z.to_nat (my_index b) = Some (public_key (my_secret b)).

Lemma open_seal_box a b round coin (m : Msg) box :
  addresses a b ->
  seal_box a round coin (my_index b) m = Ok box -> open_box b round (my_index a) box = Ok m.
Proof.
  intros [Hd Hpk] E. unfold seal_box in E. rewrite Hpk in E. destruct coin as [esk nonce].
  unfold aead_key in E. rewrite Hd in E. simpl in E.
  unfold open_box, aead_key. destruct (U32_MAX <? _) eqn:Hlen; [done|]. simpl in E |- *.
  destruct (serde_encode m) as [plain|] eqn:Em; simpl in E; [|done]. injection E as <-. simpl.
  rewrite from_slice_serialize. simpl. rewrite shared_secret_comm, decrypt_encrypt. simpl.
  by rewrite (serde_round_trip m plain Em).
Qed.

Lemma seal_boxes_spec a round coins (p2p : list (PartyIndex * Msg)) acc boxes :
  NoDup p2p.*1 -> seal_boxes a round coins p2p acc = Ok boxes ->
  (forall i, i ∉ p2p.*1 -> boxes !! i = acc !! i) /\
  (forall i m, (i, m) ∈ p2p -> exists box, boxes !! i = Some box /\
    seal_box a round (coins i) i m = Ok box).
Proof.
  revert acc. induction p2p as [|[i m] p2p IH]; intros acc Hnd E; simpl in *.
  { injection E as <-. split; [done|]. by intros i m Hin%elem_of_nil. }
  apply NoDup_cons in Hnd as [Hni Hnd].
  destruct (seal_box a round (coins i) i m) as [box|] eqn:Eb; simpl in E; [|done].
  apply IH in E as [Hother Hin]; [|done]. split.
  - intros j Hj. apply not_elem_of_cons in Hj as [Hne Hj]. rewrite Hother by done.
    by rewrite lookup_insert_ne.
  - intros j m' [[= -> ->]|Hj]%elem_of_cons; [|by apply Hin].
    exists box. split; [|done]. rewrite Hother by done. by rewrite lookup_insert_eq.
Qed.

(** Sealing fails for lack of a key, for a domain too long for its length prefix, or for
    a message bincode refuses, and for nothing else. *)
Lemma seal_boxes_total a round coins (p2p : list (PartyIndex * Msg)) acc :
  Z.of_nat (length (domain a)) <= U32_MAX -> (forall m : Msg, is_Some (serde_encode m)) ->
  Forall (fun '(i, _) => is_Some (party_pubkeys a !! Z.to_nat i)) p2p ->
  exists boxes, seal_boxes a round coins p2p acc = Ok boxes.
Proof.
  intros Hd Hm Hk. revert acc.
  induction Hk as [|[i m] p2p [pk Hpk] _ IH]; intros acc; simpl; [eauto|].
  unfold seal_box, aead_key. rewrite Hpk. destruct (coins i). simpl.
  rewrite (proj2 (Z.ltb_ge _ _)) by lia. simpl. destruct (Hm m) as [plain ->]. simpl. apply IH.
Qed.

Lemma seal_round_total a round coins (bc : option Msg) p2p :
  Z.of_nat (length (domain a)) <= U32_MAX -> (forall m : Msg, is_Some (serde_encode m)) ->
  (forall p : RoundPacket, is_Some (serde_encode p)) ->
  map_Forall (fun i _ => is_Some (party_pubkeys a !! Z.to_nat i)) p2p ->
  exists payload, seal_round a round coins bc p2p = Ok payload.
Proof.
  intros Hd Hm Hp Hk. unfold seal_round.
  assert (exists wire, transpose ((fun m => ok_or (serde_encode m) SerializeFailed) <$> bc)
    = Ok wire) as [wire ->].
  { destruct bc as [m|]; simpl; [|eauto]. destruct (Hm m) as [b ->]. simpl. eauto. }
  destruct (seal_boxes_total a round coins (entries p2p) ∅ Hd Hm) as [boxes Eb].
  { apply Forall_forall. intros [i m] Hi%elem_of_entries. by eapply Hk. }
  simpl. rewrite Eb. simpl. destruct (Hp (mkRoundPacket wire boxes)) as [payload ->]. simpl. eauto.
Qed.

(** A payload sealed by a party and opened by another of the same execution, in the
    same round and attributed to its sender, yields the sender's broadcast and exactly
    the message addressed to the receiver. *)
Lemma round_opens a b round coins (bc : option Msg) p2p payload :
  addresses a b -> seal_round a round coins bc p2p = Ok payload ->
  open_round b round (my_index a) payload = Ok (mkOpenedRound bc (p2p !! my_index b)).
Proof.
  intros Hab E. unfold seal_round in E.
  destruct (transpose _) as [wire|] eqn:Eb; simpl in E; [|done].
  destruct (seal_boxes _ _ _ _ _) as [boxes|] eqn:Es; simpl in E; [|done].
  destruct (serde_encode _) as [b0|] eqn:Ep; simpl in E; [|done]. injection E as <-.
  unfold open_round. rewrite (serde_round_trip _ _ Ep). simpl.
  assert (transpose ((fun b => ok_or (serde_decode b) (BadBroadcast (my_index a))) <$> wire)
    = Ok (E := CodecError) bc) as ->.
  { destruct bc as [m|]; simpl in Eb; [|by simplify_eq].
    destruct (serde_encode m) eqn:Em; simplify_eq/=. by rewrite (serde_round_trip _ _ Em). }
  apply seal_boxes_spec in Es as [Hother Hin]; [|apply entries_nodup]. simpl.
  destruct (p2p !! my_index b) as [m|] eqn:Hm.
  - destruct (Hin (my_index b) m) as (box & -> & Hbox); [by apply elem_of_entries|].
    simpl. by rewrite (open_seal_box _ _ _ _ _ _ Hab Hbox).
  - rewrite Hother; [by rewrite lookup_empty|].
    intros ([j m] & Hj & Hjm)%list_elem_of_fmap. simpl in Hj. subst.
    apply elem_of_entries in Hjm. congruence.
Qed.
End round_trip.

(** ** A box opens nowhere else *)

Section binding.
Context `{RoundCrypto} `{!IdealAead} `{Serde RoundPacket} {Msg : Type} `{SerdeOk Msg}.

Lemma aead_info_inj d round sender recipient d' round' sender' recipient' :
  Z.of_nat (length d) <= U32_MAX -> Z.of_nat (length d') <= U32_MAX ->
  is_u64 round -> is_u64 round' -> is_u16 sender -> is_u16 sender' ->
  is_u16 recipient -> is_u16 recipient' ->
  aead_info d round sender recipient = aead_info d' round' sender' recipient' ->
  d = d' /\ round = round' /\ sender = sender' /\ recipient = recipient'.
Proof.
  unfold_widths. unfold U32_MAX. intros ?? ?? ?? ?? E. unfold aead_info in E.
  apply app_inj_1 in E as [El E]; [|by rewrite !length_be_bytes].
  apply (be_bytes_inj 4) in El; [|change (256 ^ Z.of_nat 4) with (2 ^ 32); lia..].
  apply app_inj_1 in E as [-> E]; [|lia].
  apply app_inj_1 in E as [Er E]; [|by rewrite !length_be_bytes].
  apply (be_bytes_inj 8) in Er; [|change (256 ^ Z.of_nat 8) with (2 ^ 64); lia..].
  apply app_inj_1 in E as [Es E]; [|by rewrite !length_be_bytes].
  apply (be_bytes_inj 2) in Es; [|change (256 ^ Z.of_nat 2) with (2 ^ 16); lia..].
  apply (be_bytes_inj 2) in E; [|change (256 ^ Z.of_nat 2) with (2 ^ 16); lia..].
  done.
Qed.

(** A box opens only as what it was sealed for: if a party takes a message out of a
    box attributed to [sender] in [round'], then the box was sealed by that sender, to
    that party, in that round of the same execution.  No box can be replayed into
    another round or run, or passed off as another party's. *)
Theorem box_bound_to_context a b round round' coin recipient sender (m m' : Msg) box :
  is_u64 round -> is_u64 round' -> is_u16 (my_index a) -> is_u16 (my_index b) ->
  is_u16 recipient -> is_u16 sender ->
  seal_box a round coin recipient m = Ok box -> open_box b round' sender box = Ok m' ->
  sender = my_index a /\ recipient = my_index b /\ round' = round /\ domain b = domain a.
Proof.
  intros Hr Hr' Ha Hb Hrc Hs E O. unfold seal_box, aead_key in E. unfold open_box, aead_key in O.
  destruct (party_pubkeys a !! _) as [pk|]; simpl in E; [|done]. destruct coin as [esk nonce].
  destruct (U32_MAX <? Z.of_nat (length (domain a))) eqn:Hd; simpl in E; [done|].
  destruct (serde_encode m); simpl in E; [|done]. injection E as <-. simpl in O.
  destruct (from_slice _) as [epk|]; simpl in O; [|done].
  destruct (U32_MAX <? Z.of_nat (length (domain b))) eqn:Hd'; simpl in O; [done|].
  destruct (aead_decrypt _ _) eqn:Edec; simpl in O; [|done].
  apply decrypt_key, hkdf_derive_inj in Edec as [_ Hk]. zbool.
  apply aead_info_inj in Hk as (-> & -> & -> & ->); [done|lia|lia|done..].
Qed.
End binding.
