(* ===== verification/MpcDriver.v ===== *)
(** * Driving the signing protocol over synchronous rounds

    [transport/driver.rs], [transport/mesh.rs] and the suspendable handle of
    [transport/off_thread.rs] in [crypto/threshold-ecdsa/src].  The CGGMP21 state
    machine is an interface; [drive_over_exchange] runs it until it needs a message it
    does not have, exchanges one payload with every party, and goes on.  The theorems:
    a mesh of parties computes exactly what the state machines compute when their
    messages are handed over directly, and a machine parked between rounds computes
    what one driven in a single loop does. *)

From S2P Require Import Prelude MpcCodec.

(** ** round_based's state machines *)

Inductive MessageDestination := AllParties | OneParty (j : PartyIndex).
Inductive MessageType := Broadcast | P2P.

Record Incoming (Msg : Type) := mkIncoming {
  in_id : Z;
  in_sender : PartyIndex;
  in_type : MessageType;
  in_msg : Msg;
}.
Arguments mkIncoming {Msg} _ _ _ _.
Arguments in_sender {Msg} _.
Arguments in_msg {Msg} _.

Inductive ProceedResult (Output Msg : Type) :=
| SendMsg (recipient : MessageDestination) (msg : Msg)
| NeedsOneMoreMessage
| Yielded
| Finished (out : Output)
| Failed (err : string).
Arguments SendMsg {Output Msg} _ _.
Arguments NeedsOneMoreMessage {Output Msg}.
Arguments Yielded {Output Msg}.
Arguments Finished {Output Msg} _.
Arguments Failed {Output Msg} _.

Class StateMachine (SM Output Msg : Type) := {
  proceed : SM -> ProceedResult Output Msg * SM;
  received_msg : SM -> Incoming Msg -> option SM;
}.

Inductive DriveError :=
| MachineFailed (err : string)
| MessageRejected (sender : PartyIndex) (round : Z)
| Sealing (e : CodecError)
| ExchangeFailed
| TooFewPayloads
| Opening (sender : PartyIndex) (e : CodecError)
| NoProgress (round : Z).

(** How a party turns a round's messages into a payload and back; the code's is the
    encrypted codec, the reference's hands the messages over as they are. *)
Record Wire (Msg Payload : Type) := mkWire {
  seal : Z -> option Msg -> gmap PartyIndex Msg -> result CodecError Payload;
  open : Z -> PartyIndex -> Payload -> result CodecError (OpenedRound Msg);
}.
Arguments mkWire {Msg Payload} _ _.
Arguments seal {Msg Payload} _ _ _ _.
Arguments open {Msg Payload} _ _ _ _.

Section driver.
Context {SM Output Msg : Type} `{StateMachine SM Output Msg}.

(** The variables of the loop. *)
Record Driver := mkDriver {
  sm : SM;
  broadcast_out : option Msg;
  p2p_out : gmap PartyIndex Msg;
  incoming : list (Incoming Msg);
  next_id : Z;
  round : Z;
}.

Definition start (s : SM) : Driver := mkDriver s None ∅ [] 0 0.

Definition with_sm (s : SM) (d : Driver) : Driver :=
  mkDriver s (broadcast_out d) (p2p_out d) (incoming d) (next_id d) (round d).
Definition with_incoming (l : list (Incoming Msg)) (d : Driver) : Driver :=
  mkDriver (sm d) (broadcast_out d) (p2p_out d) l (next_id d) (round d).
Definition send (recipient : MessageDestination) (msg : Msg) (d : Driver) : Driver :=
  match recipient with
  | AllParties => mkDriver (sm d) (Some msg) (p2p_out d) (incoming d) (next_id d) (round d)
  | OneParty j =>
      mkDriver (sm d) (broadcast_out d) (<[j := msg]> (p2p_out d)) (incoming d) (next_id d) (round d)
  end.

(** Where the loop stands after running without the network. *)
Inductive Paused :=
| AtBoundary (d : Driver)
| Done (r : result DriveError Output)
| Working.

(** The loop between two exchanges; [Working] when [fuel] iterations were not enough. *)
Fixpoint advance (fuel : nat) (d : Driver) : Paused :=
  match fuel with
  | O => Working
  | S fuel =>
      let '(r, s) := proceed (sm d) in
      let d := with_sm s d in
      match r with
      | Finished out => Done (Ok out)
      | Failed err => Done (Err (MachineFailed err))
      | Yielded => advance fuel d
      | SendMsg recipient msg => advance fuel (send recipient msg d)
      | NeedsOneMoreMessage =>
          match incoming d with
          | msg :: rest =>
              match received_msg s msg with
              | Some s => advance fuel (with_incoming rest (with_sm s d))
              | None => Done (Err (MessageRejected (in_sender msg) (round d)))
              end
          | [] => AtBoundary d
          end
      end
  end.

Section wire.
Context {Payload : Type} (w : Wire Msg Payload) (me n : PartyIndex).

Definition outgoing (d : Driver) : result DriveError Payload :=
  map_err Sealing (seal w (round d) (broadcast_out d) (p2p_out d)).

Definition push (sender : PartyIndex) (t : MessageType) (m : option Msg)
    (q : list (Incoming Msg) * Z) : list (Incoming Msg) * Z :=
  match m with
  | Some m => (q.1 ++ [mkIncoming q.2 sender t m], u64_add q.2 1)
  | None => q
  end.

(** The loop over the senders; the queue and the next id. *)
Fixpoint receive_from (r : Z) (senders : list PartyIndex) (all : list Payload)
    (q : list (Incoming Msg) * Z) : result DriveError (list (Incoming Msg) * Z) :=
  match senders with
  | [] => Ok q
  | sender :: senders =>
      if sender =? me then receive_from r senders all q
      else
        payload ← ok_or (all !! Z.to_nat sender) TooFewPayloads;
        opened ← map_err (Opening sender) (open w r sender payload);
        receive_from r senders all
          (push sender P2P (p2p_to_me opened) (push sender Broadcast (broadcast opened) q))
  end.

Definition sent_something (d : Driver) : bool :=
  bool_decide (is_Some (broadcast_out d)) || negb (bool_decide (p2p_out d = ∅)).

(** A round boundary, from what the exchange returned; the queue is empty there. *)
Definition receive (d : Driver) (all : list Payload) : result DriveError Driver :=
  '(q, id) ← receive_from (round d) (seqZ 0 n) all ([], next_id d);
  if negb (sent_something d) && bool_decide (q = []) then Err (NoProgress (round d))
  else Ok (mkDriver (sm d) None ∅ q id (u64_add (round d) 1)).

(** [drive_over_exchange] against an exchange that answers each round's payload;
    [rounds] bounds the exchanges and [fuel] the iterations between them. *)
Fixpoint drive (rounds fuel : nat) (exchange : Z -> Payload -> option (list Payload)) (d : Driver)
    : option (result DriveError Output) :=
  match advance fuel d with
  | Working => None
  | Done r => Some r
  | AtBoundary d =>
      match outgoing d, rounds with
      | Err e, _ => Some (Err e)
      | Ok _, O => None
      | Ok payload, S rounds =>
          match all ← ok_or (exchange (round d) payload) ExchangeFailed; receive d all with
          | Ok d => drive rounds fuel exchange d
          | Err e => Some (Err e)
          end
      end
  end.

(** ** A machine parked between rounds *)

(** The thread of [spawn_protocol]: blocked in [exchange] with its payload handed out,
    or gone with its output. *)
Inductive Thread :=
| Parked (payload : Payload) (d : Driver)
| Exited (r : result DriveError Output).

(** Runs the thread to its next request; [None] when [fuel] does not suffice. *)
Definition resume (fuel : nat) (d : Driver) : option Thread :=
  match advance fuel d with
  | Working => None
  | Done r => Some (Exited r)
  | AtBoundary d =>
      Some match outgoing d with Ok payload => Parked payload d | Err e => Exited (Err e) end
  end.

Definition next_outgoing (t : Thread) : option Payload :=
  match t with Parked payload _ => Some payload | Exited _ => None end.

(** [Err] when the thread is gone. *)
Definition submit_round (fuel : nat) (all : list Payload) (t : Thread)
    : result unit (option Thread) :=
  match t with
  | Parked _ d =>
      Ok match receive d all with
         | Ok d => resume fuel d
         | Err e => Some (Exited (Err e))
         end
  | Exited _ => Err tt
  end.

Definition into_output (t : Thread) : option (result DriveError Output) :=
  match t with Exited r => Some r | Parked _ _ => None end.

(** The caller's loop: take the payload, have it exchanged, submit the answers. *)
Fixpoint pump (rounds fuel : nat) (service : Z -> Payload -> option (list Payload)) (r : Z)
    (t : Thread) : option (result DriveError Output) :=
  match next_outgoing t with
  | None => into_output t
  | Some payload =>
      match rounds with
      | O => None
      | S rounds =>
          match service r payload with
          | Some all =>
              match submit_round fuel all t with
              | Ok (Some t) => pump rounds fuel service (u64_add r 1) t
              | Ok None => None
              | Err _ => None
              end
          | None => Some (Err ExchangeFailed)
          end
      end
  end.
End wire.
End driver.
Arguments Driver : clear implicits.
Arguments Paused : clear implicits.
Arguments Thread : clear implicits.

Section parked.
Context {SM Output Msg Payload : Type} `{StateMachine SM Output Msg}.
Implicit Types d : Driver SM Msg.

Lemma advance_round fuel d d' : advance fuel d = AtBoundary d' -> round d' = round d.
Proof.
  revert d. induction fuel as [|fuel IH]; intros d E; simpl in E; [done|].
  destruct (proceed (sm d)) as [[[|j] m| | |out|err] s]; simpl in E; try done;
    try (apply IH in E; by rewrite E).
  destruct (incoming d) as [|msg rest]; [by injection E as <-|].
  destruct (received_msg s msg); [|done]. apply IH in E. by rewrite E.
Qed.

(** A machine parked on its thread between rounds, for as long as the caller likes,
    computes what one driven in a single loop computes. *)
Theorem parked_is_driven (w : Wire Msg Payload) me n rounds fuel exchange d :
  drive w me n rounds fuel exchange d
  = match resume w fuel d with
    | Some t => pump w me n rounds fuel exchange (round d) t
    | None => None
    end.
Proof.
  revert d. induction rounds as [|rounds IH]; intros d; unfold resume; simpl;
    destruct (advance fuel d) as [d1|r|] eqn:Ea; simpl; try done;
    destruct (outgoing w d1) as [payload|e]; simpl; try done.
  rewrite <- (advance_round _ _ _ Ea). destruct (exchange (round d1) payload) as [all|]; simpl; [|done].
  destruct (receive w me n d1 all) as [d2|e] eqn:Er; simpl; [|by destruct rounds].
  rewrite IH. replace (u64_add (round d1) 1) with (round d2); [done|].
  unfold receive in Er. destruct (receive_from _ _ _ _ _ _) as [[q id]|]; simpl in Er; [|done].
  by destruct (_ && _); simplify_eq/=.
Qed.
End parked.

(** ** The mesh *)

Section mesh.
Context {SM Output Msg : Type} `{StateMachine SM Output Msg}.

(** The parties, in the order of their indexes; the message of a party that is gone
    never comes, so the others' exchanges fail. *)
Definition mesh_round {Payload} (w : PartyIndex -> Wire Msg Payload) (n : PartyIndex) (fuel : nat)
    (ts : list (Thread SM Output Msg Payload)) : option (list (Thread SM Output Msg Payload)) :=
  match mapM next_outgoing ts with
  | Some all =>
      mapM (fun '(i, t) => match submit_round (w i) i n fuel all t with Ok t => t | Err _ => None end)
        (zip (seqZ 0 n) ts)
  | None =>
      Some ((fun t => match t with Parked _ _ => Exited (Err ExchangeFailed) | _ => t end) <$> ts)
  end.

Fixpoint mesh_rounds {Payload} (w : PartyIndex -> Wire Msg Payload) (n : PartyIndex)
    (rounds fuel : nat) (ts : list (Thread SM Output Msg Payload))
    : option (list (Thread SM Output Msg Payload)) :=
  match rounds with
  | O => Some ts
  | S rounds => ts ← mesh_round w n fuel ts; mesh_rounds w n rounds fuel ts
  end.

Definition mesh_start {Payload} (w : PartyIndex -> Wire Msg Payload) (n : PartyIndex) (fuel : nat)
    (machines : list SM) : option (list (Thread SM Output Msg Payload)) :=
  mapM (fun '(i, s) => resume (w i) fuel (start s)) (zip (seqZ 0 n) machines).

(** What the parties have computed after [rounds] exchanges. *)
Definition mesh_run {Payload} (w : PartyIndex -> Wire Msg Payload) (rounds fuel : nat)
    (machines : list SM) : option (list (option (result DriveError Output))) :=
  let n := Z.of_nat (length machines) in
  (fun ts : list (Thread SM Output Msg Payload) => into_output <$> ts)
    <$> (mesh_start w n fuel machines ≫= mesh_rounds w n rounds fuel).

(** The reference: the messages themselves are the payload. *)
Definition direct_wire (me : PartyIndex) : Wire Msg (option Msg * gmap PartyIndex Msg) :=
  mkWire (fun _ bc p2p => Ok (bc, p2p)) (fun _ _ '(bc, p2p) => Ok (mkOpenedRound bc (p2p !! me))).

(** What a wire between [n] parties has to do. *)
Record carries {Payload} (w : PartyIndex -> Wire Msg Payload) (n : PartyIndex) : Prop := {
  carries_seal i r bc p2p :
    0 <= i < n -> map_Forall (fun j _ => 0 <= j < n) p2p ->
    exists payload, seal (w i) r bc p2p = Ok payload;
  carries_open i j r bc p2p payload :
    0 <= i < n -> 0 <= j < n -> i <> j -> seal (w i) r bc p2p = Ok payload ->
    open (w j) r i payload = Ok (mkOpenedRound bc (p2p !! j));
}.
End mesh.

(** *** Indexed lists *)

(** [R i] relates the [i]-th elements, counting from [s]. *)
Fixpoint indexed {A B} (R : Z -> A -> B -> Prop) (s : Z) (l : list A) (k : list B) : Prop :=
  match l, k with
  | [], [] => True
  | a :: l, b :: k => R s a b /\ indexed R (s + 1) l k
  | _, _ => False
  end.

Lemma indexed_length {A B} (R : Z -> A -> B -> Prop) s l k : indexed R s l k -> length l = length k.
Proof. revert s k. induction l; intros s [|b k] Hl; simpl in *; try done. f_equal. naive_solver. Qed.

Lemma indexed_lookup {A B} (R : Z -> A -> B -> Prop) s l k i a b :
  indexed R s l k -> l !! i = Some a -> k !! i = Some b -> R (s + Z.of_nat i) a b.
Proof.
  revert s k i. induction l as [|x l IH]; intros s [|y k] i Hl Ha Hb; simpl in *; try done.
  destruct Hl as [Hx Hl]. destruct i as [|i]; simplify_eq/=; [by rewrite Z.add_0_r|].
  specialize (IH _ _ _ Hl Ha Hb). by replace (s + Z.of_nat (S i)) with (s + 1 + Z.of_nat i) by lia.
Qed.

Lemma indexed_Forall {A B} (R : Z -> A -> B -> Prop) (P : A -> Prop) s l k :
  indexed R s l k -> Forall P l -> indexed (fun i a b => R i a b /\ P a) s l k.
Proof.
  intros Hl Hp. revert s k Hl. induction Hp as [|a l Ha _ IH]; intros s [|b k] Hl; simpl in *; try done.
  destruct Hl as [Hab Hl]. split; [done|by apply IH].
Qed.

Lemma indexed_mapM {A B A' B'} (R : Z -> A -> B -> Prop) (Q : Z -> A' -> B' -> Prop)
    (f : Z * A -> option A') (g : Z * B -> option B') s l k :
  indexed R s l k ->
  (forall i a b, s <= i < s + Z.of_nat (length l) -> R i a b -> option_Forall2 (Q i) (f (i, a)) (g (i, b))) ->
  option_Forall2 (indexed Q s) (mapM f (zip (seqZ s (Z.of_nat (length l))) l))
    (mapM g (zip (seqZ s (Z.of_nat (length l))) k)).
Proof.
  revert s k. induction l as [|a l IH]; intros s [|b k] Hl Hfg; simpl in Hl; try done.
  { by constructor. }
  destruct Hl as [Ha Hl]. simpl length. rewrite Nat2Z.inj_succ, <- Z.add_1_r, seqZ_cons by lia.
  replace (Z.succ s) with (s + 1) by lia. replace (Z.pred (Z.of_nat (length l) + 1)) with (Z.of_nat (length l)) by lia.
  simpl length in Hfg. assert (IH' := IH (s + 1) k Hl ltac:(intros; apply Hfg; [lia|done])).
  cbn [zip zip_with mapM]. unfold mbind, option_bind in *.
  destruct (Hfg s a b ltac:(lia) Ha) as [a' b' Hab|]; [|by constructor].
  destruct IH' as [l' k' Hlk|]; by constructor.
Qed.

(** *** Two wires that carry the messages are interchangeable *)

Section transparent.
Context {SM Output Msg : Type} `{StateMachine SM Output Msg}.
Variables (P1 P2 : Type) (w1 : PartyIndex -> Wire Msg P1) (w2 : PartyIndex -> Wire Msg P2).
Variable n : PartyIndex.
Hypothesis carries1 : carries w1 n.
Hypothesis carries2 : carries w2 n.
(** The protocol's messages go to its parties. *)
Hypothesis sends_to_parties : forall s s' j m,
  proceed s = (SendMsg (OneParty j) m, s') -> 0 <= j < n.

Definition in_range (d : Driver SM Msg) : Prop := map_Forall (fun j _ => 0 <= j < n) (p2p_out d).

(** Two threads in round [k]: parked at the same point with payloads for the same
    messages, or gone with the same output. *)
Definition same (k : Z) (i : PartyIndex) (t1 : Thread SM Output Msg P1)
    (t2 : Thread SM Output Msg P2) : Prop :=
  match t1, t2 with
  | Parked p1 d1, Parked p2 d2 =>
      d1 = d2 /\ round d1 = k /\ in_range d1 /\
      outgoing (w1 i) d1 = Ok p1 /\ outgoing (w2 i) d2 = Ok p2
  | Exited r1, Exited r2 => r1 = r2
  | _, _ => False
  end.

Lemma advance_in_range fuel d d' : in_range d -> advance fuel d = AtBoundary d' -> in_range d'.
Proof.
  revert d. induction fuel as [|fuel IH]; intros d Hd E; simpl in E; [done|].
  destruct (proceed (sm d)) as [[[|j] m| | |out|err] s] eqn:Ep; simpl in E; try done;
    try (by apply IH in E).
  - apply IH in E; [done|]. apply map_Forall_insert_2; [by eapply sends_to_parties|done].
  - destruct (incoming d) as [|msg rest]; [by injection E as <-|].
    destruct (received_msg s msg); [|done]. by apply IH in E.
Qed.

Lemma resume_same fuel k i d :
  0 <= i < n -> in_range d -> round d = k ->
  option_Forall2 (same k i) (resume (w1 i) fuel d) (resume (w2 i) fuel d).
Proof.
  intros Hi Hd Hk. unfold resume.
  destruct (advance fuel d) as [d'|r|] eqn:E; [|by constructor..]. constructor.
  pose proof (advance_in_range _ _ _ Hd E) as Hd'. apply advance_round in E.
  destruct (carries_seal _ _ carries1 i (round d') (broadcast_out d') (p2p_out d') Hi Hd') as [p1 E1].
  destruct (carries_seal _ _ carries2 i (round d') (broadcast_out d') (p2p_out d') Hi Hd') as [p2 E2].
  unfold outgoing at 1 2. rewrite E1, E2. simpl. unfold outgoing. rewrite E1, E2. simpl.
  split_and!; [done|congruence|done..].
Qed.

(** What a party opens of the payloads of a round. *)
Definition agree (k : Z) (j : PartyIndex) (all1 : list P1) (all2 : list P2) : Prop :=
  forall i, 0 <= i < n -> i <> j -> exists p1 p2,
    all1 !! Z.to_nat i = Some p1 /\ all2 !! Z.to_nat i = Some p2 /\
    open (w1 j) k i p1 = open (w2 j) k i p2.

Lemma receive_from_same k j senders all1 all2 q :
  agree k j all1 all2 -> Forall (fun i => 0 <= i < n) senders ->
  receive_from (w1 j) j k senders all1 q = receive_from (w2 j) j k senders all2 q.
Proof.
  intros Ha Hs. revert q. induction Hs as [|i senders Hi _ IH]; intros q; simpl; [done|].
  destruct (i =? j) eqn:Ej; [done|]. zbool.
  destruct (Ha i Hi Ej) as (p1 & p2 & -> & -> & Eo). simpl. rewrite Eo.
  by destruct (open (w2 j) k i p2); simpl.
Qed.

Lemma receive_in_range {P} (w : Wire Msg P) me d all d' :
  receive w me n d all = Ok d' -> in_range d' /\ round d' = u64_add (round d) 1.
Proof.
  unfold receive. destruct (receive_from _ _ _ _ _ _) as [[q id]|]; simpl; [|done].
  destruct (_ && _); [done|]. intros [= <-]. split; [apply map_Forall_empty|done].
Qed.

Lemma submit_same fuel k j all1 all2 t1 t2 :
  0 <= j < n -> agree k j all1 all2 -> same k j t1 t2 -> is_Some (next_outgoing t1) ->
  option_Forall2 (same (u64_add k 1) j)
    (match submit_round (w1 j) j n fuel all1 t1 with Ok t => t | Err _ => None end)
    (match submit_round (w2 j) j n fuel all2 t2 with Ok t => t | Err _ => None end).
Proof.
  intros Hj Ha Hs Hn. destruct t1 as [p1 d|]; [|by destruct Hn].
  destruct t2 as [p2 d2|]; [|done]. destruct Hs as (<- & Hk & _). simpl.
  assert (receive (w1 j) j n d all1 = receive (w2 j) j n d all2) as Er.
  { unfold receive. rewrite Hk, (receive_from_same k j _ all1 all2); [done|done|].
    apply Forall_forall. intros i Hi%elem_of_seqZ. lia. }
  rewrite Er. destruct (receive (w2 j) j n d all2) as [d'|e] eqn:E; [|by repeat constructor].
  apply receive_in_range in E as [Hr Hd']. apply resume_same; [done|done|congruence].
Qed.

Lemma parked_both k s ts1 ts2 :
  indexed (same k) s ts1 ts2 ->
  is_Some (mapM next_outgoing ts1) <-> is_Some (mapM next_outgoing ts2).
Proof.
  intros Hts. rewrite !mapM_is_Some. revert s ts2 Hts.
  induction ts1 as [|t1 ts1 IH]; intros s [|t2 ts2] Hts; simpl in Hts; try done.
  destruct Hts as [Ht Hts]. rewrite !Forall_cons, (IH _ _ Hts). simpl.
  destruct t1, t2; simpl in *; try done; split; intros [[? ?] ?]; simplify_eq; eauto.
Qed.

Lemma outgoing_sealed {P} (w : Wire Msg P) (d : Driver SM Msg) p :
  outgoing w d = Ok p -> seal w (round d) (broadcast_out d) (p2p_out d) = Ok p.
Proof. unfold outgoing. destruct (seal _ _ _ _); simpl; congruence. Qed.

Lemma mapM_lookup_i {A B} (f : A -> option B) l k i a :
  mapM f l = Some k -> l !! i = Some a -> exists b, k !! i = Some b /\ f a = Some b.
Proof. intros E%mapM_Some Ha. exact (Forall2_lookup_l _ _ _ _ _ E Ha). Qed.

Lemma payloads_agree k j ts1 ts2 all1 all2 :
  0 <= j < n -> indexed (same k) 0 ts1 ts2 -> Z.of_nat (length ts1) = n ->
  mapM next_outgoing ts1 = Some all1 -> mapM next_outgoing ts2 = Some all2 ->
  agree k j all1 all2.
Proof.
  intros Hj Hts Hlen E1 E2 i Hi Hij.
  pose proof (indexed_length _ _ _ _ Hts) as Hlen2.
  destruct (lookup_lt_is_Some_2 ts1 (Z.to_nat i)) as [t1 H1]; [lia|].
  destruct (lookup_lt_is_Some_2 ts2 (Z.to_nat i)) as [t2 H2]; [lia|].
  pose proof (indexed_lookup _ _ _ _ _ _ _ Hts H1 H2) as Hs. rewrite Z.add_0_l, Z2Nat.id in Hs by lia.
  destruct (mapM_lookup_i _ _ _ _ _ E1 H1) as (p1 & L1 & N1).
  destruct (mapM_lookup_i _ _ _ _ _ E2 H2) as (p2 & L2 & N2).
  destruct t1 as [q1 d|], t2 as [q2 d2|]; simplify_eq/=.
  destruct Hs as (<- & Hk & _ & O1 & O2). exists p1, p2. split; [done|]. split; [done|].
  apply outgoing_sealed in O1, O2. rewrite Hk in O1, O2.
  rewrite (carries_open _ _ carries1 i j k _ _ p1 Hi Hj Hij O1).
  by rewrite (carries_open _ _ carries2 i j k _ _ p2 Hi Hj Hij O2).
Qed.

Lemma mesh_round_same fuel k ts1 ts2 :
  indexed (same k) 0 ts1 ts2 -> Z.of_nat (length ts1) = n ->
  option_Forall2 (indexed (same (u64_add k 1)) 0) (mesh_round w1 n fuel ts1)
    (mesh_round w2 n fuel ts2).
Proof.
  intros Hts Hlen. unfold mesh_round. pose proof (parked_both _ _ _ _ Hts) as Hboth.
  destruct (mapM next_outgoing ts1) as [all1|] eqn:E1.
  - destruct (mapM next_outgoing ts2) as [all2|] eqn:E2; [|by destruct (proj1 Hboth ltac:(eauto))].
    pose proof (indexed_Forall _ _ _ _ _ Hts
      (proj1 (mapM_is_Some next_outgoing ts1) (ex_intro _ _ E1))) as Hts'.
    assert (Hrun := indexed_mapM _ (same (u64_add k 1))
      (fun '(i, t) => match submit_round (w1 i) i n fuel all1 t with Ok t => t | Err _ => None end)
      (fun '(i, t) => match submit_round (w2 i) i n fuel all2 t with Ok t => t | Err _ => None end)
      _ _ _ Hts'). rewrite Hlen in Hrun. apply Hrun. intros j t1 t2 Hj [Hs Hp].
    apply submit_same; [done|by eapply payloads_agree|done|done].
  - destruct (mapM next_outgoing ts2) as [all2|] eqn:E2; [by destruct (proj2 Hboth ltac:(eauto))|].
    constructor. clear -Hts. generalize dependent ts2. generalize 0.
    induction ts1 as [|t1 ts1 IH]; intros s [|t2 ts2] Hts; simpl in *; try done.
    destruct Hts as [Ht Hts]. split; [|by apply IH]. by destruct t1, t2.
Qed.

Lemma mesh_round_length {P} (w : PartyIndex -> Wire Msg P) fuel
    (ts ts' : list (Thread SM Output Msg P)) :
  mesh_round w n fuel ts = Some ts' -> Z.of_nat (length ts) = n -> length ts' = length ts.
Proof.
  unfold mesh_round. intros E Hlen. destruct (mapM next_outgoing ts).
  - apply length_mapM in E. rewrite <- E, length_zip_with, length_seqZ. lia.
  - injection E as <-. apply length_fmap.
Qed.

Lemma mesh_rounds_same rounds fuel k ts1 ts2 :
  indexed (same k) 0 ts1 ts2 -> Z.of_nat (length ts1) = n ->
  option_Forall2 (fun ts1 ts2 => into_output <$> ts1 = into_output <$> ts2)
    (mesh_rounds w1 n rounds fuel ts1) (mesh_rounds w2 n rounds fuel ts2).
Proof.
  revert k ts1 ts2. induction rounds as [|rounds IH]; intros k ts1 ts2 Hts Hlen; simpl.
  - constructor. clear Hlen. revert ts2 Hts. generalize 0.
    induction ts1 as [|t1 ts1 IH]; intros s [|t2 ts2] Hts; simpl in *; try done.
    destruct Hts as [Ht Hts]. f_equal; [|by eapply IH]. destruct t1, t2; unfold same in Ht; try done; simpl; congruence.
  - pose proof (mesh_round_same fuel k ts1 ts2 Hts Hlen) as Hround.
    destruct (mesh_round w1 n fuel ts1) as [ts1'|] eqn:E1; inversion Hround as [? ts2' Hts' E' E2'|E' E2'].
    + cbn [mbind option_bind]. apply (IH _ _ _ Hts'). by rewrite (mesh_round_length _ _ _ _ E1).
    + constructor.
Qed.

Lemma mesh_start_same fuel machines :
  Z.of_nat (length machines) = n ->
  option_Forall2 (indexed (same 0) 0) (mesh_start w1 n fuel machines) (mesh_start w2 n fuel machines).
Proof.
  intros Hlen. unfold mesh_start.
  assert (Hid : indexed (fun _ => eq) 0 machines machines).
  { clear Hlen. generalize 0. induction machines; intros ?; simpl; auto. }
  assert (Hrun := indexed_mapM _ (same 0) (fun '(i, s) => resume (w1 i) fuel (start s))
    (fun '(i, s) => resume (w2 i) fuel (start s)) _ _ _ Hid). rewrite Hlen in Hrun.
  apply Hrun. intros i s ? Hi <-. apply resume_same; [lia|apply map_Forall_empty|done].
Qed.

Lemma mesh_run_same rounds fuel machines :
  Z.of_nat (length machines) = n -> mesh_run w1 rounds fuel machines = mesh_run w2 rounds fuel machines.
Proof.
  intros Hlen. unfold mesh_run. rewrite Hlen.
  pose proof (mesh_start_same fuel machines Hlen) as Hstart.
  destruct (mesh_start w1 n fuel machines) as [ts1|] eqn:E1; inversion Hstart as [? ts2 Hts E' E2|E' E2];
    [|done]. cbn [mbind option_bind].
  pose proof (mesh_rounds_same rounds fuel 0 ts1 ts2 Hts) as Hr.
  destruct Hr; simpl; [|congruence|done].
  unfold mesh_start in E1. apply length_mapM in E1. rewrite length_zip_with, length_seqZ in E1. lia.
Qed.
End transparent.
