(* ===== verification/MpcMesh.v ===== *)
(** * The encrypted mesh computes what the protocol computes

    [drive_over_exchange] of [crypto/threshold-ecdsa/src/transport/driver.rs] over the
    codec of [MpcCodec]: parties that know each other's keys and run the same
    execution reach, over the encrypted payloads, exactly the outputs their state
    machines reach when the messages are handed over directly. *)

From S2P Require Import Prelude MpcCodec MpcDriver.

Section encrypted.
Context `{RoundCryptoOk} `{SerdeOk RoundPacket}.
Context {SM Output Msg : Type} `{StateMachine SM Output Msg} `{SerdeOk Msg}.

(** The codec as a wire; [coins] gives the randomness of each round's boxes. *)
Definition encrypted_wire (codec : EncryptedRoundCodec)
    (coins : Z -> PartyIndex -> SecretKey * Nonce) : Wire Msg bytes :=
  mkWire (fun r => seal_round codec r (coins r)) (open_round codec).

Definition drive_over_exchange (rounds fuel : nat) (machine : SM) (codec : EncryptedRoundCodec)
    (coins : Z -> PartyIndex -> SecretKey * Nonce) (party_index n : PartyIndex)
    (exchange : Z -> bytes -> option (list bytes)) : option (result DriveError Output) :=
  drive (encrypted_wire codec coins) party_index n rounds fuel exchange (start machine).

(** The codecs of [n] parties in one execution. *)
Record federation (codecs : PartyIndex -> EncryptedRoundCodec) (n : PartyIndex) : Prop := {
  fed_index i : 0 <= i < n -> my_index (codecs i) = i;
  fed_address i j : 0 <= i < n -> 0 <= j < n -> addresses (codecs i) (codecs j);
  fed_domain i : 0 <= i < n -> Z.of_nat (length (domain (codecs i))) <= U32_MAX;
}.

Variables (codecs : PartyIndex -> EncryptedRoundCodec).
Variables (coins : PartyIndex -> Z -> PartyIndex -> SecretKey * Nonce).

Lemma encrypted_carries n :
  federation codecs n -> (forall m : Msg, is_Some (serde_encode m)) ->
  (forall p : RoundPacket, is_Some (serde_encode p)) ->
  carries (fun i => encrypted_wire (codecs i) (coins i)) n.
Proof.
  intros [Hi Ha Hd] Hm Hp. split; simpl.
  - intros i r bc p2p Hin Hr. apply seal_round_total; [by apply Hd|done|done|].
    intros j m Hj. apply Hr in Hj. destruct (Ha i j) as [_ Hpk]; [done|done|].
    rewrite Hi in Hpk by done. eauto.
  - intros i j r bc p2p payload Hin Hjn Hij E.
    apply (round_opens (codecs i) (codecs j)) in E; [|by apply Ha].
    by rewrite !Hi in E by done.
Qed.

Lemma direct_carries n : carries (Msg := Msg) direct_wire n.
Proof. split; simpl; [eauto|]. intros i j r bc p2p [bc' p'] ??? [= -> ->]. done. Qed.

(** C35: Encryption is transparent: the parties of a mesh compute, round for round, exactly
    what their state machines compute when every message is handed over directly,
    whatever the randomness of the boxes. *)
Theorem mesh_transparent rounds fuel (machines : list SM) :
  let n := Z.of_nat (length machines) in
  federation codecs n -> (forall m : Msg, is_Some (serde_encode m)) ->
  (forall p : RoundPacket, is_Some (serde_encode p)) ->
  (forall s s' j m, proceed s = (SendMsg (OneParty j) m, s') -> 0 <= j < n) ->
  mesh_run (fun i => encrypted_wire (codecs i) (coins i)) rounds fuel machines
  = mesh_run direct_wire rounds fuel machines.
Proof.
  intros n Hf Hm Hp Hs. apply (mesh_run_same _ _ _ _ n); [by apply encrypted_carries|
    apply direct_carries|done|done].
Qed.
End encrypted.

(** ** A demonstration execution *)

Definition frame (b : bytes) : bytes := Z.of_nat (length b) :: b.

Lemma frame_inj a b r s : frame a ++ r = frame b ++ s -> a = b /\ r = s.
Proof.
  unfold frame. simpl. intros [= Hl E]. apply app_inj_1 in E; [done|lia].
Qed.

(** A box carries its key; a key opens exactly the boxes that carry it. *)
Definition toy_crypto : RoundCrypto := {|
  PublicKey := Z;
  SecretKey := Z;
  AeadKey := bytes * bytes;
  Nonce := Z;
  public_key := id;
  serialize_pk pk := [pk];
  from_slice b := match b with [pk] => Some pk | _ => None end;
  shared_secret pk sk := [pk * sk];
  hkdf_derive _ shared info := (shared, info);
  aead_encrypt '(s, i) nonce m := frame s ++ frame i ++ nonce :: m;
  aead_decrypt '(s, i) c :=
    let k := frame s ++ frame i in
    if bool_decide (take (length k) c = k) then Some (tail (drop (length k) c)) else None;
|}.

Lemma toy_round_crypto_ok : @RoundCryptoOk toy_crypto.
Proof.
  split; [done|intros a b; simpl; unfold id; by rewrite Z.mul_comm|].
  intros [s i] nonce m. cbn [aead_decrypt aead_encrypt toy_crypto]. rewrite (app_assoc (frame s)). rewrite take_app_length.
  rewrite bool_decide_true by done. by rewrite drop_app_length.
Qed.

Lemma toy_ideal : @IdealAead toy_crypto.
Proof.
  split.
  - intros [s i] [s' i'] nonce m m'. cbn [aead_decrypt aead_encrypt toy_crypto]. case_bool_decide as Ht; [|done]. intros _.
    match type of Ht with take ?k ?c = _ => pose proof (take_drop k c) as Hc end. rewrite Ht in Hc. rewrite <- app_assoc in Hc. apply frame_inj in Hc as [-> Hc].
    by apply frame_inj in Hc as [-> _].
  - intros salt s i s' i' [= -> ->]. done.
Qed.

(** A serialization of countable data. *)
Definition toy_serde A `{Countable A} : Serde A := {|
  serde_encode a := Some [Zpos (countable.encode a)];
  serde_decode b := match b with [Zpos p] => countable.decode p | _ => None end;
|}.

Lemma toy_serde_ok A `{Countable A} : @SerdeOk A (toy_serde A).
Proof. intros a b [= <-]. simpl. apply countable.decode_encode. Qed.

#[local] Instance box_eq_dec : EqDecision EciesBox.
Proof. solve_decision. Defined.
#[local] Instance box_countable : Countable EciesBox.
Proof.
  apply (inj_countable' (fun b => (ephemeral_pk b, ciphertext b)) (fun p => mkEciesBox p.1 p.2)).
  by intros [].
Defined.
#[local] Instance packet_eq_dec : EqDecision RoundPacket.
Proof. solve_decision. Defined.
#[local] Instance packet_countable : Countable RoundPacket.
Proof.
  apply (inj_countable' (fun b => (pkt_broadcast b, pkt_p2p b)) (fun p => mkRoundPacket p.1 p.2)).
  by intros [].
Defined.

(** A protocol of one round: party [me] of [n] broadcasts its number, sends every party
    its number plus that party's index, and outputs the sum of what it receives. *)
Record ToySm := mkToySm { toy_me : Z; toy_next : Z; toy_sum : Z; toy_missing : nat }.

Definition toy_machine {Output} (n : Z) (finish : Z -> Output) : StateMachine ToySm Output Z := {|
  proceed s :=
    let step := mkToySm (toy_me s) (toy_next s + 1) (toy_sum s) (toy_missing s) in
    if toy_next s =? -1 then (SendMsg AllParties (toy_me s), step)
    else if (0 <=? toy_next s) && (toy_next s <? n)
      then if toy_next s =? toy_me s then (Yielded, step)
           else (SendMsg (OneParty (toy_next s)) (100 * toy_me s + toy_next s), step)
      else match toy_missing s with O => (Finished (finish (toy_sum s)), s) | S _ => (NeedsOneMoreMessage, s) end;
  received_msg s msg :=
    Some (mkToySm (toy_me s) (toy_next s) (toy_sum s + in_msg msg) (pred (toy_missing s)));
|}.

Definition toy_codec (i : PartyIndex) : @EncryptedRoundCodec toy_crypto :=
  @mkEncryptedRoundCodec toy_crypto i (i + 5) [5; 6; 7] [1; 2; 3].
Definition toy_coins (i : PartyIndex) (r : Z) (j : PartyIndex) : Z * Z := (1000 + 10 * i + j, r).
Definition toy_parties : list ToySm := (fun i => mkToySm i (-1) 0 4) <$> [0; 1; 2].

Definition toy_packet : Serde RoundPacket := toy_serde RoundPacket.
Definition toy_packet_ok : @SerdeOk _ toy_packet := toy_serde_ok RoundPacket.
Definition toy_msg : Serde Z := toy_serde Z.
Definition toy_msg_ok : @SerdeOk _ toy_msg := toy_serde_ok Z.

Lemma toy_sends {Output} (finish : Z -> Output) s s' j m :
  @proceed _ _ _ (toy_machine 3 finish) s = (SendMsg (OneParty j) m, s') -> 0 <= j < 3.
Proof.
  simpl. destruct (toy_next s =? -1); [done|]. destruct (_ && _) eqn:Hr; [|by destruct (toy_missing s)].
  apply andb_prop in Hr as [??]. zbool. destruct (toy_next s =? toy_me s); [done|]. intros [= <- _ _]. lia.
Qed.

Section witnesses.
#[local] Existing Instance toy_crypto.
#[local] Existing Instance toy_round_crypto_ok.
#[local] Existing Instance toy_ideal.
#[local] Existing Instance toy_packet.
#[local] Existing Instance toy_packet_ok.
#[local] Existing Instance toy_msg.
#[local] Existing Instance toy_msg_ok.
#[local] Instance toy_protocol : StateMachine ToySm Z Z := toy_machine 3 id.

Example toy_runs :
  mesh_run (fun i => encrypted_wire (toy_codec i) (toy_coins i)) 1 20 toy_parties
  = Some [Some (Ok 303); Some (Ok 204); Some (Ok 105)].
Proof. vm_compute. reflexivity. Qed.

Lemma toy_federation : federation toy_codec 3.
Proof.
  split; [done| |done]. intros i j Hi Hj. split; [done|]. simpl.
  assert (j = 0 \/ j = 1 \/ j = 2) as [->|[->| ->]] by lia; done.
Qed.

Lemma mesh_transparent_witness :
  mesh_run (fun i => encrypted_wire (toy_codec i) (toy_coins i)) 1 20 toy_parties
  = mesh_run direct_wire 1 20 toy_parties.
Proof.
  apply (mesh_transparent toy_codec toy_coins 1 20 toy_parties);
    [exact toy_federation|intros m; eexists; reflexivity|intros q; eexists; reflexivity|exact (toy_sends id)].
Defined.

(** The box of party 0 to party 2 in round 7, opened by party 2. *)
Definition toy_box : EciesBox :=
  match seal_box (toy_codec 0) 7 (1002, 9) 2 42 with Ok b => b | Err _ => mkEciesBox [] [] end.

Lemma box_bound_to_context_witness :
  0 = my_index (toy_codec 0) /\ 2 = my_index (toy_codec 2) /\ 7 = 7 /\
  domain (toy_codec 2) = domain (toy_codec 0).
Proof.
  apply (box_bound_to_context (toy_codec 0) (toy_codec 2) 7 7 (1002, 9) 2 0 42 42 toy_box);
    try (split; discriminate); vm_compute; reflexivity.
Defined.
End witnesses.
