(* ===== verification/UsdtTypes.v ===== *)
(** * USDT module: data model, fee quotes and parameters

    [modules/usdt/fedimint-usdt-common/src/lib.rs]: addresses, votes, the
    transaction items and consensus items with their errors, the gas-derived fee
    quotes, the price-feed conversion and the validation of the federation's
    parameters.  An address, a hash and a proof node are their bytes; amounts are
    integers in the token's smallest unit (10^-6 USDT). *)

From S2P Require Import Prelude FedimintCore.

Abbreviation bytes := (list Z) (only parsing).
Abbreviation EvmAddress := (list Z) (only parsing).
Abbreviation Hash := (list Z) (only parsing).
Abbreviation UsdtAmount := Z (only parsing).

Definition zero_address : EvmAddress := replicate 20 0.

Definition USDT_UNIT : AmountUnit := 1.

(** A transaction's id as a number, with the index of one of its outputs.  The
    derived order compares the id first. *)
Definition OutPoint : Type := Z * Z.

Definition OutPoint_le (a b : OutPoint) : Prop := a.1 < b.1 \/ (a.1 = b.1 /\ a.2 <= b.2).
#[export] Instance OutPoint_le_dec : RelDecision OutPoint_le.
Proof. intros a b. unfold OutPoint_le. apply _. Defined.

(** ** Votes *)

Record FeeVote := mkFeeVote { max_fee_per_gas_wei : Z; usdt_per_eth_e6 : Z }.
#[export] Instance FeeVote_eq_dec : EqDecision FeeVote.
Proof. solve_decision. Defined.

Definition MAX_SANE_MAX_FEE_PER_GAS_WEI : Z := 10000000000000.
Definition MAX_SANE_USDT_PER_ETH_E6 : Z := 1000000000000.

Definition fee_vote_in_sane_range (vote : FeeVote) : bool :=
  (1 <=? max_fee_per_gas_wei vote) && (max_fee_per_gas_wei vote <=? MAX_SANE_MAX_FEE_PER_GAS_WEI)
  && ((1 <=? usdt_per_eth_e6 vote) && (usdt_per_eth_e6 vote <=? MAX_SANE_USDT_PER_ETH_E6)).

Record BlockHashObservation := mkBlockHashObservation { obs_height : Z; obs_block_hash : Hash }.
#[export] Instance BlockHashObservation_eq_dec : EqDecision BlockHashObservation.
Proof. solve_decision. Defined.

Record BootstrapObservation := mkBootstrapObservation {
  entry_point_ok : bool;
  factory_ok : bool;
  impl_ok : bool;
  broadcaster_funded : bool;
  rpc_healthy : bool;
}.
#[export] Instance BootstrapObservation_eq_dec : EqDecision BootstrapObservation.
Proof. solve_decision. Defined.

Inductive BootstrapState := AwaitingInfra | Ready | Degraded.

Record WithdrawFeesVote := mkWithdrawFeesVote { wfv_recipient : EvmAddress; wfv_amount : UsdtAmount }.
#[export] Instance WithdrawFeesVote_eq_dec : EqDecision WithdrawFeesVote.
Proof. solve_decision. Defined.

(** ** Gas-derived fee quotes *)

Definition WITHDRAWAL_GAS_UNITS : Z := 360000.
Definition WITHDRAWAL_FEE_BUFFER_PERCENT : Z := 20.
Definition MIN_WITHDRAWAL_FEE : UsdtAmount := 10000.
Definition SWEEP_GAS_UNITS : Z := 800000.
Definition MIN_DEPOSIT_FEE : UsdtAmount := 10000.
Definition WEI_PER_ETH : Z := 1000000000000000000.

Definition gas_cost_fee_quote (gas_units : Z) (median : FeeVote) (floor_raw : Z)
    : option UsdtAmount :=
  gas_cost_wei ← checked_mul_u128 gas_units (max_fee_per_gas_wei median);
  numerator ← checked_mul_u128 gas_cost_wei (usdt_per_eth_e6 median);
  numerator ← checked_mul_u128 numerator (100 + WITHDRAWAL_FEE_BUFFER_PERCENT);
  denominator ← checked_mul_u128 WEI_PER_ETH 100;
  rounded ← checked_add_u128 numerator (denominator - 1);
  fee ← checked_div rounded denominator;
  try_u64 (Z.max fee floor_raw).

Definition wei_gas_cost_to_usdt (gas_cost_wei usdt_per_eth_e6 : Z) : option UsdtAmount :=
  numerator ← checked_mul_u128 gas_cost_wei usdt_per_eth_e6;
  rounded ← checked_add_u128 numerator (WEI_PER_ETH - 1);
  usdt ← checked_div rounded WEI_PER_ETH;
  try_u64 usdt.

Definition withdrawal_fee_quote (median : FeeVote) : option UsdtAmount :=
  gas_cost_fee_quote WITHDRAWAL_GAS_UNITS median MIN_WITHDRAWAL_FEE.

Definition deposit_fee_quote (median : FeeVote) : option UsdtAmount :=
  gas_cost_fee_quote SWEEP_GAS_UNITS median MIN_DEPOSIT_FEE.

(** [10u128.checked_pow(decimals)]. *)
Definition checked_pow10_u128 (e : Z) : option Z :=
  if 10 ^ e <=? U128_MAX then Some (10 ^ e) else None.

Definition chainlink_eth_usd_to_usdt_per_eth_e6 (answer feed_decimals round_id answered_in_round
    updated_at chain_now max_staleness_secs : Z) : option Z :=
  if (answer <=? 0) || (answered_in_round <? round_id) then None
  else
    age ← checked_sub_u64 chain_now updated_at;
    if max_staleness_secs <? age then None
    else
      scaled ← checked_mul_u128 answer 1000000;
      divisor ← checked_pow10_u128 feed_decimals;
      price ← checked_div scaled divisor;
      try_u64 price.

(** ** Federation parameters *)

Record UsdtGenParams := mkUsdtGenParams {
  gen_usdt_contract : EvmAddress;
  gen_chain_id : Z;
  gen_confirmation_depth : Z;
  gen_entry_point : EvmAddress;
  gen_account_factory : EvmAddress;
  gen_simple_account_impl : EvmAddress;
  gen_broadcaster_min_balance_wei : Z;
  gen_eth_usd_price_feed : EvmAddress;
  gen_price_feed_max_staleness_secs : Z;
  gen_residual_recovery_recipient : EvmAddress;
}.

Definition is_dev_chain (chain_id : Z) : bool := (chain_id =? 31337) || (chain_id =? 1337).

Definition MIN_PROD_CONFIRMATION_DEPTH : Z := 6.
Definition MAX_BROADCASTER_MIN_BALANCE_WEI : Z := 10000000000000000000.

Inductive ParamError :=
| DepthZero | DepthTooLow | PlaceholderUsdtContract | PlaceholderEntryPoint
| PlaceholderAccountFactory | PlaceholderAccountImpl | PlaceholderRecoveryRecipient
| StalenessOutOfRange | MinBalanceZero | MinBalanceTooHigh.

(** [ensure!] in a function without state. *)
Definition check {E} (b : bool) (e : E) : result E unit := if b then Ok tt else Err e.

(** The checks of a chain that is not a development chain.  [unsafe_ack] is the
    operator's environment variable. *)
Definition validate_prod_params (unsafe_ack : bool) (p : UsdtGenParams) : result ParamError unit :=
  check ((MIN_PROD_CONFIRMATION_DEPTH <=? gen_confirmation_depth p) || unsafe_ack) DepthTooLow;;
  check (bool_decide (gen_usdt_contract p ≠ zero_address)) PlaceholderUsdtContract;;
  check (bool_decide (gen_entry_point p ≠ zero_address)) PlaceholderEntryPoint;;
  check (bool_decide (gen_account_factory p ≠ zero_address)) PlaceholderAccountFactory;;
  check (bool_decide (gen_simple_account_impl p ≠ zero_address)) PlaceholderAccountImpl;;
  check (bool_decide (gen_residual_recovery_recipient p ≠ zero_address))
    PlaceholderRecoveryRecipient.

Definition validate_usdt_params (unsafe_ack : bool) (p : UsdtGenParams) : result ParamError unit :=
  check (1 <=? gen_confirmation_depth p) DepthZero;;
  (if negb (is_dev_chain (gen_chain_id p)) then validate_prod_params unsafe_ack p else Ok tt);;
  check ((1 <=? gen_price_feed_max_staleness_secs p)
         && (gen_price_feed_max_staleness_secs p <=? 86400)) StalenessOutOfRange;;
  check (0 <? gen_broadcaster_min_balance_wei p) MinBalanceZero;;
  check (gen_broadcaster_min_balance_wei p <=? MAX_BROADCASTER_MIN_BALANCE_WEI) MinBalanceTooHigh.

(** ** Transaction and consensus items *)

Definition MAX_DEPOSIT_PROOF_BYTES : Z := 16384.
Definition BLOCK_HASH_RING_LEN : Z := 300.
Definition MPC_ROUND_CHUNK_SIZE : Z := 30000.
Definition MAX_MPC_ROUND_BYTES : Z := 512 * 1024.
Definition MAX_MPC_CHUNKS : Z := 18.

Record DepositProof := mkDepositProof {
  block_number : Z;
  header_rlp : bytes;
  account_proof : list bytes;
  storage_proof : list bytes;
}.

Definition encoded_len_bytes (p : DepositProof) : Z :=
  Z.of_nat (length (header_rlp p) + sum_list (length <$> account_proof p)
            + sum_list (length <$> storage_proof p))%nat.

Record MpcRoundItem := mkMpcRoundItem {
  mpc_session_id : Hash;
  mpc_round : Z;
  mpc_chunk : Z;
  mpc_chunk_count : Z;
  mpc_payload : bytes;
}.

Inductive UsdtConsensusItem :=
| BlockCount (vote : Z)
| MpcRound (item : MpcRoundItem)
| MpcSignature (session_id : Hash) (signature : bytes)
| RotateSigning (session_id : Hash)
| UserOpConfirmed (op_hash : Hash) (success : bool) (block : Z) (block_hash : Hash)
    (swept actual_gas_cost_wei : UsdtAmount)
| FeeVoteItem (vote : FeeVote)
| BootstrapObservationItem (obs : BootstrapObservation)
| ReplaceUserOp (op_hash : Hash)
| BlockHash (obs : BlockHashObservation)
| RecoverResidual (account : EvmAddress) (deposit_wei : Z)
| WithdrawFeesVoteItem (vote : WithdrawFeesVote)
| ConsensusItemDefault (variant : Z) (raw : bytes).

Inductive UsdtInput :=
| RefundV0 (out_point : OutPoint)
| DepositProofV0 (claim_pk : PublicKey) (proof : DepositProof) (fee : UsdtAmount)
| InputDefault (variant : Z) (raw : bytes).

Record UsdtOutputV0 := mkUsdtOutputV0 {
  out_recipient : EvmAddress;
  out_amount : UsdtAmount;
  out_max_fee : UsdtAmount;
  out_refund_pubkey : PublicKey;
}.

Inductive UsdtOutput :=
| OutputV0 (w : UsdtOutputV0)
| OutputDefault (variant : Z) (raw : bytes).

Inductive UsdtInputError :=
| UnsupportedInputVariant
| DepositFeeInsufficient (quote offered : UsdtAmount)
| FeeExceedsAmount (amount fee : UsdtAmount)
| InputNoFeeQuoteAvailable
| InputFeeQuoteOverflow
| UnknownRefund
| DepositProofNotAnchored (block : Z)
| DepositProofInvalid
| DepositProofStale (proven credited : UsdtAmount).

Inductive UsdtOutputError :=
| UnsupportedOutputVariant
| OutputNoFeeQuoteAvailable
| OutputFeeQuoteOverflow
| FeeQuoteExceeded (quote max_fee : UsdtAmount).

(** ** What a quote promises *)

(** The products of the quote, when none of them exceeds [u128]. *)
Lemma gas_cost_fee_quote_eq gas m floor q :
  gas_cost_fee_quote gas m floor = Some q ->
  q = Z.max ((gas * max_fee_per_gas_wei m * usdt_per_eth_e6 m * 120
              + (100 * WEI_PER_ETH - 1)) / (100 * WEI_PER_ETH)) floor /\ q <= U64_MAX.
Proof.
  unfold gas_cost_fee_quote. intros H. run_inv H.
  repeat match goal with
  | H : checked_mul_u128 _ _ = Some _ |- _ => apply checked_mul_u128_Some in H as [-> _]
  | H : checked_add_u128 _ _ = Some _ |- _ => apply checked_add_u128_Some in H as [-> _]
  end.
  ok_facts. subst.
  unfold WITHDRAWAL_FEE_BUFFER_PERCENT in *. split; [|done].
  by rewrite (Z.mul_comm WEI_PER_ETH 100).
Qed.

Definition gas_value (gas : Z) (m : FeeVote) : Z :=
  gas * max_fee_per_gas_wei m * usdt_per_eth_e6 m.

(** A quote is at least its floor, covers the converted gas cost with the 20%
    buffer, and is the least such amount: the federation is never undercharged by
    rounding and the user never pays a unit more. *)
Theorem fee_quote_least_cover gas m floor q :
  gas_cost_fee_quote gas m floor = Some q ->
  floor <= q /\
  gas_value gas m * 120 <= q * (100 * WEI_PER_ETH) /\
  (floor < q -> (q - 1) * (100 * WEI_PER_ETH) < gas_value gas m * 120).
Proof.
  intros H. apply gas_cost_fee_quote_eq in H as [-> _]. fold (gas_value gas m).
  pose proof (div_ceil_spec (gas_value gas m * 120) (100 * WEI_PER_ETH) ltac:(done)) as Hd.
  set (c := (_ + _) / _) in *. assert (0 < 100 * WEI_PER_ETH) by done.
  split; [lia|]. split; [nia|]. intros. rewrite Z.max_l by lia. nia.
Qed.

Lemma fee_quote_least_cover_witness :
  10000 <= 38880000 /\
  gas_value WITHDRAWAL_GAS_UNITS (mkFeeVote 30000000000 3000000000) * 120
    <= 38880000 * (100 * WEI_PER_ETH) /\
  (10000 < 38880000 -> (38880000 - 1) * (100 * WEI_PER_ETH)
    < gas_value WITHDRAWAL_GAS_UNITS (mkFeeVote 30000000000 3000000000) * 120).
Proof. apply (fee_quote_least_cover _ _ 10000). reflexivity. Defined.

(** The range in which votes are stored leaves every product inside [u128]. *)
Lemma gas_cost_fee_quote_sane gas m floor :
  0 <= gas <= 800000 -> 0 <= floor <= 10000 -> fee_vote_in_sane_range m = true ->
  exists q, gas_cost_fee_quote gas m floor = Some q /\ floor <= q <= 9600000000000.
Proof.
  intros Hg Hf Hs. unfold fee_vote_in_sane_range, MAX_SANE_MAX_FEE_PER_GAS_WEI,
    MAX_SANE_USDT_PER_ETH_E6 in Hs. zbool.
  destruct m as [f p]; simpl in *.
  assert (gas * f <= 800000 * 10000000000000) by nia.
  assert (gas * f * p <= 800000 * 10000000000000 * 1000000000000) by nia.
  assert (0 <= gas * f) by nia. assert (0 <= gas * f * p) by nia.
  assert (Hm : forall a b, a * b <= U128_MAX -> checked_mul_u128 a b = Some (a * b))
    by (intros; by apply checked_mul_u128_Some).
  unfold gas_cost_fee_quote, WITHDRAWAL_FEE_BUFFER_PERCENT; simpl.
  rewrite Hm by (unfold_widths; lia); simpl. rewrite Hm by (unfold_widths; lia); simpl.
  rewrite Hm by (unfold_widths; lia); simpl.
  change (WEI_PER_ETH * 100 =? 0) with false.
  assert (checked_add_u128 (gas * f * p * (100 + 20)) (WEI_PER_ETH * 100 - 1)
          = Some (gas * f * p * (100 + 20) + (WEI_PER_ETH * 100 - 1))) as ->.
  { apply checked_add_u128_Some. unfold_widths. unfold WEI_PER_ETH. lia. }
  simpl. unfold checked_div. change (WEI_PER_ETH * 100 =? 0) with false. simpl.
  set (n := gas * f * p * (100 + 20)) in *.
  assert ((n + (WEI_PER_ETH * 100 - 1)) / (WEI_PER_ETH * 100) <= 9600000000000).
  { apply Z.lt_succ_r, div_lt_iff; [done|]. unfold n, WEI_PER_ETH. lia. }
  exists (Z.max ((n + (WEI_PER_ETH * 100 - 1)) / (WEI_PER_ETH * 100)) floor).
  split; [|lia]. apply try_u64_Some. split; [done|]. unfold_widths. lia.
Qed.

(** A price is reported exactly when the feed's answer is positive, its round
    complete, its timestamp neither in the future nor older than the allowed age,
    and the rescaling stays inside its integer widths; it is then the answer
    rescaled to six decimals, rounded down. *)
Theorem chainlink_price_correct answer dec round_id answered updated now max_age p :
  0 <= dec ->
  chainlink_eth_usd_to_usdt_per_eth_e6 answer dec round_id answered updated now max_age = Some p <->
  (0 < answer /\ round_id <= answered /\ updated <= now /\ now - updated <= max_age /\
   answer * 1000000 <= U128_MAX /\ 10 ^ dec <= U128_MAX /\
   p * 10 ^ dec <= answer * 1000000 < (p + 1) * 10 ^ dec /\ p <= U64_MAX).
Proof.
  intros Hd. assert (0 < 10 ^ dec) by (apply Z.pow_pos_nonneg; lia).
  pose proof (mul_div_floor (answer * 1000000) (10 ^ dec) ltac:(done)).
  unfold chainlink_eth_usd_to_usdt_per_eth_e6. split.
  - unfold checked_sub_u64, checked_mul_u128, checked_pow10_u128, checked_div. intros H1.
    run_inv H1. zbool. ok_facts. subst. lia.
  - intros (? & ? & ? & ? & ? & ? & ? & ?).
    rewrite (proj2 (Z.leb_gt answer 0)), (proj2 (Z.ltb_ge answered round_id)) by lia; simpl.
    unfold checked_sub_u64. rewrite (proj2 (Z.leb_le updated now)) by lia; simpl.
    rewrite (proj2 (Z.ltb_ge max_age _)) by lia.
    rewrite (proj2 (checked_mul_u128_Some answer 1000000 _)) by (split; [reflexivity|done]); simpl.
    unfold checked_pow10_u128. rewrite (proj2 (Z.leb_le (10 ^ dec) _)) by lia; simpl.
    unfold checked_div. rewrite (proj2 (Z.eqb_neq _ 0)) by lia; simpl.
    assert (p = answer * 1000000 / 10 ^ dec) as -> by nia.
    apply try_u64_Some. done.
Qed.

Lemma chainlink_price_correct_witness :
  chainlink_eth_usd_to_usdt_per_eth_e6 250012345678 8 7 7 1000 1600 14400 = Some 2500123456 <->
  (0 < 250012345678 /\ 7 <= 7 /\ 1000 <= 1600 /\ 1600 - 1000 <= 14400 /\
   250012345678 * 1000000 <= U128_MAX /\ 10 ^ 8 <= U128_MAX /\
   2500123456 * 10 ^ 8 <= 250012345678 * 1000000 < (2500123456 + 1) * 10 ^ 8 /\
   2500123456 <= U64_MAX).
Proof. apply (chainlink_price_correct _ 8 7 7 1000 1600 14400). lia. Defined.

(** ** Valid parameters *)

Definition params_valid (unsafe_ack : bool) (p : UsdtGenParams) : Prop :=
  1 <= gen_confirmation_depth p /\
  (is_dev_chain (gen_chain_id p) = false ->
    (unsafe_ack = true \/ MIN_PROD_CONFIRMATION_DEPTH <= gen_confirmation_depth p) /\
    zero_address ∉ [gen_usdt_contract p; gen_entry_point p; gen_account_factory p;
                    gen_simple_account_impl p; gen_residual_recovery_recipient p]) /\
  1 <= gen_price_feed_max_staleness_secs p <= 86400 /\
  0 < gen_broadcaster_min_balance_wei p <= MAX_BROADCASTER_MIN_BALANCE_WEI.

Lemma check_Ok {E} (b : bool) (e : E) : check b e = Ok tt <-> b = true.
Proof. destruct b; simpl; naive_solver. Qed.

Lemma seq_Ok {E} (a b : result E unit) : (a;; b) = Ok tt <-> a = Ok tt /\ b = Ok tt.
Proof. destruct a as [[]|]; simpl; naive_solver. Qed.

(** [validate_usdt_params] accepts exactly the parameters that respect the
    depth, address, staleness and balance rules of the chain they target. *)
Theorem validate_usdt_params_correct unsafe_ack p :
  validate_usdt_params unsafe_ack p = Ok tt <-> params_valid unsafe_ack p.
Proof.
  unfold validate_usdt_params, validate_prod_params, params_valid.
  destruct (is_dev_chain _) eqn:Ed; simpl negb; cbv iota;
    rewrite ?seq_Ok, ?check_Ok, ?andb_true_iff, ?orb_true_iff, ?bool_decide_eq_true,
      ?Z.leb_le, ?Z.ltb_lt, ?not_elem_of_cons; [naive_solver lia|].
  split.
  - intros (? & (? & ? & ? & ? & ? & ?) & ? & ? & ?). split_and!; try done; try lia.
    intros _. split; [tauto|]. split_and!; auto. apply not_elem_of_nil.
  - intros (? & (? & ? & ? & ? & ? & ? & ?) & ? & ?); [done|]. split_and!; auto; try lia. tauto.
Qed.
