(* ===== verification/CliInfo.v ===== *)
(** * The [info] command

    [bin/fedimint-cli-experimint/src/info.rs]: every module instance of the federation
    and the units it declares, and every unit declared with its primary module and
    balance.  The client is an interface; the theorem says that the listing is complete
    and precise. *)

From S2P Require Import Prelude OrderStats FedimintCore AmmPoolId AmmConfig UsdtTypes.
From stdpp Require Import strings gmap.
#[local] Open Scope Z_scope.

Abbreviation ModuleInstanceId := Z (only parsing).

Inductive UnitSource := FromPrimaryModuleSupport | AnyUnit | ModuleConfig | ModuleConstant | Undeclared.
Inductive ModuleStatus := Active | UnsupportedByClient.

(** fedimint-client's declaration of a module, without its priority. *)
Inductive PrimaryModuleSupport :=
| PrimarySelected (units : gset AmountUnit)
| PrimaryAny
| PrimaryNone.

Record ModuleInstanceInfo := mkModuleInstanceInfo {
  mi_id : ModuleInstanceId;
  mi_kind : string;
  mi_status : ModuleStatus;
  mi_units : gset AmountUnit;
  mi_units_source : UnitSource;
}.

Record UnitInfo := mkUnitInfo {
  ui_unit : AmountUnit;
  ui_primary_module : option ModuleInstanceId;
  ui_balance : option Z;
}.

Record Info := mkInfo {
  federation_id : Z;
  federation_name : option string;
  info_modules : list ModuleInstanceInfo;
  info_units : list UnitInfo;
}.

Definition USDT_KIND : string := "usdt".

Section info.
(** The opened client, with its federation's configuration: the instances in ascending
    order of their ids. *)
Record Client := mkClient {
  c_federation_id : Z;
  c_federation_name : option string;
  c_modules : list (ModuleInstanceId * string);
  has_module : ModuleInstanceId -> bool;
  supports_being_primary : ModuleInstanceId -> result string PrimaryModuleSupport;
  get_amm_config : ModuleInstanceId -> result string AmmClientConfig;
  primary_module_for_unit : AmountUnit -> option ModuleInstanceId;
  get_balance_for_unit : AmountUnit -> result string Z;
}.

Variable client : Client.

Definition declared_units (id : ModuleInstanceId) (kind : string)
    : result string (gset AmountUnit * UnitSource) :=
  support ← supports_being_primary client id;
  match support with
  | PrimarySelected units => Ok (units, FromPrimaryModuleSupport)
  | PrimaryAny => Ok (∅, AnyUnit)
  | PrimaryNone =>
      if bool_decide (kind = AMM_KIND) then
        config ← get_amm_config client id;
        Ok (dom (client_units config), ModuleConfig)
      else if bool_decide (kind = USDT_KIND) then Ok ({[USDT_UNIT]}, ModuleConstant)
      else Ok (∅, Undeclared)
  end.

Definition describe_instance (id : ModuleInstanceId) (kind : string) : result string ModuleInstanceInfo :=
  '(status, units, source) ←
    (if has_module client id
     then '(units, source) ← declared_units id kind; Ok (Active, units, source)
     else Ok (UnsupportedByClient, ∅, Undeclared));
  Ok (mkModuleInstanceInfo id kind status units source).

(** The loop over the instances, with the units declared so far. *)
Fixpoint describe_modules (ms : list (ModuleInstanceId * string)) (declared : gset AmountUnit)
    : result string (list ModuleInstanceInfo * gset AmountUnit) :=
  match ms with
  | [] => Ok ([], declared)
  | (id, kind) :: ms =>
      instance ← describe_instance id kind;
      '(modules, declared) ← describe_modules ms (declared ∪ mi_units instance);
      Ok (instance :: modules, declared)
  end.

(** A [BTreeSet] in its order. *)
Definition ascending (s : gset AmountUnit) : list AmountUnit := merge_sort Z.le (elements s).

Fixpoint describe_units (units : list AmountUnit) : result string (list UnitInfo) :=
  match units with
  | [] => Ok []
  | unit :: units =>
      row ← match primary_module_for_unit client unit with
            | Some id => balance ← get_balance_for_unit client unit; Ok (mkUnitInfo unit (Some id) (Some balance))
            | None => Ok (mkUnitInfo unit None None)
            end;
      rows ← describe_units units;
      Ok (row :: rows)
  end.

Definition describe : result string Info :=
  '(modules, declared) ← describe_modules (c_modules client) ∅;
  units ← describe_units (ascending declared);
  Ok (mkInfo (c_federation_id client) (c_federation_name client) modules units).

(** ** The listing is the topology *)

Lemma describe_modules_spec ms declared modules declared' :
  describe_modules ms declared = Ok (modules, declared') ->
  Forall2 (fun m i => describe_instance m.1 m.2 = Ok i /\ mi_id i = m.1 /\ mi_kind i = m.2) ms modules /\
  declared' = declared ∪ union_list (mi_units <$> modules).
Proof.
  revert declared modules. induction ms as [|[id kind] ms IH]; intros declared modules; cbn [describe_modules].
  - intros [= <- <-]. split; [constructor|]. simpl. set_solver.
  - destruct (describe_instance id kind) as [i|] eqn:Ei; [|done]. cbn [mbind result_bind].
    destruct (describe_modules ms _) as [[infos d]|] eqn:Em; [|done]. intros [= <- <-].
    apply IH in Em as [HF ->]. split; [|simpl; set_solver]. constructor; [|done]. simpl. split; [done|].
    unfold describe_instance in Ei. destruct (has_module client id); [destruct (declared_units id kind) as [[]|]|];
      simpl in Ei; by simplify_eq.
Qed.

Lemma describe_units_spec units rows :
  describe_units units = Ok rows ->
  ui_unit <$> rows = units /\
  Forall (fun r => ui_primary_module r = primary_module_for_unit client (ui_unit r) /\
    match ui_primary_module r with
    | Some _ => exists b, get_balance_for_unit client (ui_unit r) = Ok b /\ ui_balance r = Some b
    | None => ui_balance r = None
    end) rows.
Proof.
  revert rows. induction units as [|u units IH]; intros rows; cbn [describe_units]; [by intros [= <-]|].
  destruct (primary_module_for_unit client u) as [id|] eqn:Ep; simpl;
    [destruct (get_balance_for_unit client u) as [b|] eqn:Eb; simpl; [|done]|];
    (destruct (describe_units units) as [rs|]; [|done]; simpl; intros [= <-];
     destruct (IH rs eq_refl) as [<- HF]; split; [done|constructor; [|done]; simpl; rewrite ?Ep; eauto]).
Qed.

Lemma sorted_le_lt (l : list Z) : StronglySorted Z.le l -> NoDup l -> StronglySorted Z.lt l.
Proof.
  induction 1 as [|x l HS IH HF]; intros Hnd; [constructor|]. apply NoDup_cons in Hnd as [Hx Hnd].
  constructor; [by apply IH|]. apply Forall_forall. intros y Hy. rewrite Forall_forall in HF.
  specialize (HF y Hy). destruct (decide (x = y)) as [->|]; [done|lia].
Qed.

Lemma elem_of_ascending s u : u ∈ ascending s <-> u ∈ s.
Proof. unfold ascending. rewrite merge_sort_Permutation. by rewrite elem_of_elements. Qed.

(** What [info] prints is the federation: every instance of the configuration once, in
    its order, with its own declaration; the units are exactly those some instance
    declared, ascending and each once; and a unit has a balance exactly when it has a
    primary module, the client's balance for that unit. *)
Theorem info_is_complete info :
  describe = Ok info ->
  (fun i => (mi_id i, mi_kind i)) <$> info_modules info = c_modules client /\
  Forall (fun i => describe_instance (mi_id i) (mi_kind i) = Ok i) (info_modules info) /\
  StronglySorted Z.lt (ui_unit <$> info_units info) /\
  (forall u, u ∈ ui_unit <$> info_units info <-> exists i, i ∈ info_modules info /\ u ∈ mi_units i) /\
  Forall (fun r => ui_primary_module r = primary_module_for_unit client (ui_unit r) /\
    match ui_primary_module r with
    | Some _ => exists b, get_balance_for_unit client (ui_unit r) = Ok b /\ ui_balance r = Some b
    | None => ui_balance r = None
    end) (info_units info).
Proof.
  unfold describe. destruct (describe_modules _ ∅) as [[modules declared]|] eqn:Em; simpl; [|done].
  destruct (describe_units _) as [rows|] eqn:Eu; simpl; [|done]. intros [= <-]. simpl.
  apply describe_modules_spec in Em as [HF ->]. apply describe_units_spec in Eu as [Eun Hrows].
  split_and!; [| | | |done].
  - clear -HF. induction HF as [|[id kind] i ms infos (_ & E1 & E2) HF IH]; [done|]. simpl in E1, E2. rewrite fmap_cons, IH, E1, E2. done.
  - clear -HF. induction HF as [|[id kind] i ms infos (Hi & E1 & E2) HF IH]; constructor; [|done].
    simpl in *. by rewrite E1, E2.
  - rewrite Eun. apply sorted_le_lt.
    + apply merge_sort_Z_sorted.
    + unfold ascending. rewrite merge_sort_Permutation. apply NoDup_elements.
  - intros u. rewrite Eun, elem_of_ascending, elem_of_union, elem_of_union_list. split.
    + intros [Hu|(x & Hx & Hu)]; [by apply not_elem_of_empty in Hu|].
      apply list_elem_of_fmap in Hx as (i & -> & Hi). eauto.
    + intros (i & Hi & Hu). right. exists (mi_units i). split; [|done]. apply list_elem_of_fmap. eauto.
Qed.
End info.
