(* ===== verification/UsdtEvm.v ===== *)
(** * Accounts on the chain

    The address derivation of [modules/usdt/fedimint-usdt-common/src/lib.rs]:
    the owner address of the group key, CREATE2 deposit and pool accounts, the
    storage slot a balance proof opens, the discovery predicate and the grind
    for a discoverable claim key.  Keccak-256, the Solidity ABI and the
    secp256k1 group come from crates outside the repository: [Evm] is what the
    module calls of them, and [AbiOk], [HashOk] and [CurveOk] the laws it relies
    on. *)

From S2P Require Import Prelude FedimintCore UsdtTypes.

Class Evm := {
  keccak256 : bytes -> Hash;
  (* secp256k1 *)
  serialize : PublicKey -> bytes;
  serialize_uncompressed : PublicKey -> bytes;
  add_exp_tweak : PublicKey -> Z -> option PublicKey;
  signature_from_compact : bytes -> bool;
  verify_ecdsa : Hash -> bytes -> PublicKey -> bool;
  recover_ecdsa : Hash -> bytes -> Z -> option PublicKey;
  (* Solidity ABI *)
  abi_initialize : EvmAddress -> bytes;
  abi_ctor_args : EvmAddress -> bytes -> bytes;
  abi_create_account : EvmAddress -> bytes -> bytes;
  abi_transfer : EvmAddress -> Z -> bytes;
  abi_decode_transfer : bytes -> option (EvmAddress * Z);
  abi_withdraw_to : EvmAddress -> Z -> bytes;
  abi_decode_withdraw_to : bytes -> option (EvmAddress * Z);
  abi_execute : EvmAddress -> Z -> bytes -> bytes;
  abi_decode_execute : bytes -> option (EvmAddress * Z * bytes);
  abi_execute_batch : list EvmAddress -> list Z -> list bytes -> bytes;
  abi_decode_execute_batch : bytes -> option (list EvmAddress * list Z * list bytes);
  abi_user_op : EvmAddress -> Z -> Hash -> Hash -> bytes -> Z -> bytes -> Hash -> bytes;
  abi_hash_address_chain : Hash -> EvmAddress -> Z -> bytes;
}.

(** Calls decode to what was encoded. *)
Class AbiOk `{Evm} : Prop := {
  transfer_round_trip t a : abi_decode_transfer (abi_transfer t a) = Some (t, a);
  withdraw_to_round_trip t a : abi_decode_withdraw_to (abi_withdraw_to t a) = Some (t, a);
  execute_round_trip d v f : abi_decode_execute (abi_execute d v f) = Some (d, v, f);
  execute_batch_round_trip ds vs fs :
    abi_decode_execute_batch (abi_execute_batch ds vs fs) = Some (ds, vs, fs);
}.

(** The two hash preimages determine their fields, and no two preimages have the
    same hash. *)
Class HashOk `{Evm} : Prop := {
  keccak256_inj : Inj (=) (=) keccak256;
  user_op_inj s n i c g p f m s' n' i' c' g' p' f' m' :
    abi_user_op s n i c g p f m = abi_user_op s' n' i' c' g' p' f' m' ->
    s = s' /\ n = n' /\ i = i' /\ c = c' /\ g = g' /\ p = p' /\ f = f' /\ m = m';
  hash_address_chain_inj h a c h' a' c' :
    abi_hash_address_chain h a c = abi_hash_address_chain h' a' c' ->
    h = h' /\ a = a' /\ c = c';
}.

(** Stepping a tweaked key by the generator tweaks it by one more. *)
Class CurveOk `{Evm} : Prop := {
  add_exp_tweak_step pk a pk' :
    add_exp_tweak pk a = Some pk' -> add_exp_tweak pk' 1 = add_exp_tweak pk (a + 1);
  add_exp_tweak_zero pk : add_exp_tweak pk 0 = Some pk;
}.

#[export] Existing Instance keccak256_inj.

(** ** Byte strings *)

Fixpoint ascii_bytes (s : string) : bytes :=
  match s with
  | EmptyString => []
  | String.String c s => Z.of_N (Ascii.N_of_ascii c) :: ascii_bytes s
  end.

Definition hex_digit (c : Ascii.ascii) : Z :=
  let n := Z.of_N (Ascii.N_of_ascii c) in if n <? 58 then n - 48 else n - 87.

Fixpoint hex_bytes (s : string) : bytes :=
  match s with
  | String.String h (String.String l s) => 16 * hex_digit h + hex_digit l :: hex_bytes s
  | _ => []
  end.

(** Left-pads to a 32-byte word. *)
Definition pad32 (b : bytes) : bytes := replicate (32 - length b) 0 ++ b.

(** The last 20 bytes of a hash. *)
Definition low20 (h : Hash) : EvmAddress := drop 12 h.

Definition DEPOSIT_ADDRESS_DOMAIN : bytes := ascii_bytes "fedimint-usdt-deposit-v0".
Definition SCAN_PREDICATE_DOMAIN : bytes := ascii_bytes "fedimint-usdt-scan-v0".
Definition POOL_ACCOUNT_DOMAIN : bytes := ascii_bytes "fedimint-usdt-pool-v0".
Definition SIGNING_SESSION_DOMAIN : bytes := ascii_bytes "fedimint-usdt-signing-v0".
Definition DEPOSIT_SCAN_TAG_BITS : nat := 16.
Definition USDT_BALANCES_SLOT : Z := 2.
Definition MAX_SCAN_GRIND_ITERATIONS : Z := 2 ^ 22.

Definition ERC1967_PROXY_CREATION_CODE : bytes := hex_bytes
  ("6080604052604051610417380380610417833981016040819052610022916102" +:+
   "68565b61002c8282610033565b5050610352565b61003c82610092565b604051" +:+
   "6001600160a01b038316907fbc7cd75a20ee27fd9adebab32041f755214dbc6b" +:+
   "ffa90cc0225b39da2e5c2d3b90600090a280511561008657610081828261010e" +:+
   "565b505050565b61008e610185565b5050565b806001600160a01b03163b6000" +:+
   "036100cd57604051634c9c8ce360e01b81526001600160a01b03821660048201" +:+
   "526024015b60405180910390fd5b7f360894a13ba1a3210667c828492db98dca" +:+
   "3e2076cc3735a920a3ca505d382bbc80546001600160a01b0319166001600160" +:+
   "a01b0392909216919091179055565b6060600080846001600160a01b03168460" +:+
   "405161012b9190610336565b600060405180830381855af49150503d80600081" +:+
   "14610166576040519150601f19603f3d011682016040523d82523d6000602084" +:+
   "013e61016b565b606091505b50909250905061017c8583836101a6565b959450" +:+
   "50505050565b34156101a45760405163b398979f60e01b815260040160405180" +:+
   "910390fd5b565b6060826101bb576101b682610205565b6101fe565b81511580" +:+
   "156101d257506001600160a01b0384163b155b156101fb57604051639996b315" +:+
   "60e01b81526001600160a01b03851660048201526024016100c4565b50805b93" +:+
   "92505050565b8051156102155780518082602001fd5b604051630a12f52160e1" +:+
   "1b815260040160405180910390fd5b634e487b7160e01b600052604160045260" +:+
   "246000fd5b60005b8381101561025f578181015183820152602001610247565b" +:+
   "50506000910152565b6000806040838503121561027b57600080fd5b82516001" +:+
   "600160a01b038116811461029257600080fd5b60208401519092506001600160" +:+
   "401b03808211156102af57600080fd5b818501915085601f8301126102c35760" +:+
   "0080fd5b8151818111156102d5576102d561022e565b604051601f8201601f19" +:+
   "908116603f011681019083821181831017156102fd576102fd61022e565b8160" +:+
   "405282815288602084870101111561031657600080fd5b610327836020830160" +:+
   "208801610244565b80955050505050509250929050565b600082516103488184" +:+
   "60208701610244565b9190910192915050565b60b7806103606000396000f3fe" +:+
   "6080604052600a600c565b005b60186014601a565b605e565b565b600060597f" +:+
   "360894a13ba1a3210667c828492db98dca3e2076cc3735a920a3ca505d382bbc" +:+
   "5473ffffffffffffffffffffffffffffffffffffffff1690565b905090565b36" +:+
   "60008037600080366000845af43d6000803e808015607c573d6000f35b3d6000" +:+
   "fdfea2646970667358221220d7f23a80daebb5531c9e4a18d87e812fca112e5d" +:+
   "f7e56433218edcc12bbe415d64736f6c63430008170033").

Definition has_leading_zero_bits (b : bytes) (bits : nat) : bool :=
  let full := (bits / 8)%nat in
  let rem := (bits mod 8)%nat in
  if (length b <? full + (if (0 <? rem)%nat then 1 else 0))%nat then false
  else if existsb (fun x => negb (x =? 0)) (take full b) then false
  else (rem =? 0)%nat || (Z.shiftr (default 0 (b !! full)) (8 - Z.of_nat rem) =? 0).

Section accounts.
Context `{Evm}.

Definition balances_storage_key (account : EvmAddress) : Hash :=
  keccak256 (pad32 account ++ pad32 (be_bytes 8 USDT_BALANCES_SLOT)).

Definition evm_address (pk : PublicKey) : EvmAddress :=
  low20 (keccak256 (tail (serialize_uncompressed pk))).

Definition deposit_salt (claim_pk : PublicKey) : Hash :=
  keccak256 (DEPOSIT_ADDRESS_DOMAIN ++ serialize claim_pk).

Definition pool_salt : Hash := keccak256 POOL_ACCOUNT_DOMAIN.

Definition deposit_init_code_hash (simple_account_impl owner : EvmAddress) : Hash :=
  keccak256 (ERC1967_PROXY_CREATION_CODE
             ++ abi_ctor_args simple_account_impl (abi_initialize owner)).

(** EIP-1014, [Address::create2]. *)
Definition create2_address (account_factory : EvmAddress) (salt init_code_hash : Hash)
    : EvmAddress :=
  low20 (keccak256 (255 :: account_factory ++ salt ++ init_code_hash)).

Definition create2_simple_account (account_factory simple_account_impl owner : EvmAddress)
    (salt : Hash) : EvmAddress :=
  create2_address account_factory salt (deposit_init_code_hash simple_account_impl owner).

Definition derive_deposit_account (group_public_key : PublicKey)
    (account_factory simple_account_impl : EvmAddress) (claim_pk : PublicKey) : EvmAddress :=
  create2_simple_account account_factory simple_account_impl (evm_address group_public_key)
    (deposit_salt claim_pk).

Definition derive_pool_account (group_public_key : PublicKey)
    (account_factory simple_account_impl : EvmAddress) : EvmAddress :=
  create2_simple_account account_factory simple_account_impl (evm_address group_public_key)
    pool_salt.

Definition is_potential_deposit (group_public_key : PublicKey) (account : EvmAddress) : bool :=
  has_leading_zero_bits
    (keccak256 (SCAN_PREDICATE_DOMAIN ++ serialize group_public_key ++ account))
    DEPOSIT_SCAN_TAG_BITS.

Definition signing_session_id (digest : Hash) (attempt : Z) : Hash :=
  keccak256 (SIGNING_SESSION_DOMAIN ++ digest ++ be_bytes 4 attempt).

(** The loop of [find_scan_tweak] over [tweak .. tweak + n]; [Err tt] is the
    error of a tweak that leaves the group. *)
Fixpoint scan_from (group_public_key : PublicKey) (account_factory : EvmAddress)
    (init_code_hash : Hash) (n : nat) (tweak : Z) (pk : PublicKey)
    : result unit (option (Z * PublicKey * EvmAddress)) :=
  match n with
  | O => Ok None
  | S n =>
      let account := create2_address account_factory (deposit_salt pk) init_code_hash in
      if is_potential_deposit group_public_key account then Ok (Some (tweak, pk, account))
      else
        pk ← ok_or (add_exp_tweak pk 1) tt;
        scan_from group_public_key account_factory init_code_hash n (tweak + 1) pk
  end.

Definition find_scan_tweak (group_public_key : PublicKey)
    (account_factory simple_account_impl : EvmAddress) (base_pk : PublicKey) (start stop : Z)
    : result unit (option (Z * PublicKey * EvmAddress)) :=
  let stop := Z.min stop MAX_SCAN_GRIND_ITERATIONS in
  if stop <=? start then Ok None
  else
    let owner := evm_address group_public_key in
    let init_code_hash := deposit_init_code_hash simple_account_impl owner in
    pk ← (if start =? 0 then Ok base_pk else ok_or (add_exp_tweak base_pk start) tt);
    scan_from group_public_key account_factory init_code_hash (Z.to_nat (stop - start)) start pk.
End accounts.

(** ** The grind *)

Section grind.
Context `{CurveOk} (group base : PublicKey) (factory impl : EvmAddress).

Definition discoverable (tweak : Z) : Prop := exists pk,
  add_exp_tweak base tweak = Some pk /\
  is_potential_deposit group (derive_deposit_account group factory impl pk) = true.

Lemma scan_from_first n tweak pk res :
  add_exp_tweak base tweak = Some pk ->
  scan_from group factory (deposit_init_code_hash impl (evm_address group)) n tweak pk = Ok res ->
  match res with
  | Some (t, pk', account) =>
      tweak <= t < tweak + Z.of_nat n /\ add_exp_tweak base t = Some pk' /\
      account = derive_deposit_account group factory impl pk' /\
      is_potential_deposit group account = true /\
      forall s, tweak <= s < t -> ~ discoverable s
  | None => forall s, tweak <= s < tweak + Z.of_nat n -> ~ discoverable s
  end.
Proof.
  revert tweak pk. induction n as [|n IH]; intros tweak pk Hpk E; simpl in E.
  { simplify_eq. intros s Hs. lia. }
  destruct (is_potential_deposit group _) eqn:Ed.
  { simplify_eq. split; [lia|]. split; [done|]. split; [done|]. split; [done|]. lia. }
  destruct (add_exp_tweak pk 1) as [pk1|] eqn:E1; simpl in E; [|done].
  erewrite add_exp_tweak_step in E1 by done.
  assert (~ discoverable tweak) as Hn.
  { intros (pk2 & Hpk2 & Hd). rewrite Hpk in Hpk2. simplify_eq.
    unfold derive_deposit_account, create2_simple_account in Hd. congruence. }
  specialize (IH _ _ E1 E). destruct res as [[[t pk'] account]|].
  - destruct IH as (? & ? & ? & ? & IH). split_and!; try done; try lia.
    intros s Hs. destruct (decide (s = tweak)) as [->|]; [done|]. apply IH. lia.
  - intros s Hs. destruct (decide (s = tweak)) as [->|]; [done|]. apply IH. lia.
Qed.
End grind.

(** The grind returns the first tweak of its range (capped at
    [MAX_SCAN_GRIND_ITERATIONS]) whose claim key has a discoverable deposit
    account, with that key and exactly the account the server derives for it;
    [None] means the range holds no such tweak. *)
Theorem find_scan_tweak_first `{CurveOk} group factory impl base start stop res :
  0 <= start ->
  find_scan_tweak group factory impl base start stop = Ok res ->
  match res with
  | Some (t, pk, account) =>
      start <= t < Z.min stop MAX_SCAN_GRIND_ITERATIONS /\ add_exp_tweak base t = Some pk /\
      account = derive_deposit_account group factory impl pk /\
      is_potential_deposit group account = true /\
      forall s, start <= s < t -> ~ discoverable group base factory impl s
  | None => forall s, start <= s < Z.min stop MAX_SCAN_GRIND_ITERATIONS ->
      ~ discoverable group base factory impl s
  end.
Proof.
  intros Hs. unfold find_scan_tweak. destruct (_ <=? start) eqn:El; zbool; intros E.
  { simplify_eq. intros s ?. lia. }
  assert (exists pk, add_exp_tweak base start = Some pk /\
    scan_from group factory (deposit_init_code_hash impl (evm_address group))
      (Z.to_nat (Z.min stop MAX_SCAN_GRIND_ITERATIONS - start)) start pk = Ok res)
    as (pk & Hpk & E').
  { destruct (start =? 0) eqn:E0; zbool; subst.
    - exists base. split; [apply add_exp_tweak_zero|done].
    - destruct (add_exp_tweak base start) as [pk|]; [by exists pk|done]. }
  apply (scan_from_first group base factory impl _ _ _ _ Hpk) in E'.
  rewrite Z2Nat.id in E' by lia.
  replace (start + (_ - start)) with (Z.min stop MAX_SCAN_GRIND_ITERATIONS) in E' by lia.
  done.
Qed.

(** ** A concrete instance, for evaluation *)

(** Structured preimages through a generic countable encoding; the hash
    prepends two zero bytes, and a key is tweaked by adding to its number. *)
Definition pack {A} `{Countable A} (a : A) : bytes := [Zpos (countable.encode a)].
Definition unpack {A} `{Countable A} (b : bytes) : option A :=
  match b with [Zpos p] => countable.decode p | _ => None end.

Definition toy_evm : Evm := {|
  keccak256 b := 0 :: 0 :: b;
  serialize pk := [pk_bytes pk];
  serialize_uncompressed pk := [4; pk_bytes pk];
  add_exp_tweak pk a := Some (mkPublicKey (pk_bytes pk + a));
  signature_from_compact sig := (length sig =? 64)%nat;
  verify_ecdsa digest sig pk := bool_decide (take 1 sig = [pk_bytes pk]);
  recover_ecdsa digest sig recid := mkPublicKey <$> head sig;
  abi_initialize a := a;
  abi_ctor_args a b := a ++ b;
  abi_create_account a s := a ++ s;
  abi_transfer t a := pack (t, a);
  abi_decode_transfer := unpack;
  abi_withdraw_to t a := pack (t, a);
  abi_decode_withdraw_to := unpack;
  abi_execute d v f := pack (d, v, f);
  abi_decode_execute := unpack;
  abi_execute_batch d v f := pack (d, v, f);
  abi_decode_execute_batch := unpack;
  abi_user_op s n i c g p f m := pack (s, n, i, c, g, p, f, m);
  abi_hash_address_chain h a c := pack (h, a, c);
|}.

(** The same chain under another hash function. *)
Definition with_hash (hash : bytes -> Hash) : Evm := {|
  keccak256 := hash;
  serialize := @serialize toy_evm;
  serialize_uncompressed := @serialize_uncompressed toy_evm;
  add_exp_tweak := @add_exp_tweak toy_evm;
  signature_from_compact := @signature_from_compact toy_evm;
  verify_ecdsa := @verify_ecdsa toy_evm;
  recover_ecdsa := @recover_ecdsa toy_evm;
  abi_initialize := @abi_initialize toy_evm;
  abi_ctor_args := @abi_ctor_args toy_evm;
  abi_create_account := @abi_create_account toy_evm;
  abi_transfer := @abi_transfer toy_evm;
  abi_decode_transfer := @abi_decode_transfer toy_evm;
  abi_withdraw_to := @abi_withdraw_to toy_evm;
  abi_decode_withdraw_to := @abi_decode_withdraw_to toy_evm;
  abi_execute := @abi_execute toy_evm;
  abi_decode_execute := @abi_decode_execute toy_evm;
  abi_execute_batch := @abi_execute_batch toy_evm;
  abi_decode_execute_batch := @abi_decode_execute_batch toy_evm;
  abi_user_op := @abi_user_op toy_evm;
  abi_hash_address_chain := @abi_hash_address_chain toy_evm;
|}.

Lemma unpack_pack {A} `{Countable A} (a : A) : unpack (pack a) = Some a.
Proof. apply countable.decode_encode. Qed.

Lemma pack_inj {A} `{Countable A} (a b : A) : pack a = pack b -> a = b.
Proof. intros E. apply (f_equal (unpack (A:=A))) in E. rewrite !unpack_pack in E. by simplify_eq. Qed.

Lemma toy_abi_ok : @AbiOk toy_evm.
Proof. split; intros; apply unpack_pack. Qed.

Lemma toy_hash_ok : @HashOk toy_evm.
Proof.
  split; simpl.
  - intros a b E. by simplify_eq.
  - intros * E. apply pack_inj in E. by simplify_eq.
  - intros * E. apply pack_inj in E. by simplify_eq.
Qed.

Lemma toy_curve_ok : @CurveOk toy_evm.
Proof.
  split; simpl.
  - intros [n] a pk' E. simplify_eq/=. do 2 f_equal. lia.
  - intros [n]. by rewrite Z.add_0_r.
Qed.

Lemma find_scan_tweak_first_witness :
  let pk := mkPublicKey 7 in
  let account := @derive_deposit_account toy_evm (mkPublicKey 1) [] [] pk in
  5 <= 5 < Z.min 9 MAX_SCAN_GRIND_ITERATIONS /\
  @add_exp_tweak toy_evm (mkPublicKey 2) 5 = Some pk /\
  account = @derive_deposit_account toy_evm (mkPublicKey 1) [] [] pk /\
  @is_potential_deposit toy_evm (mkPublicKey 1) account = true /\
  forall s, 5 <= s < 5 -> ~ @discoverable toy_evm (mkPublicKey 1) (mkPublicKey 2) [] [] s.
Proof.
  intros pk account.
  apply (@find_scan_tweak_first toy_evm toy_curve_ok (mkPublicKey 1) [] [] (mkPublicKey 2) 5 9
           (Some (5, pk, account))); [lia|reflexivity].
Defined.
