(* ===== verification/UsdtAddress.v ===== *)
(** * Addresses as text

    [Display] and [FromStr] of [EvmAddress] in
    [modules/usdt/fedimint-usdt-common/src/lib.rs], which the command line, the
    environment and the JSON configuration go through.  A Rust string is the list of its
    UTF-8 bytes; slicing one inside a character panics. *)

From S2P Require Import Prelude FedimintCore UsdtTypes UsdtEvm.

(** ** Rust's strings *)

Definition byte_of (c : Ascii.ascii) : Z := Z.of_nat (Ascii.nat_of_ascii c).

(** [str::is_char_boundary] at the byte [c] starts at: not a continuation byte. *)
Definition starts_char (c : Ascii.ascii) : bool := negb ((128 <=? byte_of c) && (byte_of c <=? 191)).

(** Of what is left of a string after an index: the end is a boundary. *)
Definition at_boundary (s : string) : bool :=
  match s with EmptyString => true | String.String c _ => starts_char c end.

(** [char::to_digit(16)]. *)
Definition to_digit16 (c : Ascii.ascii) : option Z :=
  let b := byte_of c in
  if (48 <=? b) && (b <=? 57) then Some (b - 48)
  else if (97 <=? b) && (b <=? 102) then Some (b - 87)
  else if (65 <=? b) && (b <=? 70) then Some (b - 55)
  else None.

(** [u8::from_str_radix] at 16 on two characters; a leading plus sign is allowed. *)
Definition u8_from_str_radix16 (c1 c2 : Ascii.ascii) : option Z :=
  if byte_of c1 =? 43 then to_digit16 c2
  else d1 ← to_digit16 c1; d2 ← to_digit16 c2; Some (16 * d1 + d2).

(** ** [FromStr] *)

Inductive AddressError :=
| WrongLength
| InvalidHexByte (position : nat)
(** The slice panics. *)
| SlicePanic (position : nat).

Definition strip_0x (s : string) : string :=
  match s with
  | String.String c1 (String.String c2 s') =>
      if (byte_of c1 =? 48) && (byte_of c2 =? 120) then s' else s
  | _ => s
  end.

(** The loop over the bytes of the address; [s] is what is left of the digits. *)
Fixpoint parse_bytes (n i : nat) (s : string) : result AddressError bytes :=
  match n with
  | O => Ok []
  | S n =>
      match s with
      | String.String c1 (String.String c2 s') =>
          if negb (starts_char c1 && at_boundary s') then Err (SlicePanic i)
          else
            byte ← ok_or (u8_from_str_radix16 c1 c2) (InvalidHexByte i);
            bytes ← parse_bytes n (S i) s';
            Ok (byte :: bytes)
      | _ => Err (SlicePanic i)
      end
  end.

Definition EvmAddress_from_str (s : string) : result AddressError EvmAddress :=
  let hex_str := strip_0x s in
  if (String.length hex_str =? 40)%nat then parse_bytes 20 0 hex_str else Err WrongLength.

(** ** [Display] *)

Definition hex_lower (d : Z) : Ascii.ascii :=
  Ascii.ascii_of_nat (Z.to_nat (if d <? 10 then 48 + d else 87 + d)).

Fixpoint show_bytes (b : bytes) : string :=
  match b with
  | [] => EmptyString
  | x :: b => String.String (hex_lower (x / 16)) (String.String (hex_lower (x mod 16)) (show_bytes b))
  end.

Definition EvmAddress_to_string (a : EvmAddress) : string := "0x" +:+ show_bytes a.

(** ** What is shown is read *)

Definition is_address (a : EvmAddress) : Prop := length a = 20%nat /\ Forall (fun x => 0 <= x < 256) a.

Lemma hex_digits d : d ∈ seqZ 0 16 ->
  to_digit16 (hex_lower d) = Some d /\ starts_char (hex_lower d) = true /\ byte_of (hex_lower d) <> 43.
Proof.
  intros Hd. assert (Hall : Forall (fun d => to_digit16 (hex_lower d) = Some d /\
    starts_char (hex_lower d) = true /\ byte_of (hex_lower d) <> 43) (seqZ 0 16)).
  { refine (bool_decide_unpack _ _). vm_compute. exact I. }
  rewrite Forall_forall in Hall. by apply Hall.
Qed.

Lemma at_boundary_show b : Forall (fun x => 0 <= x < 256) b -> at_boundary (show_bytes b) = true.
Proof.
  intros [|x b' Hx _]; [done|]. simpl. apply hex_digits, elem_of_seqZ.
  pose proof (Z.div_lt_upper_bound x 16 16). pose proof (Z.div_pos x 16). lia.
Qed.

Lemma parse_show b i : Forall (fun x => 0 <= x < 256) b -> parse_bytes (length b) i (show_bytes b) = Ok b.
Proof.
  intros Hb. revert i. induction Hb as [|x b Hx Hb IH]; intros i; [done|]. cbn [length parse_bytes show_bytes].
  destruct (hex_digits (x / 16)) as (D1 & S1 & P1).
  { apply elem_of_seqZ. pose proof (Z.div_lt_upper_bound x 16 16). pose proof (Z.div_pos x 16). lia. }
  destruct (hex_digits (x mod 16)) as (D2 & S2 & _).
  { apply elem_of_seqZ. pose proof (Z.mod_pos_bound x 16). lia. }
  rewrite S1, (at_boundary_show b Hb). unfold u8_from_str_radix16.
  rewrite (proj2 (Z.eqb_neq _ _) P1), D1, D2. cbn [andb negb mbind option_bind ok_or result_bind].
  rewrite IH. simpl. f_equal. f_equal. pose proof (Z.div_mod x 16). lia.
Qed.

Lemma length_show b : String.length (show_bytes b) = (2 * length b)%nat.
Proof. induction b as [|x b IH]; [done|]. simpl. rewrite IH. lia. Qed.

(** An address is read back from what is shown of it. *)
Theorem address_string_round_trip a :
  is_address a -> EvmAddress_from_str (EvmAddress_to_string a) = Ok a.
Proof.
  intros [Hl Hb]. unfold EvmAddress_from_str, EvmAddress_to_string.
  change (strip_0x ("0x" +:+ show_bytes a)) with (show_bytes a).
  rewrite length_show, Hl. cbn [Nat.mul Nat.add Nat.eqb]. rewrite <- Hl. by apply parse_show.
Qed.

(** What is accepted is an address. *)
Lemma parse_bytes_wf n i s b :
  parse_bytes n i s = Ok b -> length b = n /\ Forall (fun x => 0 <= x < 256) b.
Proof.
  revert i s b. induction n as [|n IH]; intros i s b E; simpl in E; [by simplify_eq|].
  destruct s as [|c1 [|c2 s]]; try done. destruct (negb _); [done|].
  destruct (u8_from_str_radix16 c1 c2) as [x|] eqn:Ex; simpl in E; [|done].
  destruct (parse_bytes n (S i) s) as [b'|] eqn:Eb; simpl in E; [|done]. injection E as <-.
  apply IH in Eb as [<- Hb]. split; [done|]. constructor; [|done].
  unfold u8_from_str_radix16, to_digit16 in Ex. repeat case_match; simplify_eq/=; zbool; lia.
Qed.

Lemma parsed_address s a : EvmAddress_from_str s = Ok a -> is_address a.
Proof. unfold EvmAddress_from_str. case_match; [|done]. by apply parse_bytes_wf. Qed.

Lemma address_string_round_trip_witness :
  EvmAddress_from_str (EvmAddress_to_string (replicate 20 171)) = Ok (replicate 20 171).
Proof.
  apply (address_string_round_trip (replicate 20 171)). split; [done|].
  refine (bool_decide_unpack _ _). vm_compute. exact I.
Defined.

(** A plus sign passes for a digit, and a character that straddles two positions panics. *)
Example plus_sign_accepted :
  EvmAddress_from_str ("0x+1" +:+ show_bytes (replicate 19 0)) = Ok (1 :: replicate 19 0).
Proof. reflexivity. Qed.
Example straddling_character_panics :
  EvmAddress_from_str ("a" +:+ String.String (Ascii.ascii_of_nat 195) (String.String (Ascii.ascii_of_nat 169)
    (show_bytes (replicate 18 0) +:+ "a"))) = Err (SlicePanic 0).
Proof. reflexivity. Qed.
