(* ===== verification/UsdtFactory.v ===== *)
(** * The account factory

    [modules/usdt/fedimint-usdt-server/src/factory_bytecode.rs] and [create_address] of
    [modules/usdt/fedimint-usdt-common/src/lib.rs]: the contract the guardians deploy
    once, and how every guardian predicts its address, and that of the account
    implementation it creates, from the entry point alone. *)

From S2P Require Import Prelude FedimintCore UsdtTypes UsdtEvm.

Definition ARACHNID_DEPLOYER : EvmAddress := hex_bytes "4e59b44847b379578588920ca78fbf26c0b4956c".
Definition ARACHNID_DEPLOYER_SIGNER : EvmAddress :=
  hex_bytes "3fab184622dc19b6109349b94811493bf2a45362".
Definition ARACHNID_DEPLOY_TX_COST_WEI : Z := 10000000000000000.
Definition ARACHNID_RAW_DEPLOY_TX : bytes := hex_bytes
  ("f8a58085174876e800830186a08080b853604580600e600039806000f350fe7f" +:+
   "ffffffffffffffffffffffffffffffffffffffffffffffffffffffffffffffe0" +:+
   "3601600081602082378035828234f58015156039578182fd5b80825250505060" +:+
   "14600cf31ba02222222222222222222222222222222222222222222222222222" +:+
   "222222222222a022222222222222222222222222222222222222222222222222" +:+
   "22222222222222").
Definition FACTORY_CREATE2_SALT_DOMAIN : bytes := ascii_bytes "fedimint-usdt-factory-v0".
Definition FACTORY_CREATION_CODE : bytes := hex_bytes
  ("60a060405234801561001057600080fd5b506040516129e13803806129e18339" +:+
   "8101604081905261002f91610088565b8060405161003c9061007b565b600160" +:+
   "0160a01b039091168152602001604051809103906000f080158015610068573d" +:+
   "6000803e3d6000fd5b506001600160a01b0316608052506100b8565b61201180" +:+
   "6109d083390190565b60006020828403121561009a57600080fd5b8151600160" +:+
   "0160a01b03811681146100b157600080fd5b9392505050565b6080516108f061" +:+
   "00e060003960008181604b01528181610114015261025801526108f06000f3fe" +:+
   "608060405234801561001057600080fd5b50600436106100415760003560e01c" +:+
   "806311464fbe146100465780635fbfb9cf146100965780638cb84e18146100a9" +:+
   "575b600080fd5b61006d7f000000000000000000000000000000000000000000" +:+
   "000000000000000000000081565b60405173ffffffffffffffffffffffffffff" +:+
   "ffffffffffff909116815260200160405180910390f35b61006d6100a4366004" +:+
   "61039d565b6100bc565b61006d6100b736600461039d565b6101ee565b600080" +:+
   "6100c984846101ee565b905073ffffffffffffffffffffffffffffffffffffff" +:+
   "ff81163b80156100f1575090506101e8565b60405173ffffffffffffffffffff" +:+
   "ffffffffffffffffffff8616602482015284907f000000000000000000000000" +:+
   "000000000000000000000000000000000000000090604401604080517fffffff" +:+
   "ffffffffffffffffffffffffffffffffffffffffffffffffffffffffe0818403" +:+
   "0181529181526020820180517bffffffffffffffffffffffffffffffffffffff" +:+
   "ffffffffffffffffff167fc4d66de80000000000000000000000000000000000" +:+
   "0000000000000000000000179052516101b790610390565b6101c29291906104" +:+
   "06565b8190604051809103906000f59050801580156101e2573d6000803e3d60" +:+
   "00fd5b50925050505b92915050565b60006103578260001b6040518060200161" +:+
   "020790610390565b7fffffffffffffffffffffffffffffffffffffffffffffff" +:+
   "ffffffffffffffffe082820381018352601f90910116604081905273ffffffff" +:+
   "ffffffffffffffffffffffffffffffff871660248201527f0000000000000000" +:+
   "0000000000000000000000000000000000000000000000009060440160408051" +:+
   "7fffffffffffffffffffffffffffffffffffffffffffffffffffffffffffffff" +:+
   "e0818403018152918152602080830180517bffffffffffffffffffffffffffff" +:+
   "ffffffffffffffffffffffffffff167fc4d66de8000000000000000000000000" +:+
   "0000000000000000000000000000000017905290516103009392910161040656" +:+
   "5b604080517fffffffffffffffffffffffffffffffffffffffffffffffffffff" +:+
   "ffffffffffe08184030181529082905261033c9291602001610474565b604051" +:+
   "6020818303038152906040528051906020012061035e565b9392505050565b60" +:+
   "006103578383306000604051836040820152846020820152828152600b810190" +:+
   "5060ff815360559020949350505050565b610417806104a483390190565b6000" +:+
   "80604083850312156103b057600080fd5b823573ffffffffffffffffffffffff" +:+
   "ffffffffffffffff811681146103d457600080fd5b9460209390930135935050" +:+
   "50565b60005b838110156103fd5781810151838201526020016103e5565b5050" +:+
   "6000910152565b73ffffffffffffffffffffffffffffffffffffffff83168152" +:+
   "60406020820152600082518060408401526104418160608501602087016103e2" +:+
   "565b601f017fffffffffffffffffffffffffffffffffffffffffffffffffffff" +:+
   "ffffffffffe016919091016060019392505050565b6000835161048681846020" +:+
   "88016103e2565b83519083019061049a8183602088016103e2565b0194935050" +:+
   "505056fe60806040526040516104173803806104178339810160408190526100" +:+
   "2291610268565b61002c8282610033565b5050610352565b61003c8261009256" +:+
   "5b6040516001600160a01b038316907fbc7cd75a20ee27fd9adebab32041f755" +:+
   "214dbc6bffa90cc0225b39da2e5c2d3b90600090a28051156100865761008182" +:+
   "8261010e565b505050565b61008e610185565b5050565b806001600160a01b03" +:+
   "163b6000036100cd57604051634c9c8ce360e01b81526001600160a01b038216" +:+
   "60048201526024015b60405180910390fd5b7f360894a13ba1a3210667c82849" +:+
   "2db98dca3e2076cc3735a920a3ca505d382bbc80546001600160a01b03191660" +:+
   "01600160a01b0392909216919091179055565b6060600080846001600160a01b" +:+
   "03168460405161012b9190610336565b600060405180830381855af49150503d" +:+
   "8060008114610166576040519150601f19603f3d011682016040523d82523d60" +:+
   "00602084013e61016b565b606091505b50909250905061017c8583836101a656" +:+
   "5b95945050505050565b34156101a45760405163b398979f60e01b8152600401" +:+
   "60405180910390fd5b565b6060826101bb576101b682610205565b6101fe565b" +:+
   "81511580156101d257506001600160a01b0384163b155b156101fb5760405163" +:+
   "9996b31560e01b81526001600160a01b03851660048201526024016100c4565b" +:+
   "50805b9392505050565b8051156102155780518082602001fd5b604051630a12" +:+
   "f52160e11b815260040160405180910390fd5b634e487b7160e01b6000526041" +:+
   "60045260246000fd5b60005b8381101561025f57818101518382015260200161" +:+
   "0247565b50506000910152565b6000806040838503121561027b57600080fd5b" +:+
   "82516001600160a01b038116811461029257600080fd5b602084015190925060" +:+
   "01600160401b03808211156102af57600080fd5b818501915085601f83011261" +:+
   "02c357600080fd5b8151818111156102d5576102d561022e565b604051601f82" +:+
   "01601f19908116603f011681019083821181831017156102fd576102fd61022e" +:+
   "565b8160405282815288602084870101111561031657600080fd5b6103278360" +:+
   "20830160208801610244565b80955050505050509250929050565b6000825161" +:+
   "0348818460208701610244565b9190910192915050565b60b780610360600039" +:+
   "6000f3fe6080604052600a600c565b005b60186014601a565b605e565b565b60" +:+
   "0060597f360894a13ba1a3210667c828492db98dca3e2076cc3735a920a3ca50" +:+
   "5d382bbc5473ffffffffffffffffffffffffffffffffffffffff1690565b9050" +:+
   "90565b3660008037600080366000845af43d6000803e808015607c573d6000f3" +:+
   "5b3d6000fdfea2646970667358221220d7f23a80daebb5531c9e4a18d87e812f" +:+
   "ca112e5df7e56433218edcc12bbe415d64736f6c63430008170033a264697066" +:+
   "7358221220f5be4d2659f1a124e46d76b875ad5264a1c62d421946ca067d6132" +:+
   "fa6cc4309964736f6c6343000817003360c06040523060805234801562000015" +:+
   "57600080fd5b5060405162002011380380620020118339810160408190526200" +:+
   "0038916200010a565b6001600160a01b03811660a0526200004f62000056565b" +:+
   "506200013c565b7ff0c57e16840df040f15088dc2f81fe391c3923bec73e23a9" +:+
   "662efc9c229c6a00805468010000000000000000900460ff1615620000a75760" +:+
   "405163f92ee8a960e01b815260040160405180910390fd5b8054600160016040" +:+
   "1b0390811614620001075780546001600160401b0319166001600160401b0390" +:+
   "811782556040519081527fc7f505b2f371ae2175ee4913f4499e1f2633a7b593" +:+
   "6321eed1cdaeb6115181d29060200160405180910390a15b50565b6000602082" +:+
   "840312156200011d57600080fd5b81516001600160a01b038116811462000135" +:+
   "57600080fd5b9392505050565b60805160a051611e70620001a1600039600081" +:+
   "81610320015281816106f00152818161079e0152818161092601528181610b63" +:+
   "01528181610baa01528181610d6a015261121e015260008181610f3301528181" +:+
   "610f5c015261117d0152611e706000f3fe608060405260043610610112576000" +:+
   "3560e01c80638da5cb5b116100a5578063bc197c8111610074578063c4d66de8" +:+
   "11610059578063c4d66de8146103c1578063d087d288146103e1578063f23a6e" +:+
   "61146103f657600080fd5b8063bc197c8114610364578063c399ec88146103ac" +:+
   "57600080fd5b80638da5cb5b14610269578063ad3cb1cc146102bb578063b0d6" +:+
   "91fe14610311578063b61d27f61461034457600080fd5b80634a58db19116100" +:+
   "e15780634a58db19146102195780634d44560d146102215780634f1ef2861461" +:+
   "024157806352d1902d1461025457600080fd5b806301ffc9a71461011e578063" +:+
   "150b7a021461015357806319822f7c146101c957806347e1da2a146101f75760" +:+
   "0080fd5b3661011957005b600080fd5b34801561012a57600080fd5b5061013e" +:+
   "61013936600461179b565b61043c565b60405190151581526020015b60405180" +:+
   "910390f35b34801561015f57600080fd5b5061019861016e366004611848565b" +:+
   "7f150b7a02000000000000000000000000000000000000000000000000000000" +:+
   "0095945050505050565b6040517fffffffff0000000000000000000000000000" +:+
   "0000000000000000000000000000909116815260200161014a565b3480156101" +:+
   "d557600080fd5b506101e96101e43660046118bb565b610521565b6040519081" +:+
   "5260200161014a565b34801561020357600080fd5b5061021761021236600461" +:+
   "1954565b610547565b005b6102176106ee565b34801561022d57600080fd5b50" +:+
   "61021761023c3660046119ee565b610794565b61021761024f366004611a4956" +:+
   "5b610843565b34801561026057600080fd5b506101e9610862565b3480156102" +:+
   "7557600080fd5b506000546102969073ffffffffffffffffffffffffffffffff" +:+
   "ffffffff1681565b60405173ffffffffffffffffffffffffffffffffffffffff" +:+
   "909116815260200161014a565b3480156102c757600080fd5b50610304604051" +:+
   "8060400160405280600581526020017f352e302e300000000000000000000000" +:+
   "0000000000000000000000000000000081525081565b60405161014a9190611b" +:+
   "4f565b34801561031d57600080fd5b507f000000000000000000000000000000" +:+
   "0000000000000000000000000000000000610296565b34801561035057600080" +:+
   "fd5b5061021761035f366004611ba0565b610891565b34801561037057600080" +:+
   "fd5b5061019861037f366004611bfc565b7fbc197c8100000000000000000000" +:+
   "00000000000000000000000000000000000098975050505050505050565b3480" +:+
   "156103b857600080fd5b506101e96108e0565b3480156103cd57600080fd5b50" +:+
   "6102176103dc366004611cbb565b610997565b3480156103ed57600080fd5b50" +:+
   "6101e9610b16565b34801561040257600080fd5b50610198610411366004611c" +:+
   "d8565b7ff23a6e61000000000000000000000000000000000000000000000000" +:+
   "000000009695505050505050565b60007fffffffff0000000000000000000000" +:+
   "000000000000000000000000000000000082167f150b7a020000000000000000" +:+
   "000000000000000000000000000000000000000014806104cf57507fffffffff" +:+
   "0000000000000000000000000000000000000000000000000000000082167f4e" +:+
   "2312e00000000000000000000000000000000000000000000000000000000014" +:+
   "5b8061051b57507fffffffff0000000000000000000000000000000000000000" +:+
   "000000000000000082167f01ffc9a70000000000000000000000000000000000" +:+
   "0000000000000000000000145b92915050565b600061052b610b92565b610535" +:+
   "8484610c33565b905061054082610ce7565b9392505050565b61054f610d5256" +:+
   "5b8481148015610565575082158061056557508281145b6105d0576040517f08" +:+
   "c379a00000000000000000000000000000000000000000000000000000000081" +:+
   "5260206004820152601360248201527f77726f6e67206172726179206c656e67" +:+
   "7468730000000000000000000000000060448201526064015b60405180910390" +:+
   "fd5b600083900361067c5760005b858110156106765761066e87878381811061" +:+
   "05f9576105f9611d42565b905060200201602081019061060e9190611cbb565b" +:+
   "600085858581811061062257610622611d42565b905060200281019061063491" +:+
   "90611d71565b8080601f01602080910402602001604051908101604052809392" +:+
   "9190818152602001838380828437600092019190915250610e1392505050565b" +:+
   "6001016105dc565b506106e6565b60005b858110156106e4576106dc87878381" +:+
   "811061069c5761069c611d42565b90506020020160208101906106b19190611c" +:+
   "bb565b8686848181106106c3576106c3611d42565b9050602002013585858581" +:+
   "811061062257610622611d42565b60010161067f565b505b505050505050565b" +:+
   "7f00000000000000000000000000000000000000000000000000000000000000" +:+
   "006040517fb760faf90000000000000000000000000000000000000000000000" +:+
   "0000000000815230600482015273ffffffffffffffffffffffffffffffffffff" +:+
   "ffff919091169063b760faf99034906024016000604051808303818588803b15" +:+
   "801561077957600080fd5b505af115801561078d573d6000803e3d6000fd5b50" +:+
   "50505050565b61079c610e90565b7f0000000000000000000000000000000000" +:+
   "0000000000000000000000000000006040517f205c2878000000000000000000" +:+
   "00000000000000000000000000000000000000815273ffffffffffffffffffff" +:+
   "ffffffffffffffffffff84811660048301526024820184905291909116906320" +:+
   "5c287890604401600060405180830381600087803b15801561082f57600080fd" +:+
   "5b505af11580156106e6573d6000803e3d6000fd5b61084b610f1b565b610854" +:+
   "8261101f565b61085e8282611027565b5050565b600061086c611165565b507f" +:+
   "360894a13ba1a3210667c828492db98dca3e2076cc3735a920a3ca505d382bbc" +:+
   "90565b610899610d52565b6108da848484848080601f01602080910402602001" +:+
   "6040519081016040528093929190818152602001838380828437600092019190" +:+
   "915250610e1392505050565b50505050565b6040517f70a08231000000000000" +:+
   "0000000000000000000000000000000000000000000081523060048201526000" +:+
   "9073ffffffffffffffffffffffffffffffffffffffff7f000000000000000000" +:+
   "000000000000000000000000000000000000000000000016906370a082319060" +:+
   "24015b602060405180830381865afa15801561096e573d6000803e3d6000fd5b" +:+
   "505050506040513d601f19601f82011682018060405250810190610992919061" +:+
   "1dd6565b905090565b7ff0c57e16840df040f15088dc2f81fe391c3923bec73e" +:+
   "23a9662efc9c229c6a00805468010000000000000000810460ff16159067ffff" +:+
   "ffffffffffff166000811580156109e25750825b905060008267ffffffffffff" +:+
   "ffff1660011480156109ff5750303b155b905081158015610a0d575080155b15" +:+
   "610a44576040517ff92ee8a90000000000000000000000000000000000000000" +:+
   "0000000000000000815260040160405180910390fd5b84547fffffffffffffff" +:+
   "ffffffffffffffffffffffffffffffffff000000000000000016600117855583" +:+
   "15610aa55784547fffffffffffffffffffffffffffffffffffffffffffffff00" +:+
   "ffffffffffffffff16680100000000000000001785555b610aae866111d4565b" +:+
   "83156106e65784547fffffffffffffffffffffffffffffffffffffffffffffff" +:+
   "00ffffffffffffffff168555604051600181527fc7f505b2f371ae2175ee4913" +:+
   "f4499e1f2633a7b5936321eed1cdaeb6115181d29060200160405180910390a1" +:+
   "505050505050565b6040517f35567e1a00000000000000000000000000000000" +:+
   "00000000000000000000000081523060048201526000602482018190529073ff" +:+
   "ffffffffffffffffffffffffffffffffffffff7f000000000000000000000000" +:+
   "000000000000000000000000000000000000000016906335567e1a9060440161" +:+
   "0951565b3373ffffffffffffffffffffffffffffffffffffffff7f0000000000" +:+
   "0000000000000000000000000000000000000000000000000000001614610c31" +:+
   "576040517f08c379a00000000000000000000000000000000000000000000000" +:+
   "0000000000815260206004820152601c60248201527f6163636f756e743a206e" +:+
   "6f742066726f6d20456e747279506f696e740000000060448201526064016105" +:+
   "c7565b565b7f19457468657265756d205369676e6564204d6573736167653a0a" +:+
   "3332000000006000908152601c829052603c8120610cae81610c746101008701" +:+
   "87611d71565b8080601f01602080910402602001604051908101604052809392" +:+
   "919081815260200183838082843760009201919091525061126892505050565b" +:+
   "60005473ffffffffffffffffffffffffffffffffffffffff908116911614610c" +:+
   "da57600191505061051b565b5060009392505050565b50565b8015610ce45760" +:+
   "405160009033907fffffffffffffffffffffffffffffffffffffffffffffffff" +:+
   "ffffffffffffffff90849084818181858888f193505050503d80600081146107" +:+
   "8d576040519150601f19603f3d011682016040523d82523d6000602084013e61" +:+
   "078d565b3373ffffffffffffffffffffffffffffffffffffffff7f0000000000" +:+
   "000000000000000000000000000000000000000000000000000000161480610d" +:+
   "ad575060005473ffffffffffffffffffffffffffffffffffffffff1633145b61" +:+
   "0c31576040517f08c379a0000000000000000000000000000000000000000000" +:+
   "00000000000000815260206004820181905260248201527f6163636f756e743a" +:+
   "206e6f74204f776e6572206f7220456e747279506f696e746044820152606401" +:+
   "6105c7565b6000808473ffffffffffffffffffffffffffffffffffffffff1684" +:+
   "84604051610e3c9190611def565b60006040518083038185875af1925050503d" +:+
   "8060008114610e79576040519150601f19603f3d011682016040523d82523d60" +:+
   "00602084013e610e7e565b606091505b50915091508161078d57805160208201" +:+
   "fd5b60005473ffffffffffffffffffffffffffffffffffffffff16331480610e" +:+
   "b557503330145b610c31576040517f08c379a000000000000000000000000000" +:+
   "000000000000000000000000000000815260206004820152600a60248201527f" +:+
   "6f6e6c79206f776e657200000000000000000000000000000000000000000000" +:+
   "60448201526064016105c7565b3073ffffffffffffffffffffffffffffffffff" +:+
   "ffffff7f00000000000000000000000000000000000000000000000000000000" +:+
   "00000000161480610fe857507f00000000000000000000000000000000000000" +:+
   "0000000000000000000000000073ffffffffffffffffffffffffffffffffffff" +:+
   "ffff16610fcf7f360894a13ba1a3210667c828492db98dca3e2076cc3735a920" +:+
   "a3ca505d382bbc5473ffffffffffffffffffffffffffffffffffffffff169056" +:+
   "5b73ffffffffffffffffffffffffffffffffffffffff1614155b15610c315760" +:+
   "40517fe07c8dba00000000000000000000000000000000000000000000000000" +:+
   "000000815260040160405180910390fd5b610ce4610e90565b8173ffffffffff" +:+
   "ffffffffffffffffffffffffffffff166352d1902d6040518163ffffffff1660" +:+
   "e01b8152600401602060405180830381865afa9250505080156110ac57506040" +:+
   "8051601f3d9081017fffffffffffffffffffffffffffffffffffffffffffffff" +:+
   "ffffffffffffffffe01682019092526110a991810190611dd6565b60015b6110" +:+
   "fa576040517f4c9c8ce300000000000000000000000000000000000000000000" +:+
   "000000000000815273ffffffffffffffffffffffffffffffffffffffff831660" +:+
   "048201526024016105c7565b7f360894a13ba1a3210667c828492db98dca3e20" +:+
   "76cc3735a920a3ca505d382bbc8114611156576040517faa1d49a40000000000" +:+
   "0000000000000000000000000000000000000000000000815260048101829052" +:+
   "6024016105c7565b6111608383611292565b505050565b3073ffffffffffffff" +:+
   "ffffffffffffffffffffffffff7f000000000000000000000000000000000000" +:+
   "00000000000000000000000000001614610c31576040517fe07c8dba00000000" +:+
   "0000000000000000000000000000000000000000000000008152600401604051" +:+
   "80910390fd5b600080547fffffffffffffffffffffffff000000000000000000" +:+
   "00000000000000000000001673ffffffffffffffffffffffffffffffffffffff" +:+
   "ff838116918217835560405191927f0000000000000000000000000000000000" +:+
   "000000000000000000000000000000909116917f47e55c76e7a6f1fd8996a1da" +:+
   "8008c1ea29699cca35e7bcd057f2dec313b6e5de9190a350565b600080600080" +:+
   "61127886866112f5565b9250925092506112888282611342565b509094935050" +:+
   "5050565b61129b82611446565b60405173ffffffffffffffffffffffffffffff" +:+
   "ffffffffff8316907fbc7cd75a20ee27fd9adebab32041f755214dbc6bffa90c" +:+
   "c0225b39da2e5c2d3b90600090a28051156112ed576111608282611515565b61" +:+
   "085e611598565b6000806000835160410361132f576020840151604085015160" +:+
   "6086015160001a611321888285856115d0565b95509550955050505061133b56" +:+
   "5b50508151600091506002905b9250925092565b600082600381111561135657" +:+
   "611356611e0b565b0361135f575050565b600182600381111561137357611373" +:+
   "611e0b565b036113aa576040517ff645eedf0000000000000000000000000000" +:+
   "0000000000000000000000000000815260040160405180910390fd5b60028260" +:+
   "038111156113be576113be611e0b565b036113f8576040517ffce698f7000000" +:+
   "0000000000000000000000000000000000000000000000000081526004810182" +:+
   "90526024016105c7565b600382600381111561140c5761140c611e0b565b0361" +:+
   "085e576040517fd78bce0c000000000000000000000000000000000000000000" +:+
   "000000000000008152600481018290526024016105c7565b8073ffffffffffff" +:+
   "ffffffffffffffffffffffffffff163b6000036114af576040517f4c9c8ce300" +:+
   "000000000000000000000000000000000000000000000000000000815273ffff" +:+
   "ffffffffffffffffffffffffffffffffffff821660048201526024016105c756" +:+
   "5b7f360894a13ba1a3210667c828492db98dca3e2076cc3735a920a3ca505d38" +:+
   "2bbc80547fffffffffffffffffffffffff000000000000000000000000000000" +:+
   "00000000001673ffffffffffffffffffffffffffffffffffffffff9290921691" +:+
   "9091179055565b60606000808473ffffffffffffffffffffffffffffffffffff" +:+
   "ffff168460405161153f9190611def565b600060405180830381855af4915050" +:+
   "3d806000811461157a576040519150601f19603f3d011682016040523d82523d" +:+
   "6000602084013e61157f565b606091505b509150915061158f8583836116ca56" +:+
   "5b95945050505050565b3415610c31576040517fb398979f0000000000000000" +:+
   "0000000000000000000000000000000000000000815260040160405180910390" +:+
   "fd5b600080807f7fffffffffffffffffffffffffffffff5d576e7357a4501ddf" +:+
   "e92f46681b20a084111561160b57506000915060039050826116c0565b604080" +:+
   "516000808252602082018084528a905260ff8916928201929092526060810187" +:+
   "90526080810186905260019060a0016020604051602081039080840390855afa" +:+
   "15801561165f573d6000803e3d6000fd5b50506040517fffffffffffffffffff" +:+
   "ffffffffffffffffffffffffffffffffffffffffffffe0015191505073ffffff" +:+
   "ffffffffffffffffffffffffffffffffff81166116b657506000925060019150" +:+
   "8290506116c0565b9250600091508190505b9450945094915050565b60608261" +:+
   "16df576116da82611759565b610540565b8151158015611703575073ffffffff" +:+
   "ffffffffffffffffffffffffffffffff84163b155b15611752576040517f9996" +:+
   "b315000000000000000000000000000000000000000000000000000000008152" +:+
   "73ffffffffffffffffffffffffffffffffffffffff8516600482015260240161" +:+
   "05c7565b5080610540565b8051156117695780518082602001fd5b6040517f14" +:+
   "25ea420000000000000000000000000000000000000000000000000000000081" +:+
   "5260040160405180910390fd5b6000602082840312156117ad57600080fd5b81" +:+
   "357fffffffff0000000000000000000000000000000000000000000000000000" +:+
   "00008116811461054057600080fd5b73ffffffffffffffffffffffffffffffff" +:+
   "ffffffff81168114610ce457600080fd5b60008083601f840112611811576000" +:+
   "80fd5b50813567ffffffffffffffff81111561182957600080fd5b6020830191" +:+
   "5083602082850101111561184157600080fd5b9250929050565b600080600080" +:+
   "60006080868803121561186057600080fd5b853561186b816117dd565b945060" +:+
   "2086013561187b816117dd565b935060408601359250606086013567ffffffff" +:+
   "ffffffff81111561189e57600080fd5b6118aa888289016117ff565b96999598" +:+
   "5093965092949392505050565b6000806000606084860312156118d057600080" +:+
   "fd5b833567ffffffffffffffff8111156118e757600080fd5b84016101208187" +:+
   "0312156118fa57600080fd5b9560208501359550604090940135939250505056" +:+
   "5b60008083601f84011261192157600080fd5b50813567ffffffffffffffff81" +:+
   "111561193957600080fd5b6020830191508360208260051b8501011115611841" +:+
   "57600080fd5b6000806000806000806060878903121561196d57600080fd5b86" +:+
   "3567ffffffffffffffff8082111561198557600080fd5b6119918a838b016119" +:+
   "0f565b909850965060208901359150808211156119aa57600080fd5b6119b68a" +:+
   "838b0161190f565b909650945060408901359150808211156119cf57600080fd" +:+
   "5b506119dc89828a0161190f565b979a9699509497509295939492505050565b" +:+
   "60008060408385031215611a0157600080fd5b8235611a0c816117dd565b9460" +:+
   "20939093013593505050565b7f4e487b71000000000000000000000000000000" +:+
   "00000000000000000000000000600052604160045260246000fd5b6000806040" +:+
   "8385031215611a5c57600080fd5b8235611a67816117dd565b91506020830135" +:+
   "67ffffffffffffffff80821115611a8457600080fd5b818501915085601f8301" +:+
   "12611a9857600080fd5b813581811115611aaa57611aaa611a1a565b60405160" +:+
   "1f82017fffffffffffffffffffffffffffffffffffffffffffffffffffffffff" +:+
   "ffffffe0908116603f01168101908382118183101715611af057611af0611a1a" +:+
   "565b81604052828152886020848701011115611b0957600080fd5b8260208601" +:+
   "602083013760006020848301015280955050505050509250929050565b60005b" +:+
   "83811015611b46578181015183820152602001611b2e565b5050600091015256" +:+
   "5b6020815260008251806020840152611b6e816040850160208701611b2b565b" +:+
   "601f017fffffffffffffffffffffffffffffffffffffffffffffffffffffffff" +:+
   "ffffffe0169190910160400192915050565b6000806000806060858703121561" +:+
   "1bb657600080fd5b8435611bc1816117dd565b93506020850135925060408501" +:+
   "3567ffffffffffffffff811115611be457600080fd5b611bf0878288016117ff" +:+
   "565b95989497509550505050565b60008060008060008060008060a0898b0312" +:+
   "15611c1857600080fd5b8835611c23816117dd565b97506020890135611c3381" +:+
   "6117dd565b9650604089013567ffffffffffffffff80821115611c5057600080" +:+
   "fd5b611c5c8c838d0161190f565b909850965060608b0135915080821115611c" +:+
   "7557600080fd5b611c818c838d0161190f565b909650945060808b0135915080" +:+
   "821115611c9a57600080fd5b50611ca78b828c016117ff565b999c989b509699" +:+
   "5094979396929594505050565b600060208284031215611ccd57600080fd5b81" +:+
   "35610540816117dd565b60008060008060008060a08789031215611cf1576000" +:+
   "80fd5b8635611cfc816117dd565b95506020870135611d0c816117dd565b9450" +:+
   "6040870135935060608701359250608087013567ffffffffffffffff81111561" +:+
   "1d3657600080fd5b6119dc89828a016117ff565b7f4e487b7100000000000000" +:+
   "0000000000000000000000000000000000000000006000526032600452602460" +:+
   "00fd5b60008083357fffffffffffffffffffffffffffffffffffffffffffffff" +:+
   "ffffffffffffffffe1843603018112611da657600080fd5b83018035915067ff" +:+
   "ffffffffffffff821115611dc157600080fd5b60200191503681900382131561" +:+
   "184157600080fd5b600060208284031215611de857600080fd5b505191905056" +:+
   "5b60008251611e01818460208701611b2b565b9190910192915050565b7f4e48" +:+
   "7b71000000000000000000000000000000000000000000000000000000006000" +:+
   "52602160045260246000fdfea2646970667358221220646ccd794d1cd309da39" +:+
   "b56bcfe1238dae05a9d8106dddf47fe099a78d7801e864736f6c634300081700" +:+
   "33").

(** ** CREATE addresses *)

(** The minimal big-endian bytes: leading zeros stripped. *)
Fixpoint significant (be : bytes) : bytes :=
  match be with
  | b :: be' => if b =? 0 then significant be' else be
  | [] => []
  end.

Definition nonce_rlp (nonce : Z) : bytes :=
  match significant (be_bytes 8 nonce) with
  | [] => [128]
  | [b] => if b <? 128 then [b] else [129; b]
  | s => (128 + Z.of_nat (length s)) :: s
  end.

Section addresses.
Context `{Evm}.

Definition create_address (deployer : EvmAddress) (nonce : Z) : EvmAddress :=
  let payload := 148 :: deployer ++ nonce_rlp nonce in
  low20 (keccak256 ((192 + Z.of_nat (length payload)) :: payload)).

Definition factory_create2_salt : Hash := keccak256 FACTORY_CREATE2_SALT_DOMAIN.

(** The constructor's single argument is one ABI word. *)
Definition factory_init_code (entry_point : EvmAddress) : bytes :=
  FACTORY_CREATION_CODE ++ pad32 entry_point.

(** [Address::create2_from_code]. *)
Definition derive_account_factory (entry_point : EvmAddress) : EvmAddress :=
  create2_address ARACHNID_DEPLOYER factory_create2_salt
    (keccak256 (factory_init_code entry_point)).

Definition derive_simple_account_impl (account_factory : EvmAddress) : EvmAddress :=
  create_address account_factory 1.
End addresses.
