(* ===== verification/UsdtUserOp.v ===== *)
(** * ERC-4337 user operations

    [modules/usdt/fedimint-usdt-common/src/user_op.rs] and
    [modules/usdt/fedimint-usdt-server/src/user_op.rs]: the operation the
    federation signs, its hash, the builders for sweeps,
    withdrawal batches and gas recovery, the decoders that read the paid amount
    back from the calldata, and the gas bounds. *)

From S2P Require Import Prelude FedimintCore UsdtTypes UsdtEvm.

(** ** The operation *)

Record UnsignedUserOp := mkUnsignedUserOp {
  sender : EvmAddress;
  nonce : Z;
  init_code : bytes;
  call_data : bytes;
  verification_gas_limit : Z;
  call_gas_limit : Z;
  pre_verification_gas : Z;
  max_priority_fee_per_gas : Z;
  max_fee_per_gas : Z;
  paymaster_and_data : bytes;
}.
#[export] Instance UnsignedUserOp_eq_dec : EqDecision UnsignedUserOp.
Proof. solve_decision. Defined.

Record SignedUserOp := mkSignedUserOp { unsigned : UnsignedUserOp; op_signature : bytes }.
#[export] Instance SignedUserOp_eq_dec : EqDecision SignedUserOp.
Proof. solve_decision. Defined.

Record PackedUserOperation := mkPackedUserOperation {
  packed_sender : EvmAddress;
  packed_nonce : Z;
  initCode : bytes;
  callData : bytes;
  accountGasLimits : bytes;
  preVerificationGas : Z;
  gasFees : bytes;
  paymasterAndData : bytes;
  packed_signature : bytes;
}.

Definition pack_u128_hi_lo (hi lo : Z) : bytes := be_bytes 16 hi ++ be_bytes 16 lo.

Definition UnsignedUserOp_pack (op : UnsignedUserOp) : PackedUserOperation := {|
  packed_sender := sender op;
  packed_nonce := nonce op;
  initCode := init_code op;
  callData := call_data op;
  accountGasLimits := pack_u128_hi_lo (verification_gas_limit op) (call_gas_limit op);
  preVerificationGas := pre_verification_gas op;
  gasFees := pack_u128_hi_lo (max_priority_fee_per_gas op) (max_fee_per_gas op);
  paymasterAndData := paymaster_and_data op;
  packed_signature := [];
|}.

Definition SignedUserOp_pack (op : SignedUserOp) : PackedUserOperation :=
  let p := UnsignedUserOp_pack (unsigned op) in {|
  packed_sender := packed_sender p;
  packed_nonce := packed_nonce p;
  initCode := initCode p;
  callData := callData p;
  accountGasLimits := accountGasLimits p;
  preVerificationGas := preVerificationGas p;
  gasFees := gasFees p;
  paymasterAndData := paymasterAndData p;
  packed_signature := op_signature op;
|}.

Definition EIP_191_PREFIX : bytes := 25 :: ascii_bytes "Ethereum Signed Message:" ++ [10; 51; 50].

Section hashes.
Context `{Evm}.

Definition user_op_hash (op : UnsignedUserOp) (entry_point : EvmAddress) (chain_id : Z) : Hash :=
  let packed := UnsignedUserOp_pack op in
  let inner_preimage := abi_user_op (packed_sender packed) (packed_nonce packed)
    (keccak256 (initCode packed)) (keccak256 (callData packed)) (accountGasLimits packed)
    (preVerificationGas packed) (gasFees packed) (keccak256 (paymasterAndData packed)) in
  let inner_hash := keccak256 inner_preimage in
  keccak256 (abi_hash_address_chain inner_hash entry_point chain_id).

Definition eth_signed_message_hash (user_op_hash : Hash) : Hash :=
  keccak256 (EIP_191_PREFIX ++ user_op_hash).
End hashes.

(** ** Gas bounds *)

Record GasBounds := mkGasBounds {
  gb_verification_gas_limit : Z;
  gb_call_gas_limit : Z;
  gb_pre_verification_gas : Z;
  gb_max_priority_fee_per_gas : Z;
  gb_max_fee_per_gas : Z;
}.

Definition total_gas_units (g : GasBounds) : Z :=
  saturating_add_u128
    (saturating_add_u128 (gb_verification_gas_limit g) (gb_call_gas_limit g))
    (gb_pre_verification_gas g).

Definition DEPLOY_AND_SWEEP_DEVNET : GasBounds :=
  mkGasBounds 500000 200000 100000 1500000000 30000000000.

Definition withdrawal_batch (withdrawal_count : nat) (needs_deploy : bool) : GasBounds :=
  let count := Z.min U128_MAX (Z.of_nat withdrawal_count) in
  mkGasBounds (if needs_deploy then 500000 else 100000)
    (u128_add 60000 (saturating_mul_u128 count 80000))
    (u128_add 100000 (saturating_mul_u128 count 20000))
    1500000000 30000000000.

Definition RECOVER_RESIDUAL_DEVNET : GasBounds :=
  mkGasBounds 100000 60000 100000 1500000000 30000000000.

Definition RECOVER_RESIDUAL_GAS_UNITS : Z :=
  gb_verification_gas_limit RECOVER_RESIDUAL_DEVNET + gb_call_gas_limit RECOVER_RESIDUAL_DEVNET
  + gb_pre_verification_gas RECOVER_RESIDUAL_DEVNET.

Definition OP_FEE_FLOOR_WEI : Z := 1000000000.
Definition OP_FEE_CEILING_WEI : Z := 200000000000.
Definition OP_PRIORITY_FEE_WEI : Z := 1000000000.

Definition with_median_fees (g : GasBounds) (median_max_fee_per_gas_wei : option Z) : GasBounds :=
  let live := default 0 median_max_fee_per_gas_wei in
  let max_fee := clamp (saturating_mul_u128 live 2) OP_FEE_FLOOR_WEI OP_FEE_CEILING_WEI in
  mkGasBounds (gb_verification_gas_limit g) (gb_call_gas_limit g) (gb_pre_verification_gas g)
    (Z.min OP_PRIORITY_FEE_WEI max_fee) max_fee.

(** [fee.saturating_add(fee.div_ceil(10))] *)
Definition bump_10_percent (fee : Z) : Z := saturating_add_u128 fee ((fee + 9) / 10).

Record RepricedUserOpFees := mkRepricedUserOpFees {
  re_max_fee_per_gas : Z;
  re_max_priority_fee_per_gas : Z;
  re_gas_cost_wei : Z;
}.

Definition repriced_user_op_fees (old : UnsignedUserOp) (median : FeeVote) : RepricedUserOpFees :=
  let priced := with_median_fees DEPLOY_AND_SWEEP_DEVNET (Some (max_fee_per_gas_wei median)) in
  let max_fee_per_gas :=
    Z.max (gb_max_fee_per_gas priced) (bump_10_percent (max_fee_per_gas old)) in
  let max_priority_fee_per_gas :=
    Z.min (Z.max (gb_max_priority_fee_per_gas priced)
             (bump_10_percent (max_priority_fee_per_gas old))) max_fee_per_gas in
  let total_gas_units :=
    saturating_add_u128
      (saturating_add_u128 (verification_gas_limit old) (call_gas_limit old))
      (Z.min U128_MAX (pre_verification_gas old)) in
  mkRepricedUserOpFees max_fee_per_gas max_priority_fee_per_gas
    (saturating_mul_u128 total_gas_units max_fee_per_gas).

(** ** Builders and decoders *)

Record DeployAndSweepParams := mkDeployAndSweepParams {
  ds_account_factory : EvmAddress;
  ds_usdt_contract : EvmAddress;
  ds_deposit_account : EvmAddress;
  ds_owner : EvmAddress;
  ds_claim_pk : PublicKey;
  ds_amount : UsdtAmount;
  ds_pool : EvmAddress;
  ds_nonce : Z;
  ds_needs_deploy : bool;
  ds_paymaster_and_data : bytes;
  ds_gas_bounds : GasBounds;
}.

Record WithdrawalBatchParams := mkWithdrawalBatchParams {
  wb_account_factory : EvmAddress;
  wb_usdt_contract : EvmAddress;
  wb_pool : EvmAddress;
  wb_owner : EvmAddress;
  wb_withdrawals : list (EvmAddress * UsdtAmount);
  wb_nonce : Z;
  wb_needs_deploy : bool;
  wb_paymaster_and_data : bytes;
  wb_gas_bounds : GasBounds;
}.

Record RecoverResidualParams := mkRecoverResidualParams {
  rr_deposit_account : EvmAddress;
  rr_entry_point : EvmAddress;
  rr_recipient : EvmAddress;
  rr_amount_wei : Z;
  rr_nonce : Z;
  rr_paymaster_and_data : bytes;
  rr_gas_bounds : GasBounds;
}.

Inductive OpDecodeError :=
| NotExecute | NotExecuteBatch | NotTransfer | NotWithdrawTo | LengthMismatch
| AmountOverflow | TotalOverflow.

Section builders.
Context `{Evm}.

Definition build_deploy_and_sweep_userop (params : DeployAndSweepParams) : UnsignedUserOp :=
  let init_code :=
    if ds_needs_deploy params
    then ds_account_factory params
         ++ abi_create_account (ds_owner params) (deposit_salt (ds_claim_pk params))
    else [] in
  let transfer_calldata := abi_transfer (ds_pool params) (ds_amount params) in
  let call_data := abi_execute (ds_usdt_contract params) 0 transfer_calldata in
  let g := ds_gas_bounds params in
  mkUnsignedUserOp (ds_deposit_account params) (ds_nonce params) init_code call_data
    (gb_verification_gas_limit g) (gb_call_gas_limit g) (gb_pre_verification_gas g)
    (gb_max_priority_fee_per_gas g) (gb_max_fee_per_gas g) (ds_paymaster_and_data params).

Definition decode_transfer_amount (op : UnsignedUserOp) : result OpDecodeError UsdtAmount :=
  '(_, _, func) ← ok_or (abi_decode_execute (call_data op)) NotExecute;
  '(_, amount) ← ok_or (abi_decode_transfer func) NotTransfer;
  ok_or (try_u64 amount) AmountOverflow.

Definition build_recover_residual_userop (params : RecoverResidualParams) : UnsignedUserOp :=
  let withdraw_calldata := abi_withdraw_to (rr_recipient params) (rr_amount_wei params) in
  let call_data := abi_execute (rr_entry_point params) 0 withdraw_calldata in
  let g := rr_gas_bounds params in
  mkUnsignedUserOp (rr_deposit_account params) (rr_nonce params) [] call_data
    (gb_verification_gas_limit g) (gb_call_gas_limit g) (gb_pre_verification_gas g)
    (gb_max_priority_fee_per_gas g) (gb_max_fee_per_gas g) (rr_paymaster_and_data params).

Definition decode_recover_residual (op : UnsignedUserOp)
    : result OpDecodeError (EvmAddress * EvmAddress * Z) :=
  '(dest, _, func) ← ok_or (abi_decode_execute (call_data op)) NotExecute;
  '(withdraw_address, amount) ← ok_or (abi_decode_withdraw_to func) NotWithdrawTo;
  Ok (dest, withdraw_address, amount).

Definition build_withdrawal_batch_userop (params : WithdrawalBatchParams) : UnsignedUserOp :=
  let init_code :=
    if wb_needs_deploy params
    then wb_account_factory params ++ abi_create_account (wb_owner params) pool_salt
    else [] in
  let dest := map (fun _ => wb_usdt_contract params) (wb_withdrawals params) in
  let value := map (fun _ => 0) (wb_withdrawals params) in
  let func := map (fun '(recipient, amount) => abi_transfer recipient amount)
                (wb_withdrawals params) in
  let call_data := abi_execute_batch dest value func in
  let g := wb_gas_bounds params in
  mkUnsignedUserOp (wb_pool params) (wb_nonce params) init_code call_data
    (gb_verification_gas_limit g) (gb_call_gas_limit g) (gb_pre_verification_gas g)
    (gb_max_priority_fee_per_gas g) (gb_max_fee_per_gas g) (wb_paymaster_and_data params).

(** The summing loop of [decode_batch_transfer_total]. *)
Fixpoint transfer_total (total : Z) (funcs : list bytes) : result OpDecodeError UsdtAmount :=
  match funcs with
  | [] => Ok total
  | func :: funcs =>
      '(_, amount) ← ok_or (abi_decode_transfer func) NotTransfer;
      amount ← ok_or (try_u64 amount) AmountOverflow;
      total ← ok_or (checked_add_u64 total amount) TotalOverflow;
      transfer_total total funcs
  end.

Definition decode_batch_transfer_total (op : UnsignedUserOp) : result OpDecodeError UsdtAmount :=
  '(dest, value, func) ← ok_or (abi_decode_execute_batch (call_data op)) NotExecuteBatch;
  check ((length dest =? length value)%nat && (length dest =? length func)%nat) LengthMismatch;;
  transfer_total 0 func.

(** Tries the two recovery ids in turn; the result is [r ++ s ++ [v]]. *)
Definition assemble_eth_signature (compact_rs : bytes) (signed_digest : Hash) (owner : EvmAddress)
    : option bytes :=
  let try_id recovery_id :=
    match recover_ecdsa signed_digest compact_rs recovery_id with
    | Some recovered_pk =>
        if bool_decide (evm_address recovered_pk = owner)
        then Some (compact_rs ++ [27 + recovery_id]) else None
    | None => None
    end in
  match try_id 0 with Some s => Some s | None => try_id 1 end.
End builders.

(** ** The hash binds the operation *)

Definition op_in_range (op : UnsignedUserOp) : Prop :=
  is_u128 (verification_gas_limit op) /\ is_u128 (call_gas_limit op) /\
  is_u128 (max_priority_fee_per_gas op) /\ is_u128 (max_fee_per_gas op).

Lemma pack_u128_inj a b a' b' :
  is_u128 a -> is_u128 b -> is_u128 a' -> is_u128 b' ->
  pack_u128_hi_lo a b = pack_u128_hi_lo a' b' -> a = a' /\ b = b'.
Proof.
  unfold_widths. intros ???? E. apply app_inj_1 in E as [E1 E2];
    [|by rewrite !length_be_bytes].
  split; (eapply (be_bytes_inj 16); [..|done]); change (256 ^ Z.of_nat 16) with (2 ^ 128); lia.
Qed.

(** C27: Two operations with the same signed hash are the same operation for the same
    entry point and chain: the guardians' signature authorises every field,
    the calldata and the fees included, and cannot be replayed elsewhere. *)
Theorem user_op_hash_binds `{HashOk} op op' ep ep' chain chain' :
  op_in_range op -> op_in_range op' ->
  eth_signed_message_hash (user_op_hash op ep chain)
    = eth_signed_message_hash (user_op_hash op' ep' chain') ->
  op = op' /\ ep = ep' /\ chain = chain'.
Proof.
  intros (? & ? & ? & ?) (? & ? & ? & ?) E. unfold eth_signed_message_hash in E.
  apply (inj keccak256) in E. apply app_inv_head in E.
  unfold user_op_hash in E. apply (inj keccak256), hash_address_chain_inj in E as (E & -> & ->).
  apply (inj keccak256), user_op_inj in E as (? & ? & Ei & Ec & Eg & ? & Ef & Em).
  apply (inj keccak256) in Ei, Ec, Em.
  apply pack_u128_inj in Eg as [??]; [|done..]. apply pack_u128_inj in Ef as [??]; [|done..].
  destruct op, op'; simpl in *. by simplify_eq.
Qed.

(** ** Reading back what an operation pays *)

Lemma decode_sweep `{AbiOk} p :
  is_u64 (ds_amount p) ->
  decode_transfer_amount (build_deploy_and_sweep_userop p) = Ok (ds_amount p).
Proof.
  intros Ha. unfold decode_transfer_amount, build_deploy_and_sweep_userop; simpl.
  rewrite execute_round_trip; simpl. rewrite transfer_round_trip; simpl.
  apply ok_or_Ok, try_u64_Some. unfold_widths. lia.
Qed.

Definition batch_total (ws : list (EvmAddress * UsdtAmount)) : Z :=
  foldr (fun w acc => w.2 + acc) 0 ws.

Lemma batch_total_nonneg ws : Forall (fun w => is_u64 w.2) ws -> 0 <= batch_total ws.
Proof. induction 1; simpl; unfold_widths; lia. Qed.

Lemma transfer_total_spec `{AbiOk} ws acc :
  Forall (fun w => is_u64 w.2) ws -> is_u64 acc ->
  transfer_total acc (map (fun '(r, a) => abi_transfer r a) ws) =
    if acc + batch_total ws <=? U64_MAX then Ok (acc + batch_total ws) else Err TotalOverflow.
Proof.
  intros HF. revert acc. induction HF as [|[r a] ws Ha HF IH]; intros acc Hacc; simpl.
  { rewrite Z.add_0_r. unfold is_u64 in Hacc. by rewrite (proj2 (Z.leb_le _ _)) by lia. }
  pose proof (batch_total_nonneg ws HF).
  simpl in Ha. rewrite transfer_round_trip; simpl.
  rewrite (proj2 (try_u64_Some a a)) by (unfold_widths; lia). simpl.
  unfold checked_add_u64. destruct (acc + a <=? U64_MAX) eqn:E1; zbool; simpl.
  - rewrite IH by (unfold_widths; lia). by rewrite Z.add_assoc.
  - by rewrite (proj2 (Z.leb_gt _ _)) by lia.
Qed.

(** Whatever the amounts, a total that decodes is their exact sum. *)
Lemma transfer_total_Ok `{AbiOk} ws acc x :
  acc <= U64_MAX ->
  transfer_total acc (map (fun '(r, a) => abi_transfer r a) ws) = Ok x ->
  x = acc + batch_total ws /\ x <= U64_MAX.
Proof.
  revert acc. induction ws as [|[r a] ws IH]; intros acc Hacc E; simpl in *; [simplify_eq; lia|].
  rewrite transfer_round_trip in E; simpl in E.
  destruct (try_u64 a) as [y|] eqn:Ea; simpl in E; [|done].
  apply try_u64_Some in Ea as [-> ?].
  destruct (checked_add_u64 acc a) as [z|] eqn:Ez; simpl in E; [|done].
  apply checked_add_u64_Some in Ez as [-> ?]. apply IH in E as [-> ?]; lia.
Qed.

Lemma decode_batch_Ok `{AbiOk} p x :
  decode_batch_transfer_total (build_withdrawal_batch_userop p) = Ok x ->
  x = batch_total (wb_withdrawals p) /\ x <= U64_MAX.
Proof.
  unfold decode_batch_transfer_total, build_withdrawal_batch_userop; simpl.
  rewrite execute_batch_round_trip; simpl. rewrite !length_map, !Nat.eqb_refl; simpl.
  intros E. apply transfer_total_Ok in E; [lia|done].
Qed.

Lemma decode_batch `{AbiOk} p :
  Forall (fun w => is_u64 w.2) (wb_withdrawals p) ->
  decode_batch_transfer_total (build_withdrawal_batch_userop p) =
    if batch_total (wb_withdrawals p) <=? U64_MAX then Ok (batch_total (wb_withdrawals p))
    else Err TotalOverflow.
Proof.
  intros HF. unfold decode_batch_transfer_total, build_withdrawal_batch_userop; simpl.
  rewrite execute_batch_round_trip; simpl. rewrite !length_map, !Nat.eqb_refl; simpl.
  by rewrite transfer_total_spec by (done || unfold_widths; lia).
Qed.

(** What settlement reads back from a signed operation is what its builder put
    in: a sweep's amount, a batch's exact total (an error when it exceeds [u64],
    never a wrapped sum), and a recovery's target, recipient and amount. *)
Theorem op_amounts_round_trip `{AbiOk} s w r :
  is_u64 (ds_amount s) -> Forall (fun x => is_u64 x.2) (wb_withdrawals w) ->
  decode_transfer_amount (build_deploy_and_sweep_userop s) = Ok (ds_amount s) /\
  decode_batch_transfer_total (build_withdrawal_batch_userop w) =
    (if batch_total (wb_withdrawals w) <=? U64_MAX then Ok (batch_total (wb_withdrawals w))
     else Err TotalOverflow) /\
  decode_recover_residual (build_recover_residual_userop r)
    = Ok (rr_entry_point r, rr_recipient r, rr_amount_wei r).
Proof.
  intros. split; [by apply decode_sweep|]. split; [by apply decode_batch|].
  unfold decode_recover_residual, build_recover_residual_userop; simpl.
  rewrite execute_round_trip; simpl. by rewrite withdraw_to_round_trip.
Qed.

(** ** Fees *)

Lemma with_median_fees_bounds g m :
  OP_FEE_FLOOR_WEI <= gb_max_fee_per_gas (with_median_fees g m) <= OP_FEE_CEILING_WEI /\
  gb_max_priority_fee_per_gas (with_median_fees g m) <= gb_max_fee_per_gas (with_median_fees g m).
Proof.
  unfold with_median_fees; simpl. pose proof (clamp_in (saturating_mul_u128 (default 0 m) 2)
    OP_FEE_FLOOR_WEI OP_FEE_CEILING_WEI ltac:(done)). lia.
Qed.

(** A replacement outbids the operation it replaces by at least ten per cent on
    both fees (so that bundlers accept it), its priority fee never exceeds its
    maximum fee, and the cost compared with the users' fee ceiling is the exact
    prefund whenever that fits [u128]. *)
Theorem replacement_outbids old m :
  op_in_range old -> 0 <= max_fee_per_gas_wei m ->
  max_priority_fee_per_gas old <= max_fee_per_gas old ->
  bump_10_percent (max_fee_per_gas old) <= U128_MAX - 1 ->
  let r := repriced_user_op_fees old m in
  11 * max_fee_per_gas old <= 10 * re_max_fee_per_gas r /\
  11 * max_priority_fee_per_gas old <= 10 * re_max_priority_fee_per_gas r /\
  re_max_priority_fee_per_gas r <= re_max_fee_per_gas r /\
  (let units := verification_gas_limit old + call_gas_limit old + pre_verification_gas old in
   0 <= pre_verification_gas old -> units * re_max_fee_per_gas r <= U128_MAX ->
   re_gas_cost_wei r = units * re_max_fee_per_gas r).
Proof.
  intros (Hv & Hc & Hp & Hf) Hm Hle Hb r.
  assert (Hbump : forall x y, is_u128 x -> x <= y -> bump_10_percent y <= U128_MAX - 1 ->
    is_u128 y -> bump_10_percent x <= bump_10_percent y /\ 11 * x <= 10 * bump_10_percent x).
  { intros x y Hx Hxy Hy Hy'. unfold bump_10_percent, saturating_add_u128 in *. unfold_widths.
    pose proof (mul_div_floor (x + 9) 10 ltac:(lia)). pose proof (mul_div_floor (y + 9) 10 ltac:(lia)).
    lia. }
  destruct (Hbump _ _ Hp Hle Hb Hf) as [Hmono Hp11].
  destruct (Hbump _ _ Hf ltac:(reflexivity) Hb Hf) as [_ Hf11].
  pose proof (with_median_fees_bounds DEPLOY_AND_SWEEP_DEVNET (Some (max_fee_per_gas_wei m)))
    as [[Hlo Hhi] Hpr].
  unfold r, repriced_user_op_fees; cbn [re_max_fee_per_gas re_max_priority_fee_per_gas
    re_gas_cost_wei].
  set (f := Z.max _ (bump_10_percent (max_fee_per_gas old))).
  assert (OP_FEE_FLOOR_WEI <= f) by lia. unfold OP_FEE_FLOOR_WEI in *.
  split; [lia|]. split; [lia|]. split; [lia|]. intros Hpv Hfit.
  unfold saturating_mul_u128, saturating_add_u128.
  assert (verification_gas_limit old + call_gas_limit old + pre_verification_gas old <= U128_MAX)
    by (unfold_widths; nia).
  unfold_widths. rewrite !Z.min_r; lia.
Qed.

(** The gas a quote charges for is the gas the builders provision: a sweep's
    units, a single withdrawal's units, and for a batch of any size on a deployed
    pool no more than the units its members were quoted for. *)
Theorem quoted_gas_covers_builders (n : nat) :
  (1 <= n)%nat -> Z.of_nat n <= 2 ^ 32 ->
  total_gas_units DEPLOY_AND_SWEEP_DEVNET = SWEEP_GAS_UNITS /\
  total_gas_units (withdrawal_batch 1 false) = WITHDRAWAL_GAS_UNITS /\
  total_gas_units (withdrawal_batch n false) <= Z.of_nat n * WITHDRAWAL_GAS_UNITS.
Proof.
  intros Hn Hn'. split; [reflexivity|]. split; [reflexivity|].
  unfold total_gas_units, withdrawal_batch, saturating_add_u128, saturating_mul_u128,
    WITHDRAWAL_GAS_UNITS; cbn [gb_verification_gas_limit gb_call_gas_limit gb_pre_verification_gas].
  unfold u128_add. rewrite !wrap128_id by (unfold_widths; lia). unfold_widths. lia.
Qed.

Lemma quoted_gas_covers_builders_witness :
  total_gas_units DEPLOY_AND_SWEEP_DEVNET = SWEEP_GAS_UNITS /\
  total_gas_units (withdrawal_batch 1 false) = WITHDRAWAL_GAS_UNITS /\
  total_gas_units (withdrawal_batch 20 false) <= Z.of_nat 20 * WITHDRAWAL_GAS_UNITS.
Proof. apply (quoted_gas_covers_builders 20); lia. Defined.

(** ** Evaluation *)

Definition demo_sweep_params : DeployAndSweepParams :=
  mkDeployAndSweepParams [1] [2] [3] [4] (mkPublicKey 5) 777 [6] 0 true [] DEPLOY_AND_SWEEP_DEVNET.
Definition demo_batch_params : WithdrawalBatchParams :=
  mkWithdrawalBatchParams [1] [2] [3] [4] [([7], 100); ([8], 23)] 0 false []
    (withdrawal_batch 2 false).
Definition demo_recover_params : RecoverResidualParams :=
  mkRecoverResidualParams [3] [9] [8] 12345 1 [] RECOVER_RESIDUAL_DEVNET.

Lemma op_amounts_round_trip_witness :
  @decode_transfer_amount toy_evm (@build_deploy_and_sweep_userop toy_evm demo_sweep_params)
    = Ok 777 /\
  @decode_batch_transfer_total toy_evm (@build_withdrawal_batch_userop toy_evm demo_batch_params)
    = Ok 123 /\
  @decode_recover_residual toy_evm (@build_recover_residual_userop toy_evm demo_recover_params)
    = Ok ([9], [8], 12345).
Proof.
  apply (@op_amounts_round_trip toy_evm toy_abi_ok demo_sweep_params demo_batch_params
           demo_recover_params).
  - unfold_widths. simpl. lia.
  - repeat constructor; simpl; unfold_widths; lia.
Defined.

Lemma user_op_hash_binds_witness :
  let op := @build_deploy_and_sweep_userop toy_evm demo_sweep_params in
  op = op /\ [9] = [9] /\ 1 = 1.
Proof.
  intros op. apply (@user_op_hash_binds toy_evm toy_hash_ok op op [9] [9] 1 1); [| |reflexivity];
    unfold op_in_range; simpl; unfold_widths; lia.
Defined.

Lemma replacement_outbids_witness :
  let old := @build_deploy_and_sweep_userop toy_evm demo_sweep_params in
  let r := repriced_user_op_fees old (mkFeeVote 1000000000 3000000000) in
  11 * max_fee_per_gas old <= 10 * re_max_fee_per_gas r /\
  11 * max_priority_fee_per_gas old <= 10 * re_max_priority_fee_per_gas r /\
  re_max_priority_fee_per_gas r <= re_max_fee_per_gas r /\
  (let units := verification_gas_limit old + call_gas_limit old + pre_verification_gas old in
   0 <= pre_verification_gas old -> units * re_max_fee_per_gas r <= U128_MAX ->
   re_gas_cost_wei r = units * re_max_fee_per_gas r).
Proof.
  intros old. apply (replacement_outbids old (mkFeeVote 1000000000 3000000000));
    vm_compute; intuition congruence.
Defined.
