(* ===== verification/UsdtSigning.v ===== *)
(** * Signer selection and round chunking

    The pure parts of the signing protocol in
    [modules/usdt/fedimint-usdt-server/src/lib.rs]: the enumeration of threshold
    subsets, the deterministic choice of a session's signers, and the splitting
    of a round payload into consensus-item-sized chunks. *)

From S2P Require Import Prelude FedimintCore UsdtTypes.

(** ** Enumeration of the t-element subsets *)

(** The last position [i] with [idx[i] < i + n - t]. *)
Fixpoint advance_at (n t : nat) (idx : list nat) (i : nat) : option nat :=
  match i with
  | O => None
  | S i => if (idx !!! i <? i + n - t)%nat then Some i else advance_at n t idx i
  end.

(** [idx[i] += 1; for j in i+1..t { idx[j] = idx[j-1] + 1 }]. *)
Definition next_idx (n t : nat) (idx : list nat) : option (list nat) :=
  i ← advance_at n t idx t;
  Some (take i idx ++ seq (S (idx !!! i)) (t - i)).

Fixpoint combination_loop {A} `{Inhabited A} (fuel : nat) (items : list A) (t : nat)
    (idx : list nat) : list (list A) :=
  match fuel with
  | O => []
  | S fuel =>
      map (fun i => items !!! i) idx ::
      match next_idx (length items) t idx with
      | Some idx => combination_loop fuel items t idx
      | None => []
      end
  end.

Fixpoint binomial (n t : nat) : nat :=
  match n, t with
  | _, O => 1
  | O, S _ => 0
  | S n', S t' => binomial n' t' + binomial n' t
  end%nat.

(** The loop runs once per subset. *)
Definition t_combinations {A} `{Inhabited A} (items : list A) (t : nat) : list (list A) :=
  let n := length items in
  if (n <? t)%nat then []
  else if (t =? 0)%nat then [[]]
  else combination_loop (binomial n t) items t (seq 0 t).

(** *** Reference: the sublists of length [t], in lexicographic order *)

Fixpoint sublists_of {A} (l : list A) (t : nat) : list (list A) :=
  match l, t with
  | _, O => [[]]
  | [], S _ => []
  | x :: l', S t' => map (cons x) (sublists_of l' t') ++ sublists_of l' t
  end.

Lemma length_sublists_of {A} (l : list A) t : length (sublists_of l t) = binomial (length l) t.
Proof.
  revert t. induction l as [|x l IH]; intros [|t]; simpl; [done..|].
  by rewrite length_app, length_map, !IH.
Qed.

Lemma sublists_of_map {A B} (f : A -> B) l t :
  sublists_of (map f l) t = map (map f) (sublists_of l t).
Proof.
  revert t. induction l as [|x l IH]; intros [|t]; simpl; [done..|].
  rewrite !IH, map_app, !map_map. done.
Qed.

Lemma elem_of_sublists {A} (l s : list A) :
  s `sublist_of` l <-> s ∈ sublists_of l (length s).
Proof.
  revert s. induction l as [|x l IH]; intros s.
  - split; [intros ->%sublist_nil_r; simpl; set_solver|].
    destruct s; simpl; [done|set_solver].
  - destruct s as [|y s]; simpl; [split; [set_solver|intros; apply sublist_nil_l]|].
    rewrite elem_of_app, list_elem_of_fmap, <- (IH (y :: s)). split.
    + intros Hs. inversion Hs; subst; [left; exists s; split; [done|by apply IH]|by right].
    + intros [(s' & E & Hs)|Hs]; [|by constructor]. simplify_eq.
      apply sublist_skip, IH. exact Hs.
Qed.

Lemma sublists_of_length {A} (l s : list A) t : s ∈ sublists_of l t -> length s = t.
Proof.
  revert s t. induction l as [|x l IH]; intros s [|t]; simpl; [set_solver..|].
  rewrite elem_of_app, list_elem_of_fmap. intros [(s' & -> & Hs)|Hs]; simpl; eauto.
Qed.

(** *** The successor of an index vector *)

Lemma advance_at_cons n t a idx i :
  (t <= n)%nat ->
  advance_at n (S t) (a :: idx) (S i) =
    match advance_at n t idx i with
    | Some j => Some (S j)
    | None => if (a <? n - S t)%nat then Some O else None
    end.
Proof.
  intros Hn. induction i as [|i IH]; [done|].
  change (advance_at n (S t) (a :: idx) (S (S i))) with
    (if (idx !!! i <? S i + n - S t)%nat then Some (S i) else advance_at n (S t) (a :: idx) (S i)).
  rewrite IH. simpl.
  by destruct (idx !!! i <? i + n - t)%nat.
Qed.

Lemma next_idx_cons n t a idx :
  (t <= n)%nat ->
  next_idx n (S t) (a :: idx) =
    match next_idx n t idx with
    | Some idx' => Some (a :: idx')
    | None => if (a <? n - S t)%nat then Some (seq (S a) (S t)) else None
    end.
Proof.
  intros Hn. unfold next_idx. rewrite advance_at_cons by done.
  destruct (advance_at n t idx t) as [j|]; simpl; [done|]. by destruct (a <? n - S t)%nat.
Qed.

(** [l] lists a run of successors, ending where there is none. *)
Fixpoint run_of (next : list nat -> option (list nat)) (l : list (list nat)) : Prop :=
  match l with
  | [] => True
  | x :: l => next x = head l /\ run_of next l
  end.

Lemma run_of_cons n t a l l' :
  (t <= n)%nat ->
  run_of (next_idx n t) l -> run_of (next_idx n (S t)) l' -> l <> [] ->
  head l' = (if (a <? n - S t)%nat then Some (seq (S a) (S t)) else None) ->
  run_of (next_idx n (S t)) (map (cons a) l ++ l').
Proof.
  intros Hn Hl Hl' Hne Hh. induction l as [|x l IH]; [done|]. destruct Hl as [Hx Hl].
  simpl. rewrite next_idx_cons, Hx by done. destruct l as [|y l]; simpl; [by rewrite Hh|].
  split; [done|]. by apply IH.
Qed.

Lemma sublists_seq_head a k t :
  head (sublists_of (seq a k) t) = if (t <=? k)%nat then Some (seq a t) else None.
Proof.
  revert a t. induction k as [|k IH]; intros a [|t]; simpl; [done..|].
  specialize (IH (S a)) as IH'. destruct (sublists_of (seq (S a) k) t) as [|x l] eqn:E.
  - pose proof (IH' t) as H1. rewrite E in H1. simpl. rewrite IH'.
    destruct (t <=? k)%nat eqn:Et; simpl in H1; [done|].
    apply Nat.leb_gt in Et. by rewrite (proj2 (Nat.leb_gt _ _)) by lia.
  - pose proof (IH' t) as H1. rewrite E in H1. simpl in H1.
    destruct (t <=? k)%nat; simplify_eq/=. done.
Qed.

Lemma run_of_sublists n a k t :
  (a + k = n)%nat -> (t <= n)%nat -> run_of (next_idx n t) (sublists_of (seq a k) t).
Proof.
  revert a t. induction k as [|k IH]; intros a [|t] Hn Ht; simpl; [done..|].
  destruct (decide (t <= k)%nat) as [Htk|Htk].
  - apply run_of_cons; [lia|apply IH; lia|apply IH; lia| |].
    + intros E. pose proof (sublists_seq_head (S a) k t) as H. rewrite E in H.
      by rewrite (proj2 (Nat.leb_le _ _)) in H.
    + rewrite sublists_seq_head.
      destruct (S t <=? k)%nat eqn:E1, (a <? n - S t)%nat eqn:E2; try done;
        rewrite ?Nat.leb_le, ?Nat.leb_gt, ?Nat.ltb_lt, ?Nat.ltb_ge in *; lia.
  - assert (Hnil : forall u, (k < u)%nat -> sublists_of (seq (S a) k) u = []).
    { intros u Hu. pose proof (sublists_seq_head (S a) k u) as H.
      rewrite (proj2 (Nat.leb_gt _ _)) in H by lia.
      by destruct (sublists_of (seq (S a) k) u). }
    rewrite (Hnil t), (Hnil (S t)) by lia. done.
Qed.

Lemma combination_loop_run {A} `{Inhabited A} (items : list A) t l idx :
  run_of (next_idx (length items) t) (idx :: l) ->
  combination_loop (S (length l)) items t idx
    = map (map (fun i => items !!! i)) (idx :: l).
Proof.
  revert idx. induction l as [|y l IH]; intros idx [Hx Hl]; simpl in *; rewrite Hx; [done|].
  f_equal. by apply IH.
Qed.

Lemma map_lookup_seq {A} `{Inhabited A} (items : list A) :
  map (fun i => items !!! i) (seq 0 (length items)) = items.
Proof.
  apply list_eq. intros i. change (map ?f ?l) with (f <$> l). rewrite list_lookup_fmap.
  destruct (decide (i < length items)%nat) as [Hi|Hi].
  - rewrite lookup_seq_lt by done. simpl. by rewrite list_lookup_lookup_total_lt.
  - rewrite lookup_seq_ge by lia. simpl. by rewrite lookup_ge_None_2 by lia.
Qed.

(** The imperative enumeration is the recursive one. *)
Lemma t_combinations_sublists {A} `{Inhabited A} (items : list A) (t : nat) :
  t_combinations items t = sublists_of items t.
Proof.
  unfold t_combinations. pose proof (map_lookup_seq items) as Hmap.
  rewrite <- Hmap at 4. rewrite sublists_of_map.
  pose proof (sublists_seq_head 0 (length items) t) as Hh.
  destruct (length items <? t)%nat eqn:E; [apply Nat.ltb_lt in E|apply Nat.ltb_ge in E].
  { rewrite (proj2 (Nat.leb_gt _ _)) in Hh by done.
    by destruct (sublists_of (seq 0 (length items)) t). }
  destruct t as [|t]; [by destruct (seq 0 _)|]. simpl Nat.eqb; cbv iota.
  rewrite (proj2 (Nat.leb_le _ _)) in Hh by done.
  pose proof (run_of_sublists (length items) 0 (length items) (S t) ltac:(done) E) as Hrun.
  pose proof (length_sublists_of (seq 0 (length items)) (S t)) as Hlen. rewrite length_seq in Hlen.
  destruct (sublists_of (seq 0 (length items)) (S t)) as [|x l]; [done|].
  simpl in Hh. injection Hh as ->. rewrite <- Hlen. by apply combination_loop_run.
Qed.

(** The imperative subset enumeration terminates within one iteration per subset
    and yields exactly the sublists of the requested length, each of them once
    for every way to choose it, in lexicographic order. *)
Theorem t_combinations_correct {A} `{Inhabited A} (items : list A) (t : nat) :
  t_combinations items t = sublists_of items t /\
  length (t_combinations items t) = binomial (length items) t /\
  (forall s, s ∈ t_combinations items t <-> s `sublist_of` items /\ length s = t).
Proof.
  rewrite t_combinations_sublists. split; [done|]. split; [apply length_sublists_of|].
  intros s. split.
  - intros Hs. pose proof (sublists_of_length _ _ _ Hs) as Hl. subst t.
    by split; [apply elem_of_sublists|].
  - intros [Hs <-]. by apply elem_of_sublists.
Qed.

(** ** A session's signers *)

(** What fedimint-core's [NumPeers] knows of the federation. *)
Record NumPeers := mkNumPeers { peer_ids : list PeerId; threshold : nat }.
Definition total (n : NumPeers) : nat := length (peer_ids n).

Fixpoint be_value (acc : Z) (bs : bytes) : Z :=
  match bs with [] => acc | b :: bs => be_value (acc * 256 + b) bs end.

Definition signer_subset (np : NumPeers) (digest : Hash) (attempt : Z) : list PeerId :=
  let combos := t_combinations (peer_ids np) (threshold np) in
  let period := length combos in
  let seed := be_value 0 (take 8 digest) in
  let idx := Z.to_nat ((seed + attempt) mod Z.of_nat period) in
  combos !!! idx.

Lemma binomial_pos n t : (t <= n)%nat -> (0 < binomial n t)%nat.
Proof.
  revert t. induction n as [|n IH]; intros [|t] Hle; simpl; [lia..|].
  specialize (IH t). lia.
Qed.

Definition rotation_period (np : NumPeers) : Z := Z.of_nat (binomial (total np) (threshold np)).

Lemma signer_subset_lookup np digest attempt :
  (threshold np <= total np)%nat ->
  sublists_of (peer_ids np) (threshold np)
    !! Z.to_nat ((be_value 0 (take 8 digest) + attempt) mod rotation_period np)
  = Some (signer_subset np digest attempt).
Proof.
  intros Ht. unfold signer_subset. rewrite t_combinations_sublists, length_sublists_of.
  fold (total np) (rotation_period np). apply list_lookup_lookup_total_lt.
  rewrite length_sublists_of. fold (total np).
  assert (0 < rotation_period np) by (pose proof (binomial_pos _ _ Ht); unfold rotation_period; lia).
  pose proof (Z.mod_pos_bound (be_value 0 (take 8 digest) + attempt) (rotation_period np)).
  unfold rotation_period in *. lia.
Qed.

(** C37: The chosen signers are always exactly a threshold of distinct guardians, and
    rotating the attempt number reaches every threshold subset within one period,
    whatever the digest and the attempt it starts from: a session whose signers
    stall is eventually given to any live quorum. *)
Theorem signer_rotation_fair np digest attempt quorum :
  NoDup (peer_ids np) -> (threshold np <= total np)%nat -> 0 <= attempt ->
  quorum `sublist_of` peer_ids np -> length quorum = threshold np ->
  (signer_subset np digest attempt `sublist_of` peer_ids np /\
   NoDup (signer_subset np digest attempt) /\
   length (signer_subset np digest attempt) = threshold np) /\
  exists k, 0 <= k < rotation_period np /\ signer_subset np digest (attempt + k) = quorum.
Proof.
  intros Hnd Ht Ha Hq Hlen. pose proof (signer_subset_lookup np digest attempt Ht) as Hs.
  apply list_elem_of_lookup_2 in Hs. pose proof (sublists_of_length _ _ _ Hs) as Hl.
  rewrite <- Hl in Hs. apply elem_of_sublists in Hs. split.
  { split; [done|]. split; [|done]. by eapply sublist_NoDup. }
  apply elem_of_sublists in Hq. rewrite Hlen in Hq. apply list_elem_of_lookup_1 in Hq as [i Hi].
  pose proof (lookup_lt_Some _ _ _ Hi) as Hb. rewrite length_sublists_of in Hb.
  fold (total np) in Hb. set (P := rotation_period np).
  assert (0 < P) by (unfold P, rotation_period; lia).
  set (seed := be_value 0 (take 8 digest)).
  exists ((Z.of_nat i - (seed + attempt)) mod P). split; [apply Z.mod_pos_bound; lia|].
  pose proof (signer_subset_lookup np digest
    (attempt + (Z.of_nat i - (seed + attempt)) mod P) Ht) as Hk.
  fold seed P in Hk. rewrite Z.add_assoc, Zplus_mod_idemp_r in Hk.
  replace (seed + attempt + (Z.of_nat i - (seed + attempt))) with (Z.of_nat i) in Hk by lia.
  rewrite Z.mod_small, Nat2Z.id in Hk by (unfold P, rotation_period; lia). congruence.
Qed.

Lemma signer_rotation_fair_witness :
  let np := mkNumPeers [0; 1; 2; 3] 3 in
  ((signer_subset np [255; 7] 4 `sublist_of` [0; 1; 2; 3] /\
    NoDup (signer_subset np [255; 7] 4) /\ length (signer_subset np [255; 7] 4) = 3%nat) /\
   exists k, 0 <= k < rotation_period np /\ signer_subset np [255; 7] (4 + k) = [0; 2; 3]).
Proof.
  intros np. apply (signer_rotation_fair np [255; 7] 4 [0; 2; 3]).
  - apply (bool_decide_unpack _). vm_compute. exact I.
  - unfold total, np. simpl. lia.
  - lia.
  - simpl. repeat constructor.
  - reflexivity.
Defined.

(** ** Round payloads *)

(** [slice::chunks]; one step per chunk, so the length is enough fuel. *)
Fixpoint chunks_of (fuel k : nat) (l : bytes) : list bytes :=
  match fuel with
  | O => []
  | S fuel => match l with [] => [] | _ => take k l :: chunks_of fuel k (drop k l) end
  end.

Definition chunk_payload (payload : bytes) : list bytes :=
  match payload with
  | [] => [[]]
  | _ => chunks_of (length payload) (Z.to_nat MPC_ROUND_CHUNK_SIZE) payload
  end.

Lemma concat_chunks_of fuel k l :
  (0 < k)%nat -> (length l <= fuel)%nat -> concat (chunks_of fuel k l) = l.
Proof.
  revert l. induction fuel as [|fuel IH]; intros l Hk Hl; simpl.
  { destruct l; simpl in *; [done|lia]. }
  destruct l as [|x l]; [done|]. cbn [concat]. rewrite IH; [apply take_drop|done|].
  rewrite length_drop. simpl in *. lia.
Qed.

Lemma chunks_of_sizes fuel k l :
  Forall (fun c => (length c <= k)%nat) (chunks_of fuel k l).
Proof.
  revert l. induction fuel as [|fuel IH]; intros l; simpl; [constructor|].
  destruct l; constructor; [rewrite length_take; lia|apply IH].
Qed.

Lemma length_chunks_of fuel k l :
  (0 < k)%nat -> Z.of_nat (length (chunks_of fuel k l)) * Z.of_nat k
    < Z.of_nat (length l) + Z.of_nat k.
Proof.
  intros Hk. revert l. induction fuel as [|fuel IH]; intros l; simpl; [lia|].
  destruct l as [|x l]; [simpl; lia|]. cbn [length].
  specialize (IH (drop k (x :: l))). rewrite length_drop in IH. simpl length in *.
  destruct (decide (k <= S (length l))%nat); [lia|].
  replace (S (length l) - k)%nat with 0%nat in IH by lia.
  destruct (chunks_of fuel k (drop k (x :: l))); simpl in *; lia.
Qed.

(** Splitting a round payload loses nothing, yields at least one chunk and only
    chunks the ordering guard accepts, and a payload within the round cap never
    needs more chunks than the guard allows. *)
Theorem chunking_round_trip payload :
  concat (chunk_payload payload) = payload /\
  (1 <= length (chunk_payload payload))%nat /\
  Forall (fun c => Z.of_nat (length c) <= MPC_ROUND_CHUNK_SIZE) (chunk_payload payload) /\
  (Z.of_nat (length payload) <= MAX_MPC_ROUND_BYTES ->
   Z.of_nat (length (chunk_payload payload)) <= MAX_MPC_CHUNKS).
Proof.
  set (k := Z.to_nat MPC_ROUND_CHUNK_SIZE).
  assert (Hk : Z.of_nat k = 30000) by (unfold k, MPC_ROUND_CHUNK_SIZE; lia).
  unfold chunk_payload. fold k. destruct payload as [|x l].
  { simpl. split; [done|]. split; [lia|]. split; [by repeat constructor|done]. }
  generalize k Hk. clear k Hk. intros k Hk. set (p := x :: l).
  pose proof (length_chunks_of (length p) k p ltac:(lia)) as Hlen.
  split; [apply concat_chunks_of; lia|]. split.
  { unfold p. simpl. lia. }
  split; [|intros Hb; unfold MAX_MPC_ROUND_BYTES, MAX_MPC_CHUNKS in *; lia].
  eapply Forall_impl; [apply chunks_of_sizes|]. intros c Hc. simpl in Hc.
  unfold MPC_ROUND_CHUNK_SIZE. lia.
Qed.
