(* ===== verification/UsdtProof.v ===== *)
(** * Deposit proofs

    [modules/usdt/fedimint-usdt-server/src/proof.rs]: the verification of a
    balance proof against an anchored block hash.  RLP decoding and the check of
    a Merkle-Patricia proof come from the alloy crates: [StateTrie] is what the
    module calls of them, and [StateTrieOk] the promise that an accepted proof
    shows what the trie under the given root holds. *)

From S2P Require Import Prelude FedimintCore UsdtTypes UsdtEvm.

Class StateTrie := {
  header_state_root : bytes -> option Hash;
  account_storage_root : bytes -> option Hash;
  decode_u256 : bytes -> option Z;
  trie_leaf : bytes -> option bytes;
  verify_proof : Hash -> bytes -> option bytes -> list bytes -> bool;
}.

Class StateTrieOk `{StateTrie} := {
  trie_get : Hash -> bytes -> option bytes;
  verify_proof_sound root key v nodes :
    verify_proof root key v nodes = true -> trie_get root key = v;
  decode_u256_nonneg v x : decode_u256 v = Some x -> 0 <= x;
}.

Inductive ProofError :=
| Oversized | HeaderHashMismatch | BadHeader | BadAccountProof | BadAccountLeaf
| BadStorageProof | BadStorageWord | BalanceOverflow.

Section verification.
Context `{Evm} `{StateTrie}.

Definition terminal_leaf_value (nodes : list bytes) : option bytes :=
  last nodes ≫= trie_leaf.

Definition proven_value (root : Hash) (key : bytes) (nodes : list bytes)
    : result unit (option bytes) :=
  let absent := if verify_proof root key None nodes then Ok None else Err tt in
  match terminal_leaf_value nodes with
  | Some candidate =>
      if verify_proof root key (Some candidate) nodes then Ok (Some candidate) else absent
  | None => absent
  end.

Definition verify_deposit_proof (proof : DepositProof) (expected_block_hash : Hash)
    (usdt_contract account : EvmAddress) : result ProofError UsdtAmount :=
  check (encoded_len_bytes proof <=? MAX_DEPOSIT_PROOF_BYTES) Oversized;;
  check (bool_decide (keccak256 (header_rlp proof) = expected_block_hash)) HeaderHashMismatch;;
  state_root ← ok_or (header_state_root (header_rlp proof)) BadHeader;
  let account_key := keccak256 usdt_contract in
  account_rlp ← map_err (fun _ => BadAccountProof)
                  (proven_value state_root account_key (account_proof proof));
  match account_rlp with
  | None => Ok 0
  | Some account_rlp =>
      storage_root ← ok_or (account_storage_root account_rlp) BadAccountLeaf;
      let storage_key := keccak256 (balances_storage_key account) in
      value_rlp ← map_err (fun _ => BadStorageProof)
                    (proven_value storage_root storage_key (storage_proof proof));
      match value_rlp with
      | None => Ok 0
      | Some value_rlp =>
          balance_word ← ok_or (decode_u256 value_rlp) BadStorageWord;
          ok_or (try_u64 balance_word) BalanceOverflow
      end
  end.
End verification.

(** ** Soundness *)

Section soundness.
Context `{Evm} `{StateTrieOk}.

(** The token balance of [account] in the state a header commits to. *)
Definition balance_in (header : bytes) (usdt_contract account : EvmAddress) : option Z :=
  state_root ← header_state_root header;
  match trie_get state_root (keccak256 usdt_contract) with
  | None => Some 0
  | Some account_rlp =>
      storage_root ← account_storage_root account_rlp;
      match trie_get storage_root (keccak256 (balances_storage_key account)) with
      | None => Some 0
      | Some value_rlp => decode_u256 value_rlp
      end
  end.

Lemma proven_value_sound root key nodes v :
  proven_value root key nodes = Ok v -> trie_get root key = v.
Proof.
  unfold proven_value. intros E. run_inv E; by eapply verify_proof_sound.
Qed.

Lemma verify_deposit_proof_balance proof expected usdt account proven :
  verify_deposit_proof proof expected usdt account = Ok proven ->
  keccak256 (header_rlp proof) = expected /\ is_u64 proven /\
  balance_in (header_rlp proof) usdt account = Some proven.
Proof.
  unfold verify_deposit_proof, check, balance_in. intros E. run_inv E; zbool; ok_facts; subst;
    repeat match goal with
    | H : header_state_root _ = Some _ |- _ => rewrite H; clear H; simpl
    | H : account_storage_root _ = Some _ |- _ => rewrite H; clear H; simpl
    | H : proven_value _ _ _ = Ok _ |- _ =>
        apply proven_value_sound in H; rewrite H; clear H; simpl
    end; split_and!; try done; unfold_widths; try lia;
    match goal with H : decode_u256 _ = Some _ |- _ => apply decode_u256_nonneg in H; lia end.
Qed.
End soundness.

(** C19: An accepted proof shows the account's token balance in the state of the block
    whose header has the anchored hash, whoever assembled it: the amount is the
    one the trie holds, and every accepted proof for the same hash and account
    proves the same amount. *)
Theorem deposit_proof_sound `{HashOk} `{StateTrieOk} proof expected usdt account proven :
  verify_deposit_proof proof expected usdt account = Ok proven ->
  (forall header, keccak256 header = expected ->
     balance_in header usdt account = Some proven) /\
  is_u64 proven /\ encoded_len_bytes proof <= MAX_DEPOSIT_PROOF_BYTES /\
  (forall proof' proven', verify_deposit_proof proof' expected usdt account = Ok proven' ->
     proven' = proven).
Proof.
  intros E. pose proof (verify_deposit_proof_balance _ _ _ _ _ E) as (Hh & Hm & Hb).
  split.
  { intros header Hk. rewrite <- Hh in Hk. apply (inj keccak256) in Hk. by subst. }
  split; [done|]. split.
  { unfold verify_deposit_proof in E. destruct (encoded_len_bytes proof <=? _) eqn:El; [|done].
    by apply Z.leb_le. }
  intros proof' proven' E'. apply verify_deposit_proof_balance in E' as (Hh' & _ & Hb').
  rewrite <- Hh in Hh'. apply (inj keccak256) in Hh'. rewrite Hh' in Hb'. congruence.
Qed.

(** A trie with one account, whose storage holds one balance at every key. *)
Definition toy_trie : StateTrie := {|
  header_state_root h := head h ≫= fun x => Some [x];
  account_storage_root a := Some a;
  decode_u256 v := Z.abs <$> head v;
  trie_leaf n := Some n;
  verify_proof root key v nodes := bool_decide (v = Some [50000000]);
|}.

Program Definition toy_trie_ok : @StateTrieOk toy_trie := {| trie_get := fun _ _ => Some [50000000] |}.
Next Obligation. intros root key v nodes E. simpl in E. by apply bool_decide_eq_true in E. Qed.
Next Obligation. intros [|y v] x E; simplify_eq/=. lia. Qed.

Lemma deposit_proof_sound_witness :
  let proof := mkDepositProof 9 [1] [[50000000]] [[50000000]] in
  (forall header, @keccak256 toy_evm header = @keccak256 toy_evm [1] ->
     @balance_in toy_evm toy_trie toy_trie_ok header [2] [3] = Some 50000000) /\
  is_u64 50000000 /\ encoded_len_bytes proof <= MAX_DEPOSIT_PROOF_BYTES /\
  (forall proof' proven',
     @verify_deposit_proof toy_evm toy_trie proof' (@keccak256 toy_evm [1]) [2] [3] = Ok proven' ->
     proven' = 50000000).
Proof.
  intros proof. apply (@deposit_proof_sound toy_evm toy_hash_ok toy_trie toy_trie_ok proof).
  reflexivity.
Defined.
