(* ===== verification/UsdtDb.v ===== *)
(** * USDT server tables

    [modules/usdt/fedimint-usdt-server/src/db.rs]: the records of the module's
    consensus database and one field per table.  The setters below are the typed
    writes; every handler is a composition of them. *)

From S2P Require Import Prelude FedimintCore UsdtTypes UsdtEvm UsdtUserOp UsdtSigning.

Record StoredFeeVote := mkStoredFeeVote { sfv_vote : FeeVote; recorded_block : Z }.

Record DepositRecord := mkDepositRecord {
  rec_claim_pk : PublicKey;
  credited : UsdtAmount;
  claimed : UsdtAmount;
  last_observed_block : Z;
  swept : UsdtAmount;
  rec_nonce : Z;
  fees_accrued : UsdtAmount;
}.

(** [SigningPurpose::UserOp(hash)] is the only purpose. *)
Inductive SigningPurpose := UserOp (op_hash : Hash).
#[export] Instance SigningPurpose_eq_dec : EqDecision SigningPurpose.
Proof. solve_decision. Defined.

Inductive SessionState := InProgress | Completed (signature : bytes) | SessionFailed.
#[export] Instance SessionState_eq_dec : EqDecision SessionState.
Proof. solve_decision. Defined.

Record SigningSession := mkSigningSession {
  ses_purpose : SigningPurpose;
  digest : Hash;
  signers : list PeerId;
  round : Z;
  state : SessionState;
  attempt : Z;
  last_progress_block : Z;
}.

Record MpcRoundChunk := mkMpcRoundChunk { chunk_count : Z; chunk_bytes : bytes }.

Inductive UserOpPurpose :=
| DeployAndSweep (source : EvmAddress)
| Withdraw (outpoints : list OutPoint)
| RecoverResidualOp (account : EvmAddress)
| WithdrawFees (recipient : EvmAddress) (amount : UsdtAmount).
#[export] Instance UserOpPurpose_eq_dec : EqDecision UserOpPurpose.
Proof. solve_decision. Defined.

Record PendingUserOp := mkPendingUserOp {
  p_op : UnsignedUserOp;
  p_purpose : UserOpPurpose;
  created_block : Z;
}.

Record SubmittedUserOp := mkSubmittedUserOp {
  signed : SignedUserOp;
  s_purpose : UserOpPurpose;
  submitted_block : Z;
  superseded : bool;
}.

Record PoolState := mkPoolState {
  pool_account_addr : EvmAddress;
  pool_balance : UsdtAmount;
  pool_nonce : Z;
  accrued_fees : UsdtAmount;
}.

Record UserOpConfirmedObservation := mkUserOpConfirmedObservation {
  success : bool;
  block : Z;
  block_hash : Hash;
  obs_swept : UsdtAmount;
  actual_gas_cost_wei : UsdtAmount;
}.
#[export] Instance UserOpConfirmedObservation_eq_dec : EqDecision UserOpConfirmedObservation.
Proof. solve_decision. Defined.

Record UsdtWithdrawalV0 := mkUsdtWithdrawalV0 {
  w_recipient : EvmAddress;
  w_amount : UsdtAmount;
  w_max_fee : UsdtAmount;
  requested_block : Z;
  w_refund_pubkey : PublicKey;
}.

(** Failures carry the source's reason as a constructor. *)
Inductive FailReason := RevertsInIsolation.

Inductive WithdrawalState :=
| Queued
| Signing (op_hash : Hash)
| WithdrawalSubmitted (op_hash : Hash)
| Confirmed (block : Z)
| WithdrawalFailed (reason : FailReason).
#[export] Instance FailReason_eq_dec : EqDecision FailReason.
Proof. solve_decision. Defined.
#[export] Instance WithdrawalState_eq_dec : EqDecision WithdrawalState.
Proof. solve_decision. Defined.

Record Refund := mkRefund {
  r_amount : UsdtAmount;
  r_refund_pubkey : PublicKey;
  r_reason : FailReason;
}.

(** In the order of [DbKeyPrefix]. *)
Record UsdtDb := mkUsdtDb {
  block_count_votes : gmap PeerId Z;
  fee_votes : gmap PeerId StoredFeeVote;
  deposits : gmap EvmAddress DepositRecord;
  sessions : gmap Hash SigningSession;
  chunks : gmap (Hash * Z * PeerId * Z) MpcRoundChunk;
  pending : gmap Hash PendingUserOp;
  submitted : gmap Hash SubmittedUserOp;
  pool_state : option PoolState;
  confirmed_votes : gmap (Hash * PeerId) UserOpConfirmedObservation;
  unclaimed : gmap OutPoint UsdtWithdrawalV0;
  wstates : gmap OutPoint WithdrawalState;
  bootstrap_votes : gmap PeerId BootstrapObservation;
  has_ever_been_ready : bool;
  batch_caps : gmap OutPoint Z;
  refunds : gmap OutPoint Refund;
  incurred : gmap OutPoint UsdtAmount;
  ring : gmap Z Hash;
  block_hash_votes : gmap PeerId BlockHashObservation;
  residual_votes : gmap (EvmAddress * PeerId) Z;
  withdraw_fees_votes : gmap PeerId WithdrawFeesVote;
}.

Definition empty_db : UsdtDb := {|
  block_count_votes := ∅;
  fee_votes := ∅;
  deposits := ∅;
  sessions := ∅;
  chunks := ∅;
  pending := ∅;
  submitted := ∅;
  pool_state := None;
  confirmed_votes := ∅;
  unclaimed := ∅;
  wstates := ∅;
  bootstrap_votes := ∅;
  has_ever_been_ready := false;
  batch_caps := ∅;
  refunds := ∅;
  incurred := ∅;
  ring := ∅;
  block_hash_votes := ∅;
  residual_votes := ∅;
  withdraw_fees_votes := ∅;
|}.

Definition set_block_count_votes (f : gmap PeerId Z -> gmap PeerId Z) (d : UsdtDb) : UsdtDb :=
  mkUsdtDb (f (block_count_votes d)) (fee_votes d) (deposits d) (sessions d) (chunks d) (pending d)
   (submitted d) (pool_state d) (confirmed_votes d) (unclaimed d) (wstates d)
   (bootstrap_votes d) (has_ever_been_ready d) (batch_caps d) (refunds d) (incurred d)
   (ring d) (block_hash_votes d) (residual_votes d) (withdraw_fees_votes d).
Definition set_fee_votes (f : gmap PeerId StoredFeeVote -> gmap PeerId StoredFeeVote) (d : UsdtDb) : UsdtDb :=
  mkUsdtDb (block_count_votes d) (f (fee_votes d)) (deposits d) (sessions d) (chunks d) (pending d)
   (submitted d) (pool_state d) (confirmed_votes d) (unclaimed d) (wstates d)
   (bootstrap_votes d) (has_ever_been_ready d) (batch_caps d) (refunds d) (incurred d)
   (ring d) (block_hash_votes d) (residual_votes d) (withdraw_fees_votes d).
Definition set_deposits (f : gmap EvmAddress DepositRecord -> gmap EvmAddress DepositRecord) (d : UsdtDb) : UsdtDb :=
  mkUsdtDb (block_count_votes d) (fee_votes d) (f (deposits d)) (sessions d) (chunks d) (pending d)
   (submitted d) (pool_state d) (confirmed_votes d) (unclaimed d) (wstates d)
   (bootstrap_votes d) (has_ever_been_ready d) (batch_caps d) (refunds d) (incurred d)
   (ring d) (block_hash_votes d) (residual_votes d) (withdraw_fees_votes d).
Definition set_sessions (f : gmap Hash SigningSession -> gmap Hash SigningSession) (d : UsdtDb) : UsdtDb :=
  mkUsdtDb (block_count_votes d) (fee_votes d) (deposits d) (f (sessions d)) (chunks d) (pending d)
   (submitted d) (pool_state d) (confirmed_votes d) (unclaimed d) (wstates d)
   (bootstrap_votes d) (has_ever_been_ready d) (batch_caps d) (refunds d) (incurred d)
   (ring d) (block_hash_votes d) (residual_votes d) (withdraw_fees_votes d).
Definition set_chunks (f : gmap (Hash * Z * PeerId * Z) MpcRoundChunk -> gmap (Hash * Z * PeerId * Z) MpcRoundChunk) (d : UsdtDb) : UsdtDb :=
  mkUsdtDb (block_count_votes d) (fee_votes d) (deposits d) (sessions d) (f (chunks d)) (pending d)
   (submitted d) (pool_state d) (confirmed_votes d) (unclaimed d) (wstates d)
   (bootstrap_votes d) (has_ever_been_ready d) (batch_caps d) (refunds d) (incurred d)
   (ring d) (block_hash_votes d) (residual_votes d) (withdraw_fees_votes d).
Definition set_pending (f : gmap Hash PendingUserOp -> gmap Hash PendingUserOp) (d : UsdtDb) : UsdtDb :=
  mkUsdtDb (block_count_votes d) (fee_votes d) (deposits d) (sessions d) (chunks d) (f (pending d))
   (submitted d) (pool_state d) (confirmed_votes d) (unclaimed d) (wstates d)
   (bootstrap_votes d) (has_ever_been_ready d) (batch_caps d) (refunds d) (incurred d)
   (ring d) (block_hash_votes d) (residual_votes d) (withdraw_fees_votes d).
Definition set_submitted (f : gmap Hash SubmittedUserOp -> gmap Hash SubmittedUserOp) (d : UsdtDb) : UsdtDb :=
  mkUsdtDb (block_count_votes d) (fee_votes d) (deposits d) (sessions d) (chunks d) (pending d)
   (f (submitted d)) (pool_state d) (confirmed_votes d) (unclaimed d) (wstates d)
   (bootstrap_votes d) (has_ever_been_ready d) (batch_caps d) (refunds d) (incurred d)
   (ring d) (block_hash_votes d) (residual_votes d) (withdraw_fees_votes d).
Definition set_pool_state (f : option PoolState -> option PoolState) (d : UsdtDb) : UsdtDb :=
  mkUsdtDb (block_count_votes d) (fee_votes d) (deposits d) (sessions d) (chunks d) (pending d)
   (submitted d) (f (pool_state d)) (confirmed_votes d) (unclaimed d) (wstates d)
   (bootstrap_votes d) (has_ever_been_ready d) (batch_caps d) (refunds d) (incurred d)
   (ring d) (block_hash_votes d) (residual_votes d) (withdraw_fees_votes d).
Definition set_confirmed_votes (f : gmap (Hash * PeerId) UserOpConfirmedObservation -> gmap (Hash * PeerId) UserOpConfirmedObservation) (d : UsdtDb) : UsdtDb :=
  mkUsdtDb (block_count_votes d) (fee_votes d) (deposits d) (sessions d) (chunks d) (pending d)
   (submitted d) (pool_state d) (f (confirmed_votes d)) (unclaimed d) (wstates d)
   (bootstrap_votes d) (has_ever_been_ready d) (batch_caps d) (refunds d) (incurred d)
   (ring d) (block_hash_votes d) (residual_votes d) (withdraw_fees_votes d).
Definition set_unclaimed (f : gmap OutPoint UsdtWithdrawalV0 -> gmap OutPoint UsdtWithdrawalV0) (d : UsdtDb) : UsdtDb :=
  mkUsdtDb (block_count_votes d) (fee_votes d) (deposits d) (sessions d) (chunks d) (pending d)
   (submitted d) (pool_state d) (confirmed_votes d) (f (unclaimed d)) (wstates d)
   (bootstrap_votes d) (has_ever_been_ready d) (batch_caps d) (refunds d) (incurred d)
   (ring d) (block_hash_votes d) (residual_votes d) (withdraw_fees_votes d).
Definition set_wstates (f : gmap OutPoint WithdrawalState -> gmap OutPoint WithdrawalState) (d : UsdtDb) : UsdtDb :=
  mkUsdtDb (block_count_votes d) (fee_votes d) (deposits d) (sessions d) (chunks d) (pending d)
   (submitted d) (pool_state d) (confirmed_votes d) (unclaimed d) (f (wstates d))
   (bootstrap_votes d) (has_ever_been_ready d) (batch_caps d) (refunds d) (incurred d)
   (ring d) (block_hash_votes d) (residual_votes d) (withdraw_fees_votes d).
Definition set_bootstrap_votes (f : gmap PeerId BootstrapObservation -> gmap PeerId BootstrapObservation) (d : UsdtDb) : UsdtDb :=
  mkUsdtDb (block_count_votes d) (fee_votes d) (deposits d) (sessions d) (chunks d) (pending d)
   (submitted d) (pool_state d) (confirmed_votes d) (unclaimed d) (wstates d)
   (f (bootstrap_votes d)) (has_ever_been_ready d) (batch_caps d) (refunds d) (incurred d)
   (ring d) (block_hash_votes d) (residual_votes d) (withdraw_fees_votes d).
Definition set_has_ever_been_ready (f : bool -> bool) (d : UsdtDb) : UsdtDb :=
  mkUsdtDb (block_count_votes d) (fee_votes d) (deposits d) (sessions d) (chunks d) (pending d)
   (submitted d) (pool_state d) (confirmed_votes d) (unclaimed d) (wstates d)
   (bootstrap_votes d) (f (has_ever_been_ready d)) (batch_caps d) (refunds d) (incurred d)
   (ring d) (block_hash_votes d) (residual_votes d) (withdraw_fees_votes d).
Definition set_batch_caps (f : gmap OutPoint Z -> gmap OutPoint Z) (d : UsdtDb) : UsdtDb :=
  mkUsdtDb (block_count_votes d) (fee_votes d) (deposits d) (sessions d) (chunks d) (pending d)
   (submitted d) (pool_state d) (confirmed_votes d) (unclaimed d) (wstates d)
   (bootstrap_votes d) (has_ever_been_ready d) (f (batch_caps d)) (refunds d) (incurred d)
   (ring d) (block_hash_votes d) (residual_votes d) (withdraw_fees_votes d).
Definition set_refunds (f : gmap OutPoint Refund -> gmap OutPoint Refund) (d : UsdtDb) : UsdtDb :=
  mkUsdtDb (block_count_votes d) (fee_votes d) (deposits d) (sessions d) (chunks d) (pending d)
   (submitted d) (pool_state d) (confirmed_votes d) (unclaimed d) (wstates d)
   (bootstrap_votes d) (has_ever_been_ready d) (batch_caps d) (f (refunds d)) (incurred d)
   (ring d) (block_hash_votes d) (residual_votes d) (withdraw_fees_votes d).
Definition set_incurred (f : gmap OutPoint UsdtAmount -> gmap OutPoint UsdtAmount) (d : UsdtDb) : UsdtDb :=
  mkUsdtDb (block_count_votes d) (fee_votes d) (deposits d) (sessions d) (chunks d) (pending d)
   (submitted d) (pool_state d) (confirmed_votes d) (unclaimed d) (wstates d)
   (bootstrap_votes d) (has_ever_been_ready d) (batch_caps d) (refunds d) (f (incurred d))
   (ring d) (block_hash_votes d) (residual_votes d) (withdraw_fees_votes d).
Definition set_ring (f : gmap Z Hash -> gmap Z Hash) (d : UsdtDb) : UsdtDb :=
  mkUsdtDb (block_count_votes d) (fee_votes d) (deposits d) (sessions d) (chunks d) (pending d)
   (submitted d) (pool_state d) (confirmed_votes d) (unclaimed d) (wstates d)
   (bootstrap_votes d) (has_ever_been_ready d) (batch_caps d) (refunds d) (incurred d)
   (f (ring d)) (block_hash_votes d) (residual_votes d) (withdraw_fees_votes d).
Definition set_block_hash_votes (f : gmap PeerId BlockHashObservation -> gmap PeerId BlockHashObservation) (d : UsdtDb) : UsdtDb :=
  mkUsdtDb (block_count_votes d) (fee_votes d) (deposits d) (sessions d) (chunks d) (pending d)
   (submitted d) (pool_state d) (confirmed_votes d) (unclaimed d) (wstates d)
   (bootstrap_votes d) (has_ever_been_ready d) (batch_caps d) (refunds d) (incurred d)
   (ring d) (f (block_hash_votes d)) (residual_votes d) (withdraw_fees_votes d).
Definition set_residual_votes (f : gmap (EvmAddress * PeerId) Z -> gmap (EvmAddress * PeerId) Z) (d : UsdtDb) : UsdtDb :=
  mkUsdtDb (block_count_votes d) (fee_votes d) (deposits d) (sessions d) (chunks d) (pending d)
   (submitted d) (pool_state d) (confirmed_votes d) (unclaimed d) (wstates d)
   (bootstrap_votes d) (has_ever_been_ready d) (batch_caps d) (refunds d) (incurred d)
   (ring d) (block_hash_votes d) (f (residual_votes d)) (withdraw_fees_votes d).
Definition set_withdraw_fees_votes (f : gmap PeerId WithdrawFeesVote -> gmap PeerId WithdrawFeesVote) (d : UsdtDb) : UsdtDb :=
  mkUsdtDb (block_count_votes d) (fee_votes d) (deposits d) (sessions d) (chunks d) (pending d)
   (submitted d) (pool_state d) (confirmed_votes d) (unclaimed d) (wstates d)
   (bootstrap_votes d) (has_ever_been_ready d) (batch_caps d) (refunds d) (incurred d)
   (ring d) (block_hash_votes d) (residual_votes d) (f (withdraw_fees_votes d)).
