(* ===== verification/UsdtCodec.v ===== *)
(** * Stored rows

    The consensus encoding of user operations (the hand-written [Encodable] and
    [Decodable] of [modules/usdt/fedimint-usdt-common/src/user_op.rs]) and of the rows
    of [modules/usdt/fedimint-usdt-server/src/db.rs] that database migrations rewrite.
    fedimint-core's encodings of the field types enter as the interface [CoreCodec]; a
    derived encoding is the concatenation of the fields in declaration order. *)

From S2P Require Import Prelude FedimintCore UsdtTypes UsdtEvm UsdtUserOp UsdtSigning UsdtDb.

(** ** Reading *)

Definition Reader (A : Type) : Type := bytes -> option (A * bytes).
#[export] Instance Reader_ret : MRet Reader := fun A a bs => Some (a, bs).
#[export] Instance Reader_bind : MBind Reader := fun A B f m bs =>
  match m bs with Some (a, rest) => f a rest | None => None end.

(** [read_exact] into a buffer of [n] bytes. *)
Definition read_exact (n : nat) : Reader bytes := fun bs =>
  if (n <=? length bs)%nat then Some (take n bs, drop n bs) else None.

(** [consensus_encode] and [consensus_decode_partial] of a given codec. *)
Definition put {A} (c : Codec A) (a : A) : bytes := @encode A c a.
Definition pull {A} (c : Codec A) : Reader A := @decode A c.

(** [consensus_decode_whole]: nothing may be left over. *)
Definition decode_whole {A} (r : Reader A) (bs : bytes) : option A :=
  match r bs with Some (a, []) => Some a | _ => None end.

(** What a reader makes of the encoding of a value. *)
Definition reads_back {A} (r : Reader A) (bs : bytes) (a : A) : Prop :=
  forall rest, r (bs ++ rest) = Some (a, rest).

Lemma reads_bind {A B} (m : Reader A) (f : A -> Reader B) bs bs' a b :
  reads_back m bs a -> reads_back (f a) bs' b -> reads_back (m ≫= f) (bs ++ bs') b.
Proof. intros Hm Hf rest. unfold mbind, Reader_bind. by rewrite <- app_assoc, Hm, Hf. Qed.

(** The last field of a struct. *)
Lemma reads_last {A B} (m : Reader A) (f : A -> Reader B) bs a b :
  reads_back m bs a -> reads_back (f a) [] b -> reads_back (m ≫= f) bs b.
Proof. intros Hm Hf. rewrite <- (app_nil_r bs). by apply (reads_bind m f bs [] a b). Qed.

Lemma reads_ret {A} (a : A) : reads_back (mret a) [] a.
Proof. done. Qed.

Lemma reads_exact bs n : length bs = n -> reads_back (read_exact n) bs bs.
Proof.
  intros <- rest. unfold read_exact. rewrite length_app.
  rewrite (proj2 (Nat.leb_le _ _)) by lia. by rewrite take_app_length, drop_app_length.
Qed.

Lemma reads_codec `{C : Codec A} `{!CodecOk A P} a : P a -> reads_back (pull C) (put C a) a.
Proof. intros Ha rest. unfold pull, put. by apply decode_encode. Qed.

Lemma reads_whole {A} (r : Reader A) bs a : reads_back r bs a -> decode_whole r bs = Some a.
Proof. intros Hr. unfold decode_whole. specialize (Hr []). rewrite app_nil_r in Hr. by rewrite Hr. Qed.

(** ** Values within their types *)

Definition is_bytes (b : bytes) : Prop := Forall (fun x => 0 <= x < 256) b.
(** A Rust vector is no longer than [usize::MAX]. *)
Definition is_vec (b : bytes) : Prop := is_bytes b /\ Z.of_nat (length b) <= U64_MAX.
Definition is_array (n : nat) (b : bytes) : Prop := length b = n /\ is_bytes b.
Definition is_u128 (x : Z) : Prop := 0 <= x < 256 ^ 16.
Definition is_u256 (x : Z) : Prop := 0 <= x < 256 ^ 32.
(** The 33 bytes of a compressed key. *)
Definition is_compressed (pk : PublicKey) : Prop := 0 <= pk_bytes pk < 256 ^ 33.

(** ** The encodings of fedimint-core *)

Class CoreCodec := {
  vec : Codec bytes;
  arr : nat -> Codec bytes;
  u64 : Codec Z;
  flag : Codec bool;
  public_key : Codec PublicKey;
  user_op_purpose : Codec UserOpPurpose;
}.

Class CoreCodecOk `{CoreCodec} (purpose_ok : UserOpPurpose -> Prop) : Prop := {
  vec_ok :: @CodecOk bytes vec is_vec;
  arr_ok n :: @CodecOk bytes (arr n) (is_array n);
  u64_ok :: @CodecOk Z u64 is_u64;
  flag_ok :: @CodecOk bool flag (fun _ => True);
  public_key_ok :: @CodecOk PublicKey public_key is_compressed;
  purpose_codec_ok :: @CodecOk UserOpPurpose user_op_purpose purpose_ok;
  (** [bool] is one byte, a key its 33 compressed bytes. *)
  flag_false : put flag false = [0];
  key_compressed pk : is_compressed pk -> put public_key pk = be_bytes 33 (pk_bytes pk);
}.

Section rows.
Context `{CoreCodec}.

(** ** User operations *)

Definition UnsignedUserOp_encode (op : UnsignedUserOp) : bytes :=
  put (arr 20) (sender op) ++ be_bytes 32 (nonce op) ++ put vec (init_code op) ++
  put vec (call_data op) ++ be_bytes 16 (verification_gas_limit op) ++
  be_bytes 16 (call_gas_limit op) ++ be_bytes 32 (pre_verification_gas op) ++
  be_bytes 16 (max_priority_fee_per_gas op) ++ be_bytes 16 (max_fee_per_gas op) ++
  put vec (paymaster_and_data op).

Definition UnsignedUserOp_decode : Reader UnsignedUserOp :=
  sender ← pull (arr 20);
  nonce ← read_exact 32;
  init_code ← pull vec;
  call_data ← pull vec;
  verification_gas_limit ← read_exact 16;
  call_gas_limit ← read_exact 16;
  pre_verification_gas ← read_exact 32;
  max_priority_fee_per_gas ← read_exact 16;
  max_fee_per_gas ← read_exact 16;
  paymaster_and_data ← pull vec;
  mret (mkUnsignedUserOp sender (Prelude.be_value nonce) init_code call_data
    (Prelude.be_value verification_gas_limit) (Prelude.be_value call_gas_limit) (Prelude.be_value pre_verification_gas)
    (Prelude.be_value max_priority_fee_per_gas) (Prelude.be_value max_fee_per_gas) paymaster_and_data).

Definition SignedUserOp_encode (op : SignedUserOp) : bytes :=
  UnsignedUserOp_encode (unsigned op) ++ put vec (op_signature op).

Definition SignedUserOp_decode : Reader SignedUserOp :=
  unsigned ← UnsignedUserOp_decode;
  signature ← pull vec;
  mret (mkSignedUserOp unsigned signature).

(** ** Derived rows *)

Definition SubmittedUserOp_encode (s : SubmittedUserOp) : bytes :=
  SignedUserOp_encode (signed s) ++ put user_op_purpose (s_purpose s) ++
  put u64 (submitted_block s) ++ put flag (superseded s).

Definition SubmittedUserOp_decode : Reader SubmittedUserOp :=
  signed ← SignedUserOp_decode;
  purpose ← pull user_op_purpose;
  submitted_block ← pull u64;
  superseded ← pull flag;
  mret (mkSubmittedUserOp signed purpose submitted_block superseded).

Definition DepositRecord_encode (r : DepositRecord) : bytes :=
  put public_key (rec_claim_pk r) ++ put u64 (credited r) ++ put u64 (claimed r) ++
  put u64 (last_observed_block r) ++ put u64 (swept r) ++ put u64 (rec_nonce r) ++
  put u64 (fees_accrued r).

Definition DepositRecord_decode : Reader DepositRecord :=
  claim_pk ← pull public_key;
  credited ← pull u64;
  claimed ← pull u64;
  last_observed_block ← pull u64;
  swept ← pull u64;
  nonce ← pull u64;
  fees_accrued ← pull u64;
  mret (mkDepositRecord claim_pk credited claimed last_observed_block swept nonce fees_accrued).

Definition PoolState_encode (p : PoolState) : bytes :=
  put (arr 20) (pool_account_addr p) ++ put u64 (pool_balance p) ++
  put u64 (pool_nonce p) ++ put u64 (accrued_fees p).

Definition PoolState_decode : Reader PoolState :=
  account ← pull (arr 20);
  balance ← pull u64;
  nonce ← pull u64;
  accrued_fees ← pull u64;
  mret (mkPoolState account balance nonce accrued_fees).

Definition UsdtWithdrawalV0_encode (w : UsdtWithdrawalV0) : bytes :=
  put (arr 20) (w_recipient w) ++ put u64 (w_amount w) ++ put u64 (w_max_fee w) ++
  put u64 (requested_block w) ++ put public_key (w_refund_pubkey w).

Definition UsdtWithdrawalV0_decode : Reader UsdtWithdrawalV0 :=
  recipient ← pull (arr 20);
  amount ← pull u64;
  max_fee ← pull u64;
  requested_block ← pull u64;
  refund_pubkey ← pull public_key;
  mret (mkUsdtWithdrawalV0 recipient amount max_fee requested_block refund_pubkey).

Definition StoredFeeVote_decode : Reader StoredFeeVote :=
  max_fee_per_gas_wei ← pull u64;
  usdt_per_eth_e6 ← pull u64;
  recorded_block ← pull u64;
  mret (mkStoredFeeVote (mkFeeVote max_fee_per_gas_wei usdt_per_eth_e6) recorded_block).

Definition UserOpConfirmedObservation_decode : Reader UserOpConfirmedObservation :=
  success ← pull flag;
  block ← pull u64;
  block_hash ← pull (arr 32);
  swept ← pull u64;
  actual_gas_cost_wei ← pull u64;
  mret (mkUserOpConfirmedObservation success block block_hash swept actual_gas_cost_wei).
End rows.

Record op_typed (op : UnsignedUserOp) : Prop := {
  ty_sender : is_array 20 (sender op);
  ty_nonce : is_u256 (nonce op);
  ty_init_code : is_vec (init_code op);
  ty_call_data : is_vec (call_data op);
  ty_verification : is_u128 (verification_gas_limit op);
  ty_call : is_u128 (call_gas_limit op);
  ty_pre : is_u256 (pre_verification_gas op);
  ty_priority : is_u128 (max_priority_fee_per_gas op);
  ty_max_fee : is_u128 (max_fee_per_gas op);
  ty_paymaster : is_vec (paymaster_and_data op);
}.

Section round_trips.
Context `{CoreCodecOk}.

Lemma reads_vec b : is_vec b -> reads_back (pull vec) (put vec b) b.
Proof. intros Hb. by apply reads_codec. Qed.
Lemma reads_arr n b : is_array n b -> reads_back (pull (arr n)) (put (arr n) b) b.
Proof. intros Hb. by apply reads_codec. Qed.
Lemma reads_u64 x : is_u64 x -> reads_back (pull u64) (put u64 x) x.
Proof. intros Hx. by apply reads_codec. Qed.
Lemma reads_flag b : reads_back (pull flag) (put flag b) b.
Proof. by apply reads_codec. Qed.
Lemma reads_key pk : is_compressed pk -> reads_back (pull public_key) (put public_key pk) pk.
Proof. intros Hpk. by apply reads_codec. Qed.
Lemma reads_purpose p : purpose_ok p ->
  reads_back (pull user_op_purpose) (put user_op_purpose p) p.
Proof. intros Hp. by apply reads_codec. Qed.
Lemma reads_be n x : reads_back (read_exact n) (be_bytes n x) (be_bytes n x).
Proof. apply reads_exact, length_be_bytes. Qed.
End round_trips.

Create HintDb codec.
#[export] Hint Resolve reads_vec reads_arr reads_u64 reads_flag reads_key reads_purpose reads_be : codec.

(** Peels the fields of an encoding one by one. *)
Ltac read_fields :=
  repeat first
    [ eapply reads_bind; [solve [eauto with codec]|]
    | eapply reads_last; [solve [eauto with codec]|] ]; cbv beta.

Section row_codecs.
Context `{CoreCodecOk}.

Lemma reads_user_op op :
  op_typed op -> reads_back UnsignedUserOp_decode (UnsignedUserOp_encode op) op.
Proof.
  intros []. unfold UnsignedUserOp_decode, UnsignedUserOp_encode. read_fields.
  destruct op; simpl in *. rewrite !be_value_bytes by done. apply reads_ret.
Qed.
#[local] Hint Resolve reads_user_op : codec.

Definition signed_typed (op : SignedUserOp) : Prop := op_typed (unsigned op) /\ is_vec (op_signature op).

Lemma reads_signed op : signed_typed op -> reads_back SignedUserOp_decode (SignedUserOp_encode op) op.
Proof.
  intros []. unfold SignedUserOp_decode, SignedUserOp_encode. read_fields. destruct op. apply reads_ret.
Qed.
#[local] Hint Resolve reads_signed : codec.

Record submitted_typed (s : SubmittedUserOp) : Prop := {
  ty_signed : signed_typed (signed s);
  ty_purpose : purpose_ok (s_purpose s);
  ty_submitted_block : is_u64 (submitted_block s);
}.

Lemma reads_submitted s :
  submitted_typed s -> reads_back SubmittedUserOp_decode (SubmittedUserOp_encode s) s.
Proof.
  intros []. unfold SubmittedUserOp_decode, SubmittedUserOp_encode. read_fields. destruct s. apply reads_ret.
Qed.

Record deposit_typed (r : DepositRecord) : Prop := {
  ty_claim_pk : is_compressed (rec_claim_pk r);
  ty_credited : is_u64 (credited r);
  ty_claimed : is_u64 (claimed r);
  ty_last_observed : is_u64 (last_observed_block r);
  ty_swept : is_u64 (swept r);
  ty_rec_nonce : is_u64 (rec_nonce r);
  ty_fees_accrued : is_u64 (fees_accrued r);
}.

Lemma reads_deposit r : deposit_typed r -> reads_back DepositRecord_decode (DepositRecord_encode r) r.
Proof.
  intros []. unfold DepositRecord_decode, DepositRecord_encode. read_fields. destruct r. apply reads_ret.
Qed.

Record pool_typed (p : PoolState) : Prop := {
  ty_account : is_array 20 (pool_account_addr p);
  ty_balance : is_u64 (pool_balance p);
  ty_pool_nonce : is_u64 (pool_nonce p);
  ty_accrued : is_u64 (accrued_fees p);
}.

Lemma reads_pool p : pool_typed p -> reads_back PoolState_decode (PoolState_encode p) p.
Proof.
  intros []. unfold PoolState_decode, PoolState_encode. read_fields. destruct p. apply reads_ret.
Qed.

Record withdrawal_typed (w : UsdtWithdrawalV0) : Prop := {
  ty_recipient : is_array 20 (w_recipient w);
  ty_amount : is_u64 (w_amount w);
  ty_max : is_u64 (w_max_fee w);
  ty_requested : is_u64 (requested_block w);
  ty_refund_pubkey : is_compressed (w_refund_pubkey w);
}.

Lemma reads_withdrawal w :
  withdrawal_typed w -> reads_back UsdtWithdrawalV0_decode (UsdtWithdrawalV0_encode w) w.
Proof.
  intros []. unfold UsdtWithdrawalV0_decode, UsdtWithdrawalV0_encode. read_fields.
  destruct w. apply reads_ret.
Qed.

(** C29: The hand-written encoding of a user operation is read back field by field,
    whatever bytes follow it, and no two operations share one: none of its 256-bit and
    128-bit integers is truncated or run into its neighbour. *)
Theorem user_op_round_trip op op' rest :
  op_typed op -> op_typed op' ->
  UnsignedUserOp_decode (UnsignedUserOp_encode op ++ rest) = Some (op, rest) /\
  (UnsignedUserOp_encode op = UnsignedUserOp_encode op' -> op = op').
Proof.
  intros Hop Hop'. split; [by apply reads_user_op|]. intros E.
  apply (inj Some). transitivity (decode_whole UnsignedUserOp_decode (UnsignedUserOp_encode op)).
  - symmetry. by apply reads_whole, reads_user_op.
  - rewrite E. by apply reads_whole, reads_user_op.
Qed.
End row_codecs.

(** ** Concrete codecs *)

(** A codec that prefixes the length. *)
Definition length_prefixed : Codec bytes := {|
  encode b := le_bytes 8 (Z.of_nat (length b)) ++ b;
  decode bs :=
    if (length bs <? 8)%nat then None
    else let n := Z.to_nat (le_value (take 8 bs)) in
         let bs := drop 8 bs in
         if (length bs <? n)%nat then None else Some (take n bs, drop n bs)
|}.

(** A codec of [n] bytes for the values [of_value] and [to_value] identify with them. *)
Definition fixed {A} (n : nat) (to_value : A -> Z) (of_value : Z -> A) : Codec A := {|
  encode a := be_bytes n (to_value a);
  decode bs := if (length bs <? n)%nat then None
               else Some (of_value (Prelude.be_value (take n bs)), drop n bs)
|}.

Lemma fixed_ok {A} n (to_value : A -> Z) of_value (P : A -> Prop) :
  (forall a, P a -> 0 <= to_value a < 256 ^ Z.of_nat n /\ of_value (to_value a) = a) ->
  @CodecOk A (fixed n to_value of_value) P.
Proof.
  intros HP a rest [Hr Ha]%HP. unfold encode, decode, fixed.
  rewrite length_app, length_be_bytes. rewrite (proj2 (Nat.ltb_ge _ _)) by lia.
  rewrite take_app_le, drop_app_le by (rewrite length_be_bytes; lia).
  rewrite take_ge, drop_ge by (rewrite length_be_bytes; lia). by rewrite be_value_bytes, Ha.
Qed.

Lemma length_prefixed_ok : @CodecOk bytes length_prefixed is_vec.
Proof.
  intros b rest [_ Hb]. unfold encode, decode, length_prefixed.
  rewrite <- app_assoc, length_app, length_le_bytes. rewrite (proj2 (Nat.ltb_ge _ _)) by lia.
  rewrite take_app_le, drop_app_le by (rewrite length_le_bytes; lia).
  rewrite take_ge, drop_ge by (rewrite length_le_bytes; lia). simpl app.
  rewrite le_value_bytes, Nat2Z.id.
  2:{ split; [lia|]. change (256 ^ Z.of_nat 8) with (2 ^ 64). unfold_widths. lia. }
  rewrite length_app, (proj2 (Nat.ltb_ge _ _)) by lia. by rewrite take_app_length, drop_app_length.
Qed.

Definition raw_array (n : nat) : Codec bytes := {| encode b := b; decode := read_exact n |}.

Lemma raw_array_ok n : @CodecOk bytes (raw_array n) (is_array n).
Proof. intros b rest [Hb _]. by apply reads_exact. Qed.

(** Enough purposes for a concrete row. *)
Definition demo_purpose : UserOpPurpose := Withdraw [(900, 0)].

Definition demo_codec : CoreCodec := {|
  vec := length_prefixed;
  arr := raw_array;
  u64 := u64_codec;
  flag := fixed 1 Z.b2z (Z.eqb 1);
  public_key := fixed 33 pk_bytes mkPublicKey;
  user_op_purpose := {| encode _ := [1]; decode bs := Some (demo_purpose, drop 1 bs) |};
|}.

#[export] Instance demo_codec_ok : @CoreCodecOk demo_codec (fun p => p = demo_purpose).
Proof.
  split.
  - exact length_prefixed_ok.
  - exact raw_array_ok.
  - exact u64_codec_ok.
  - apply fixed_ok. by intros [].
  - apply fixed_ok. by intros [pk].
  - by intros p rest ->.
  - reflexivity.
  - done.
Qed.

Definition demo_user_op (gas : Z) : UnsignedUserOp :=
  mkUnsignedUserOp (replicate 20 1) (2 ^ 255) [] [1; 2] 100 gas 300 1 10 [].

Lemma demo_op_typed gas : is_u128 gas -> op_typed (demo_user_op gas).
Proof.
  intros Hg. split; [..|exact Hg| | | |]; unfold is_array, is_vec, is_bytes, is_u128, is_u256, U64_MAX;
    refine (bool_decide_unpack _ _); vm_compute; exact I.
Qed.

Lemma user_op_round_trip_witness :
  @UnsignedUserOp_decode demo_codec (@UnsignedUserOp_encode demo_codec (demo_user_op 7) ++ [9])
    = Some (demo_user_op 7, [9]) /\
  (@UnsignedUserOp_encode demo_codec (demo_user_op 7)
    = @UnsignedUserOp_encode demo_codec (demo_user_op 8) -> demo_user_op 7 = demo_user_op 8).
Proof.
  apply (@user_op_round_trip demo_codec _ demo_codec_ok (demo_user_op 7) (demo_user_op 8) [9]);
    apply demo_op_typed; split; [lia|reflexivity|lia|reflexivity].
Defined.
