(* ===== verification/UsdtMigrations.v ===== *)
(** * Database migrations

    The migrations of [modules/usdt/fedimint-usdt-server/src/lib.rs]
    ([get_database_migrations], [migrate_db_v0] to [migrate_db_v5]), on the raw
    key-value store they rewrite.  fedimint-core runs them in the order of their
    versions from the version the store is at, and removes nothing else. *)

From S2P Require Import Prelude FedimintCore UsdtTypes UsdtEvm UsdtUserOp UsdtSigning UsdtDb UsdtCodec.

(** ** The raw store *)

Abbreviation Store := (gmap bytes bytes).

Definition has_prefix (p key : bytes) : Prop := take (length p) key = p.
#[export] Instance has_prefix_dec p key : Decision (has_prefix p key).
Proof. unfold has_prefix. apply _. Defined.

Definition raw_remove_by_prefix (p : bytes) (db : Store) : Store :=
  filter (fun kv => ~ has_prefix p kv.1) db.
Definition raw_find_by_prefix (p : bytes) (db : Store) : list (bytes * bytes) :=
  filter (fun kv => has_prefix p kv.1) (map_to_list db).

(** ** [DbKeyPrefix] *)

Definition FeeVotePrefix : Z := 2.
Definition DepositRecordPrefix : Z := 3.
Definition REMOVED_DEPOSIT_OBSERVATION_VOTE_PREFIX : Z := 4.
Definition REMOVED_PENDING_CHECK_PREFIX : Z := 5.
Definition SubmittedUserOpPrefix : Z := 9.
Definition PoolStatePrefix : Z := 10.
Definition UserOpConfirmedVotePrefix : Z := 11.
Definition UnclaimedWithdrawalPrefix : Z := 12.

(** ** The migrations *)

Definition LEGACY_REFUND_PLACEHOLDER_PUBKEY : bytes :=
  [2; 80; 146; 155; 116; 193; 160; 73; 84; 183; 139; 75; 96; 53; 233; 122; 94; 7; 138; 90; 15;
   40; 236; 150; 213; 71; 191; 238; 154; 206; 128; 58; 192].

(** The loop the rewriting migrations share: the rows are read first, then each is
    inserted again with [suffix] at its end. *)
Definition append_to_rows (prefix : Z) (suffix : bytes) (db : Store) : Store :=
  foldl (fun db '(key, value) => <[key := value ++ suffix]> db) db (raw_find_by_prefix [prefix] db).

Section migrations.
Context `{CoreCodec}.

Definition migrate_db_v0 (db : Store) : Store := raw_remove_by_prefix [FeeVotePrefix] db.

Definition migrate_db_v1 (db : Store) : Store :=
  raw_remove_by_prefix [UserOpConfirmedVotePrefix]
    (raw_remove_by_prefix [REMOVED_DEPOSIT_OBSERVATION_VOTE_PREFIX] db).

Definition migrate_db_v2 (db : Store) : Store := append_to_rows SubmittedUserOpPrefix [0] db.

Definition migrate_db_v3 (db : Store) : Store :=
  append_to_rows UnclaimedWithdrawalPrefix LEGACY_REFUND_PLACEHOLDER_PUBKEY
    (raw_remove_by_prefix [UserOpConfirmedVotePrefix] db).

Definition migrate_db_v4 (db : Store) : Store :=
  raw_remove_by_prefix [REMOVED_PENDING_CHECK_PREFIX] db.

Definition migrate_db_v5 (db : Store) : Store :=
  let zero := put u64 0 in
  foldl (fun db prefix => append_to_rows prefix zero db) db [DepositRecordPrefix; PoolStatePrefix].

Definition get_database_migrations : list (Z * (Store -> Store)) :=
  [(0, migrate_db_v0); (1, migrate_db_v1); (2, migrate_db_v2); (3, migrate_db_v3);
   (4, migrate_db_v4); (5, migrate_db_v5)].

(** What an upgrade does to a store at version [from]. *)
Definition migrate_from (from : Z) (db : Store) : Store :=
  foldl (fun db vm => vm.2 db) db (filter (fun vm => from <= vm.1) get_database_migrations).
End migrations.

(** ** Lookups *)

Lemma remove_by_prefix_lookup p db key :
  raw_remove_by_prefix p db !! key = if decide (has_prefix p key) then None else db !! key.
Proof.
  unfold raw_remove_by_prefix. rewrite map_lookup_filter. destruct (db !! key); simpl; [|by case_decide].
  case_decide as Hp; case_guard as Hg; simpl in *; tauto || done.
Qed.

Lemma insert_rows_lookup (f : bytes -> bytes) (l : list (bytes * bytes)) (db : Store) key :
  NoDup l.*1 ->
  foldl (fun db '(k, v) => <[k := f v]> db) db l !! key =
  match list_to_map (M := Store) l !! key with Some v => Some (f v) | None => db !! key end.
Proof.
  revert db. induction l as [|[k v] l IH]; intros db Hnd; [done|].
  cbn [fmap list_fmap fst] in Hnd. apply NoDup_cons in Hnd as [Hk Hnd]. cbn [foldl list_to_map foldr]. rewrite IH by done.
  cbn [uncurry]. destruct (decide (k = key)) as [->|Hne].
  - rewrite not_elem_of_list_to_map_1 by done. by rewrite !lookup_insert_eq.
  - by rewrite !lookup_insert_ne.
Qed.

Lemma find_by_prefix_keys p db : NoDup (raw_find_by_prefix p db).*1.
Proof.
  apply (sublist_NoDup _ (map_to_list db).*1); [apply NoDup_fst_map_to_list|].
  apply fmap_sublist, sublist_filter.
Qed.

Lemma append_to_rows_lookup prefix suffix db key :
  append_to_rows prefix suffix db !! key =
  (fun v => if decide (has_prefix [prefix] key) then v ++ suffix else v) <$> db !! key.
Proof.
  unfold append_to_rows.
  rewrite (insert_rows_lookup (fun v => v ++ suffix)) by apply find_by_prefix_keys.
  unfold raw_find_by_prefix. rewrite <- map_filter_alt, map_lookup_filter.
  destruct (db !! key) as [v|]; simpl; [|done].
  case_decide as Hp; case_guard as Hg; simpl in *; tauto || done.
Qed.

(** ** Stores of a version *)

Section shapes.
Context `{CoreCodec} {purpose_ok : UserOpPurpose -> Prop} `{!CoreCodecOk purpose_ok}.

(** The rows before their last field was added, by that field's default. *)
Definition old_submitted (s : SubmittedUserOp) : bytes :=
  SignedUserOp_encode (signed s) ++ put user_op_purpose (s_purpose s) ++ put u64 (submitted_block s).
Definition old_withdrawal (w : UsdtWithdrawalV0) : bytes :=
  put (arr 20) (w_recipient w) ++ put u64 (w_amount w) ++ put u64 (w_max_fee w) ++
  put u64 (requested_block w).
Definition old_deposit (r : DepositRecord) : bytes :=
  put public_key (rec_claim_pk r) ++ put u64 (credited r) ++ put u64 (claimed r) ++
  put u64 (last_observed_block r) ++ put u64 (swept r) ++ put u64 (rec_nonce r).
Definition old_pool (p : PoolState) : bytes :=
  put (arr 20) (pool_account_addr p) ++ put u64 (pool_balance p) ++ put u64 (pool_nonce p).

(** The unspendable point of BIP-341. *)
Definition placeholder_key : PublicKey := mkPublicKey (Prelude.be_value LEGACY_REFUND_PLACEHOLDER_PUBKEY).

Definition decodes {A} (r : Reader A) (v : bytes) : Prop := exists a, decode_whole r v = Some a.

(** What a row may hold in a store at a version (6 is the version after the last
    migration): tables whose shape changed while they were dropped are unconstrained
    until then, removed tables have no rows after they were dropped. *)
Definition row_shape (version prefix : Z) (v : bytes) : Prop :=
  if prefix =? FeeVotePrefix then 0 < version -> decodes StoredFeeVote_decode v
  else if prefix =? REMOVED_DEPOSIT_OBSERVATION_VOTE_PREFIX then version <= 1
  else if prefix =? REMOVED_PENDING_CHECK_PREFIX then version <= 4
  else if prefix =? UserOpConfirmedVotePrefix then 3 < version -> decodes UserOpConfirmedObservation_decode v
  else if prefix =? SubmittedUserOpPrefix then
    if version <=? 2 then exists s, submitted_typed (purpose_ok := purpose_ok) s /\ superseded s = false /\ v = old_submitted s
    else decodes SubmittedUserOp_decode v
  else if prefix =? UnclaimedWithdrawalPrefix then
    if version <=? 3
    then exists w, withdrawal_typed w /\ w_refund_pubkey w = placeholder_key /\ v = old_withdrawal w
    else decodes UsdtWithdrawalV0_decode v
  else if prefix =? DepositRecordPrefix then
    if version <=? 5 then exists r, deposit_typed r /\ fees_accrued r = 0 /\ v = old_deposit r
    else decodes DepositRecord_decode v
  else if prefix =? PoolStatePrefix then
    if version <=? 5 then exists p, pool_typed p /\ accrued_fees p = 0 /\ v = old_pool p
    else decodes PoolState_decode v
  else True.

Definition store_typed (version : Z) (db : Store) : Prop :=
  map_Forall (fun key v => forall prefix key', key = prefix :: key' -> row_shape version prefix v) db.

(** The bytes that the migrations append complete the rows. *)
Lemma complete_submitted s :
  superseded s = false -> old_submitted s ++ [0] = SubmittedUserOp_encode s.
Proof.
  intros Es. unfold old_submitted, SubmittedUserOp_encode. rewrite Es. unfold put at 5.
  by rewrite flag_false, <- !app_assoc.
Qed.

Lemma complete_withdrawal w :
  w_refund_pubkey w = placeholder_key ->
  old_withdrawal w ++ LEGACY_REFUND_PLACEHOLDER_PUBKEY = UsdtWithdrawalV0_encode w.
Proof.
  intros Ew. unfold old_withdrawal, UsdtWithdrawalV0_encode. rewrite Ew. unfold put at 9.
  rewrite key_compressed, <- !app_assoc; [done|]. by split.
Qed.

Lemma complete_deposit r : fees_accrued r = 0 -> old_deposit r ++ put u64 0 = DepositRecord_encode r.
Proof. intros Er. unfold old_deposit, DepositRecord_encode. by rewrite Er, <- !app_assoc. Qed.

Lemma complete_pool p : accrued_fees p = 0 -> old_pool p ++ put u64 0 = PoolState_encode p.
Proof. intros Ep. unfold old_pool, PoolState_encode. by rewrite Ep, <- !app_assoc. Qed.

(** ** One row at a time *)

(** What migration [n] makes of a row. *)
Definition row_step (n prefix : Z) (v : bytes) : option bytes :=
  let drop p := if prefix =? p then None else Some v in
  let append p suffix := Some (if prefix =? p then v ++ suffix else v) in
  if n =? 0 then drop FeeVotePrefix
  else if n =? 1 then
    if prefix =? REMOVED_DEPOSIT_OBSERVATION_VOTE_PREFIX then None else drop UserOpConfirmedVotePrefix
  else if n =? 2 then append SubmittedUserOpPrefix [0]
  else if n =? 3 then
    if prefix =? UserOpConfirmedVotePrefix then None
    else append UnclaimedWithdrawalPrefix LEGACY_REFUND_PLACEHOLDER_PUBKEY
  else if n =? 4 then drop REMOVED_PENDING_CHECK_PREFIX
  else if prefix =? PoolStatePrefix then append PoolStatePrefix (put u64 0)
  else append DepositRecordPrefix (put u64 0).

Lemma has_prefix_cons p prefix key : has_prefix [p] (prefix :: key) <-> prefix = p.
Proof. unfold has_prefix. simpl. rewrite take_0. naive_solver. Qed.

Lemma migration_rows n m db prefix key :
  (n, m) ∈ get_database_migrations ->
  m db !! (prefix :: key) = db !! (prefix :: key) ≫= row_step n prefix.
Proof.
  intros Hin. unfold get_database_migrations in Hin. rewrite !elem_of_cons in Hin.
  destruct_or!; [..|by apply elem_of_nil in Hin]; simplify_eq;
    unfold migrate_db_v0, migrate_db_v1, migrate_db_v2, migrate_db_v3, migrate_db_v4, migrate_db_v5;
    cbn [foldl]; rewrite ?append_to_rows_lookup, ?remove_by_prefix_lookup;
    destruct (db !! (prefix :: key)) as [v|]; unfold row_step; simpl;
    repeat case_decide; rewrite ?has_prefix_cons in *; subst; simpl; try done;
    repeat (case_match; zbool); done || lia.
Qed.

Lemma decodes_written {A} (r : Reader A) bs a : reads_back r bs a -> decodes r bs.
Proof. intros Hr. exists a. by apply reads_whole. Qed.

Lemma row_step_typed n prefix v v' :
  0 <= n <= 5 -> row_shape n prefix v -> row_step n prefix v = Some v' -> row_shape (n + 1) prefix v'.
Proof.
  intros Hn. unfold row_shape, row_step, FeeVotePrefix, REMOVED_DEPOSIT_OBSERVATION_VOTE_PREFIX,
    REMOVED_PENDING_CHECK_PREFIX, UserOpConfirmedVotePrefix, SubmittedUserOpPrefix,
    UnclaimedWithdrawalPrefix, DepositRecordPrefix, PoolStatePrefix.
  assert (n = 0 \/ n = 1 \/ n = 2 \/ n = 3 \/ n = 4 \/ n = 5) as Hc by lia.
  destruct_or! Hc; subst n; cbn [Z.eqb Z.leb Z.add Z.compare Pos.eqb Pos.add Pos.succ Pos.compare Pos.compare_cont];
    repeat (case_match; zbool); subst; intros Hv Ev; simplify_eq; try done; try lia; try (by intros _; apply Hv; lia);
    destruct Hv as (a & Ha & Hd & ->); eapply decodes_written.
  - rewrite complete_submitted by done. by apply reads_submitted.
  - rewrite complete_withdrawal by done. by apply reads_withdrawal.
  - rewrite complete_deposit by done. by apply reads_deposit.
  - rewrite complete_pool by done. by apply reads_pool.
Qed.

Lemma migration_typed n m db :
  (n, m) ∈ get_database_migrations -> store_typed n db -> store_typed (n + 1) (m db).
Proof.
  intros Hin Hdb key v Hv prefix key' ->. rewrite (migration_rows n m) in Hv by done.
  apply bind_Some in Hv as (v0 & Hv0 & Hs). apply row_step_typed with v0; [|by eapply Hdb|done].
  clear -Hin. unfold get_database_migrations in Hin. rewrite !elem_of_cons in Hin.
  destruct_or!; [..|by apply elem_of_nil in Hin]; simplify_eq; lia.
Qed.

(** ** The whole upgrade *)

(** A row through the migrations from version [from] on. *)
Definition row_upgrade (from prefix : Z) (v : bytes) : option bytes :=
  foldl (fun r n => r ≫= row_step n prefix) (Some v) (filter (fun n => from <= n) [0; 1; 2; 3; 4; 5]).

Lemma upgrade_cases (P : Z -> Prop) :
  P 0 -> P 1 -> P 2 -> P 3 -> P 4 -> P 5 -> P 6 -> forall from, 0 <= from <= 6 -> P from.
Proof.
  intros. assert (from = 0 \/ from = 1 \/ from = 2 \/ from = 3 \/ from = 4 \/ from = 5 \/ from = 6) by lia.
  naive_solver.
Qed.

Lemma upgrade_rows from db prefix key :
  0 <= from <= 6 ->
  migrate_from from db !! (prefix :: key) = db !! (prefix :: key) ≫= row_upgrade from prefix.
Proof.
  assert (Hall : forall l : list (Z * (Store -> Store)), l ⊆ get_database_migrations -> forall db,
    foldl (fun db vm => vm.2 db) db l !! (prefix :: key)
    = foldl (fun r n => r ≫= row_step n prefix) (db !! (prefix :: key)) l.*1).
  { intros l. induction l as [|[n m] l IH]; intros Hl db'; [done|]. cbn [foldl fmap list_fmap fst snd].
    rewrite IH by set_solver. by rewrite (migration_rows n m) by set_solver. }
  intros Hf. unfold migrate_from. rewrite Hall.
  2:{ intros x Hx. by apply list_elem_of_filter in Hx as [_ ?]. }
  unfold row_upgrade. revert from Hf. apply upgrade_cases; cbn;
    destruct (db !! (prefix :: key)); reflexivity.
Qed.

(** Upgraded by hand, where a migration still to come completes the row. *)
Lemma upgrade_completes from :
  0 <= from <= 6 ->
  (forall v, from <= 2 -> row_upgrade from SubmittedUserOpPrefix v = Some (v ++ [0])) /\
  (forall v, from <= 3 ->
     row_upgrade from UnclaimedWithdrawalPrefix v = Some (v ++ LEGACY_REFUND_PLACEHOLDER_PUBKEY)) /\
  (forall v, from <= 5 -> row_upgrade from DepositRecordPrefix v = Some (v ++ put u64 0)) /\
  (forall v, from <= 5 -> row_upgrade from PoolStatePrefix v = Some (v ++ put u64 0)).
Proof. revert from. apply upgrade_cases; split_and!; intros; reflexivity || lia. Qed.

(** The tables without a migration. *)
Definition untouched (prefix : Z) : Prop :=
  prefix ∉ [FeeVotePrefix; REMOVED_DEPOSIT_OBSERVATION_VOTE_PREFIX; REMOVED_PENDING_CHECK_PREFIX;
    UserOpConfirmedVotePrefix; SubmittedUserOpPrefix; UnclaimedWithdrawalPrefix;
    DepositRecordPrefix; PoolStatePrefix].

Lemma upgrade_untouched from prefix v : untouched prefix -> row_upgrade from prefix v = Some v.
Proof.
  unfold untouched. rewrite !not_elem_of_cons. intros (N2 & N4 & N5 & N11 & N9 & N12 & N3 & N10 & _).
  unfold row_upgrade. generalize (filter (fun n => from <= n) [0; 1; 2; 3; 4; 5]).
  intros l. induction l as [|n l IH]; [done|]. cbn [foldl mbind option_bind].
  assert (row_step n prefix v = Some v) as ->; [|done]. unfold row_step.
  repeat (rewrite (proj2 (Z.eqb_neq prefix _)) by done). by repeat case_match.
Qed.


(** C10: An upgrade loses no obligation and invents none.  Every operation in flight,
    queued withdrawal, deposit record and the pool's books are read back after it as they
    were, with the added field at its default (not superseded, the unspendable
    placeholder key, no fees accrued), and every other table but the votes that are
    dropped is carried over byte for byte. *)
Theorem migrations_keep_obligations from db :
  0 <= from <= 6 ->
  let db' := migrate_from from db in
  (forall key s, from <= 2 -> submitted_typed (purpose_ok := purpose_ok) s -> superseded s = false ->
     db !! (SubmittedUserOpPrefix :: key) = Some (old_submitted s) ->
     db' !! (SubmittedUserOpPrefix :: key) ≫= decode_whole SubmittedUserOp_decode = Some s) /\
  (forall key w, from <= 3 -> withdrawal_typed w -> w_refund_pubkey w = placeholder_key ->
     db !! (UnclaimedWithdrawalPrefix :: key) = Some (old_withdrawal w) ->
     db' !! (UnclaimedWithdrawalPrefix :: key) ≫= decode_whole UsdtWithdrawalV0_decode = Some w) /\
  (forall key r, from <= 5 -> deposit_typed r -> fees_accrued r = 0 ->
     db !! (DepositRecordPrefix :: key) = Some (old_deposit r) ->
     db' !! (DepositRecordPrefix :: key) ≫= decode_whole DepositRecord_decode = Some r) /\
  (forall key p, from <= 5 -> pool_typed p -> accrued_fees p = 0 ->
     db !! (PoolStatePrefix :: key) = Some (old_pool p) ->
     db' !! (PoolStatePrefix :: key) ≫= decode_whole PoolState_decode = Some p) /\
  (forall prefix key, untouched prefix -> db' !! (prefix :: key) = db !! (prefix :: key)).
Proof.
  intros Hf db'. subst db'. destruct (upgrade_completes from Hf) as (Hs & Hw & Hr & Hp).
  split_and!; intros ? ?; intros; rewrite upgrade_rows by done;
    try match goal with E : db !! _ = Some _ |- _ => rewrite E; cbn [mbind option_bind] end.
  - rewrite Hs by done. rewrite complete_submitted by done. by apply reads_whole, reads_submitted.
  - rewrite Hw by done. rewrite complete_withdrawal by done. by apply reads_whole, reads_withdrawal.
  - rewrite Hr by done. rewrite complete_deposit by done. by apply reads_whole, reads_deposit.
  - rewrite Hp by done. rewrite complete_pool by done. by apply reads_whole, reads_pool.
  - destruct (db !! _) as [v|]; [|done]. by apply upgrade_untouched.
Qed.
End shapes.

(** ** A federation that upgrades *)

Section witnesses.
#[local] Existing Instance demo_codec.

Definition demo_row : SubmittedUserOp :=
  mkSubmittedUserOp (mkSignedUserOp (demo_user_op 7) [1; 2; 3]) demo_purpose 42 false.
Definition demo_queued : UsdtWithdrawalV0 :=
  mkUsdtWithdrawalV0 (replicate 20 8) 1000 50 41 placeholder_key.

(** A store at version 0: a fee vote of the old shape, a deposit observation, an operation
    in flight, a queued withdrawal and a block count vote. *)
Definition demo_store : Store :=
  <[[2; 0] := [5]]> (<[[4; 0] := [1]]> (<[[9; 1] := old_submitted demo_row]>
  (<[[12; 1] := old_withdrawal demo_queued]> {[ [1; 0] := put u64 7 ]}))).

Lemma demo_row_typed : submitted_typed (purpose_ok := fun p => p = demo_purpose) demo_row.
Proof.
  split; [split|done|split]; [apply demo_op_typed; split; [lia|reflexivity]| |done|done].
  unfold is_vec, is_bytes, U64_MAX. refine (bool_decide_unpack _ _). vm_compute. exact I.
Qed.

Lemma demo_queued_typed : withdrawal_typed demo_queued.
Proof.
  split; unfold is_array, is_bytes, is_compressed, is_u64, U64_MAX;
    refine (bool_decide_unpack _ _); vm_compute; exact I.
Qed.

Lemma demo_store_typed : store_typed (purpose_ok := fun p => p = demo_purpose) 0 demo_store.
Proof.
  unfold demo_store, store_typed.
  repeat (apply map_Forall_insert_2; [intros ?? [= <- <-]|]);
    [..|apply map_Forall_empty].
  - intros Hv. exfalso. lia.
  - cbv. discriminate.
  - exists demo_row. split; [apply demo_row_typed|done].
  - exists demo_queued. split; [apply demo_queued_typed|done].
  - exact I.
Qed.


Lemma migrations_keep_obligations_witness :
  migrate_from 0 demo_store !! [9; 1] ≫= decode_whole SubmittedUserOp_decode = Some demo_row /\
  migrate_from 0 demo_store !! [12; 1] ≫= decode_whole UsdtWithdrawalV0_decode = Some demo_queued /\
  migrate_from 0 demo_store !! [1; 0] = Some (put u64 7).
Proof.
  destruct (migrations_keep_obligations (purpose_ok := fun p => p = demo_purpose) 0 demo_store
    ltac:(lia)) as (Hs & Hw & _ & _ & Hu). split_and!.
  - apply (Hs [1] demo_row); [lia|apply demo_row_typed|done|]. reflexivity.
  - apply (Hw [1] demo_queued); [lia|apply demo_queued_typed|done|]. reflexivity.
  - rewrite (Hu 1 [0]); [reflexivity|]. unfold untouched. refine (bool_decide_unpack _ _). vm_compute. exact I.
Defined.
End witnesses.
