(* ===== verification/UsdtDbKeys.v ===== *)
(** * USDT server tables in the key-value store

    [modules/usdt/fedimint-usdt-server/src/db.rs]: the prefix byte of each table, the
    fields of its keys, the query prefixes its rows are listed by, and the typed
    operations of a database transaction over the raw store.  The handlers are modelled
    on the record of tables [UsdtDb]; here the raw store implements that record. *)

From S2P Require Import Prelude FedimintCore UsdtTypes UsdtEvm UsdtUserOp UsdtSigning UsdtDb UsdtCodec UsdtMigrations.

(** ** [DbKeyPrefix] *)

Module DbKeyPrefix.
Inductive t :=
| BlockCountVote | FeeVote | DepositRecord | SigningSession | MpcRoundChunk | PendingUserOp
| SubmittedUserOp | PoolState | UserOpConfirmedVote | UnclaimedWithdrawal | WithdrawalState
| BootstrapVote | HasEverBeenReady | WithdrawalBatchCap | Refund | WithdrawalIncurredFee
| BlockHashRing | BlockHashVote | RecoverResidualVote | WithdrawFeesVote.

#[global] Instance eq_dec : EqDecision t.
Proof. solve_decision. Defined.

(** [DbKeyPrefix::iter], in the order of the declaration. *)
Definition iter : list t :=
  [BlockCountVote; FeeVote; DepositRecord; SigningSession; MpcRoundChunk; PendingUserOp;
   SubmittedUserOp; PoolState; UserOpConfirmedVote; UnclaimedWithdrawal; WithdrawalState;
   BootstrapVote; HasEverBeenReady; WithdrawalBatchCap; Refund; WithdrawalIncurredFee;
   BlockHashRing; BlockHashVote; RecoverResidualVote; WithdrawFeesVote].

Lemma elem_of_iter p : p ∈ iter.
Proof. refine (bool_decide_unpack _ _). by destruct p. Qed.

(** The [#[repr(u8)]] discriminants; 4 and 5 are gaps. *)
Definition byte (p : t) : Z :=
  match p with
  | BlockCountVote => 1
  | FeeVote => 2
  | DepositRecord => 3
  | SigningSession => 6
  | MpcRoundChunk => 7
  | PendingUserOp => 8
  | SubmittedUserOp => 9
  | PoolState => 10
  | UserOpConfirmedVote => 11
  | UnclaimedWithdrawal => 12
  | WithdrawalState => 13
  | BootstrapVote => 14
  | HasEverBeenReady => 15
  | WithdrawalBatchCap => 16
  | Refund => 17
  | WithdrawalIncurredFee => 18
  | BlockHashRing => 19
  | BlockHashVote => 20
  | RecoverResidualVote => 21
  | WithdrawFeesVote => 22
  end.

#[global] Instance byte_inj : Inj (=) (=) byte.
Proof. intros p q. by destruct p, q. Qed.
End DbKeyPrefix.

(** ** Keys *)

Inductive FieldKind := KPeer | KAddress | KHash | KU64 | KU16 | KOutPoint.
#[export] Instance FieldKind_eq_dec : EqDecision FieldKind.
Proof. solve_decision. Defined.

(** A field of a key, by its Rust type. *)
Inductive Field :=
| FPeer (p : PeerId)
| FAddress (a : EvmAddress)
| FHash (h : Hash)
| FU64 (n : Z)
| FU16 (n : Z)
| FOutPoint (o : OutPoint).
#[export] Instance Field_eq_dec : EqDecision Field.
Proof. unfold OutPoint in *. solve_decision. Defined.

Definition kind (f : Field) : FieldKind :=
  match f with
  | FPeer _ => KPeer
  | FAddress _ => KAddress
  | FHash _ => KHash
  | FU64 _ => KU64
  | FU16 _ => KU16
  | FOutPoint _ => KOutPoint
  end.

(** A key struct with its [impl_db_record!] and [impl_db_lookup!]: the prefix, the types
    of the fields in their order, and the leading fields of each query prefix. *)
Record KeyDecl := mkKeyDecl {
  db_prefix : DbKeyPrefix.t;
  fields : list FieldKind;
  query_prefixes : list (list FieldKind);
}.

Definition BlockCountVoteKey := mkKeyDecl DbKeyPrefix.BlockCountVote [KPeer] [[]].
Definition FeeVoteKey := mkKeyDecl DbKeyPrefix.FeeVote [KPeer] [[]].
Definition DepositRecordKey := mkKeyDecl DbKeyPrefix.DepositRecord [KAddress] [[]].
Definition RecoverResidualVoteKey :=
  mkKeyDecl DbKeyPrefix.RecoverResidualVote [KAddress; KPeer] [[]; [KAddress]].
Definition WithdrawFeesVoteKey := mkKeyDecl DbKeyPrefix.WithdrawFeesVote [KPeer] [[]].
Definition SigningSessionKey := mkKeyDecl DbKeyPrefix.SigningSession [KHash] [[]].
Definition MpcRoundChunkKey :=
  mkKeyDecl DbKeyPrefix.MpcRoundChunk [KHash; KU16; KPeer; KU16]
    [[]; [KHash]; [KHash; KU16]; [KHash; KU16; KPeer]].
Definition PendingUserOpKey := mkKeyDecl DbKeyPrefix.PendingUserOp [KHash] [[]].
Definition SubmittedUserOpKey := mkKeyDecl DbKeyPrefix.SubmittedUserOp [KHash] [[]].
Definition PoolStateKey := mkKeyDecl DbKeyPrefix.PoolState [] [[]].
Definition UserOpConfirmedVoteKey :=
  mkKeyDecl DbKeyPrefix.UserOpConfirmedVote [KHash; KPeer] [[]; [KHash]].
Definition UnclaimedWithdrawalKey := mkKeyDecl DbKeyPrefix.UnclaimedWithdrawal [KOutPoint] [[]].
Definition WithdrawalStateKey := mkKeyDecl DbKeyPrefix.WithdrawalState [KOutPoint] [[]].
Definition BootstrapVoteKey := mkKeyDecl DbKeyPrefix.BootstrapVote [KPeer] [[]].
Definition HasEverBeenReadyKey := mkKeyDecl DbKeyPrefix.HasEverBeenReady [] [[]].
Definition WithdrawalBatchCapKey := mkKeyDecl DbKeyPrefix.WithdrawalBatchCap [KOutPoint] [[]].
Definition RefundKey := mkKeyDecl DbKeyPrefix.Refund [KOutPoint] [[]].
Definition WithdrawalIncurredFeeKey := mkKeyDecl DbKeyPrefix.WithdrawalIncurredFee [KOutPoint] [[]].
Definition BlockHashRingKey := mkKeyDecl DbKeyPrefix.BlockHashRing [KU64] [[]].
Definition BlockHashVoteKey := mkKeyDecl DbKeyPrefix.BlockHashVote [KPeer] [[]].

Definition decl (p : DbKeyPrefix.t) : KeyDecl :=
  match p with
  | DbKeyPrefix.BlockCountVote => BlockCountVoteKey
  | DbKeyPrefix.FeeVote => FeeVoteKey
  | DbKeyPrefix.DepositRecord => DepositRecordKey
  | DbKeyPrefix.SigningSession => SigningSessionKey
  | DbKeyPrefix.MpcRoundChunk => MpcRoundChunkKey
  | DbKeyPrefix.PendingUserOp => PendingUserOpKey
  | DbKeyPrefix.SubmittedUserOp => SubmittedUserOpKey
  | DbKeyPrefix.PoolState => PoolStateKey
  | DbKeyPrefix.UserOpConfirmedVote => UserOpConfirmedVoteKey
  | DbKeyPrefix.UnclaimedWithdrawal => UnclaimedWithdrawalKey
  | DbKeyPrefix.WithdrawalState => WithdrawalStateKey
  | DbKeyPrefix.BootstrapVote => BootstrapVoteKey
  | DbKeyPrefix.HasEverBeenReady => HasEverBeenReadyKey
  | DbKeyPrefix.WithdrawalBatchCap => WithdrawalBatchCapKey
  | DbKeyPrefix.Refund => RefundKey
  | DbKeyPrefix.WithdrawalIncurredFee => WithdrawalIncurredFeeKey
  | DbKeyPrefix.BlockHashRing => BlockHashRingKey
  | DbKeyPrefix.BlockHashVote => BlockHashVoteKey
  | DbKeyPrefix.RecoverResidualVote => RecoverResidualVoteKey
  | DbKeyPrefix.WithdrawFeesVote => WithdrawFeesVoteKey
  end.

(** ** Tables *)

(** The key of a row as a value, and the value the record declares. *)
Definition K (p : DbKeyPrefix.t) : Type :=
  match p with
  | DbKeyPrefix.BlockCountVote | DbKeyPrefix.FeeVote | DbKeyPrefix.BootstrapVote
  | DbKeyPrefix.BlockHashVote | DbKeyPrefix.WithdrawFeesVote => PeerId
  | DbKeyPrefix.DepositRecord => EvmAddress
  | DbKeyPrefix.SigningSession | DbKeyPrefix.PendingUserOp | DbKeyPrefix.SubmittedUserOp => Hash
  | DbKeyPrefix.MpcRoundChunk => Hash * Z * PeerId * Z
  | DbKeyPrefix.PoolState | DbKeyPrefix.HasEverBeenReady => unit
  | DbKeyPrefix.UserOpConfirmedVote => Hash * PeerId
  | DbKeyPrefix.UnclaimedWithdrawal | DbKeyPrefix.WithdrawalState | DbKeyPrefix.WithdrawalBatchCap
  | DbKeyPrefix.Refund | DbKeyPrefix.WithdrawalIncurredFee => OutPoint
  | DbKeyPrefix.BlockHashRing => Z
  | DbKeyPrefix.RecoverResidualVote => EvmAddress * PeerId
  end.

Definition V (p : DbKeyPrefix.t) : Type :=
  match p with
  | DbKeyPrefix.BlockCountVote => Z
  | DbKeyPrefix.FeeVote => StoredFeeVote
  | DbKeyPrefix.DepositRecord => DepositRecord
  | DbKeyPrefix.SigningSession => SigningSession
  | DbKeyPrefix.MpcRoundChunk => MpcRoundChunk
  | DbKeyPrefix.PendingUserOp => PendingUserOp
  | DbKeyPrefix.SubmittedUserOp => SubmittedUserOp
  | DbKeyPrefix.PoolState => PoolState
  | DbKeyPrefix.UserOpConfirmedVote => UserOpConfirmedObservation
  | DbKeyPrefix.UnclaimedWithdrawal => UsdtWithdrawalV0
  | DbKeyPrefix.WithdrawalState => WithdrawalState
  | DbKeyPrefix.BootstrapVote => BootstrapObservation
  | DbKeyPrefix.HasEverBeenReady => unit
  | DbKeyPrefix.WithdrawalBatchCap => Z
  | DbKeyPrefix.Refund => Refund
  | DbKeyPrefix.WithdrawalIncurredFee => UsdtAmount
  | DbKeyPrefix.BlockHashRing => Hash
  | DbKeyPrefix.BlockHashVote => BlockHashObservation
  | DbKeyPrefix.RecoverResidualVote => Z
  | DbKeyPrefix.WithdrawFeesVote => WithdrawFeesVote
  end.

#[export] Instance K_eq_dec p : EqDecision (K p).
Proof. destruct p; simpl; apply _. Defined.
#[export] Instance K_countable p : Countable (K p).
Proof. destruct p; simpl; apply _. Defined.

(** A singleton row as a map, and back. *)
Definition singleton_row {A} (o : option A) : gmap unit A :=
  match o with Some a => {[tt := a]} | None => ∅ end.

Lemma singleton_row_lookup {A} (o : option A) : singleton_row o !! tt = o.
Proof. destruct o; [apply lookup_singleton_eq|apply lookup_empty]. Qed.

Definition flag_row (b : bool) : gmap unit unit := if b then {[tt := tt]} else ∅.
Definition has_row (m : gmap unit unit) : bool := bool_decide (is_Some (m !! tt)).

(** A table of the record [UsdtDb], and its replacement. *)
Definition table (p : DbKeyPrefix.t) (d : UsdtDb) : gmap (K p) (V p) :=
  match p with
  | DbKeyPrefix.BlockCountVote => block_count_votes d
  | DbKeyPrefix.FeeVote => fee_votes d
  | DbKeyPrefix.DepositRecord => deposits d
  | DbKeyPrefix.SigningSession => sessions d
  | DbKeyPrefix.MpcRoundChunk => chunks d
  | DbKeyPrefix.PendingUserOp => pending d
  | DbKeyPrefix.SubmittedUserOp => submitted d
  | DbKeyPrefix.PoolState => singleton_row (pool_state d)
  | DbKeyPrefix.UserOpConfirmedVote => confirmed_votes d
  | DbKeyPrefix.UnclaimedWithdrawal => unclaimed d
  | DbKeyPrefix.WithdrawalState => wstates d
  | DbKeyPrefix.BootstrapVote => bootstrap_votes d
  | DbKeyPrefix.HasEverBeenReady => flag_row (has_ever_been_ready d)
  | DbKeyPrefix.WithdrawalBatchCap => batch_caps d
  | DbKeyPrefix.Refund => refunds d
  | DbKeyPrefix.WithdrawalIncurredFee => incurred d
  | DbKeyPrefix.BlockHashRing => ring d
  | DbKeyPrefix.BlockHashVote => block_hash_votes d
  | DbKeyPrefix.RecoverResidualVote => residual_votes d
  | DbKeyPrefix.WithdrawFeesVote => withdraw_fees_votes d
  end.

Definition set_table (p : DbKeyPrefix.t) : gmap (K p) (V p) -> UsdtDb -> UsdtDb :=
  match p with
  | DbKeyPrefix.BlockCountVote => fun m => set_block_count_votes (fun _ => m)
  | DbKeyPrefix.FeeVote => fun m => set_fee_votes (fun _ => m)
  | DbKeyPrefix.DepositRecord => fun m => set_deposits (fun _ => m)
  | DbKeyPrefix.SigningSession => fun m => set_sessions (fun _ => m)
  | DbKeyPrefix.MpcRoundChunk => fun m => set_chunks (fun _ => m)
  | DbKeyPrefix.PendingUserOp => fun m => set_pending (fun _ => m)
  | DbKeyPrefix.SubmittedUserOp => fun m => set_submitted (fun _ => m)
  | DbKeyPrefix.PoolState => fun m => set_pool_state (fun _ => m !! tt)
  | DbKeyPrefix.UserOpConfirmedVote => fun m => set_confirmed_votes (fun _ => m)
  | DbKeyPrefix.UnclaimedWithdrawal => fun m => set_unclaimed (fun _ => m)
  | DbKeyPrefix.WithdrawalState => fun m => set_wstates (fun _ => m)
  | DbKeyPrefix.BootstrapVote => fun m => set_bootstrap_votes (fun _ => m)
  | DbKeyPrefix.HasEverBeenReady => fun m => set_has_ever_been_ready (fun _ => has_row m)
  | DbKeyPrefix.WithdrawalBatchCap => fun m => set_batch_caps (fun _ => m)
  | DbKeyPrefix.Refund => fun m => set_refunds (fun _ => m)
  | DbKeyPrefix.WithdrawalIncurredFee => fun m => set_incurred (fun _ => m)
  | DbKeyPrefix.BlockHashRing => fun m => set_ring (fun _ => m)
  | DbKeyPrefix.BlockHashVote => fun m => set_block_hash_votes (fun _ => m)
  | DbKeyPrefix.RecoverResidualVote => fun m => set_residual_votes (fun _ => m)
  | DbKeyPrefix.WithdrawFeesVote => fun m => set_withdraw_fees_votes (fun _ => m)
  end.

Lemma table_set_same p m d : table p (set_table p m d) = m.
Proof.
  destruct p; simpl; try done.
  - apply map_eq. intros []. apply singleton_row_lookup.
  - apply map_eq. intros []. unfold flag_row, has_row. case_bool_decide as Hs.
    + rewrite lookup_singleton_eq. by destruct Hs as [[] ->].
    + rewrite lookup_empty. destruct (m !! tt) eqn:E; [by destruct Hs|done].
Qed.

Lemma table_set_other p q m d : p <> q -> table q (set_table p m d) = table q d.
Proof. intros Hne. by destruct p, q. Qed.

(** The fields of a key value. *)
Definition key_fields (p : DbKeyPrefix.t) : K p -> list Field :=
  match p with
  | DbKeyPrefix.BlockCountVote | DbKeyPrefix.FeeVote | DbKeyPrefix.BootstrapVote
  | DbKeyPrefix.BlockHashVote | DbKeyPrefix.WithdrawFeesVote => fun peer => [FPeer peer]
  | DbKeyPrefix.DepositRecord => fun a => [FAddress a]
  | DbKeyPrefix.SigningSession | DbKeyPrefix.PendingUserOp | DbKeyPrefix.SubmittedUserOp =>
      fun h => [FHash h]
  | DbKeyPrefix.MpcRoundChunk => fun '(id, round, peer, chunk) => [FHash id; FU16 round; FPeer peer; FU16 chunk]
  | DbKeyPrefix.PoolState | DbKeyPrefix.HasEverBeenReady => fun _ => []
  | DbKeyPrefix.UserOpConfirmedVote => fun '(h, peer) => [FHash h; FPeer peer]
  | DbKeyPrefix.UnclaimedWithdrawal | DbKeyPrefix.WithdrawalState | DbKeyPrefix.WithdrawalBatchCap
  | DbKeyPrefix.Refund | DbKeyPrefix.WithdrawalIncurredFee => fun o => [FOutPoint o]
  | DbKeyPrefix.BlockHashRing => fun height => [FU64 height]
  | DbKeyPrefix.RecoverResidualVote => fun '(a, peer) => [FAddress a; FPeer peer]
  end.

Definition key_value (p : DbKeyPrefix.t) (fs : list Field) : option (K p) :=
  match p with
  | DbKeyPrefix.BlockCountVote | DbKeyPrefix.FeeVote | DbKeyPrefix.BootstrapVote
  | DbKeyPrefix.BlockHashVote | DbKeyPrefix.WithdrawFeesVote =>
      match fs with [FPeer peer] => Some peer | _ => None end
  | DbKeyPrefix.DepositRecord => match fs with [FAddress a] => Some a | _ => None end
  | DbKeyPrefix.SigningSession | DbKeyPrefix.PendingUserOp | DbKeyPrefix.SubmittedUserOp =>
      match fs with [FHash h] => Some h | _ => None end
  | DbKeyPrefix.MpcRoundChunk =>
      match fs with
      | [FHash id; FU16 round; FPeer peer; FU16 chunk] => Some (id, round, peer, chunk)
      | _ => None
      end
  | DbKeyPrefix.PoolState | DbKeyPrefix.HasEverBeenReady => match fs with [] => Some tt | _ => None end
  | DbKeyPrefix.UserOpConfirmedVote =>
      match fs with [FHash h; FPeer peer] => Some (h, peer) | _ => None end
  | DbKeyPrefix.UnclaimedWithdrawal | DbKeyPrefix.WithdrawalState | DbKeyPrefix.WithdrawalBatchCap
  | DbKeyPrefix.Refund | DbKeyPrefix.WithdrawalIncurredFee =>
      match fs with [FOutPoint o] => Some o | _ => None end
  | DbKeyPrefix.BlockHashRing => match fs with [FU64 height] => Some height | _ => None end
  | DbKeyPrefix.RecoverResidualVote =>
      match fs with [FAddress a; FPeer peer] => Some (a, peer) | _ => None end
  end.

Ltac split_key k := repeat match goal with k : _ * _ |- _ => destruct k | k : unit |- _ => destruct k end.

Lemma key_value_fields p (k : K p) : key_value p (key_fields p k) = Some k.
Proof. destruct p; simpl in *; split_key k; done. Qed.

Lemma key_fields_kinds p (k : K p) : kind <$> key_fields p k = fields (decl p).
Proof. destruct p; simpl in *; split_key k; done. Qed.

(** ** Keys as bytes *)

(** fedimint-core's encodings of the field types [CoreCodec] does not name. *)
Class KeyCodec := {
  peer_id : Codec PeerId;
  u16 : Codec Z;
  out_point : Codec OutPoint;
}.

Definition is_out_point (o : OutPoint) : Prop := 0 <= o.1 < 2 ^ 256 /\ is_u64 o.2.

Class KeyCodecOk `{KeyCodec} : Prop := {
  peer_id_ok :: @CodecOk PeerId peer_id is_u16;
  u16_ok :: @CodecOk Z u16 is_u16;
  out_point_ok :: @CodecOk OutPoint out_point is_out_point;
}.

(** What [derive(Encodable, Decodable)] generates for the row of each table. *)
Class RowCodec := row_codec p : Codec (V p).

Class RowCodecOk `{RowCodec} (value_ok : forall p, V p -> Prop) : Prop :=
  row_codec_ok p :: @CodecOk (V p) (row_codec p) (value_ok p).

Section store.
Context `{CC : CoreCodec} `{KC : KeyCodec} `{RC : RowCodec}.

Definition field_bytes (f : Field) : bytes :=
  match f with
  | FPeer p => put peer_id p
  | FAddress a => put (arr 20) a
  | FHash h => put (arr 32) h
  | FU64 n => put u64 n
  | FU16 n => put u16 n
  | FOutPoint o => put out_point o
  end.

Definition read_field (k : FieldKind) : Reader Field :=
  match k with
  | KPeer => p ← pull peer_id; mret (FPeer p)
  | KAddress => a ← pull (arr 20); mret (FAddress a)
  | KHash => h ← pull (arr 32); mret (FHash h)
  | KU64 => n ← pull u64; mret (FU64 n)
  | KU16 => n ← pull u16; mret (FU16 n)
  | KOutPoint => o ← pull out_point; mret (FOutPoint o)
  end.

(** A derived struct encoding: the fields one after the other. *)
Fixpoint fields_bytes (fs : list Field) : bytes :=
  match fs with [] => [] | f :: fs => field_bytes f ++ fields_bytes fs end.
Fixpoint read_fields_of (ks : list FieldKind) : Reader (list Field) :=
  match ks with
  | [] => mret []
  | k :: ks => f ← read_field k; fs ← read_fields_of ks; mret (f :: fs)
  end.

(** The stored key: the table's byte, then the encoded key.  A query prefix likewise. *)
Definition query_bytes (p : DbKeyPrefix.t) (q : list Field) : bytes := DbKeyPrefix.byte p :: fields_bytes q.
Definition key_bytes (p : DbKeyPrefix.t) (k : K p) : bytes := query_bytes p (key_fields p k).

(** ** The typed operations of a transaction

    As fedimint-core documents them; [None] is its panic on a row it cannot decode. *)

Definition get_value (p : DbKeyPrefix.t) (k : K p) (s : Store) : option (option (V p)) :=
  match s !! key_bytes p k with
  | None => Some None
  | Some v => Some <$> decode_whole (pull (row_codec p)) v
  end.

Definition insert_entry (p : DbKeyPrefix.t) (k : K p) (v : V p) (s : Store) : Store :=
  <[key_bytes p k := put (row_codec p) v]> s.

Definition remove_entry (p : DbKeyPrefix.t) (k : K p) (s : Store) : Store := delete (key_bytes p k) s.

Definition decode_row (p : DbKeyPrefix.t) (row : bytes * bytes) : option (K p * V p) :=
  fs ← decode_whole (read_fields_of (fields (decl p))) (tail row.1);
  k ← key_value p fs;
  v ← decode_whole (pull (row_codec p)) row.2;
  Some (k, v).

Definition find_by_prefix (p : DbKeyPrefix.t) (q : list Field) (s : Store) : option (list (K p * V p)) :=
  mapM (decode_row p) (raw_find_by_prefix (query_bytes p q) s).

Definition remove_by_prefix (p : DbKeyPrefix.t) (q : list Field) (s : Store) : Store :=
  raw_remove_by_prefix (query_bytes p q) s.
End store.

(** ** Well-typed keys *)

Definition field_ok (f : Field) : Prop :=
  match f with
  | FPeer p => is_u16 p
  | FAddress a => is_array 20 a
  | FHash h => is_array 32 h
  | FU64 n => is_u64 n
  | FU16 n => is_u16 n
  | FOutPoint o => is_out_point o
  end.

Definition key_ok (p : DbKeyPrefix.t) (k : K p) : Prop := Forall field_ok (key_fields p k).

Section keys.
Context `{CC : CoreCodec} `{!CoreCodecOk purpose_ok} `{KC : KeyCodec} `{!KeyCodecOk}.

Lemma reads_field f : field_ok f -> reads_back (read_field (kind f)) (field_bytes f) f.
Proof. destruct f; intros Hf; (eapply reads_last; [by apply reads_codec|apply reads_ret]). Qed.

Lemma reads_fields fs :
  Forall field_ok fs -> reads_back (read_fields_of (kind <$> fs)) (fields_bytes fs) fs.
Proof.
  induction 1 as [|f fs Hf _ IH]; [apply reads_ret|]. simpl.
  eapply reads_bind; [by apply reads_field|]. eapply reads_last; [exact IH|apply reads_ret].
Qed.

(** Fields of one kind in front of two byte strings that agree are the same field. *)
Lemma field_bytes_inj f g r r' :
  field_ok f -> field_ok g -> kind f = kind g -> field_bytes f ++ r = field_bytes g ++ r' ->
  f = g /\ r = r'.
Proof.
  intros Hf Hg Hk E. pose proof (reads_field f Hf r) as Df. pose proof (reads_field g Hg r') as Dg.
  rewrite E, Hk, Dg in Df. by simplify_eq.
Qed.

Lemma fields_bytes_prefix qs fs r :
  Forall field_ok qs -> Forall field_ok fs -> (kind <$> qs) `prefix_of` (kind <$> fs) ->
  fields_bytes fs = fields_bytes qs ++ r -> qs `prefix_of` fs.
Proof.
  intros Hq. revert fs. induction Hq as [|q qs Hok _ IH]; intros fs Hfs Hk E; [apply prefix_nil|].
  destruct Hfs as [|f fs Hf Hfs]; [by destruct Hk|]. simpl in *.
  apply prefix_cons_inv_1 in Hk as Hk1. apply prefix_cons_inv_2 in Hk.
  rewrite <- app_assoc in E. apply field_bytes_inj in E as [-> E]; [|done..].
  apply prefix_cons. by apply IH.
Qed.

Lemma fields_bytes_app qs fs : fields_bytes (qs ++ fs) = fields_bytes qs ++ fields_bytes fs.
Proof. induction qs as [|q qs IH]; [done|]. simpl. by rewrite IH, app_assoc. Qed.

(** The stored rows of a query are the rows of its table whose key starts with its fields. *)
Lemma has_query_prefix p q qs (k : K q) :
  Forall field_ok qs -> key_ok q k -> (kind <$> qs) `prefix_of` fields (decl p) ->
  has_prefix (query_bytes p qs) (key_bytes q k) <-> p = q /\ qs `prefix_of` key_fields q k.
Proof.
  intros Hqs Hk Hkinds. unfold has_prefix, key_bytes, query_bytes. simpl. split.
  - intros [=Hb E]. apply (inj DbKeyPrefix.byte) in Hb as ->. split; [done|].
    apply (fields_bytes_prefix _ _ (drop (length (fields_bytes qs)) (fields_bytes (key_fields p k))));
      [done..|by rewrite key_fields_kinds|]. by rewrite <- E, take_drop at 1.
  - intros [-> [fs ->]]. by rewrite fields_bytes_app, take_app_length.
Qed.

Lemma key_bytes_table p q (k : K p) (k' : K q) : key_bytes p k = key_bytes q k' -> p = q.
Proof. intros [=Hb _]. by apply (inj DbKeyPrefix.byte). Qed.

Lemma key_bytes_inj p (k k' : K p) : key_ok p k -> key_ok p k' -> key_bytes p k = key_bytes p k' -> k = k'.
Proof.
  intros Hk Hk' [=E]. pose proof (reads_fields _ Hk []) as D. pose proof (reads_fields _ Hk' []) as D'.
  rewrite !app_nil_r, !key_fields_kinds in *. rewrite E, D' in D. injection D as D.
  apply (f_equal (key_value p)) in D. rewrite !key_value_fields in D. congruence.
Qed.
End keys.

(** ** The store behind the tables *)

Section refinement.
Context `{CC : CoreCodec} `{!CoreCodecOk purpose_ok} `{KC : KeyCodec} `{!KeyCodecOk}.
Context `{RC : RowCodec} {value_ok : forall p, V p -> Prop} `{!RowCodecOk value_ok}.

(** The rows of the store are the rows of the tables and nothing else. *)
Record stored (d : UsdtDb) (s : Store) : Prop := {
  st_rows p k : key_ok p k -> s !! key_bytes p k = put (row_codec p) <$> table p d !! k;
  st_only key v : s !! key = Some v -> exists p k, key_ok p k /\ key = key_bytes p k;
  st_typed p k v : table p d !! k = Some v -> key_ok p k /\ value_ok p v;
}.

Lemma stored_get d s p k : stored d s -> key_ok p k -> get_value p k s = Some (table p d !! k).
Proof.
  intros Hst Hk. unfold get_value. rewrite (st_rows _ _ Hst) by done.
  destruct (table p d !! k) as [v|] eqn:E; [|done]. simpl.
  rewrite (reads_whole _ _ v); [done|]. apply reads_codec. by eapply st_typed.
Qed.

Lemma stored_insert d s p k v :
  stored d s -> key_ok p k -> value_ok p v ->
  stored (set_table p (<[k := v]> (table p d)) d) (insert_entry p k v s).
Proof.
  intros Hst Hk Hv. unfold insert_entry. split.
  - intros q k' Hk'. destruct (decide (p = q)) as [<-|Hne].
    + rewrite table_set_same. destruct (decide (k = k')) as [<-|Hne]; [by rewrite !lookup_insert_eq|].
      rewrite !lookup_insert_ne; [by apply Hst|done|]. by intros ->%key_bytes_inj.
    + rewrite table_set_other, lookup_insert_ne; [by apply Hst| |done]. by intros E%key_bytes_table.
  - intros key v' [[<- _]|[_ E]]%lookup_insert_Some; [eauto|by eapply st_only].
  - intros q k' v'. destruct (decide (p = q)) as [<-|Hne].
    + rewrite table_set_same. intros [[<- <-]|[_ E]]%lookup_insert_Some; [done|by eapply st_typed].
    + rewrite table_set_other by done. by eapply st_typed.
Qed.

Lemma stored_remove d s p k :
  stored d s -> key_ok p k -> stored (set_table p (delete k (table p d)) d) (remove_entry p k s).
Proof.
  intros Hst Hk. unfold remove_entry. split.
  - intros q k' Hk'. destruct (decide (p = q)) as [<-|Hne].
    + rewrite table_set_same. destruct (decide (k = k')) as [<-|Hne]; [by rewrite !lookup_delete_eq|].
      rewrite !lookup_delete_ne; [by apply Hst|done|]. by intros ->%key_bytes_inj.
    + rewrite table_set_other, lookup_delete_ne; [by apply Hst| |done]. by intros E%key_bytes_table.
  - intros key v' [_ E]%lookup_delete_Some. by eapply st_only.
  - intros q k' v'. destruct (decide (p = q)) as [<-|Hne].
    + rewrite table_set_same. intros [_ E]%lookup_delete_Some. by eapply st_typed.
    + rewrite table_set_other by done. by eapply st_typed.
Qed.

(** A query of a table: leading fields that one of its lookups declares. *)
Definition query_ok (p : DbKeyPrefix.t) (q : list Field) : Prop :=
  (kind <$> q) ∈ query_prefixes (decl p) /\ Forall field_ok q.

Lemma query_kinds p q : query_ok p q -> (kind <$> q) `prefix_of` fields (decl p).
Proof.
  intros [Hq _]. revert Hq. generalize (kind <$> q) as ks. apply Forall_forall.
  refine (bool_decide_unpack _ _). by destruct p.
Qed.

(** The rows of a query, key by key. *)
Lemma query_rows d s p q key v :
  stored d s -> query_ok p q ->
  (key, v) ∈ raw_find_by_prefix (query_bytes p q) s <->
  exists k a, key = key_bytes p k /\ v = put (row_codec p) a /\ table p d !! k = Some a /\
    q `prefix_of` key_fields p k.
Proof.
  intros Hst Hq. unfold raw_find_by_prefix. rewrite list_elem_of_filter, elem_of_map_to_list. simpl. split.
  - intros [Hp E]. destruct (st_only _ _ Hst _ _ E) as (p' & k & Hk & ->).
    apply has_query_prefix in Hp as [<- Hp]; [|by apply Hq|done|by apply query_kinds].
    rewrite (st_rows _ _ Hst) in E by done. apply fmap_Some in E as (a & E & ->). by exists k, a.
  - intros (k & a & -> & -> & E & Hp). destruct (st_typed _ _ Hst _ _ _ E) as [Hk _]. split.
    + apply has_query_prefix; [by apply Hq|done|by apply query_kinds|done].
    + by rewrite (st_rows _ _ Hst), E by done.
Qed.

Lemma decode_stored_row p k a :
  key_ok p k -> value_ok p a -> decode_row p (key_bytes p k, put (row_codec p) a) = Some (k, a).
Proof.
  intros Hk Ha. unfold decode_row. simpl.
  rewrite <- (key_fields_kinds p k), (reads_whole _ _ (key_fields p k)) by by apply reads_fields.
  simpl. rewrite key_value_fields. simpl. rewrite (reads_whole _ _ a); [done|by apply reads_codec].
Qed.

Definition encode_row (p : DbKeyPrefix.t) (row : K p * V p) : bytes * bytes :=
  (key_bytes p row.1, put (row_codec p) row.2).

Lemma decode_rows d s p (P : K p * V p -> Prop) rows :
  stored d s -> (forall row, P row -> table p d !! row.1 = Some row.2) ->
  (forall r, r ∈ rows -> exists row, P row /\ r = encode_row p row) ->
  exists l, mapM (decode_row p) rows = Some l /\ rows = encode_row p <$> l /\ Forall P l.
Proof.
  intros Hst HP. induction rows as [|r rows IH]; intros Hrows; [by exists []|].
  destruct (Hrows r) as ([k v] & Hr & ->); [by left|].
  destruct IH as (l & El & -> & Hl); [intros r' Hr'; apply Hrows; by right|].
  destruct (st_typed _ _ Hst _ _ _ (HP _ Hr)) as [Hk Hv]. exists ((k, v) :: l).
  split; [|split; [done|by constructor]]. cbn [mapM].
  change (encode_row p (k, v)) with (key_bytes p k, put (row_codec p) v).
  rewrite decode_stored_row by done. cbn [mbind option_bind].
  match goal with |- match ?x with _ => _ end = _ => change x with (mapM (decode_row p) (encode_row p <$> l)) end.
  by rewrite El.
Qed.

Lemma stored_find d s p q :
  stored d s -> query_ok p q ->
  exists l, find_by_prefix p q s = Some l /\ NoDup l.*1 /\
    forall k v, (k, v) ∈ l <-> table p d !! k = Some v /\ q `prefix_of` key_fields p k.
Proof.
  intros Hst Hq. set (P := fun row => table p d !! row.1 = Some row.2 /\ q `prefix_of` key_fields p row.1).
  destruct (decode_rows d s p P (raw_find_by_prefix (query_bytes p q) s)) as (l & El & Erows & Hl); [done|by intros ? []| |].
  { intros [key v] Hr. apply (query_rows d) in Hr as (k & a & -> & -> & E & Hp); [|done..]. by exists (k, a). }
  rewrite Forall_forall in Hl. exists l. split; [exact El|]. split.
  - apply (NoDup_fmap_1 (key_bytes p)). replace (key_bytes p <$> l.*1) with (encode_row p <$> l).*1
      by (by rewrite <- !list_fmap_compose). rewrite <- Erows. apply find_by_prefix_keys.
  - intros k v. split; [by intros Hx%Hl|]. intros [E Hp].
    assert (Hr : encode_row p (k, v) ∈ encode_row p <$> l) by (rewrite <- Erows; apply (query_rows d); eauto 10).
    apply list_elem_of_fmap in Hr as ([k' v'] & Ek%(f_equal fst) & Hin). destruct (Hl _ Hin) as [E' _]. simpl in *.
    apply key_bytes_inj in Ek as <-; [|by eapply st_typed..]. congruence.
Qed.

Lemma stored_remove_by_prefix d s p q :
  stored d s -> query_ok p q ->
  stored (set_table p (filter (fun row => ~ q `prefix_of` key_fields p row.1) (table p d)) d) (remove_by_prefix p q s).
Proof.
  intros Hst Hq. unfold remove_by_prefix. pose proof (query_kinds _ _ Hq) as Hkinds. destruct Hq as [_ Hq]. split.
  - intros p' k Hk. rewrite remove_by_prefix_lookup.
    pose proof (has_query_prefix p p' q k Hq Hk Hkinds) as Hp. destruct (decide (p = p')) as [<-|Hne].
    + rewrite table_set_same, map_lookup_filter. rewrite (st_rows _ _ Hst) by done.
      destruct (table p d !! k) as [v|]; simpl; [|by case_decide].
      case_decide; case_guard; simpl in *; tauto || done.
    + rewrite table_set_other by done. rewrite decide_False by tauto. by apply Hst.
  - intros key v. rewrite remove_by_prefix_lookup. case_decide; [done|]. by apply Hst.
  - intros p' k v. destruct (decide (p = p')) as [<-|Hne].
    + rewrite table_set_same, map_lookup_filter_Some. intros [E _]. by eapply st_typed.
    + rewrite table_set_other by done. by eapply st_typed.
Qed.

(** C12: The key-value store implements the record of tables: on a store that holds exactly
    the rows of the tables, a typed read is the table's lookup, a write or a removal is
    the table's and touches no other table, a query lists exactly the rows of its table
    whose key starts with the query's fields, each once and without failing to decode
    one, and clearing a prefix removes exactly those rows. *)
Theorem store_implements_tables d s p :
  stored d s ->
  (forall k, key_ok p k ->
    get_value p k s = Some (table p d !! k) /\
    stored (set_table p (delete k (table p d)) d) (remove_entry p k s) /\
    (forall v, value_ok p v -> stored (set_table p (<[k := v]> (table p d)) d) (insert_entry p k v s))) /\
  (forall q, query_ok p q ->
    (exists l, find_by_prefix p q s = Some l /\ NoDup l.*1 /\
      forall k v, (k, v) ∈ l <-> table p d !! k = Some v /\ q `prefix_of` key_fields p k) /\
    stored (set_table p (filter (fun row => ~ q `prefix_of` key_fields p row.1) (table p d)) d)
      (remove_by_prefix p q s)).
Proof.
  intros Hst. split.
  - intros k Hk. split; [by apply stored_get|]. split; [by apply stored_remove|].
    intros v Hv. by apply stored_insert.
  - intros q Hq. split; [by apply stored_find|by apply stored_remove_by_prefix].
Qed.
End refinement.

(** ** A stored round chunk *)

Definition demo_key_codec : KeyCodec := {|
  peer_id := fixed 2 id id;
  u16 := fixed 2 id id;
  out_point := fixed 40 (fun o : OutPoint => o.1 * 2 ^ 64 + o.2) (fun z => (z / 2 ^ 64, z mod 2 ^ 64));
|}.

#[export] Instance demo_key_codec_ok : @KeyCodecOk demo_key_codec.
Proof.
  split; apply fixed_ok.
  - intros p Hp. unfold is_u16, U16_MAX in Hp. simpl. change (256 ^ 2) with 65536. split; [lia|done].
  - intros p Hp. unfold is_u16, U16_MAX in Hp. simpl. change (256 ^ 2) with 65536. split; [lia|done].
  - intros [txid i] [Ht Hi]. unfold is_u64, U64_MAX in Hi. simpl in *.
    change (256 ^ 40) with (2 ^ 256 * 2 ^ 64). split; [nia|].
    rewrite Z.div_add_l, Z.div_small, Z.add_0_r by lia.
    by rewrite Z.add_comm, Z.mod_add, Z.mod_small by lia.
Qed.

(** One value per table, enough for a concrete store. *)
Definition demo_value (p : DbKeyPrefix.t) : V p :=
  match p with
  | DbKeyPrefix.BlockCountVote => 10
  | DbKeyPrefix.FeeVote => mkStoredFeeVote (mkFeeVote 1 1) 0
  | DbKeyPrefix.DepositRecord => mkDepositRecord (mkPublicKey 5) 0 0 0 0 0 0
  | DbKeyPrefix.SigningSession => mkSigningSession (UserOp []) [] [0] 0 InProgress 0 0
  | DbKeyPrefix.MpcRoundChunk => mkMpcRoundChunk 1 [7]
  | DbKeyPrefix.PendingUserOp => mkPendingUserOp (demo_user_op 0) demo_purpose 0
  | DbKeyPrefix.SubmittedUserOp => mkSubmittedUserOp (mkSignedUserOp (demo_user_op 0) []) demo_purpose 0 false
  | DbKeyPrefix.PoolState => mkPoolState [] 0 0 0
  | DbKeyPrefix.UserOpConfirmedVote => mkUserOpConfirmedObservation true 0 [] 0 0
  | DbKeyPrefix.UnclaimedWithdrawal => mkUsdtWithdrawalV0 [] 0 0 0 (mkPublicKey 5)
  | DbKeyPrefix.WithdrawalState => Queued
  | DbKeyPrefix.BootstrapVote => mkBootstrapObservation true true true true true
  | DbKeyPrefix.HasEverBeenReady => tt
  | DbKeyPrefix.WithdrawalBatchCap => 4
  | DbKeyPrefix.Refund => mkRefund 0 (mkPublicKey 5) RevertsInIsolation
  | DbKeyPrefix.WithdrawalIncurredFee => 0
  | DbKeyPrefix.BlockHashRing => []
  | DbKeyPrefix.BlockHashVote => mkBlockHashObservation 0 []
  | DbKeyPrefix.RecoverResidualVote => 0
  | DbKeyPrefix.WithdrawFeesVote => mkWithdrawFeesVote [] 1
  end.

Definition demo_row_codec : RowCodec := fun p =>
  {| encode _ := []; decode bs := Some (demo_value p, bs) |}.

#[export] Instance demo_row_codec_ok : @RowCodecOk demo_row_codec (fun p v => v = demo_value p).
Proof. intros p v rest ->. done. Qed.

Section store_witness.
#[local] Existing Instance demo_codec.
#[local] Existing Instance demo_key_codec.
#[local] Existing Instance demo_row_codec.

Lemma stored_empty : stored (value_ok := fun p v => v = demo_value p) empty_db ∅.
Proof.
  split.
  - intros p k _. rewrite lookup_empty. destruct p; simpl; by rewrite lookup_empty.
  - intros key v E. by rewrite lookup_empty in E.
  - intros p k v E. destruct p; simpl in *; by rewrite lookup_empty in E.
Qed.

Definition demo_chunk_key : K DbKeyPrefix.MpcRoundChunk := (replicate 32 1, 2, 3, 0).

Lemma demo_chunk_key_ok : key_ok DbKeyPrefix.MpcRoundChunk demo_chunk_key.
Proof.
  assert (Ha : is_array 32 (replicate 32 1)) by (split; [done|apply Forall_replicate; lia]).
  repeat (apply Forall_cons; split); try done; by split.
Qed.

Lemma demo_stored :
  stored (value_ok := fun p v => v = demo_value p)
    (set_chunks (fun _ => {[demo_chunk_key := mkMpcRoundChunk 1 [7]]}) empty_db)
    (insert_entry DbKeyPrefix.MpcRoundChunk demo_chunk_key (mkMpcRoundChunk 1 [7]) ∅).
Proof.
  apply (stored_insert empty_db ∅ DbKeyPrefix.MpcRoundChunk demo_chunk_key (mkMpcRoundChunk 1 [7]));
    [apply stored_empty|apply demo_chunk_key_ok|done].
Qed.

Lemma store_implements_tables_witness :
  exists l, find_by_prefix DbKeyPrefix.MpcRoundChunk [FHash (replicate 32 1); FU16 2]
    (insert_entry DbKeyPrefix.MpcRoundChunk demo_chunk_key (mkMpcRoundChunk 1 [7]) ∅) = Some l /\
    (demo_chunk_key, mkMpcRoundChunk 1 [7]) ∈ l.
Proof.
  destruct (store_implements_tables _ _ DbKeyPrefix.MpcRoundChunk demo_stored) as [_ Hq].
  destruct (Hq [FHash (replicate 32 1); FU16 2]) as [(l & El & _ & Hl) _].
  - split; [by do 2 right; left|]. pose proof demo_chunk_key_ok as Hk.
    apply Forall_cons in Hk as [Hh Hk]. apply Forall_cons in Hk as [Hr _].
    by repeat (apply Forall_cons; split).
  - exists l. split; [exact El|]. apply Hl. split; [apply lookup_singleton_eq|].
    by exists [FPeer 3; FU16 0].
Defined.
End store_witness.
