(* ===== verification/UsdtDump.v ===== *)
(** * Dumping the USDT server database

    [UsdtInit::dump_database] of [modules/usdt/fedimint-usdt-server/src/lib.rs]: the
    tables an operator asks for by name, each under its title. *)

From S2P Require Import Prelude FedimintCore UsdtTypes UsdtEvm UsdtUserOp UsdtSigning UsdtDb UsdtCodec.
From S2P Require Import UsdtMigrations UsdtDbKeys.
From stdpp Require Import strings.
#[local] Open Scope string_scope.

(** [Display for DbKeyPrefix]: the variant's name. *)
Definition prefix_name (p : DbKeyPrefix.t) : string :=
  match p with
  | DbKeyPrefix.BlockCountVote => "BlockCountVote"
  | DbKeyPrefix.FeeVote => "FeeVote"
  | DbKeyPrefix.DepositRecord => "DepositRecord"
  | DbKeyPrefix.SigningSession => "SigningSession"
  | DbKeyPrefix.MpcRoundChunk => "MpcRoundChunk"
  | DbKeyPrefix.PendingUserOp => "PendingUserOp"
  | DbKeyPrefix.SubmittedUserOp => "SubmittedUserOp"
  | DbKeyPrefix.PoolState => "PoolState"
  | DbKeyPrefix.UserOpConfirmedVote => "UserOpConfirmedVote"
  | DbKeyPrefix.UnclaimedWithdrawal => "UnclaimedWithdrawal"
  | DbKeyPrefix.WithdrawalState => "WithdrawalState"
  | DbKeyPrefix.BootstrapVote => "BootstrapVote"
  | DbKeyPrefix.HasEverBeenReady => "HasEverBeenReady"
  | DbKeyPrefix.WithdrawalBatchCap => "WithdrawalBatchCap"
  | DbKeyPrefix.Refund => "Refund"
  | DbKeyPrefix.WithdrawalIncurredFee => "WithdrawalIncurredFee"
  | DbKeyPrefix.BlockHashRing => "BlockHashRing"
  | DbKeyPrefix.BlockHashVote => "BlockHashVote"
  | DbKeyPrefix.RecoverResidualVote => "RecoverResidualVote"
  | DbKeyPrefix.WithdrawFeesVote => "WithdrawFeesVote"
  end.

(** [str::to_lowercase], on the ASCII names above. *)
Definition lower_ascii (a : Ascii.ascii) : Ascii.ascii :=
  let n := Ascii.nat_of_ascii a in
  if (65 <=? n)%nat && (n <=? 90)%nat then Ascii.ascii_of_nat (n + 32) else a.
Fixpoint to_lowercase (s : string) : string :=
  match s with EmptyString => EmptyString | String a s => String (lower_ascii a) (to_lowercase s) end.

(** The title each arm of the match pushes its rows under. *)
Definition dump_title (p : DbKeyPrefix.t) : string :=
  match p with
  | DbKeyPrefix.BlockCountVote => "Block Count Votes"
  | DbKeyPrefix.FeeVote => "Fee Votes"
  | DbKeyPrefix.DepositRecord => "Deposit Records"
  | DbKeyPrefix.SigningSession => "Signing Sessions"
  | DbKeyPrefix.MpcRoundChunk => "MPC Round Chunks"
  | DbKeyPrefix.PendingUserOp => "Pending UserOps"
  | DbKeyPrefix.SubmittedUserOp => "Submitted UserOps"
  | DbKeyPrefix.PoolState => "Pool State"
  | DbKeyPrefix.UserOpConfirmedVote => "UserOp Confirmed Votes"
  | DbKeyPrefix.UnclaimedWithdrawal => "Unclaimed Withdrawals"
  | DbKeyPrefix.WithdrawalState => "Withdrawal States"
  | DbKeyPrefix.BootstrapVote => "Bootstrap Votes"
  | DbKeyPrefix.HasEverBeenReady => "Has Ever Been Ready"
  | DbKeyPrefix.WithdrawalBatchCap => "Withdrawal Batch Caps"
  | DbKeyPrefix.Refund => "Withdrawal Refunds"
  | DbKeyPrefix.WithdrawalIncurredFee => "Withdrawal Incurred Fees"
  | DbKeyPrefix.BlockHashRing => "Block Hash Ring"
  | DbKeyPrefix.BlockHashVote => "Block Hash Votes"
  | DbKeyPrefix.RecoverResidualVote => "Recover Residual Votes"
  | DbKeyPrefix.WithdrawFeesVote => "Withdraw Fees Votes"
  end.

#[export] Instance dump_title_inj : Inj (=) (=) dump_title.
Proof. intros p q. by destruct p, q. Qed.

(** The rows pushed under a title, with the table they are from. *)
Abbreviation DumpedTable := {p : DbKeyPrefix.t & list (K p * V p)}.

Section dump.
Context `{CC : CoreCodec} `{KC : KeyCodec} `{RC : RowCodec}.

Definition wanted (prefix_names : list string) (p : DbKeyPrefix.t) : bool :=
  bool_decide (prefix_names = []) || bool_decide (to_lowercase (prefix_name p) ∈ prefix_names).

(** [push_db_pair_items!]: the rows of the prefix, inserted under the title. *)
Definition push_table (s : Store) (items : gmap string DumpedTable) (p : DbKeyPrefix.t)
    : option (gmap string DumpedTable) :=
  match find_by_prefix p [] s with
  | Some rows => Some (<[dump_title p := existT p rows]> items)
  | None => None
  end.

Fixpoint push_tables (s : Store) (tables : list DbKeyPrefix.t) (items : gmap string DumpedTable)
    : option (gmap string DumpedTable) :=
  match tables with
  | [] => Some items
  | p :: tables =>
      match push_table s items p with Some items => push_tables s tables items | None => None end
  end.

Definition dump_database (prefix_names : list string) (s : Store) : option (gmap string DumpedTable) :=
  push_tables s (filter (fun p => Is_true (wanted prefix_names p)) DbKeyPrefix.iter) ∅.
End dump.

Section dump_correct.
Context `{CC : CoreCodec} `{!CoreCodecOk purpose_ok} `{KC : KeyCodec} `{!KeyCodecOk}.
Context `{RC : RowCodec} {value_ok : forall p, V p -> Prop} `{!RowCodecOk value_ok}.

Lemma whole_table d s p :
  stored (value_ok := value_ok) d s ->
  exists rows, find_by_prefix p [] s = Some rows /\ NoDup rows.*1 /\
    forall k v, (k, v) ∈ rows <-> table p d !! k = Some v.
Proof.
  intros Hst. destruct (stored_find d s p []) as (rows & E & Hnd & Hrows); [done| |].
  { split; [destruct p; by left|done]. }
  exists rows. split; [done|]. split; [done|]. intros k v. rewrite Hrows.
  split; [by intros []|]. intros Ek. split; [done|apply prefix_nil].
Qed.

Definition dumped (d : UsdtDb) (p : DbKeyPrefix.t) (items : gmap string DumpedTable) : Prop :=
  exists rows, items !! dump_title p = Some (existT p rows) /\ NoDup rows.*1 /\
    forall k v, (k, v) ∈ rows <-> table p d !! k = Some v.

Lemma push_tables_dump d s tables items :
  stored (value_ok := value_ok) d s -> NoDup tables ->
  exists items', push_tables s tables items = Some items' /\
    (forall p, p ∈ tables -> dumped d p items') /\
    forall p, p ∉ tables -> items' !! dump_title p = items !! dump_title p.
Proof.
  intros Hst. revert items. induction tables as [|p tables IH]; intros items Hnd.
  { exists items. split; [done|]. split; [|done]. by intros p ?%not_elem_of_nil. }
  apply NoDup_cons in Hnd as [Hp Hnd]. destruct (whole_table d s p Hst) as (rows & E & Hrows).
  simpl. unfold push_table. rewrite E. simpl.
  destruct (IH (<[dump_title p := existT p rows]> items) Hnd) as (items' & -> & Hin & Hout).
  exists items'. split; [done|]. split.
  - intros q [->|Hq]%elem_of_cons; [|by apply Hin]. exists rows. split; [|done].
    by rewrite Hout, lookup_insert_eq.
  - intros q [Hne Hq]%not_elem_of_cons. rewrite Hout by done. apply lookup_insert_ne.
    by intros Ht%(inj dump_title).
Qed.

(** A dump is complete and precise: it never fails on a stored database; every table
    asked for by its lower-case name, or every table when no name is given, appears
    under its own title with exactly its rows, each once; no other title appears. *)
Theorem dump_database_complete d s prefix_names :
  stored (value_ok := value_ok) d s ->
  exists items, dump_database prefix_names s = Some items /\
    forall p, if wanted prefix_names p then dumped d p items else items !! dump_title p = None.
Proof.
  intros Hst. unfold dump_database.
  destruct (push_tables_dump d s (filter (fun p => Is_true (wanted prefix_names p)) DbKeyPrefix.iter) ∅)
    as (items & E & Hin & Hout); [done| |].
  { apply NoDup_filter. refine (bool_decide_unpack _ _). vm_compute. exact I. }
  exists items. split; [exact E|]. intros p. destruct (wanted prefix_names p) eqn:Hw.
  - apply Hin, list_elem_of_filter. rewrite Hw. split; [done|apply DbKeyPrefix.elem_of_iter].
  - rewrite Hout; [apply lookup_empty|]. intros [Hp _]%list_elem_of_filter. by rewrite Hw in Hp.
Qed.
End dump_correct.

Section dump_witness.
#[local] Existing Instance demo_codec.
#[local] Existing Instance demo_key_codec.
#[local] Existing Instance demo_row_codec.

Lemma dump_database_complete_witness :
  exists items, dump_database ["mpcroundchunk"]
    (insert_entry DbKeyPrefix.MpcRoundChunk demo_chunk_key (mkMpcRoundChunk 1 [7%Z]) ∅) = Some items /\
    is_Some (items !! "MPC Round Chunks") /\ items !! "Fee Votes" = None.
Proof.
  destruct (dump_database_complete _ _ ["mpcroundchunk"] demo_stored) as (items & E & Hd).
  exists items. split; [exact E|]. split.
  - destruct (Hd DbKeyPrefix.MpcRoundChunk) as (rows & Er & _). eauto.
  - exact (Hd DbKeyPrefix.FeeVote).
Defined.
End dump_witness.
