(* ===== verification/UsdtServer.v ===== *)
(** * USDT server: votes, quotes and triggers

    [modules/usdt/fedimint-usdt-server/src/lib.rs], first part: the aggregates
    over the guardians' votes, the block-hash ring, the signing sessions, and the
    triggers that enqueue a user operation (sweep, withdrawal batch, gas
    recovery, fee payout).  A function of the source that only writes its
    transaction is a function from tables to tables. *)

From S2P Require Import Prelude FedimintCore UsdtTypes UsdtEvm UsdtUserOp UsdtSigning UsdtProof UsdtDb.

(** The consensus configuration of the module, and the instance: [network]
    numbers the variants of [Network], [num_peers] is fedimint-core's,
    [in_test_env] the answer of [is_running_in_test_env]. *)
Record UsdtConfigConsensus := mkUsdtConfigConsensus {
  group_public_key : PublicKey;
  usdt_contract : EvmAddress;
  chain_id : Z;
  confirmation_depth : Z;
  entry_point : EvmAddress;
  account_factory : EvmAddress;
  simple_account_impl : EvmAddress;
  residual_recovery_recipient : EvmAddress;
  config_mpc_encryption_pks : gmap PeerId PublicKey;
  config_threshold : Z;
  network : Z;
  broadcaster_min_balance_wei : Z;
  eth_usd_price_feed : EvmAddress;
  config_max_staleness_secs : Z;
}.

Record Usdt := mkUsdt {
  cfg : UsdtConfigConsensus;
  num_peers : NumPeers;
  our_peer_id : PeerId;
  in_test_env : bool;
}.

Definition FEE_QUOTE_VALID_BLOCKS : Z := 50.
Definition FEE_VOTE_TTL_BLOCKS : Z := 50.
Definition FEE_VOTE_REFRESH_BLOCKS : Z := 20.
Definition DEPOSIT_VOTE_MAX_AGE_BLOCKS : Z := 100.
Definition RESIDUAL_RECOVERY_MIN_WEI : Z := 2000000000000000.
Definition RESIDUAL_RECOVERY_NEED_MARGIN_PERCENT : Z := 20.
Definition SWEEP_MAX_FEE_PER_GAS_WEI : Z := 200000000000.
Definition BATCH_MAX_ITEMS : nat := 20.

Definition timeout_blocks (self : Usdt) : Z := if in_test_env self then 2 else 50.
Definition submitted_op_timeout_blocks (self : Usdt) : Z := if in_test_env self then 2 else 25.
Definition batch_interval_blocks (self : Usdt) : Z := if in_test_env self then 3 else 2.

(** ** Aggregates over votes *)

Definition values {K V} `{Countable K} (m : gmap K V) : list V := (map_to_list m).*2.

(** The upper median of a list, [l[l.len() / 2]] after sorting. *)
Definition upper_median (l : list Z) : Z := default 0 (merge_sort Z.le l !! (length l / 2)%nat).

(** Missing votes count as zero. *)
Definition consensus_block_count (self : Usdt) (d : UsdtDb) : Z :=
  let peer_count := total (num_peers self) in
  let counts := values (block_count_votes d) in
  let counts := counts ++ replicate (peer_count - length counts) 0 in
  default 0 (merge_sort Z.le counts !! (peer_count / 2)%nat).

Definition fee_vote_median (self : Usdt) (d : UsdtDb) : option FeeVote :=
  let current_block := consensus_block_count self d in
  let votes := omap (fun stored =>
      let age := saturating_sub current_block (recorded_block stored) in
      if age <=? FEE_VOTE_TTL_BLOCKS then Some (sfv_vote stored) else None)
    (values (fee_votes d)) in
  if (length votes <? threshold (num_peers self))%nat then None
  else
    let max_fee := max_fee_per_gas_wei <$> votes in
    let rate := usdt_per_eth_e6 <$> votes in
    Some (mkFeeVote (upper_median max_fee) (upper_median rate)).

Record BootstrapCounts := mkBootstrapCounts {
  n_entry_point_ok : nat;
  n_factory_ok : nat;
  n_impl_ok : nat;
  n_funded : nat;
  n_rpc_healthy : nat;
}.

Definition count_if {A} (f : A -> bool) (l : list A) : nat :=
  length (filter (fun x => Is_true (f x)) l).

Definition bootstrap_counts (d : UsdtDb) : BootstrapCounts :=
  let votes := values (bootstrap_votes d) in
  mkBootstrapCounts (count_if entry_point_ok votes) (count_if factory_ok votes)
    (count_if impl_ok votes) (count_if broadcaster_funded votes) (count_if rpc_healthy votes).

Definition bootstrap_ready (self : Usdt) (d : UsdtDb) : bool :=
  let counts := bootstrap_counts d in
  let t := threshold (num_peers self) in
  ((t <=? n_entry_point_ok counts) && (t <=? n_factory_ok counts) && (t <=? n_impl_ok counts)
   && (t <=? n_funded counts) && (t <=? n_rpc_healthy counts))%nat.

Definition bootstrap_state (self : Usdt) (d : UsdtDb) : BootstrapState :=
  if bootstrap_ready self d then Ready
  else if has_ever_been_ready d then Degraded
  else AwaitingInfra.

(** ** Block-hash ring *)

Definition write_block_hash_ring (height : Z) (hash : Hash) (d : UsdtDb) : UsdtDb :=
  let d := set_ring (insert height hash) d in
  let keys := (map_to_list (ring d)).*1 in
  foldl (fun d key =>
    if saturating_add_u64 key BLOCK_HASH_RING_LEN <=? height
    then set_ring (delete key) d else d) d keys.

Definition ring_hash_at (d : UsdtDb) (height : Z) : option Hash := ring d !! height.

Definition max_opt (l : list Z) : option Z :=
  foldr (fun x acc => Some (match acc with Some y => Z.max x y | None => x end)) None l.

Definition ring_latest_height (d : UsdtDb) : option Z := max_opt (map_to_list (ring d)).*1.

(** ** Operations in flight *)

Definition is_pool_op (p : UserOpPurpose) : bool :=
  match p with Withdraw _ | WithdrawFees _ _ => true | _ => false end.

Definition is_sweep_of (account : EvmAddress) (p : UserOpPurpose) : bool :=
  match p with DeployAndSweep source => bool_decide (source = account) | _ => false end.

Definition is_recovery_of (account : EvmAddress) (p : UserOpPurpose) : bool :=
  match p with RecoverResidualOp a => bool_decide (a = account) | _ => false end.

Definition op_in_flight (f : UserOpPurpose -> bool) (d : UsdtDb) : bool :=
  existsb (fun p => f (p_purpose p)) (values (pending d))
  || existsb (fun s => f (s_purpose s)) (values (submitted d)).

Definition withdraw_batch_in_flight (d : UsdtDb) : bool := op_in_flight is_pool_op d.
Definition deploy_and_sweep_in_flight (account : EvmAddress) (d : UsdtDb) : bool :=
  op_in_flight (is_sweep_of account) d.
Definition residual_recovery_in_flight (account : EvmAddress) (d : UsdtDb) : bool :=
  op_in_flight (is_recovery_of account) d.

Definition op_known (op_hash : Hash) (d : UsdtDb) : bool :=
  bool_decide (is_Some (pending d !! op_hash)) || bool_decide (is_Some (submitted d !! op_hash)).

Section triggers.
Context `{Evm}.

Definition pool_account (self : Usdt) : EvmAddress :=
  derive_pool_account (group_public_key (cfg self)) (account_factory (cfg self))
    (simple_account_impl (cfg self)).

Definition pool_or_default (self : Usdt) (d : UsdtDb) : PoolState :=
  default (mkPoolState (pool_account self) 0 0 0) (pool_state d).

Definition op_hash_of (self : Usdt) (op : UnsignedUserOp) : Hash :=
  user_op_hash op (entry_point (cfg self)) (chain_id (cfg self)).

(** The consensus part of [start_session]; the guardian-local signing thread it
    also starts is not part of the consensus state. *)
Definition start_session (self : Usdt) (purpose : SigningPurpose) (digest : Hash) (attempt : Z)
    (d : UsdtDb) : UsdtDb :=
  let session_id := signing_session_id digest attempt in
  match sessions d !! session_id with
  | Some _ => d
  | None =>
      let signers := signer_subset (num_peers self) digest attempt in
      let last_progress_block := consensus_block_count self d in
      set_sessions (insert session_id
        (mkSigningSession purpose digest signers 0 InProgress attempt last_progress_block)) d
  end.

(** Inserts a pending operation and opens its first signing session. *)
Definition enqueue_op (self : Usdt) (op : UnsignedUserOp) (purpose : UserOpPurpose)
    (created_block : Z) (d : UsdtDb) : UsdtDb :=
  let op_hash := op_hash_of self op in
  let d := set_pending (insert op_hash (mkPendingUserOp op purpose created_block)) d in
  start_session self (UserOp op_hash) (eth_signed_message_hash op_hash) 0 d.

(** ** Sweeps *)

Definition sweep_op (self : Usdt) (account : EvmAddress) (record : DepositRecord)
    (remainder : Z) (median : FeeVote) : UnsignedUserOp :=
  build_deploy_and_sweep_userop (mkDeployAndSweepParams
    (account_factory (cfg self)) (usdt_contract (cfg self)) account
    (evm_address (group_public_key (cfg self))) (rec_claim_pk record) remainder
    (pool_account self) (rec_nonce record) (rec_nonce record =? 0) []
    (with_median_fees DEPLOY_AND_SWEEP_DEVNET (Some (max_fee_per_gas_wei median)))).

Definition maybe_trigger_sweep (self : Usdt) (account : EvmAddress) (d : UsdtDb) : UsdtDb :=
  match deposits d !! account with
  | None => d
  | Some record =>
      let remainder := saturating_sub (credited record) (swept record) in
      if remainder =? 0 then d
      else if deploy_and_sweep_in_flight account d then d
      else if residual_recovery_in_flight account d then d
      else match fee_vote_median self d with
      | None => d
      | Some median =>
          match deposit_fee_quote median with
          | None => d
          | Some sweep_fee =>
              if remainder <=? sweep_fee then d
              else
                let op := sweep_op self account record remainder median in
                if op_known (op_hash_of self op) d then d
                else enqueue_op self op (DeployAndSweep account) (consensus_block_count self d) d
          end
      end
  end.

Definition accelerate_sweeps_for_withdrawals (self : Usdt) (d : UsdtDb) : UsdtDb :=
  let records := map_to_list (deposits d) in
  foldl (fun d '(account, record) =>
    if swept record <? credited record then maybe_trigger_sweep self account d else d) d records.

(** ** Recovery of stranded gas deposits *)

Definition residual_votes_for (account : EvmAddress) (d : UsdtDb) : list Z :=
  omap (fun '((a, _), deposit_wei) => if bool_decide (a = account) then Some deposit_wei else None)
    (map_to_list (residual_votes d)).

Definition recovery_op (self : Usdt) (account : EvmAddress) (record : DepositRecord)
    (amount_wei : Z) (gas_bounds : GasBounds) : UnsignedUserOp :=
  build_recover_residual_userop (mkRecoverResidualParams account (entry_point (cfg self))
    (residual_recovery_recipient (cfg self)) amount_wei (rec_nonce record) [] gas_bounds).

(** The wei to withdraw, when the agreed deposit exceeds the operation's own need
    by its margin and is worth recovering. *)
Definition recoverable_wei (agreed_deposit_wei max_fee_per_gas : Z) : option Z :=
  let need := saturating_mul_u128 RECOVER_RESIDUAL_GAS_UNITS max_fee_per_gas in
  let need_with_margin := saturating_add_u128 need
    (saturating_mul_u128 need RESIDUAL_RECOVERY_NEED_MARGIN_PERCENT / 100) in
  amount_wei ← checked_sub_u128 agreed_deposit_wei need_with_margin;
  if (amount_wei =? 0) || (agreed_deposit_wei <? RESIDUAL_RECOVERY_MIN_WEI) then None
  else Some amount_wei.

Definition maybe_trigger_residual_recovery (self : Usdt) (account : EvmAddress) (d : UsdtDb)
    : UsdtDb :=
  if bool_decide (residual_recovery_recipient (cfg self) = zero_address) then d
  else if residual_recovery_in_flight account d then d
  else if deploy_and_sweep_in_flight account d then d
  else match deposits d !! account with
  | None => d
  | Some record =>
      if negb (swept record =? credited record) then d
      else
        let votes := residual_votes_for account d in
        if (length votes <? threshold (num_peers self))%nat then d
        else
          let agreed_deposit_wei := upper_median votes in
          match fee_vote_median self d with
          | None => d
          | Some median =>
              let gas_bounds :=
                with_median_fees RECOVER_RESIDUAL_DEVNET (Some (max_fee_per_gas_wei median)) in
              match recoverable_wei agreed_deposit_wei (gb_max_fee_per_gas gas_bounds) with
              | None => d
              | Some amount_wei =>
                  let op := recovery_op self account record amount_wei gas_bounds in
                  if op_known (op_hash_of self op) d then d
                  else enqueue_op self op (RecoverResidualOp account)
                         (consensus_block_count self d) d
              end
          end
  end.

(** ** Pool operations *)

Definition pool_op (self : Usdt) (pool : PoolState) (withdrawals : list (EvmAddress * UsdtAmount))
    (median : option FeeVote) : UnsignedUserOp :=
  let needs_deploy := pool_nonce pool =? 0 in
  build_withdrawal_batch_userop (mkWithdrawalBatchParams
    (account_factory (cfg self)) (usdt_contract (cfg self)) (pool_account_addr pool)
    (evm_address (group_public_key (cfg self))) withdrawals (pool_nonce pool) needs_deploy []
    (with_median_fees (withdrawal_batch (length withdrawals) needs_deploy)
       (max_fee_per_gas_wei <$> median))).

(** The order of the [BTreeMap] keys [(recipient, amount)]. *)
Definition vote_key_le (a b : EvmAddress * Z) : Prop :=
  bytes_lt a.1 b.1 = true \/ (a.1 = b.1 /\ a.2 <= b.2).
#[export] Instance vote_key_le_dec : RelDecision vote_key_le.
Proof. intros a b. unfold vote_key_le. apply _. Defined.

(** The first [(recipient, amount)] a threshold of guardians voted for. *)
Definition agreed_fee_withdrawal (self : Usdt) (d : UsdtDb) : option (EvmAddress * UsdtAmount) :=
  let keys := (fun v => (wfv_recipient v, wfv_amount v)) <$> values (withdraw_fees_votes d) in
  head (filter (fun k => threshold (num_peers self) <= length (filter (k =.) keys))%nat
          (merge_sort vote_key_le keys)).

Definition maybe_trigger_fee_withdrawal (self : Usdt) (d : UsdtDb) : UsdtDb :=
  if withdraw_batch_in_flight d then d
  else match agreed_fee_withdrawal self d with
  | None => d
  | Some (recipient, amount) =>
      let pool := pool_or_default self d in
      if accrued_fees pool <? amount then d
      else if pool_balance pool <? amount then d
      else
        let op := pool_op self pool [(recipient, amount)] (fee_vote_median self d) in
        if op_known (op_hash_of self op) d then d
        else enqueue_op self op (WithdrawFees recipient amount) (consensus_block_count self d) d
  end.

Definition withdrawal_batch_cap (d : UsdtDb) (out_point : OutPoint) : nat :=
  match batch_caps d !! out_point with
  | None => BATCH_MAX_ITEMS
  | Some cap => Z.to_nat cap
  end.

Definition queued_withdrawals (d : UsdtDb) : list (OutPoint * UsdtWithdrawalV0) :=
  filter (fun '(o, _) => wstates d !! o = Some Queued) (map_to_list (unclaimed d)).

Definition by_out_point (a b : OutPoint * UsdtWithdrawalV0) : Prop := OutPoint_le a.1 b.1.
#[export] Instance by_out_point_dec : RelDecision by_out_point.
Proof. intros a b. unfold by_out_point. apply _. Defined.

Definition min_list (l : list Z) : Z :=
  match l with [] => 0 | x :: l => foldr Z.min x l end.

(** The members of the next batch: the oldest out points up to the hard limit,
    cut down to the smallest cap among them. *)
Definition select_batch (d : UsdtDb) (queued : list (OutPoint * UsdtWithdrawalV0))
    : list (OutPoint * UsdtWithdrawalV0) :=
  let queued := take BATCH_MAX_ITEMS (merge_sort by_out_point queued) in
  let effective_cap :=
    foldl (fun cap '(o, _) => Nat.min cap (withdrawal_batch_cap d o)) BATCH_MAX_ITEMS queued in
  take effective_cap queued.

Definition saturating_total (queued : list (OutPoint * UsdtWithdrawalV0)) : Z :=
  foldl (fun acc '(_, w) => saturating_add_u64 acc (w_amount w)) 0 queued.

Definition build_and_enqueue_withdrawal_batch (self : Usdt)
    (queued : list (OutPoint * UsdtWithdrawalV0)) (pool : PoolState) (block_count : Z)
    (d : UsdtDb) : UsdtDb :=
  let outpoints := queued.*1 in
  let withdrawals := (fun w => (w_recipient w, w_amount w)) <$> queued.*2 in
  let op := pool_op self pool withdrawals (fee_vote_median self d) in
  let op_hash := op_hash_of self op in
  let d := set_pending (insert op_hash (mkPendingUserOp op (Withdraw outpoints) block_count)) d in
  let d := foldl (fun d o => set_wstates (insert o (Signing op_hash)) d) d outpoints in
  start_session self (UserOp op_hash) (eth_signed_message_hash op_hash) 0 d.

Definition maybe_trigger_withdrawal_batch (self : Usdt) (d : UsdtDb) : UsdtDb :=
  if withdraw_batch_in_flight d then d
  else
    let queued := queued_withdrawals d in
    match queued with
    | [] => d
    | _ =>
        let block_count := consensus_block_count self d in
        let oldest_requested_block := min_list ((fun kv => requested_block kv.2) <$> queued) in
        let waited_long_enough :=
          u64_add oldest_requested_block (batch_interval_blocks self) <=? block_count in
        let enough_items := (BATCH_MAX_ITEMS <=? length queued)%nat in
        if negb waited_long_enough && negb enough_items then d
        else
          let queued := select_batch d queued in
          let pool := pool_or_default self d in
          if pool_balance pool <? saturating_total queued
          then accelerate_sweeps_for_withdrawals self d
          else build_and_enqueue_withdrawal_batch self queued pool block_count d
    end.
End triggers.
