(* ===== verification/UsdtConfigGen.v ===== *)
(** * Configuration of the USDT module

    [UsdtConfig] ([modules/usdt/fedimint-usdt-server/src/config.rs]), the parameters an
    operator sets through the environment, the trusted dealer and the check every
    guardian runs on its configuration ([modules/usdt/fedimint-usdt-server/src/lib.rs]).
    The client's view of it is in [UsdtClient].  The key shares and the dealer
    belong to the CGGMP21 library, and randomness is an argument. *)

From S2P Require Import Prelude MpcCodec MpcDriver MpcMesh.
From S2P Require Import FedimintCore AmmPoolId UsdtTypes UsdtEvm UsdtAddress UsdtFactory UsdtUserOp UsdtSigning UsdtDb UsdtServer.

(** ** Parameters from the environment *)

Inductive EnvVar :=
| FM_USDT_CONTRACT_ENV | FM_USDT_ENTRY_POINT_ENV | FM_USDT_ACCOUNT_FACTORY_ENV
| FM_USDT_SIMPLE_ACCOUNT_IMPL_ENV | FM_USDT_ETH_USD_PRICE_FEED_ENV
| FM_USDT_RESIDUAL_RECOVERY_RECIPIENT_ENV | FM_USDT_CHAIN_ID_ENV | FM_USDT_CONFIRMATION_DEPTH_ENV
| FM_USDT_BROADCASTER_MIN_BALANCE_WEI_ENV | FM_USDT_UNSAFE_LOW_CONFIRMATION_DEPTH_ENV.

Inductive EnvError := InvalidAddress (name : EnvVar) (e : AddressError) | InvalidNumber (name : EnvVar).

(** [UsdtGenParams::default]. *)
Definition UsdtGenParams_default : UsdtGenParams := {|
  gen_usdt_contract := zero_address;
  gen_chain_id := 31337;
  gen_confirmation_depth := 1;
  gen_entry_point := zero_address;
  gen_account_factory := zero_address;
  gen_simple_account_impl := zero_address;
  gen_broadcaster_min_balance_wei := 50000000000000000;
  gen_eth_usd_price_feed := hex_bytes "5f4ec3df9cbd43714fe2740f5e3616155c5b8419";
  gen_price_feed_max_staleness_secs := 14400;
  gen_residual_recovery_recipient := zero_address;
|}.

Section env.
Context `{Evm} (env : EnvVar -> option string).

Definition nonempty_var (name : EnvVar) : option string :=
  value ← env name; if (String.length value =? 0)%nat then None else Some value.

Definition env_override (name : EnvVar) : result EnvError (option EvmAddress) :=
  match nonempty_var name with
  | Some value => a ← map_err (InvalidAddress name) (EvmAddress_from_str value); Ok (Some a)
  | None => Ok None
  end.

Definition u64_env_override (name : EnvVar) : result EnvError (option Z) :=
  match nonempty_var name with
  | Some value => n ← ok_or (parse_u64 value) (InvalidNumber name); Ok (Some n)
  | None => Ok None
  end.

Definition usdt_gen_params_from_env : result EnvError UsdtGenParams :=
  let params := UsdtGenParams_default in
  usdt_contract ← env_override FM_USDT_CONTRACT_ENV;
  entry_point ← env_override FM_USDT_ENTRY_POINT_ENV;
  let entry_point := default (gen_entry_point params) entry_point in
  account_factory ← env_override FM_USDT_ACCOUNT_FACTORY_ENV;
  let account_factory := default (derive_account_factory entry_point) account_factory in
  simple_account_impl ← env_override FM_USDT_SIMPLE_ACCOUNT_IMPL_ENV;
  let simple_account_impl := default (derive_simple_account_impl account_factory) simple_account_impl in
  feed ← env_override FM_USDT_ETH_USD_PRICE_FEED_ENV;
  recipient ← env_override FM_USDT_RESIDUAL_RECOVERY_RECIPIENT_ENV;
  chain_id ← u64_env_override FM_USDT_CHAIN_ID_ENV;
  confirmation_depth ← u64_env_override FM_USDT_CONFIRMATION_DEPTH_ENV;
  min_balance ← u64_env_override FM_USDT_BROADCASTER_MIN_BALANCE_WEI_ENV;
  Ok {|
    gen_usdt_contract := default (gen_usdt_contract params) usdt_contract;
    gen_chain_id := default (gen_chain_id params) chain_id;
    gen_confirmation_depth := default (gen_confirmation_depth params) confirmation_depth;
    gen_entry_point := entry_point;
    gen_account_factory := account_factory;
    gen_simple_account_impl := simple_account_impl;
    gen_broadcaster_min_balance_wei := default (gen_broadcaster_min_balance_wei params) min_balance;
    gen_eth_usd_price_feed := default (gen_eth_usd_price_feed params) feed;
    gen_price_feed_max_staleness_secs := gen_price_feed_max_staleness_secs params;
    gen_residual_recovery_recipient := default (gen_residual_recovery_recipient params) recipient;
  |}.

(** The acknowledgement [validate_usdt_params] reads. *)
Definition unsafe_low_depth_ack : bool :=
  bool_decide (env FM_USDT_UNSAFE_LOW_CONFIRMATION_DEPTH_ENV = Some "1"%string).

(** [UsdtInit::default_config_gen_params]; [None] is the panic. *)
Definition default_config_gen_params (gen_params_override : option UsdtGenParams) : option UsdtGenParams :=
  match gen_params_override with
  | Some params => Some params
  | None => match usdt_gen_params_from_env with Ok params => Some params | Err _ => None end
  end.
End env.

(** ** A guardian's configuration *)

Record UsdtConfigLocal := mkUsdtConfigLocal {
  evm_rpc_url : string;
  broadcaster_private_key : option string;
  scan_batch_blocks : Z;
}.
Definition default_evm_rpc_url : string := "http://127.0.0.1:8545".
Definition default_scan_batch_blocks : Z := 50.
Definition default_local : UsdtConfigLocal :=
  mkUsdtConfigLocal default_evm_rpc_url None default_scan_batch_blocks.

(** Key shares; [secp_key] identifies the two interfaces' views of secp256k1's keys. *)
Class KeyShares `{RoundCrypto} := {
  KeyShare : Type;
  shared_public_key : KeyShare -> bytes;
  secp_key : MpcCodec.PublicKey -> PublicKey;
}.

Inductive ConfigGenError :=
| InvalidGroupKey | GroupKeyMismatch | EncryptionKeyMismatch | UnsafeParams (e : ParamError).

Section config.
Context `{KeyShares}.

Record UsdtConfigPrivate := mkUsdtConfigPrivate {
  key_share : KeyShare;
  mpc_encryption_sk : SecretKey;
  local : UsdtConfigLocal;
}.
Record UsdtConfig := mkUsdtConfig { private : UsdtConfigPrivate; consensus : UsdtConfigConsensus }.

(** [group_public_key] of [crypto/threshold-ecdsa/src/lib.rs]. *)
Definition share_group_key (share : KeyShare) : result ConfigGenError PublicKey :=
  pk ← ok_or (from_slice (shared_public_key share)) InvalidGroupKey; Ok (secp_key pk).

(** The consensus part both generators write. *)
Definition consensus_config (group : PublicKey) (pks : gmap PeerId PublicKey) (threshold net : Z)
    (params : UsdtGenParams) : UsdtConfigConsensus := {|
  group_public_key := group;
  config_mpc_encryption_pks := pks;
  config_threshold := threshold;
  network := net;
  usdt_contract := gen_usdt_contract params;
  chain_id := gen_chain_id params;
  confirmation_depth := gen_confirmation_depth params;
  entry_point := gen_entry_point params;
  account_factory := gen_account_factory params;
  simple_account_impl := gen_simple_account_impl params;
  broadcaster_min_balance_wei := gen_broadcaster_min_balance_wei params;
  eth_usd_price_feed := gen_eth_usd_price_feed params;
  config_max_staleness_secs := gen_price_feed_max_staleness_secs params;
  residual_recovery_recipient := gen_residual_recovery_recipient params;
|}.

(** The parameters a configuration was made from. *)
Definition params_of (config : UsdtConfigConsensus) : UsdtGenParams := {|
  gen_usdt_contract := usdt_contract config;
  gen_chain_id := chain_id config;
  gen_confirmation_depth := confirmation_depth config;
  gen_entry_point := entry_point config;
  gen_account_factory := account_factory config;
  gen_simple_account_impl := simple_account_impl config;
  gen_broadcaster_min_balance_wei := broadcaster_min_balance_wei config;
  gen_eth_usd_price_feed := eth_usd_price_feed config;
  gen_price_feed_max_staleness_secs := config_max_staleness_secs config;
  gen_residual_recovery_recipient := residual_recovery_recipient config;
|}.

Definition validate_config (unsafe_ack : bool) (identity : PeerId) (config : UsdtConfig)
    : result ConfigGenError unit :=
  group ← share_group_key (key_share (private config));
  check (bool_decide (group = group_public_key (consensus config))) GroupKeyMismatch;;
  let our_mpc_pk := secp_key (public_key (mpc_encryption_sk (private config))) in
  check (bool_decide (config_mpc_encryption_pks (consensus config) !! identity = Some our_mpc_pk))
    EncryptionKeyMismatch;;
  map_err UnsafeParams (validate_usdt_params unsafe_ack (params_of (consensus config))).

(** [None] is a panic.  [np] is [peers.to_num_peers()], [shares] what the dealer of the
    CGGMP21 library returns for its size and threshold, [enc_sk] the fresh keys. *)
Definition trusted_dealer_gen (unsafe_ack : bool) (peers : list PeerId) (np : NumPeers) (net : Z)
    (params : UsdtGenParams) (generate_shares : Z -> Z -> list KeyShare) (enc_sk : PeerId -> SecretKey)
    : option (list (PeerId * UsdtConfig)) :=
  match validate_usdt_params unsafe_ack params with
  | Err _ => None
  | Ok _ =>
      let n := Z.of_nat (total np) in
      let t := Z.of_nat (threshold np) in
      if (U16_MAX <? n) || (U16_MAX <? t) then None
      else
        let shares := generate_shares n t in
        share0 ← head shares;
        match share_group_key share0 with
        | Err _ => None
        | Ok group =>
            let pks := list_to_map ((fun peer => (peer, secp_key (public_key (enc_sk peer)))) <$> peers) in
            mapM (fun '(index, peer) =>
              share ← shares !! index;
              Some (peer, mkUsdtConfig (mkUsdtConfigPrivate share (enc_sk peer) default_local)
                            (consensus_config group pks t net params)))
              (imap pair peers)
        end
  end.

(** ** What a set of configurations has to satisfy *)

(** The guardians share one consensus part, made of these parameters; every guardian's
    configuration passes its own check; every guardian knows every other's encryption
    key; and the threshold is the federation's. *)
Record federation_config (unsafe_ack : bool) (np : NumPeers) (params : UsdtGenParams)
    (cfgs : list (PeerId * UsdtConfig)) (c : UsdtConfigConsensus) : Prop := {
  fc_consensus p cfg : (p, cfg) ∈ cfgs -> consensus cfg = c;
  fc_valid p cfg : (p, cfg) ∈ cfgs -> validate_config unsafe_ack p cfg = Ok tt;
  fc_keys p cfg : (p, cfg) ∈ cfgs ->
    config_mpc_encryption_pks c !! p = Some (secp_key (public_key (mpc_encryption_sk (private cfg))));
  fc_group p cfg : (p, cfg) ∈ cfgs -> share_group_key (key_share (private cfg)) = Ok (group_public_key c);
  fc_params : params_of c = params;
  fc_threshold : config_threshold c = Z.of_nat (threshold np);
}.

(** Configurations around one consensus part are a federation's when the shares
    aggregate to its key and it lists the guardians' keys. *)
Lemma federation_config_intro unsafe_ack np params cfgs group pks net :
  validate_usdt_params unsafe_ack params = Ok tt ->
  let c := consensus_config group pks (Z.of_nat (threshold np)) net params in
  Forall (fun pc => consensus pc.2 = c /\ share_group_key (key_share (private pc.2)) = Ok group /\
    pks !! pc.1 = Some (secp_key (public_key (mpc_encryption_sk (private pc.2))))) cfgs ->
  federation_config unsafe_ack np params cfgs c.
Proof.
  intros Hp c Hall. rewrite Forall_forall in Hall.
  assert (Hpar : params_of c = params) by (by destruct params).
  split; try done; intros p cfg Hin; destruct (Hall _ Hin) as (Hc & Hg & Hk); simpl in *; try done.
  unfold validate_config. rewrite Hg, Hc. cbn [mbind result_bind check].
  rewrite !bool_decide_eq_true_2 by done. simpl. by rewrite Hpar, Hp.
Qed.

(** The dealer's loop pairs shares and guardians. *)
Lemma dealt_from (make : KeyShare -> PeerId -> UsdtConfig) peers : forall pre shares,
  length shares = length peers ->
  mapM (fun '(index, peer) => share ← (pre ++ shares) !! index; Some (peer, make share peer))
    (imap (fun i peer => ((length pre + i)%nat, peer)) peers)
  = Some (zip_with (fun share peer => (peer, make share peer)) shares peers).
Proof.
  induction peers as [|p peers IH]; intros pre [|s shares] Hlen; simplify_eq/=; [done|].
  rewrite Nat.add_0_r, lookup_app_r, Nat.sub_diag by done. cbn [lookup list_lookup mbind option_bind].
  specialize (IH (pre ++ [s]) shares Hlen). rewrite <- app_assoc in IH. cbn [app] in IH.
  erewrite imap_ext in IH; [unfold compose; by rewrite IH|].
  intros i x _. simpl. rewrite length_app. simpl. f_equal. lia.
Qed.

Lemma dealt_configs (make : KeyShare -> PeerId -> UsdtConfig) peers shares :
  length shares = length peers ->
  mapM (fun '(index, peer) => share ← shares !! index; Some (peer, make share peer)) (imap pair peers)
  = Some (zip_with (fun share peer => (peer, make share peer)) shares peers).
Proof. apply (dealt_from make peers []). Qed.

(** The trusted dealer hands out configurations that fit together: given shares of one
    key, one per guardian, every guardian gets its own share and the same consensus part, with the
    federation's threshold and the operator's parameters, and every configuration passes
    the check its guardian runs on it.  With unsafe parameters it panics instead. *)
Theorem dealer_configs_valid unsafe_ack peers np net params generate_shares enc_sk group :
  NoDup peers -> length peers = total np -> peers <> [] ->
  Z.of_nat (total np) <= U16_MAX -> Z.of_nat (threshold np) <= U16_MAX ->
  let shares := generate_shares (Z.of_nat (total np)) (Z.of_nat (threshold np)) in
  length shares = total np -> Forall (fun s => share_group_key s = Ok group) shares ->
  match trusted_dealer_gen unsafe_ack peers np net params generate_shares enc_sk with
  | None => exists e, validate_usdt_params unsafe_ack params = Err e
  | Some cfgs => cfgs.*1 = peers /\ (fun pc => key_share (private pc.2)) <$> cfgs = shares /\
      exists c, federation_config unsafe_ack np params cfgs c
  end.
Proof.
  intros Hnd Hlen Hne Hn Ht shares Hsh Hgroup. unfold trusted_dealer_gen.
  destruct (validate_usdt_params unsafe_ack params) as [[]|e] eqn:Ev; [|by exists e].
  rewrite (proj2 (Z.ltb_ge _ _)), (proj2 (Z.ltb_ge _ _)) by done. cbn [orb]. fold shares.
  assert (exists s0, head shares = Some s0 /\ share_group_key s0 = Ok group) as (s0 & -> & Hs0).
  { destruct peers, shares as [|s0 ss]; simplify_eq/=; [lia|]. exists s0. split; [done|]. by inversion Hgroup. }
  unfold mbind at 1, option_bind at 1. cbv beta iota. rewrite Hs0. cbv zeta. set (pks := list_to_map _).
  rewrite (dealt_configs (fun share peer => mkUsdtConfig (mkUsdtConfigPrivate share (enc_sk peer) default_local)
    (consensus_config group pks (Z.of_nat (threshold np)) net params))) by lia.
  split; [by rewrite fmap_zip_with_r by (done || lia)|].
  split; [by rewrite fmap_zip_with_l by (done || lia)|].
  eexists. apply federation_config_intro; [done|]. apply Forall_forall. intros pc Hpc.
  apply elem_of_zip_with in Hpc as (s & p & -> & Hs & Hp). simpl. split; [done|].
  rewrite Forall_forall in Hgroup. split; [by apply Hgroup|]. apply elem_of_list_to_map_1.
  - by rewrite <- list_fmap_compose, list_fmap_id.
  - apply list_elem_of_fmap. by exists p.
Qed.
End config.

(** ** Three guardians and a dealer of one key *)

Definition toy_key_shares : @KeyShares toy_crypto :=
  @Build_KeyShares toy_crypto Z (fun _ => [42]) mkPublicKey.
Definition toy_peers : NumPeers := mkNumPeers [0; 1; 2] 3.

Lemma default_params_safe : validate_usdt_params false UsdtGenParams_default = Ok tt.
Proof. vm_compute. reflexivity. Qed.

Section dealer_witness.
#[local] Existing Instance toy_crypto.
#[local] Existing Instance toy_key_shares.

Definition toy_deal (n _ : Z) : list (@KeyShare toy_crypto toy_key_shares) := seqZ 0 n.
Definition toy_dealt : option (list (PeerId * UsdtConfig)) :=
  trusted_dealer_gen false [0; 1; 2] toy_peers 1 UsdtGenParams_default toy_deal (Z.add 5).

Lemma dealer_configs_valid_witness :
  is_Some toy_dealt /\
  match toy_dealt with
  | None => exists e, validate_usdt_params false UsdtGenParams_default = Err e
  | Some cfgs => cfgs.*1 = [0; 1; 2] /\ (fun pc => key_share (private pc.2)) <$> cfgs = toy_deal 3 3 /\
      exists c, federation_config false toy_peers UsdtGenParams_default cfgs c
  end.
Proof.
  split; [vm_compute; by eexists|].
  apply (dealer_configs_valid false [0; 1; 2] toy_peers 1 UsdtGenParams_default toy_deal (Z.add 5)
    (mkPublicKey 42)).
  - refine (bool_decide_unpack _ _). vm_compute. exact I.
  - reflexivity.
  - discriminate.
  - vm_compute. discriminate.
  - vm_compute. discriminate.
  - reflexivity.
  - repeat constructor.
Defined.
End dealer_witness.
