(* ===== verification/UsdtDkg.v ===== *)
(** * Distributed key generation

    [modules/usdt/fedimint-usdt-server/src/dkg.rs]: the guardians exchange encryption
    keys, agree on who is which party, run CGGMP21's key generation and its auxiliary
    information generation over encrypted rounds ([MpcDriver], [MpcMesh]), and write
    their configurations.  A guardian is a program that asks for exchanges ([Gen]); the
    config-generation channel answers each with everybody's payload. *)

From S2P Require Import Prelude MpcCodec MpcDriver MpcMesh.
From S2P Require Import FedimintCore UsdtTypes UsdtEvm UsdtUserOp UsdtSigning UsdtDb UsdtServer UsdtConfigGen.

Definition KEYGEN_EID_PREFIX : string := "usdt-dkg-keygen-v0".
Definition AUX_EID_PREFIX : string := "usdt-dkg-aux-v0".

Inductive DkgError :=
| ParamsUnsafe (e : ParamError)
| PeerExchangeFailed
| BadEncryptionKey
| MissingPayload (peer : PeerId)
| MissingKey (peer : PeerId)
| DuplicateKey
| OurKeyMissing
| OurPeerMissing
| SizeOverflow
| ProtocolFailed
| OutOfRounds
| ShareInvalid
| GroupKeyInvalid.

(** ** Programs that exchange bytes with all peers *)

Inductive Gen (A : Type) :=
| Ret (r : result DkgError A)
| Exchange (payload : bytes) (next : option (gmap PeerId bytes) -> Gen A).
Arguments Ret {A} r.
Arguments Exchange {A} payload next.

Fixpoint gen_bind {A B} (f : A -> Gen B) (m : Gen A) : Gen B :=
  match m with
  | Ret (Ok a) => f a
  | Ret (Err e) => Ret (Err e)
  | Exchange payload next => Exchange payload (fun r => gen_bind f (next r))
  end.
#[export] Instance Gen_ret : MRet Gen := fun A a => Ret (Ok a).
#[export] Instance Gen_bind : MBind Gen := @gen_bind.
Definition gen_lift {A} (r : result DkgError A) : Gen A := Ret r.

(** [PeerHandleOps::exchange_bytes]. *)
Definition exchange_bytes (payload : bytes) : Gen (gmap PeerId bytes) :=
  Exchange payload (fun r => Ret (ok_or r PeerExchangeFailed)).

Definition asked {A} (g : Gen A) : option bytes :=
  match g with Exchange payload _ => Some payload | Ret _ => None end.
Definition answer {A} (responses : option (gmap PeerId bytes)) (g : Gen A) : Gen A :=
  match g with Exchange _ next => next responses | Ret r => Ret r end.

(** One exchange among the guardians [ids]: everybody gets everybody's payload; while
    somebody does not ask, the others wait. *)
Definition exchange_round {A} (ids : list PeerId) (gs : list (Gen A)) : list (Gen A) :=
  match mapM asked gs with
  | Some payloads => answer (Some (list_to_map (zip ids payloads))) <$> gs
  | None => gs
  end.
Fixpoint ceremony {A} (k : nat) (ids : list PeerId) (gs : list (Gen A)) : list (Gen A) :=
  match k with O => gs | S k => ceremony k ids (exchange_round ids gs) end.

(** ** The protocols of CGGMP21 *)

Class DkgLib {SMk SMa Msgk Msga Core Aux Rng : Type} `{KeyShares}
    `{StateMachine SMk (result string Core) Msgk} `{StateMachine SMa (result string Aux) Msga} := {
  keygen : bytes -> PartyIndex -> PartyIndex -> Z -> Rng -> SMk;
  aux_info_gen : bytes -> PartyIndex -> PartyIndex -> Rng -> SMa;
  from_parts : Core -> Aux -> option KeyShare;
  sha256 : bytes -> bytes;
}.

Definition service_round (peer_ids : list PeerId) (payload : bytes) : Gen (list bytes) :=
  responses ← exchange_bytes payload;
  gen_lift (mapM (fun peer => ok_or (responses !! peer) (MissingPayload peer)) peer_ids).

(** [ProtocolHandle::drive] over [service_round]; [rounds] bounds the exchanges, [fuel] the
    steps of the machine between two. *)
Fixpoint drive_service {SM Msg Output} `{StateMachine SM (result string Output) Msg}
    (w : Wire Msg bytes) (me n : PartyIndex) (peer_ids : list PeerId) (rounds fuel : nat)
    (t : Thread SM (result string Output) Msg bytes) : Gen Output :=
  match next_outgoing t with
  | None =>
      match into_output t with
      | Some (Ok (Ok out)) => mret out
      | _ => gen_lift (Err ProtocolFailed)
      end
  | Some payload =>
      match rounds with
      | O => gen_lift (Err OutOfRounds)
      | S rounds =>
          all ← service_round peer_ids payload;
          match submit_round w me n fuel all t with
          | Ok (Some t) => drive_service w me n peer_ids rounds fuel t
          | _ => gen_lift (Err ProtocolFailed)
          end
      end
  end.

(** [exchange_encodable] on keys. *)
Definition decode_keys `{RoundCrypto} (responses : gmap PeerId bytes)
    : result DkgError (gmap PeerId MpcCodec.PublicKey) :=
  let keys : gmap PeerId MpcCodec.PublicKey := omap from_slice responses in
  if (size keys =? size responses)%nat then Ok keys else Err BadEncryptionKey.
Definition exchange_key `{RoundCrypto} (pk : MpcCodec.PublicKey)
    : Gen (gmap PeerId MpcCodec.PublicKey) :=
  responses ← exchange_bytes (serialize_pk pk);
  gen_lift (decode_keys responses).

Section dkg.
Context `{DkgLib} `{Serde RoundPacket} `{Serde Msgk} `{Serde Msga} `{!EqDecision MpcCodec.PublicKey}.

Definition derive_eid (prefix : string) (ordered_enc_pks : list MpcCodec.PublicKey) : bytes :=
  sha256 (ascii_bytes prefix ++ concat (serialize_pk <$> ordered_enc_pks)).

Record PartyAssignment := mkPartyAssignment {
  as_peer_ids : list PeerId;
  as_my_index : PartyIndex;
  as_n : PartyIndex;
  as_threshold : Z;
  ordered_enc_pks : list MpcCodec.PublicKey;
  enc_pk_map : gmap PeerId MpcCodec.PublicKey;
}.

(** What the code makes of the keys it received. *)
Definition assign (np : NumPeers) (our_enc_pk : MpcCodec.PublicKey)
    (keys : gmap PeerId MpcCodec.PublicKey) : result DkgError PartyAssignment :=
  let ids := peer_ids np in
  let distinct_enc_pks : gset bytes := list_to_set (serialize_pk <$> (map_to_list keys).*2) in
  check (size distinct_enc_pks =? size keys)%nat DuplicateKey;;
  our ← ok_or (list_find (fun kv => kv.2 = our_enc_pk) (entries keys)) OurKeyMissing;
  index ← ok_or (list_find (fun peer => peer = our.2.1) ids) OurPeerMissing;
  ordered ← mapM (fun peer => ok_or (keys !! peer) (MissingKey peer)) ids;
  Ok (mkPartyAssignment ids (Z.of_nat index.1) (Z.of_nat (length ids)) (Z.of_nat (threshold np)) ordered keys).

Definition resolve_party_assignment (np : NumPeers) (our_enc_pk : MpcCodec.PublicKey)
    : Gen PartyAssignment :=
  let n := Z.of_nat (length (peer_ids np)) in
  let t := Z.of_nat (threshold np) in
  gen_lift (check ((n <=? U16_MAX) && (t <=? U16_MAX)) SizeOverflow);;
  keys ← exchange_key our_enc_pk;
  gen_lift (assign np our_enc_pk keys).

(** The thread of [spawn_protocol]; a machine that never reaches an exchange gives none. *)
Definition run_protocol {SM Msg Output} `{StateMachine SM (result string Output) Msg} `{Serde Msg}
    (a : PartyAssignment) (sk : SecretKey) (eid : bytes) (coins : Z -> PartyIndex -> SecretKey * Nonce)
    (machine : SM) (rounds fuel : nat) : Gen Output :=
  let codec := mkEncryptedRoundCodec (as_my_index a) sk (ordered_enc_pks a) eid in
  let wire := encrypted_wire codec coins in
  match resume wire fuel (start machine) with
  | Some t => drive_service wire (as_my_index a) (as_n a) (as_peer_ids a) rounds fuel t
  | None => gen_lift (Err ProtocolFailed)
  end.

(** The randomness a guardian draws. *)
Record Draws := mkDraws {
  draw_sk : SecretKey;
  draw_keygen : Rng;
  draw_aux : Rng;
  draw_keygen_coins : Z -> PartyIndex -> SecretKey * Nonce;
  draw_aux_coins : Z -> PartyIndex -> SecretKey * Nonce;
}.

Definition run_keygen (a : PartyAssignment) (dr : Draws) (eid : bytes) (rounds fuel : nat) : Gen Core :=
  run_protocol a (draw_sk dr) eid (draw_keygen_coins dr)
    (keygen eid (as_my_index a) (as_n a) (as_threshold a) (draw_keygen dr)) rounds fuel.

Definition run_aux_gen (a : PartyAssignment) (dr : Draws) (eid : bytes) (rounds fuel : nat) : Gen Aux :=
  run_protocol a (draw_sk dr) eid (draw_aux_coins dr)
    (aux_info_gen eid (as_my_index a) (as_n a) (draw_aux dr)) rounds fuel.

Definition assemble_key_share (core : Core) (aux : Aux) : result DkgError KeyShare :=
  ok_or (from_parts core aux) ShareInvalid.

Definition distributed_gen (unsafe_ack : bool) (np : NumPeers) (net : Z) (params : UsdtGenParams)
    (rounds fuel : nat) (dr : Draws) : Gen UsdtConfig :=
  gen_lift (map_err ParamsUnsafe (validate_usdt_params unsafe_ack params));;
  let our_enc_pk := public_key (draw_sk dr) in
  a ← resolve_party_assignment np our_enc_pk;
  let eid_keygen := derive_eid KEYGEN_EID_PREFIX (ordered_enc_pks a) in
  let eid_aux := derive_eid AUX_EID_PREFIX (ordered_enc_pks a) in
  core ← run_keygen a dr eid_keygen rounds fuel;
  aux ← run_aux_gen a dr eid_aux rounds fuel;
  share ← gen_lift (assemble_key_share core aux);
  group ← gen_lift (map_err (fun _ => GroupKeyInvalid) (share_group_key share));
  mret (mkUsdtConfig (mkUsdtConfigPrivate share (draw_sk dr) default_local)
          (consensus_config group (secp_key <$> enc_pk_map a) (as_threshold a) net params)).
End dkg.

(** ** Driving threads in lockstep *)

Lemma ceremony_add {A} k k' ids (gs : list (Gen A)) :
  ceremony (k + k') ids gs = ceremony k' ids (ceremony k ids gs).
Proof. revert gs. induction k as [|k IH]; intros gs; simpl; [done|apply IH]. Qed.

Lemma mapM_found {E V} (m : gmap PeerId V) (e : PeerId -> E) ids vs :
  Forall2 (fun p v => m !! p = Some v) ids vs -> mapM (fun p => ok_or (m !! p) (e p)) ids = Ok vs.
Proof.
  intros Hall. induction Hall as [|p v ids vs Hp _ IH]; [done|].
  transitivity (y ← ok_or (m !! p) (e p); k ← mapM (fun p => ok_or (m !! p) (e p)) ids; mret (y :: k)); [done|].
  by rewrite Hp, IH.
Qed.

Lemma length_ceremony {A} k ids (gs : list (Gen A)) : length (ceremony k ids gs) = length gs.
Proof.
  revert gs. induction k as [|k IH]; intros gs; simpl; [done|]. rewrite IH. unfold exchange_round.
  case_match; [by rewrite length_fmap|done].
Qed.

Section lockstep.
Context {SM Msg Output B : Type} `{StateMachine SM (result string Output) Msg}.
Variables (w : PartyIndex -> Wire Msg bytes) (ids : list PeerId) (fuel : nat).
(** What each guardian goes on with. *)
Variable f : nat -> Output -> Gen B.
Hypothesis ids_nodup : NoDup ids.
Abbreviation n := (Z.of_nat (length ids)).

Definition driven (rounds : nat) (ts : list (Thread SM (result string Output) Msg bytes)) : list (Gen B) :=
  imap (fun i t => drive_service (w (Z.of_nat i)) (Z.of_nat i) n ids rounds fuel t ≫= f i) ts.

Lemma mapM_responses (all : list bytes) :
  length all = length ids ->
  mapM (fun peer => ok_or ((list_to_map (zip ids all) : gmap PeerId bytes) !! peer) (MissingPayload peer)) ids
  = Ok all.
Proof.
  intros Hlen. apply mapM_found, Forall2_same_length_lookup_2; [done|]. intros i p x Hp Hx.
  apply elem_of_list_to_map_1; [by rewrite fst_zip by lia|].
  apply list_elem_of_lookup. exists i. by apply lookup_zip_Some.
Qed.

Lemma driven_round rounds ts all ts1 :
  length ts = length ids -> mapM next_outgoing ts = Some all ->
  mapM (fun '(i, t) => match submit_round (w i) i n fuel all t with Ok t => t | Err _ => None end)
    (zip (seqZ 0 n) ts) = Some ts1 ->
  exchange_round ids (driven (S rounds) ts) = driven rounds ts1.
Proof.
  intros Hlen Hall Hsub. unfold exchange_round.
  assert (Hasked : mapM asked (driven (S rounds) ts) = Some all).
  { apply mapM_Some, Forall2_same_length_lookup_2.
    - unfold driven. rewrite length_imap. symmetry. by apply length_mapM in Hall.
    - intros i g p Hg Hp. unfold driven in Hg. rewrite list_lookup_imap in Hg.
      destruct (ts !! i) as [t|] eqn:Ht; simplify_eq/=.
      destruct (mapM_lookup_i _ _ _ i t Hall Ht) as (p' & Hp' & Hn). simplify_eq. by rewrite Hn. }
  rewrite Hasked. apply length_mapM in Hall as Hl. pose proof (length_mapM _ _ _ Hsub) as Hl1.
  rewrite length_zip_with, length_seqZ in Hl1.
  apply list_eq. intros i. unfold driven. rewrite list_lookup_fmap, !list_lookup_imap.
  destruct (ts !! i) as [t|] eqn:Ht; simpl.
  2:{ apply lookup_ge_None in Ht. rewrite (lookup_ge_None_2 ts1) by lia. done. }
  destruct (mapM_lookup_i _ _ _ i t Hall Ht) as (p & _ & Hn).
  destruct (mapM_lookup_i _ _ _ i (Z.of_nat i, t) Hsub) as (t1 & Ht1 & Es).
  { apply lookup_zip_Some. split; [|done]. apply lookup_seqZ. apply lookup_lt_Some in Ht. lia. }
  rewrite Ht1. simpl. rewrite Hn. simpl. rewrite mapM_responses by lia. simpl.
  destruct (submit_round _ _ _ _ _ _) as [[t'|]|]; simplify_eq. done.
Qed.

Abbreviation completed outs := ((fun c => Some (Ok (Ok c))) <$> outs).

Lemma driven_completed rounds ts outs :
  into_output <$> ts = completed outs -> driven rounds ts = imap f outs.
Proof.
  intros E. apply list_eq. intros i. unfold driven. rewrite !list_lookup_imap.
  pose proof (f_equal (.!! i) E) as Ei. simpl in Ei. rewrite !list_lookup_fmap in Ei.
  destruct (ts !! i) as [t|], (outs !! i) as [c|]; simplify_eq/=; [|done].
  destruct t as [p d|r]; simplify_eq/=. by destruct rounds.
Qed.

(** Once a party is gone, a party that still waits never completes. *)
Lemma stuck_rounds r : forall ts ts' (outs : list Output),
  mapM next_outgoing ts = None -> mesh_rounds w n r fuel ts = Some ts' ->
  into_output <$> ts' = completed outs -> into_output <$> ts = completed outs.
Proof.
  induction r as [|r IH]; intros ts ts' outs Hn Hr Ho; simpl in Hr; [by simplify_eq|].
  unfold mesh_round in Hr. rewrite Hn in Hr. simpl in Hr. apply IH with (outs := outs) in Hr; [|clear -Hn|done].
  - rewrite <- Hr. clear IH Hn Ho. apply list_eq. intros i. rewrite <- list_fmap_compose, !list_lookup_fmap.
    pose proof (f_equal (.!! i) Hr) as Ei. simpl in Ei. rewrite !list_lookup_fmap in Ei.
    destruct (ts !! i) as [[p d|x]|]; simpl in *; [|done..].
    destruct (outs !! i); simplify_eq/=.
  - apply mapM_None in Hn. apply mapM_None. apply Exists_fmap. eapply Exists_impl; [exact Hn|].
    by intros [p d|x].
Qed.

Lemma driven_finishes r : forall rounds ts ts' outs,
  (r <= rounds)%nat -> length ts = length ids -> mesh_rounds w n r fuel ts = Some ts' ->
  into_output <$> ts' = completed outs ->
  exists k, (k <= r)%nat /\ ceremony k ids (driven rounds ts) = imap f outs.
Proof.
  induction r as [|r IH]; intros rounds ts ts' outs Hle Hlen Hr Ho.
  { simpl in Hr. simplify_eq. exists 0%nat. split; [done|]. by apply driven_completed. }
  destruct (mapM next_outgoing ts) as [all|] eqn:Hn.
  - destruct rounds as [|rounds]; [lia|]. simpl in Hr. unfold mesh_round in Hr. rewrite Hn in Hr.
    destruct (mapM _ (zip (seqZ 0 n) ts)) as [ts1|] eqn:Hs; simpl in Hr; [|done].
    assert (Hl1 : length ts1 = length ids).
    { apply length_mapM in Hs. rewrite length_zip_with, length_seqZ in Hs. lia. }
    destruct (IH rounds ts1 ts' outs) as (k & Hk & E); [lia|done..|].
    exists (S k). split; [lia|]. simpl. by rewrite (driven_round rounds ts all ts1).
  - exists 0%nat. split; [lia|]. apply driven_completed. by eapply (stuck_rounds (S r)).
Qed.
End lockstep.

(** ** Who is which party *)

Section assignment.
Context `{DkgLib} `{!RoundCryptoOk} `{!EqDecision MpcCodec.PublicKey}.
Variables (np : NumPeers) (pk : PeerId -> MpcCodec.PublicKey).
Abbreviation ids := (peer_ids np).
Hypothesis ids_nodup : NoDup ids.
Hypothesis keys_distinct : NoDup (pk <$> ids).

Definition key_map : gmap PeerId MpcCodec.PublicKey := list_to_map ((fun p => (p, pk p)) <$> ids).

Lemma key_map_keys : NoDup ((fun p => (p, pk p)) <$> ids).*1.
Proof. by rewrite <- list_fmap_compose, list_fmap_id. Qed.

Lemma key_map_lookup p k : key_map !! p = Some k <-> p ∈ ids /\ k = pk p.
Proof.
  unfold key_map. rewrite <- elem_of_list_to_map by apply key_map_keys. rewrite list_elem_of_fmap.
  split; [intros (q & [= -> ->] & Hq); eauto|intros [Hp ->]; eauto].
Qed.

Lemma keys_received :
  decode_keys (list_to_map (zip ids (serialize_pk ∘ pk <$> ids))) = Ok key_map.
Proof.
  assert (Hresp : (list_to_map (zip ids (serialize_pk ∘ pk <$> ids)) : gmap PeerId bytes)
    = serialize_pk <$> key_map).
  { unfold key_map. rewrite <- list_to_map_fmap. f_equal. rewrite <- list_fmap_compose.
    generalize (peer_ids np) as l. intros l. induction l as [|p l IH]; [done|].
    rewrite !fmap_cons. cbn [zip zip_with]. f_equal. exact IH. }
  unfold decode_keys. rewrite Hresp.
  assert (omap from_slice (serialize_pk <$> key_map) = key_map) as ->.
  { apply map_eq. intros p. rewrite lookup_omap, lookup_fmap.
    destruct (key_map !! p) as [k|]; simpl; [apply from_slice_serialize|done]. }
  rewrite map_size_fmap, Nat.eqb_refl. done.
Qed.

Lemma pk_inj p q : p ∈ ids -> q ∈ ids -> pk p = pk q -> p = q.
Proof.
  intros [i Hi]%list_elem_of_lookup [j Hj]%list_elem_of_lookup E.
  assert (i = j) as <-; [|congruence].
  eapply (NoDup_lookup (pk <$> ids)); [done| |]; rewrite list_lookup_fmap, ?Hi, ?Hj; simpl; [done|by rewrite E].
Qed.

Lemma find_ours p : p ∈ ids ->
  exists j, list_find (fun kv => kv.2 = pk p) (entries key_map) = Some (j, (p, pk p)).
Proof.
  intros Hp. assert (Hin : (p, pk p) ∈ entries key_map) by (apply elem_of_entries, key_map_lookup; done).
  destruct (list_find_elem_of (fun kv => kv.2 = pk p) _ _ Hin) as [[j [q k]] E]; [done|].
  exists j. rewrite E. apply list_find_Some in E as (Hj & Ek & _). simpl in Ek. subst k.
  apply list_elem_of_lookup_2, elem_of_entries, key_map_lookup in Hj as [Hq Ek].
  by rewrite (pk_inj p q Hp Hq Ek).
Qed.

Lemma position_in_ids i p : ids !! i = Some p -> list_find (fun peer => peer = p) ids = Some (i, p).
Proof.
  intros Hi. destruct (list_find_elem_of (fun peer => peer = p) ids p) as [[j q] E];
    [by eapply list_elem_of_lookup_2|done|]. rewrite E.
  apply list_find_Some in E as (Hj & -> & _). by rewrite (NoDup_lookup _ _ _ _ ids_nodup Hi Hj).
Qed.

Lemma keys_all_distinct :
  size (list_to_set (serialize_pk <$> (map_to_list key_map).*2) : gset bytes) = size key_map.
Proof.
  assert (Hp : map_to_list key_map ≡ₚ (fun p => (p, pk p)) <$> ids)
    by (unfold key_map; apply map_to_list_to_map, key_map_keys).
  rewrite size_list_to_set.
  - rewrite !length_fmap, length_map_to_list. done.
  - rewrite Hp, <- (list_fmap_compose (fun p => (p, pk p)) snd). apply (NoDup_fmap_2_strong serialize_pk); [|done].
    intros a b _ _ E. apply (f_equal from_slice) in E. rewrite !from_slice_serialize in E. by simplify_eq.
Qed.

Lemma assigned i p :
  ids !! i = Some p ->
  assign np (pk p) key_map
  = Ok (mkPartyAssignment ids (Z.of_nat i) (Z.of_nat (length ids)) (Z.of_nat (threshold np)) (pk <$> ids) key_map).
Proof.
  intros Hi. unfold assign.
  rewrite keys_all_distinct, Nat.eqb_refl. simpl.
  destruct (find_ours p) as [j ->]; [by eapply list_elem_of_lookup_2|]. simpl.
  rewrite (position_in_ids i p Hi). simpl.
  pose proof (mapM_found key_map MissingKey ids (pk <$> ids)) as Hm. simpl in Hm. rewrite Hm; [done|].
  apply Forall2_fmap_r, Forall_Forall2_diag, Forall_forall. intros q Hq. by apply key_map_lookup.
Qed.
End assignment.

(** ** The ceremony *)

Section ceremony.
Context `{DkgLib} `{!RoundCryptoOk} `{SerdeOk RoundPacket} `{SerdeOk Msgk} `{SerdeOk Msga}
  `{!EqDecision MpcCodec.PublicKey}.
Variables (unsafe_ack : bool) (np : NumPeers) (net : Z) (params : UsdtGenParams) (rounds fuel : nat).
Variable draws : PeerId -> Draws (Rng := Rng).
Abbreviation ids := (peer_ids np).
Abbreviation n := (Z.of_nat (length ids)).
Abbreviation t := (Z.of_nat (threshold np)).
Definition enc_pk (p : PeerId) : MpcCodec.PublicKey := public_key (draw_sk (draws p)).
Abbreviation ordered := (enc_pk <$> ids).
Definition eid_keygen : bytes := derive_eid KEYGEN_EID_PREFIX ordered.
Definition eid_aux : bytes := derive_eid AUX_EID_PREFIX ordered.

Hypothesis ids_nodup : NoDup ids.
Hypothesis keys_distinct : NoDup ordered.
Hypothesis size_fits : n <= U16_MAX /\ t <= U16_MAX.
Hypothesis sha256_size : forall b, length (sha256 b) = 32%nat.
Hypothesis packets_encode : forall p : RoundPacket, is_Some (serde_encode p).

(** One of the two protocols, from its machines to what the guardians go on with. *)
Section protocol.
Context {SM Msg Output B : Type} `{StateMachine SM (result string Output) Msg} `{SerdeOk Msg}.
Variables (eid : bytes) (coins : PeerId -> Z -> PartyIndex -> SecretKey * Nonce).
Variables (machine : nat -> PeerId -> SM) (f : nat -> Output -> Gen B).
Hypothesis eid_size : length eid = 32%nat.
Hypothesis messages_encode : forall m : Msg, is_Some (serde_encode m).
Hypothesis sends_to_parties : forall s s' j m, proceed s = (SendMsg (OneParty j) m, s') -> 0 <= j < n.

Definition peer_at (i : PartyIndex) : PeerId := default 0 (ids !! Z.to_nat i).
Definition dkg_codec (i : PartyIndex) : EncryptedRoundCodec :=
  mkEncryptedRoundCodec i (draw_sk (draws (peer_at i))) ordered eid.
Definition assignment_at (i : nat) : PartyAssignment :=
  mkPartyAssignment ids (Z.of_nat i) n t ordered (key_map np enc_pk).
Abbreviation wire_at := (fun i => encrypted_wire (dkg_codec i) (coins (peer_at i))).

Lemma dkg_federation : federation dkg_codec n.
Proof.
  split; [done| |].
  - intros i j Hi Hj. split; [done|]. simpl. rewrite list_lookup_fmap. unfold peer_at.
    destruct (lookup_lt_is_Some_2 ids (Z.to_nat j)) as [q Hq]; [lia|]. by rewrite Hq.
  - intros i _. unfold dkg_codec. cbn [domain]. rewrite eid_size. done.
Qed.

Definition protocol_at (i : nat) (p : PeerId) : Gen Output :=
  run_protocol (assignment_at i) (draw_sk (draws p)) eid (coins p) (machine i p) rounds fuel.

(** When the machines hand each other their messages directly and complete, the guardians'
    programs complete over the encrypted exchanges, with the same outputs. *)
Lemma protocol_completes r outs :
  (r <= rounds)%nat ->
  mesh_run direct_wire r fuel (imap machine ids) = Some ((fun c => Some (Ok (Ok c))) <$> outs) ->
  exists k, (k <= r)%nat /\
    ceremony k ids (imap (fun i p => protocol_at i p ≫= f i) ids) = imap f outs.
Proof.
  intros Hr Hrun. assert (Hlen : Z.of_nat (length (imap machine ids)) = n) by by rewrite length_imap.
  rewrite <- (mesh_run_same _ _ wire_at direct_wire n) in Hrun;
    [|by apply encrypted_carries; [apply dkg_federation|..]|apply direct_carries|done|done].
  unfold mesh_run in Hrun. rewrite Hlen in Hrun.
  destruct (mesh_start wire_at n fuel (imap machine ids)) as [ts|] eqn:Es; [|done].
  cbn [mbind option_bind] in Hrun.
  destruct (mesh_rounds wire_at n r fuel ts) as [ts'|] eqn:Er; [|done]. simpl in Hrun. injection Hrun as Ho.
  assert (Hl : length ts = length ids).
  { apply length_mapM in Es. rewrite length_zip_with, length_seqZ, length_imap in Es. lia. }
  destruct (driven_finishes wire_at ids fuel f ids_nodup r rounds ts ts' outs Hr Hl Er Ho) as (k & Hk & E).
  exists k. split; [done|]. rewrite <- E. f_equal. apply list_eq. intros i. unfold driven.
  rewrite !list_lookup_imap. destruct (ids !! i) as [p|] eqn:Hp; simpl.
  2:{ apply lookup_ge_None in Hp. by rewrite (lookup_ge_None_2 ts) by lia. }
  destruct (mapM_lookup_i _ _ _ i (Z.of_nat i, machine i p) Es) as (th & -> & Et).
  { apply lookup_zip_Some. split; [apply lookup_seqZ; apply lookup_lt_Some in Hp; lia|].
    by rewrite list_lookup_imap, Hp. }
  simpl. f_equal. unfold protocol_at, run_protocol. cbn [as_my_index as_n as_peer_ids ordered_enc_pks assignment_at].
  unfold dkg_codec, peer_at in *. rewrite Nat2Z.id, Hp in *. simpl in *. by rewrite Et.
Qed.
End protocol.

Definition keygen_machine (i : nat) (p : PeerId) : SMk :=
  keygen eid_keygen (Z.of_nat i) n t (draw_keygen (draws p)).
Definition aux_machine (i : nat) (p : PeerId) : SMa :=
  aux_info_gen eid_aux (Z.of_nat i) n (draw_aux (draws p)).

(** What a guardian does with both outputs. *)
Definition finish (p : PeerId) (core : Core) (aux : Aux) : Gen UsdtConfig :=
  share ← gen_lift (assemble_key_share core aux);
  group ← gen_lift (map_err (fun _ => GroupKeyInvalid) (share_group_key share));
  mret (mkUsdtConfig (mkUsdtConfigPrivate share (draw_sk (draws p)) default_local)
          (consensus_config group (secp_key <$> key_map np enc_pk) t net params)).

Definition guardian (p : PeerId) : Gen UsdtConfig :=
  distributed_gen unsafe_ack np net params rounds fuel (draws p).

Definition after_keygen (i : nat) (core : Core) : Gen UsdtConfig :=
  let p := peer_at (Z.of_nat i) in
  protocol_at eid_aux (fun p => draw_aux_coins (draws p)) aux_machine i p ≫= finish p core.

Lemma first_exchange :
  validate_usdt_params unsafe_ack params = Ok tt ->
  exchange_round ids (guardian <$> ids)
  = imap (fun i p => protocol_at eid_keygen (fun p => draw_keygen_coins (draws p)) keygen_machine i p
                       ≫= after_keygen i) ids.
Proof.
  intros Hv. unfold exchange_round. destruct size_fits as [Hn Ht].
  assert (Hasked : forall l, mapM asked (guardian <$> l) = Some (serialize_pk ∘ enc_pk <$> l)).
  { intros l. apply mapM_Some, Forall2_fmap, Forall_Forall2_diag, Forall_forall. intros p _.
    unfold guardian, distributed_gen, resolve_party_assignment.
    by rewrite Hv, !(proj2 (Z.leb_le _ _)) by done. }
  rewrite Hasked. apply list_eq. intros i. rewrite !list_lookup_fmap, list_lookup_imap.
  destruct (ids !! i) as [p|] eqn:Hp; simpl; [|done]. f_equal.
  unfold guardian, distributed_gen, resolve_party_assignment.
  rewrite Hv, !(proj2 (Z.leb_le _ _)) by done. simpl. rewrite keys_received by done. simpl.
  change (public_key (draw_sk (draws p))) with (enc_pk p). rewrite (assigned np enc_pk) with (i := i) by done.
  simpl. unfold after_keygen, peer_at. by rewrite Nat2Z.id, Hp.
Qed.

Definition config_at (group : PublicKey) (i : nat) (share : KeyShare) : UsdtConfig :=
  mkUsdtConfig (mkUsdtConfigPrivate share (draw_sk (draws (peer_at (Z.of_nat i)))) default_local)
    (consensus_config group (secp_key <$> key_map np enc_pk) t net params).

Lemma finished group i core aux share :
  from_parts core aux = Some share -> share_group_key share = Ok group ->
  finish (peer_at (Z.of_nat i)) core aux = Ret (Ok (config_at group i share)).
Proof. intros Hf Hg. unfold finish, assemble_key_share. rewrite Hf. simpl. by rewrite Hg. Qed.

Lemma configs_agree group shares :
  validate_usdt_params unsafe_ack params = Ok tt -> length shares = length ids ->
  Forall (fun s => share_group_key s = Ok group) shares ->
  federation_config unsafe_ack np params (zip ids (imap (config_at group) shares))
    (consensus_config group (secp_key <$> key_map np enc_pk) t net params).
Proof.
  intros Hv Hlen Hg. apply federation_config_intro; [done|]. apply Forall_forall.
  intros [p cfg] Hin. apply list_elem_of_lookup in Hin as [i Hi].
  apply lookup_zip_Some in Hi as [Hp Hc]. rewrite list_lookup_imap in Hc.
  destruct (shares !! i) as [s|] eqn:Hs; simplify_eq/=. split; [done|].
  rewrite Forall_lookup in Hg. split; [by eapply Hg|]. unfold peer_at. rewrite Nat2Z.id, Hp. simpl.
  rewrite lookup_fmap. assert (key_map np enc_pk !! p = Some (enc_pk p)) as ->; [|done].
  apply key_map_lookup; [done..|]. split; [by eapply list_elem_of_lookup_2|done].
Qed.

(** What the guardians go on with after the second protocol. *)
Definition after_aux (cores : list Core) (i : nat) (aux : Aux) : Gen UsdtConfig :=
  match cores !! i with
  | Some core => finish (peer_at (Z.of_nat i)) core aux
  | None => Ret (Err ProtocolFailed)
  end.

Lemma second_protocol cores :
  length cores = length ids ->
  imap after_keygen cores
  = imap (fun i p => protocol_at eid_aux (fun p => draw_aux_coins (draws p)) aux_machine i p
                       ≫= after_aux cores i) ids.
Proof.
  intros Hlen. apply list_eq. intros i. rewrite !list_lookup_imap.
  destruct (ids !! i) as [p|] eqn:Hp; simpl.
  2:{ apply lookup_ge_None in Hp. by rewrite (lookup_ge_None_2 cores) by lia. }
  destruct (lookup_lt_is_Some_2 cores i) as [core Hc]; [apply lookup_lt_Some in Hp; lia|].
  rewrite Hc. simpl. unfold after_keygen, after_aux, peer_at. rewrite Hc, Nat2Z.id, Hp. done.
Qed.

Lemma all_finished group cores auxs shares :
  length cores = length ids -> length auxs = length ids ->
  zip_with from_parts cores auxs = Some <$> shares ->
  Forall (fun s => share_group_key s = Ok group) shares ->
  imap (after_aux cores) auxs = (fun cfg => Ret (Ok cfg)) <$> imap (config_at group) shares.
Proof.
  intros Hlc Hla Hshares Hgroup. apply list_eq. intros i. rewrite list_lookup_fmap, !list_lookup_imap.
  pose proof (f_equal (.!! i) Hshares) as Ei. simpl in Ei. rewrite lookup_zip_with, list_lookup_fmap in Ei.
  destruct (auxs !! i) as [aux|] eqn:Ha; simpl.
  2:{ destruct (cores !! i); simpl in Ei; destruct (shares !! i); done. }
  destruct (lookup_lt_is_Some_2 cores i) as [core Hc]; [apply lookup_lt_Some in Ha; lia|].
  rewrite Hc in Ei. simpl in Ei. destruct (shares !! i) as [s|] eqn:Hs; simplify_eq/=.
  unfold after_aux. rewrite Hc. f_equal. apply finished; [done|].
  rewrite Forall_lookup in Hgroup. by eapply Hgroup.
Qed.

Hypothesis keygen_messages_encode : forall m : Msgk, is_Some (serde_encode m).
Hypothesis aux_messages_encode : forall m : Msga, is_Some (serde_encode m).
Hypothesis keygen_sends : forall (s s' : SMk) j m,
  proceed s = (SendMsg (OneParty j) m, s') -> 0 <= j < n.
Hypothesis aux_sends : forall (s s' : SMa) j m,
  proceed s = (SendMsg (OneParty j) m, s') -> 0 <= j < n.

(** C8: Distributed key generation ends with a federation.  If CGGMP21's two protocols,
    run with every message handed over directly, complete with shares of one key, then
    the guardians' own programs, which exchange keys, agree on their positions and run
    both protocols over encrypted payloads on the config-generation channel, complete
    too, within one exchange more than the protocols need: every guardian holds its
    share, all write the same consensus configuration with the operator's parameters and
    the federation's threshold, every guardian's encryption key is in it, and every
    configuration passes the check its guardian runs on it. *)
Theorem dkg_makes_a_federation cores auxs shares group rk ra :
  validate_usdt_params unsafe_ack params = Ok tt ->
  (rk <= rounds)%nat -> (ra <= rounds)%nat ->
  mesh_run direct_wire rk fuel (imap keygen_machine ids) = Some ((fun c => Some (Ok (Ok c))) <$> cores) ->
  mesh_run direct_wire ra fuel (imap aux_machine ids) = Some ((fun a => Some (Ok (Ok a))) <$> auxs) ->
  zip_with from_parts cores auxs = Some <$> shares ->
  Forall (fun s => share_group_key s = Ok group) shares ->
  exists k cfgs c, (k <= 1 + rk + ra)%nat /\
    ceremony k ids (guardian <$> ids) = (fun cfg => Ret (Ok cfg)) <$> cfgs /\
    (fun cfg => key_share (private cfg)) <$> cfgs = shares /\
    length cfgs = length ids /\ federation_config unsafe_ack np params (zip ids cfgs) c.
Proof.
  intros Hv Hrk Hra Hk Ha Hshares Hgroup.
  destruct (protocol_completes eid_keygen (fun p => draw_keygen_coins (draws p)) keygen_machine after_keygen
    ltac:(apply sha256_size) keygen_messages_encode keygen_sends rk cores Hrk Hk) as (k1 & Hk1 & E1).
  destruct (protocol_completes eid_aux (fun p => draw_aux_coins (draws p)) aux_machine (after_aux cores)
    ltac:(apply sha256_size) aux_messages_encode aux_sends ra auxs Hra Ha) as (k2 & Hk2 & E2).
  assert (Hlc : length cores = length ids) by
    (apply (f_equal length) in E1; by rewrite length_ceremony, !length_imap in E1).
  assert (Hla : length auxs = length ids) by
    (apply (f_equal length) in E2; by rewrite length_ceremony, !length_imap in E2).
  assert (Hls : length shares = length ids) by
    (apply (f_equal length) in Hshares; rewrite length_zip_with, length_fmap in Hshares; lia).
  exists (1 + k1 + k2)%nat, (imap (config_at group) shares). eexists. split; [lia|]. split_and!.
  - rewrite ceremony_add. change (1 + k1)%nat with (S k1). cbn [ceremony].
    rewrite first_exchange, E1 by done.
    by rewrite second_protocol, E2, (all_finished group cores auxs shares) by done.
  - apply list_eq. intros i. rewrite list_lookup_fmap, list_lookup_imap. by destruct (shares !! i).
  - by rewrite length_imap.
  - by apply configs_agree.
Qed.
End ceremony.

(** ** Three guardians generate a key *)

(** Key generation and auxiliary information are each one round of the example protocol;
    a share joins both sums, and all shares belong to the key 42. *)
Definition toy_keygen_machine : StateMachine ToySm (result string Z) Z := toy_machine 3 Ok.
Definition toy_dkg : @DkgLib ToySm ToySm Z Z Z Z Z toy_crypto toy_key_shares toy_keygen_machine toy_keygen_machine :=
  @Build_DkgLib ToySm ToySm Z Z Z Z Z toy_crypto toy_key_shares toy_keygen_machine toy_keygen_machine
    (fun _ me _ _ rng => mkToySm me (-1) rng 4) (fun _ me _ rng => mkToySm me (-1) rng 4)
    (fun core aux => Some (1000 * core + aux)) (fun b => repeat (foldr Z.add 0 b mod 256) 32).

Section dkg_witness.
#[local] Existing Instance toy_crypto.
#[local] Existing Instance toy_round_crypto_ok.
#[local] Existing Instance toy_key_shares.
#[local] Existing Instance toy_packet.
#[local] Existing Instance toy_packet_ok.
#[local] Existing Instance toy_msg.
#[local] Existing Instance toy_msg_ok.
#[local] Existing Instance toy_keygen_machine.
#[local] Existing Instance toy_dkg.

Definition toy_draws (p : PeerId) : Draws (Rng := Z) :=
  mkDraws (p + 5) (7 * p) (11 * p) (fun r j => (1000 + 10 * p + j, r)) (fun r j => (2000 + 10 * p + j, r)).

Definition toy_guardians : list (Gen UsdtConfig) :=
  guardian false toy_peers 1 UsdtGenParams_default 2 20 toy_draws <$> peer_ids toy_peers.

Definition toy_cores : list Z := [303; 211; 119].
Definition toy_auxs : list Z := [303; 215; 127].
Definition toy_shares : list (@KeyShare toy_crypto toy_key_shares) := [303303; 211215; 119127].

Lemma dkg_makes_a_federation_witness :
  exists k cfgs c, (k <= 1 + 1 + 1)%nat /\
    ceremony k (peer_ids toy_peers) toy_guardians = (fun cfg => Ret (Ok cfg)) <$> cfgs /\
    map (fun cfg => key_share (private cfg)) cfgs = toy_shares /\
    length cfgs = 3%nat /\ federation_config false toy_peers UsdtGenParams_default (zip [0; 1; 2] cfgs) c.
Proof.
  apply (dkg_makes_a_federation false toy_peers 1 UsdtGenParams_default 2 20 toy_draws)
    with (cores := toy_cores) (auxs := toy_auxs) (group := mkPublicKey 42) (rk := 1%nat) (ra := 1%nat).
  - refine (bool_decide_unpack _ _). vm_compute. exact I.
  - refine (bool_decide_unpack _ _). vm_compute. exact I.
  - vm_compute. split; discriminate.
  - reflexivity.
  - intros q. eexists. reflexivity.
  - intros m. eexists. reflexivity.
  - intros m. eexists. reflexivity.
  - exact (toy_sends Ok).
  - exact (toy_sends Ok).
  - exact default_params_safe.
  - lia.
  - lia.
  - vm_compute. reflexivity.
  - vm_compute. reflexivity.
  - vm_compute. reflexivity.
  - repeat constructor.
Defined.
End dkg_witness.
