(* ===== verification/UsdtHandlers.v ===== *)
(** * USDT server: handlers

    [modules/usdt/fedimint-usdt-server/src/lib.rs], second part: transaction
    inputs and outputs, settlement of confirmed operations, refunds, the signing
    protocol's consensus items, replacement of stuck operations, the dispatcher
    of consensus items and the audit. *)

From S2P Require Import Prelude FedimintCore UsdtTypes UsdtEvm UsdtUserOp UsdtSigning UsdtProof.
From S2P Require Import UsdtDb UsdtServer.

(** The reasons for which [process_consensus_item] rejects an item. *)
Inductive ItemError :=
| RedundantBlockCount | UnknownOp | RedundantConfirmation | FeeVoteInsane | RedundantFeeVote
| RedundantBootstrap | NotConfirmationDeep | ObservationTooOld | RedundantBlockHash
| UnknownDepositAccount | NotFullySwept | RedundantResidualVote | ZeroFeeWithdrawal
| ZeroFeeRecipient | RedundantFeeWithdrawalVote | UnsupportedItem
| UnknownSession | NotASigner | WrongRound | BadChunkIndex | ChunkTooLarge | TooManyChunks
| InconsistentChunkCount | RoundTooLarge | RedundantChunk | NotInProgress | NotTimedOut
| AlreadyCompleted | MalformedSignature | BadSignature | NoPendingOp | BadSignatureLength
| SignatureAssembly | AlreadySuperseded | NoFeeMedian | OverCeiling | SweepOverGasCeiling
| NeverRepriced | AlreadyEnqueued.

(** Writes of whole records. *)
Definition put_deposit (k : EvmAddress) (r : DepositRecord) (d : UsdtDb) : UsdtDb :=
  set_deposits (insert k r) d.
Definition put_pool (p : PoolState) (d : UsdtDb) : UsdtDb := set_pool_state (fun _ => Some p) d.
Definition put_wstate (o : OutPoint) (s : WithdrawalState) (d : UsdtDb) : UsdtDb :=
  set_wstates (insert o s) d.

(** [remove_by_prefix] on the two tables with composite keys. *)
Definition remove_confirmed_votes (op_hash : Hash) (d : UsdtDb) : UsdtDb :=
  set_confirmed_votes (filter (fun '((h, _), _) => h ≠ op_hash)) d.
Definition remove_session_chunks (session_id : Hash) (d : UsdtDb) : UsdtDb :=
  set_chunks (filter (fun '((sid, _, _, _), _) => sid ≠ session_id)) d.

Definition timed_out (self : Usdt) (session : SigningSession) (d : UsdtDb) : bool :=
  bool_decide (state session = InProgress)
  && (saturating_add_u64 (last_progress_block session) (timeout_blocks self)
      <? consensus_block_count self d).

(** ** Refunds and settlement of withdrawals *)

Section settlement.
Context `{Evm}.

Definition create_withdrawal_refund (self : Usdt) (out_point : OutPoint) (reason : FailReason)
    (d : UsdtDb) : UsdtDb :=
  match unclaimed d !! out_point with
  | None => put_wstate out_point (WithdrawalFailed reason) d
  | Some withdrawal =>
      let gross := saturating_add_u64 (w_amount withdrawal) (w_max_fee withdrawal) in
      let incurred_gas := Z.min (default 0 (incurred d !! out_point)) gross in
      let refund_amount := saturating_sub gross incurred_gas in
      let pool := pool_or_default self d in
      let d := put_pool (mkPoolState (pool_account_addr pool) (pool_balance pool)
                 (pool_nonce pool) (saturating_add_u64 (accrued_fees pool) incurred_gas)) d in
      let d := set_refunds (insert out_point
                 (mkRefund refund_amount (w_refund_pubkey withdrawal) reason)) d in
      let d := set_unclaimed (delete out_point) d in
      let d := set_incurred (delete out_point) d in
      let d := set_batch_caps (delete out_point) d in
      put_wstate out_point (WithdrawalFailed reason) d
  end.

(** The maximum fees of the batch members still unclaimed. *)
Definition committed_fees (outpoints : list OutPoint) (d : UsdtDb) : Z :=
  foldl (fun acc o => match unclaimed d !! o with
                      | Some w => saturating_add_u64 acc (w_max_fee w)
                      | None => acc end) 0 outpoints.

Definition settle_withdrawal (block : Z) (d : UsdtDb) (out_point : OutPoint) : UsdtDb :=
  let d := put_wstate out_point (Confirmed block) d in
  let d := set_unclaimed (delete out_point) d in
  let d := set_batch_caps (delete out_point) d in
  set_incurred (delete out_point) d.

(** A member's share of the gas a reverted batch burned. *)
Definition gas_share (self : Usdt) (n : nat) (gas_cost_wei : Z) (d : UsdtDb) : UsdtAmount :=
  if (n =? 0)%nat then 0
  else match fee_vote_median self d ≫= fun median =>
               wei_gas_cost_to_usdt gas_cost_wei (usdt_per_eth_e6 median) with
       | Some total => total / Z.of_nat n
       | None => 0
       end.

Definition add_incurred (share : Z) (d : UsdtDb) (out_point : OutPoint) : UsdtDb :=
  set_incurred (insert out_point
    (saturating_add_u64 (default 0 (incurred d !! out_point)) share)) d.

Definition requeue_withdrawal (split_cap : Z) (d : UsdtDb) (out_point : OutPoint) : UsdtDb :=
  let d := put_wstate out_point Queued d in
  set_batch_caps (insert out_point split_cap) d.

Definition apply_withdraw_confirmed (self : Usdt) (outpoints : list OutPoint)
    (obs : UserOpConfirmedObservation) (paid : UsdtAmount) (d : UsdtDb) : UsdtDb :=
  let pool := pool_or_default self d in
  let nonce := u64_add (pool_nonce pool) 1 in
  let pool :=
    if success obs
    then mkPoolState (pool_account_addr pool) (saturating_sub (pool_balance pool) paid) nonce
           (saturating_add_u64 (accrued_fees pool) (committed_fees outpoints d))
    else mkPoolState (pool_account_addr pool) (pool_balance pool) nonce (accrued_fees pool) in
  let d := put_pool pool d in
  let n := length outpoints in
  let split_cap := Z.of_nat (Nat.max (n / 2) 1) in
  if success obs then foldl (settle_withdrawal (block obs)) d outpoints
  else
    let share := gas_share self n (actual_gas_cost_wei obs) d in
    let d := foldl (add_incurred share) d outpoints in
    if (n <=? 1)%nat
    then foldl (fun d o => create_withdrawal_refund self o RevertsInIsolation d) d outpoints
    else foldl (requeue_withdrawal split_cap) d outpoints.

Definition apply_fee_withdrawal_confirmed (self : Usdt) (obs : UserOpConfirmedObservation)
    (paid : UsdtAmount) (d : UsdtDb) : UsdtDb :=
  let pool := pool_or_default self d in
  let nonce := u64_add (pool_nonce pool) 1 in
  let pool :=
    if success obs
    then mkPoolState (pool_account_addr pool) (saturating_sub (pool_balance pool) paid) nonce
           (saturating_sub (accrued_fees pool) paid)
    else mkPoolState (pool_account_addr pool) (pool_balance pool) nonce (accrued_fees pool) in
  let d := put_pool pool d in
  set_withdraw_fees_votes (fun _ => ∅) d.

(** ** Settlement of sweeps *)

Definition bump_nonce (r : DepositRecord) : DepositRecord :=
  mkDepositRecord (rec_claim_pk r) (credited r) (claimed r) (last_observed_block r) (swept r)
    (saturating_add_u64 (rec_nonce r) 1) (fees_accrued r).

Definition mark_swept (amount : UsdtAmount) (r : DepositRecord) : DepositRecord :=
  mkDepositRecord (rec_claim_pk r) (credited r) (claimed r) (last_observed_block r)
    (Z.min (saturating_add_u64 (swept r) amount) (credited r)) (rec_nonce r) 0.

Definition apply_sweep_confirmed (self : Usdt) (source : EvmAddress)
    (obs : UserOpConfirmedObservation) (effective_swept : UsdtAmount) (d : UsdtDb) : UsdtDb :=
  let d :=
    if success obs then
      let pool := pool_or_default self d in
      let accrued := match deposits d !! source with
        | Some record => saturating_add_u64 (accrued_fees pool) (fees_accrued record)
        | None => accrued_fees pool
        end in
      put_pool (mkPoolState (pool_account_addr pool)
        (saturating_add_u64 (pool_balance pool) effective_swept) (pool_nonce pool) accrued) d
    else d in
  match deposits d !! source with
  | Some record =>
      let record := bump_nonce record in
      put_deposit source (if success obs then mark_swept effective_swept record else record) d
  | None => d
  end.

Definition apply_recovery_confirmed (account : EvmAddress) (d : UsdtDb) : UsdtDb :=
  let d := match deposits d !! account with
    | Some record => put_deposit account (bump_nonce record) d
    | None => d
    end in
  set_residual_votes (filter (fun '((a, _), _) => a ≠ account)) d.

(** ** Clearing a nonce chain *)

Definition remove_signing_sessions_for_op (op_hash : Hash) (d : UsdtDb) : UsdtDb :=
  foldl (fun d '(id, session) =>
    if bool_decide (ses_purpose session = UserOp op_hash)
    then remove_session_chunks id (set_sessions (delete id) d) else d)
    d (map_to_list (sessions d)).

Definition same_slot (snd : EvmAddress) (n : Z) (op : UnsignedUserOp) : bool :=
  bool_decide (sender op = snd) && (nonce op =? n).

Definition purge_submitted (snd : EvmAddress) (n : Z) (except_hash : Hash) (d : UsdtDb) : UsdtDb :=
  foldl (fun d '(hash, s) =>
    if bool_decide (hash = except_hash) then d
    else if same_slot snd n (unsigned (signed s))
    then remove_confirmed_votes hash (set_submitted (delete hash) d) else d)
    d (map_to_list (submitted d)).

Definition purge_pending (snd : EvmAddress) (n : Z) (except_hash : Hash) (d : UsdtDb) : UsdtDb :=
  foldl (fun d '(hash, p) =>
    if bool_decide (hash = except_hash) then d
    else if same_slot snd n (p_op p)
    then remove_signing_sessions_for_op hash (set_pending (delete hash) d) else d)
    d (map_to_list (pending d)).

Definition purge_user_op_nonce_chain (snd : EvmAddress) (n : Z) (except_hash : Hash) (d : UsdtDb)
    : UsdtDb :=
  purge_pending snd n except_hash (purge_submitted snd n except_hash d).

(** ** Applying a threshold-agreed confirmation *)

(** The amount the operation's own calldata commits to. *)
Definition expected_swept (s : SubmittedUserOp) : result OpDecodeError UsdtAmount :=
  match s_purpose s with
  | DeployAndSweep _ => decode_transfer_amount (unsigned (signed s))
  | Withdraw _ | WithdrawFees _ _ => decode_batch_transfer_total (unsigned (signed s))
  | RecoverResidualOp _ => Ok 0
  end.

(** [None]: the observation contradicts the calldata, nothing is applied. *)
Definition effective_swept (s : SubmittedUserOp) (obs : UserOpConfirmedObservation)
    : option UsdtAmount :=
  if success obs then
    match expected_swept s with
    | Ok expected => if expected =? obs_swept obs then Some expected else None
    | Err _ => None
    end
  else Some 0.

(** The branch for the operation's purpose, with the account to sweep again. *)
Definition apply_purpose (self : Usdt) (s : SubmittedUserOp) (obs : UserOpConfirmedObservation)
    (amount : UsdtAmount) (d : UsdtDb) : UsdtDb * option EvmAddress :=
  match s_purpose s with
  | DeployAndSweep _ =>
      let source := sender (unsigned (signed s)) in
      (apply_sweep_confirmed self source obs amount d,
       if success obs then Some source else None)
  | Withdraw outpoints => (apply_withdraw_confirmed self outpoints obs amount d, None)
  | WithdrawFees _ _ => (apply_fee_withdrawal_confirmed self obs amount d, None)
  | RecoverResidualOp account => (apply_recovery_confirmed account d, Some account)
  end.

Definition apply_user_op_confirmed (self : Usdt) (op_hash : Hash)
    (obs : UserOpConfirmedObservation) (d : UsdtDb) : UsdtDb :=
  match submitted d !! op_hash with
  | None => remove_confirmed_votes op_hash d
  | Some s =>
      match effective_swept s obs with
      | None => d
      | Some amount =>
          let '(d, retrigger_source) := apply_purpose self s obs amount d in
          let d := set_submitted (delete op_hash) d in
          let d := remove_confirmed_votes op_hash d in
          let op := unsigned (signed s) in
          let d := purge_user_op_nonce_chain (sender op) (nonce op) op_hash d in
          match retrigger_source with
          | Some source => maybe_trigger_sweep self source d
          | None => d
          end
      end
  end.
End settlement.

(** ** Transaction inputs and outputs *)

Section transactions.
Context `{Evm} `{StateTrie} `{AmountsOps}.

Definition process_deposit_proof (self : Usdt) (claim_pk : PublicKey) (proof : DepositProof)
    (fee : UsdtAmount) : M UsdtDb UsdtInputError InputMeta :=
  d ← get;
  let account := derive_deposit_account (group_public_key (cfg self))
    (account_factory (cfg self)) (simple_account_impl (cfg self)) claim_pk in
  expected ← lift (ok_or (ring_hash_at d (block_number proof))
               (DepositProofNotAnchored (block_number proof)));
  proven ← lift (map_err (fun _ => DepositProofInvalid)
             (verify_deposit_proof proof expected (usdt_contract (cfg self)) account));
  let record := default (mkDepositRecord claim_pk 0 0 0 0 0 0) (deposits d !! account) in
  let delta := saturating_sub proven (credited record) in
  reject_if (delta =? 0) (DepositProofStale proven (credited record));;
  median ← lift (ok_or (fee_vote_median self d) InputNoFeeQuoteAvailable);
  quote ← lift (ok_or (deposit_fee_quote median) InputFeeQuoteOverflow);
  reject_if (fee <? quote) (DepositFeeInsufficient quote fee);;
  reject_if (delta <=? fee) (FeeExceedsAmount delta fee);;
  let record := mkDepositRecord (rec_claim_pk record) proven
    (saturating_add_u64 (claimed record) delta) (block_number proof) (swept record)
    (rec_nonce record) (saturating_add_u64 (fees_accrued record) fee) in
  modify (put_deposit account record);;
  modify (maybe_trigger_sweep self account);;
  mret (mkInputMeta (mkTransactionItemAmounts (new_custom USDT_UNIT delta)
                       (new_custom USDT_UNIT fee)) claim_pk).

Definition process_refund (out_point : OutPoint) : M UsdtDb UsdtInputError InputMeta :=
  refund ← gets (fun d => refunds d !! out_point);
  refund ← lift (ok_or refund UnknownRefund);
  modify (set_refunds (delete out_point));;
  mret (mkInputMeta (mkTransactionItemAmounts (new_custom USDT_UNIT (r_amount refund))
                       Amounts_ZERO) (r_refund_pubkey refund)).

Definition process_input (self : Usdt) (input : UsdtInput)
    : M UsdtDb UsdtInputError InputMeta :=
  match input with
  | RefundV0 out_point => process_refund out_point
  | DepositProofV0 claim_pk proof fee => process_deposit_proof self claim_pk proof fee
  | InputDefault _ _ => fail UnsupportedInputVariant
  end.

Definition process_output (self : Usdt) (output : UsdtOutput) (out_point : OutPoint)
    : M UsdtDb UsdtOutputError TransactionItemAmounts :=
  match output with
  | OutputDefault _ _ => fail UnsupportedOutputVariant
  | OutputV0 withdrawal =>
      d ← get;
      median ← lift (ok_or (fee_vote_median self d) OutputNoFeeQuoteAvailable);
      quote ← lift (ok_or (withdrawal_fee_quote median) OutputFeeQuoteOverflow);
      reject_if (out_max_fee withdrawal <? quote)
        (FeeQuoteExceeded quote (out_max_fee withdrawal));;
      modify (set_unclaimed (insert out_point (mkUsdtWithdrawalV0 (out_recipient withdrawal)
        (out_amount withdrawal) (out_max_fee withdrawal) (consensus_block_count self d)
        (out_refund_pubkey withdrawal))));;
      modify (put_wstate out_point Queued);;
      mret (mkTransactionItemAmounts (new_custom USDT_UNIT (out_amount withdrawal))
              (new_custom USDT_UNIT (out_max_fee withdrawal)))
  end.

Definition output_status (d : UsdtDb) (out_point : OutPoint) : bool :=
  bool_decide (is_Some (wstates d !! out_point)).
End transactions.

(** ** Audit *)

(** [i64::try_from(x).unwrap_or(i64::MAX)]. *)
Definition clamp_i64 (x : Z) : Z := default I64_MAX (try_i64 x).

Definition audit (d : UsdtDb) : list Z :=
  ((fun v => clamp_i64 (saturating_sub (credited v) (swept v))) <$> values (deposits d))
  ++ (match pool_state d with Some v => [clamp_i64 (pool_balance v)] | None => [] end)
  ++ ((fun v => - clamp_i64 (w_amount v)) <$> values (unclaimed d))
  ++ ((fun v => - clamp_i64 (r_amount v)) <$> values (refunds d)).

(** ** The signing protocol's items *)

Section signing.
Context `{Evm}.

Definition peer_round_chunks (session_id : Hash) (round : Z) (peer : PeerId) (d : UsdtDb)
    : list (Z * MpcRoundChunk) :=
  omap (fun '((sid, r, p, idx), c) =>
      if bool_decide (sid = session_id) && (r =? round) && (p =? peer) then Some (idx, c) else None)
    (map_to_list (chunks d)).

Definition idx_le (a b : Z * MpcRoundChunk) : Prop := a.1 <= b.1.
#[export] Instance idx_le_dec : RelDecision idx_le.
Proof. intros a b. unfold idx_le. apply _. Defined.

(** Whether every chunk [0 .. count] of the peer's payload is there. *)
Definition peer_complete (session_id : Hash) (round : Z) (d : UsdtDb) (peer : PeerId) : bool :=
  let peer_chunks := merge_sort idx_le (peer_round_chunks session_id round peer d) in
  match peer_chunks with
  | [] => false
  | (_, first) :: _ =>
      let count := chunk_count first in
      (count =? Z.of_nat (length peer_chunks))
      && forallb (fun i => bool_decide (i ∈ peer_chunks.*1)) (seqZ 0 count)
  end.

(** The payload a guardian hands to its signer: the chunks in ascending order. *)
Definition reassembled (session_id : Hash) (round : Z) (d : UsdtDb) (peer : PeerId) : bytes :=
  concat (chunk_bytes <$> (merge_sort idx_le (peer_round_chunks session_id round peer d)).*2).

Definition advance_round (self : Usdt) (session : SigningSession) (d : UsdtDb) : SigningSession :=
  mkSigningSession (ses_purpose session) (digest session) (signers session)
    (u16_add (round session) 1) (state session) (attempt session) (consensus_block_count self d).

Definition process_mpc_round (self : Usdt) (item : MpcRoundItem) (peer : PeerId)
    : M UsdtDb ItemError unit :=
  let sid := mpc_session_id item in
  let payload_len := Z.of_nat (length (mpc_payload item)) in
  d ← get;
  session ← lift (ok_or (sessions d !! sid) UnknownSession);
  ensure (bool_decide (peer ∈ signers session)) NotASigner;;
  ensure (mpc_round item =? round session) WrongRound;;
  ensure ((1 <=? mpc_chunk_count item) && (mpc_chunk item <? mpc_chunk_count item)) BadChunkIndex;;
  ensure (payload_len <=? MPC_ROUND_CHUNK_SIZE) ChunkTooLarge;;
  ensure (mpc_chunk_count item <=? MAX_MPC_CHUNKS) TooManyChunks;;
  let existing := (peer_round_chunks sid (mpc_round item) peer d).*2 in
  ensure (forallb (fun c => chunk_count c =? mpc_chunk_count item) existing) InconsistentChunkCount;;
  let stored_bytes :=
    foldl (fun acc c => saturating_add_u64 acc (Z.of_nat (length (chunk_bytes c)))) 0 existing in
  ensure (saturating_add_u64 stored_bytes payload_len <=? MAX_MPC_ROUND_BYTES) RoundTooLarge;;
  let key := (sid, mpc_round item, peer, mpc_chunk item) in
  modify (set_chunks (insert key (mkMpcRoundChunk (mpc_chunk_count item) (mpc_payload item))));;
  reject_if (bool_decide (is_Some (chunks d !! key))) RedundantChunk;;
  modify (fun d =>
    if forallb (peer_complete sid (mpc_round item) d) (signers session)
    then set_sessions (insert sid (advance_round self session d)) d else d).

Definition with_state (s : SessionState) (session : SigningSession) : SigningSession :=
  mkSigningSession (ses_purpose session) (digest session) (signers session) (round session) s
    (attempt session) (last_progress_block session).

Definition process_rotate_signing (self : Usdt) (session_id : Hash) : M UsdtDb ItemError unit :=
  d ← get;
  session ← lift (ok_or (sessions d !! session_id) UnknownSession);
  ensure (bool_decide (state session = InProgress)) NotInProgress;;
  ensure (timed_out self session d) NotTimedOut;;
  modify (set_sessions (insert session_id (with_state SessionFailed session)));;
  modify (remove_session_chunks session_id);;
  modify (start_session self (ses_purpose session) (digest session) (u32_add (attempt session) 1)).

Definition process_mpc_signature (self : Usdt) (session_id : Hash) (signature : bytes)
    : M UsdtDb ItemError unit :=
  d ← get;
  session ← lift (ok_or (sessions d !! session_id) UnknownSession);
  reject_if (match state session with Completed _ => true | _ => false end) AlreadyCompleted;;
  ensure (signature_from_compact signature) MalformedSignature;;
  ensure (verify_ecdsa (digest session) signature (group_public_key (cfg self))) BadSignature;;
  let 'UserOp op_hash := ses_purpose session in
  p ← lift (ok_or (pending d !! op_hash) NoPendingOp);
  ensure (length signature =? 64)%nat BadSignatureLength;;
  eth_sig ← lift (ok_or (assemble_eth_signature signature (digest session)
              (evm_address (group_public_key (cfg self)))) SignatureAssembly);
  modify (set_sessions (insert session_id (with_state (Completed signature) session)));;
  modify (set_submitted (insert op_hash (mkSubmittedUserOp (mkSignedUserOp (p_op p) eth_sig)
            (p_purpose p) (consensus_block_count self d) false)));;
  modify (set_pending (delete op_hash));;
  modify (remove_session_chunks session_id).

(** ** Replacement of stuck operations *)

Definition withdraw_reprice_over_ceiling (s : SubmittedUserOp) (median : FeeVote) (d : UsdtDb)
    : bool :=
  match s_purpose s with
  | Withdraw outpoints =>
      let gas_cost_wei := re_gas_cost_wei (repriced_user_op_fees (unsigned (signed s)) median) in
      let ceiling := committed_fees outpoints d in
      match wei_gas_cost_to_usdt gas_cost_wei (usdt_per_eth_e6 median) with
      | Some cost => ceiling <? cost
      | None => true
      end
  | _ => false
  end.

Definition reprice (op : UnsignedUserOp) (f : RepricedUserOpFees) : UnsignedUserOp :=
  mkUnsignedUserOp (sender op) (nonce op) (init_code op) (call_data op)
    (verification_gas_limit op) (call_gas_limit op) (pre_verification_gas op)
    (re_max_priority_fee_per_gas f) (re_max_fee_per_gas f) (paymaster_and_data op).

Definition submitted_op_timed_out (self : Usdt) (s : SubmittedUserOp) (d : UsdtDb) : bool :=
  saturating_add_u64 (submitted_block s) (submitted_op_timeout_blocks self)
    <? consensus_block_count self d.

(** The policy for the operation's purpose. *)
Definition replaceable (s : SubmittedUserOp) (median : FeeVote) (fees : RepricedUserOpFees)
    (d : UsdtDb) : result ItemError unit :=
  match s_purpose s with
  | Withdraw _ => check (negb (withdraw_reprice_over_ceiling s median d)) OverCeiling
  | DeployAndSweep _ =>
      check (re_max_fee_per_gas fees <=? SWEEP_MAX_FEE_PER_GAS_WEI) SweepOverGasCeiling
  | RecoverResidualOp _ | WithdrawFees _ _ => Err NeverRepriced
  end.

Definition mark_superseded (s : SubmittedUserOp) : SubmittedUserOp :=
  mkSubmittedUserOp (signed s) (s_purpose s) (submitted_block s) true.

Definition process_replace_user_op (self : Usdt) (op_hash : Hash) : M UsdtDb ItemError unit :=
  d ← get;
  s ← lift (ok_or (submitted d !! op_hash) UnknownOp);
  reject_if (superseded s) AlreadySuperseded;;
  ensure (submitted_op_timed_out self s d) NotTimedOut;;
  median ← lift (ok_or (fee_vote_median self d) NoFeeMedian);
  let old := unsigned (signed s) in
  let fees := repriced_user_op_fees old median in
  let new_op := reprice old fees in
  lift (replaceable s median fees d);;
  let new_hash := op_hash_of self new_op in
  reject_if (op_known new_hash d) AlreadyEnqueued;;
  modify (set_pending (insert new_hash
    (mkPendingUserOp new_op (s_purpose s) (consensus_block_count self d))));;
  modify (fun d => match s_purpose s with
    | Withdraw outpoints => foldl (fun d o => put_wstate o (Signing new_hash) d) d outpoints
    | _ => d
    end);;
  modify (set_submitted (insert op_hash (mark_superseded s)));;
  modify (start_session self (UserOp new_hash) (eth_signed_message_hash new_hash) 0).
End signing.

(** ** Consensus items *)

Section items.
Context `{Evm}.

Definition process_block_count (self : Usdt) (vote : Z) (peer : PeerId) : M UsdtDb ItemError unit :=
  current_vote ← gets (fun d => default 0 (block_count_votes d !! peer));
  ensure (current_vote <? vote) RedundantBlockCount;;
  modify (set_block_count_votes (insert peer vote));;
  modify (maybe_trigger_withdrawal_batch self).

Definition votes_on_op (op_hash : Hash) (d : UsdtDb) : list UserOpConfirmedObservation :=
  omap (fun '((h, _), v) => if bool_decide (h = op_hash) then Some v else None)
    (map_to_list (confirmed_votes d)).

Definition process_user_op_confirmed (self : Usdt) (op_hash : Hash)
    (obs : UserOpConfirmedObservation) (peer : PeerId) : M UsdtDb ItemError unit :=
  d ← get;
  ensure (bool_decide (is_Some (submitted d !! op_hash))) UnknownOp;;
  modify (set_confirmed_votes (insert (op_hash, peer) obs));;
  reject_if (bool_decide (confirmed_votes d !! (op_hash, peer) = Some obs)) RedundantConfirmation;;
  modify (fun d =>
    let agreeing := length (filter (obs =.) (votes_on_op op_hash d)) in
    if (threshold (num_peers self) <=? agreeing)%nat
    then apply_user_op_confirmed self op_hash obs d else d).

Definition process_fee_vote (self : Usdt) (vote : FeeVote) (peer : PeerId)
    : M UsdtDb ItemError unit :=
  ensure (fee_vote_in_sane_range vote) FeeVoteInsane;;
  d ← get;
  let current_block := consensus_block_count self d in
  let is_redundant := match fee_votes d !! peer with
    | Some stored => bool_decide (sfv_vote stored = vote)
        && (saturating_sub current_block (recorded_block stored) <? FEE_VOTE_REFRESH_BLOCKS)
    | None => false
    end in
  reject_if is_redundant RedundantFeeVote;;
  modify (set_fee_votes (insert peer (mkStoredFeeVote vote current_block))).

Definition process_bootstrap_observation (self : Usdt) (obs : BootstrapObservation) (peer : PeerId)
    : M UsdtDb ItemError unit :=
  previous ← gets (fun d => bootstrap_votes d !! peer);
  modify (set_bootstrap_votes (insert peer obs));;
  reject_if (bool_decide (previous = Some obs)) RedundantBootstrap;;
  modify (fun d => if bootstrap_ready self d && negb (has_ever_been_ready d)
                   then set_has_ever_been_ready (fun _ => true) d else d).

Definition process_block_hash (self : Usdt) (obs : BlockHashObservation) (peer : PeerId)
    : M UsdtDb ItemError unit :=
  d ← get;
  let depth := confirmation_depth (cfg self) in
  let ccount := consensus_block_count self d in
  ensure (obs_height obs <=? saturating_sub ccount depth) NotConfirmationDeep;;
  ensure (saturating_sub ccount (obs_height obs) <=? u64_add depth DEPOSIT_VOTE_MAX_AGE_BLOCKS)
    ObservationTooOld;;
  modify (set_block_hash_votes (insert peer obs));;
  reject_if (bool_decide (block_hash_votes d !! peer = Some obs)) RedundantBlockHash;;
  modify (fun d =>
    let agreeing := length (filter (obs =.) (values (block_hash_votes d))) in
    if (threshold (num_peers self) <=? agreeing)%nat
    then write_block_hash_ring (obs_height obs) (obs_block_hash obs) d else d).

Definition process_recover_residual (self : Usdt) (account : EvmAddress) (deposit_wei : Z)
    (peer : PeerId) : M UsdtDb ItemError unit :=
  d ← get;
  record ← lift (ok_or (deposits d !! account) UnknownDepositAccount);
  ensure ((0 <? credited record) && (swept record =? credited record)) NotFullySwept;;
  modify (set_residual_votes (insert (account, peer) deposit_wei));;
  reject_if (bool_decide (residual_votes d !! (account, peer) = Some deposit_wei))
    RedundantResidualVote;;
  modify (maybe_trigger_residual_recovery self account).

Definition process_withdraw_fees_vote (self : Usdt) (vote : WithdrawFeesVote) (peer : PeerId)
    : M UsdtDb ItemError unit :=
  ensure (0 <? wfv_amount vote) ZeroFeeWithdrawal;;
  ensure (is_dev_chain (chain_id (cfg self)) || bool_decide (wfv_recipient vote ≠ zero_address))
    ZeroFeeRecipient;;
  previous ← gets (fun d => withdraw_fees_votes d !! peer);
  modify (set_withdraw_fees_votes (insert peer vote));;
  reject_if (bool_decide (previous = Some vote)) RedundantFeeWithdrawalVote;;
  modify (maybe_trigger_fee_withdrawal self).

Definition process_consensus_item (self : Usdt) (item : UsdtConsensusItem) (peer : PeerId)
    : M UsdtDb ItemError unit :=
  match item with
  | BlockCount vote => process_block_count self vote peer
  | MpcRound item => process_mpc_round self item peer
  | RotateSigning session_id => process_rotate_signing self session_id
  | ReplaceUserOp op_hash => process_replace_user_op self op_hash
  | MpcSignature session_id signature => process_mpc_signature self session_id signature
  | UserOpConfirmed op_hash success block block_hash swept gas =>
      process_user_op_confirmed self op_hash
        (mkUserOpConfirmedObservation success block block_hash swept gas) peer
  | FeeVoteItem vote => process_fee_vote self vote peer
  | BootstrapObservationItem obs => process_bootstrap_observation self obs peer
  | BlockHash obs => process_block_hash self obs peer
  | RecoverResidual account deposit_wei => process_recover_residual self account deposit_wei peer
  | WithdrawFeesVoteItem vote => process_withdraw_fees_vote self vote peer
  | ConsensusItemDefault _ _ => fail UnsupportedItem
  end.
End items.
