(* ===== verification/UsdtLedger.v ===== *)
(** * The USDT books

    The accounting invariant of the USDT server: what the federation holds on
    chain equals what it owes, and every live user operation moves only what the
    books have set aside for it.  This file states the invariant and shows that
    the triggers and the operation tables respect it; the handlers follow in
    [UsdtSolvency]. *)

From S2P Require Import Prelude FedimintCore UsdtTypes UsdtEvm UsdtUserOp UsdtSigning UsdtProof.
From S2P Require Import UsdtDb UsdtServer UsdtHandlers.

(** ** The books *)

Definition total_credited (d : UsdtDb) : Z := map_sum (fun _ r => credited r) (deposits d).
(** Token still in deposit accounts. *)
Definition unswept (d : UsdtDb) : Z := map_sum (fun _ r => credited r - swept r) (deposits d).
(** Deposit fees whose sweep has not landed. *)
Definition deposit_fees (d : UsdtDb) : Z := map_sum (fun _ r => fees_accrued r) (deposits d).
Definition queued_value (d : UsdtDb) : Z :=
  map_sum (fun _ w => w_amount w + w_max_fee w) (unclaimed d).
Definition refund_value (d : UsdtDb) : Z := map_sum (fun _ r => r_amount r) (refunds d).
Definition balance (d : UsdtDb) : Z := default 0 (pool_balance <$> pool_state d).
Definition accrued (d : UsdtDb) : Z := default 0 (accrued_fees <$> pool_state d).

(** What the federation holds, and what it owes besides the e-cash in circulation:
    withdrawals being paid with the fees their users committed, refunds not yet
    claimed, and the guardians' fee revenue. *)
Definition assets (d : UsdtDb) : Z := unswept d + balance d.
Definition obligations (d : UsdtDb) : Z :=
  queued_value d + refund_value d + accrued d + deposit_fees d.

(** ** Live operations *)

(** An operation in one of the two tables; the flag tells them apart. *)
Definition live (d : UsdtDb) (h : Hash) (is_submitted : bool) (op : UnsignedUserOp)
    (p : UserOpPurpose) : Prop :=
  if is_submitted
  then exists s, submitted d !! h = Some s /\ unsigned (signed s) = op /\ s_purpose s = p
  else exists q, pending d !! h = Some q /\ p_op q = op /\ p_purpose q = p.

(** Operations that draw on the same funds. *)
Definition same_class (p q : UserOpPurpose) : Prop :=
  (is_pool_op p = true /\ is_pool_op q = true) \/
  exists a, p = DeployAndSweep a /\ q = DeployAndSweep a.

Definition amount_sum (d : UsdtDb) (os : list OutPoint) : Z :=
  foldr (fun o acc => default 0 (w_amount <$> unclaimed d !! o) + acc) 0 os.
Definition max_fee_sum (d : UsdtDb) (os : list OutPoint) : Z :=
  foldr (fun o acc => default 0 (w_max_fee <$> unclaimed d !! o) + acc) 0 os.

Section ledger.
Context `{AbiOk}.

(** What an operation of each purpose moves is covered by the books. *)
Definition op_ok (d : UsdtDb) (p : UserOpPurpose) (op : UnsignedUserOp) : Prop :=
  match p with
  | DeployAndSweep a =>
      sender op = a /\ exists r, deposits d !! a = Some r /\
        forall x, decode_transfer_amount op = Ok x -> 0 <= x <= credited r - swept r
  | Withdraw os =>
      NoDup os /\ (forall o, o ∈ os -> is_Some (unclaimed d !! o)) /\
      forall x, decode_batch_transfer_total op = Ok x -> x = amount_sum d os /\ x <= balance d
  | WithdrawFees _ _ =>
      forall x, decode_batch_transfer_total op = Ok x -> 0 <= x <= balance d /\ x <= accrued d
  | RecoverResidualOp _ => True
  end.

Definition same_nonce_slot (op op' : UnsignedUserOp) : Prop :=
  sender op = sender op' /\ nonce op = nonce op'.

Record ops_inv (d : UsdtDb) : Prop := {
  ops_covered h b op p : live d h b op p -> op_ok d p op;
  ops_slot h b op p h' b' op' p' :
    live d h b op p -> live d h' b' op' p' -> same_class p p' -> same_nonce_slot op op';
  ops_disjoint h op p op' p' :
    live d h false op p -> live d h true op' p' -> ~ same_class p p';
}.

Record record_ok (r : DepositRecord) : Prop := {
  rec_swept : 0 <= swept r <= credited r;
  rec_fees : 0 <= fees_accrued r <= credited r;
  rec_credited : credited r <= U64_MAX;
  rec_claimed : claimed r = credited r;
}.

(** The withdrawal lifecycle: an out point is unclaimed exactly while it is queued
    or being signed, a refund exists only for a failed one, and no withdrawal is
    ever in the state [Submitted]. *)
Definition lifecycle_ok (d : UsdtDb) (o : OutPoint) : Prop :=
  match wstates d !! o with
  | None => unclaimed d !! o = None /\ refunds d !! o = None
  | Some Queued | Some (Signing _) => is_Some (unclaimed d !! o) /\ refunds d !! o = None
  | Some (WithdrawalSubmitted _) => False
  | Some (Confirmed _) => unclaimed d !! o = None /\ refunds d !! o = None
  | Some (WithdrawalFailed _) => unclaimed d !! o = None
  end.

Record books_core (d : UsdtDb) (issued : Z) : Prop := {
  inv_books : assets d = issued + obligations d;
  inv_issued : 0 <= issued;
  inv_records : map_Forall (fun _ r => record_ok r) (deposits d);
  inv_balance : 0 <= balance d;
  inv_accrued : 0 <= accrued d;
  inv_held : assets d <= total_credited d;
  inv_unclaimed : map_Forall (fun _ w => 0 <= w_amount w /\ 0 <= w_max_fee w) (unclaimed d);
  inv_refunds : map_Forall (fun _ r => 0 <= r_amount r) (refunds d);
  inv_incurred : map_Forall (fun _ x => 0 <= x) (incurred d);
  inv_fee_votes : map_Forall (fun _ v => fee_vote_in_sane_range (sfv_vote v) = true) (fee_votes d);
  inv_fee_withdrawals : map_Forall (fun _ v => 0 < wfv_amount v) (withdraw_fees_votes d);
  inv_lifecycle o : lifecycle_ok d o;
}.

Record books_inv (d : UsdtDb) (issued : Z) : Prop := {
  inv_core :> books_core d issued;
  inv_ops : ops_inv d;
}.

(** ** Live operations under table updates *)

(** Fewer operations against books that still cover them. *)
Lemma ops_inv_shrink d d' :
  ops_inv d ->
  (forall h b op p, live d' h b op p -> live d h b op p) ->
  (forall h b op p, live d' h b op p -> op_ok d p op -> op_ok d' p op) ->
  ops_inv d'.
Proof.
  intros [Hc Hs Hd] Hsub Hok. split; eauto.
Qed.

Lemma same_class_sym p q : same_class p q -> same_class q p.
Proof. intros [[]|(a & -> & ->)]; [left|right]; eauto. Qed.

Lemma live_pending_insert d h q h' b op p :
  live (set_pending (insert h q) d) h' b op p ->
  (h' = h /\ b = false /\ op = p_op q /\ p = p_purpose q) \/ live d h' b op p.
Proof.
  destruct b; simpl; [by right|]. intros (q' & Hq & <- & <-).
  rewrite lookup_insert in Hq. case_decide; simplify_eq; [by left|right; eauto].
Qed.

(** Enqueuing an operation when none of its class is live. *)
Lemma ops_inv_enqueue d h q :
  ops_inv d -> op_ok d (p_purpose q) (p_op q) ->
  (forall h' b op p, live d h' b op p -> ~ same_class (p_purpose q) p) ->
  ops_inv (set_pending (insert h q) d).
Proof.
  intros [Hc Hs Hd] Hok Hnone. split.
  - intros h' b op p [(_ & _ & -> & ->)|Hl]%live_pending_insert; [done|]. by eapply Hc in Hl.
  - intros h1 b1 op1 p1 h2 b2 op2 p2 [(_ & _ & -> & ->)|Hl1]%live_pending_insert
      [(_ & _ & -> & ->)|Hl2]%live_pending_insert Hsc; [done| | |by eapply Hs].
    + by destruct (Hnone _ _ _ _ Hl2).
    + destruct (Hnone _ _ _ _ Hl1). by apply same_class_sym.
  - intros h' op p op' p' [(_ & _ & -> & ->)|Hl]%live_pending_insert Hl'; [|by eapply Hd].
    destruct Hl' as (s & ? & <- & <-). apply (Hnone h' true (unsigned (signed s)) (s_purpose s)).
    simpl. eauto.
Qed.

(** Enqueuing a copy of a live operation in its nonce slot, under a new hash. *)
Lemma ops_inv_replace d h q h0 op0 :
  ops_inv d -> live d h0 true op0 (p_purpose q) ->
  submitted d !! h = None -> same_nonce_slot (p_op q) op0 -> op_ok d (p_purpose q) (p_op q) ->
  ops_inv (set_pending (insert h q) d).
Proof.
  intros [Hc Hs Hd] Hl0 Hh [Es En] Hok. split.
  - intros h' b op p [(_ & _ & -> & ->)|Hl]%live_pending_insert; [done|]. by eapply Hc in Hl.
  - intros h1 b1 op1 p1 h2 b2 op2 p2 [(_ & _ & -> & ->)|Hl1]%live_pending_insert
      [(_ & _ & -> & ->)|Hl2]%live_pending_insert Hsc; [done| | |by eapply Hs].
    + destruct (Hs _ _ _ _ _ _ _ _ Hl0 Hl2 Hsc). split; congruence.
    + destruct (Hs _ _ _ _ _ _ _ _ Hl1 Hl0 Hsc). split; congruence.
  - intros h' op p op' p' [(-> & _ & -> & ->)|Hl]%live_pending_insert Hl'; [|by eapply Hd].
    destruct Hl' as (s & Hs' & _). simpl in Hs'. congruence.
Qed.

(** A signed operation moves from the pending to the submitted table. *)
Lemma ops_inv_sign d h q s :
  ops_inv d -> pending d !! h = Some q ->
  unsigned (signed s) = p_op q -> s_purpose s = p_purpose q ->
  ops_inv (set_pending (delete h) (set_submitted (insert h s) d)).
Proof.
  intros [Hc Hs Hd] Hq Eop Ep.
  assert (Hsub : forall h' b op p,
    live (set_pending (delete h) (set_submitted (insert h s) d)) h' b op p ->
    (h' = h /\ b = true /\ live d h false op p) \/
    ((b = false -> h' <> h) /\ live d h' b op p)).
  { intros h' [] op p; simpl.
    - intros (s' & Hs' & <- & <-). rewrite lookup_insert in Hs'.
      case_decide; simplify_eq; [left|right; eauto]. split; [done|]. split; [done|].
      exists q. by rewrite Eop, Ep.
    - intros (q' & Hq' & <- & <-). apply lookup_delete_Some in Hq' as [Hne Hq'].
      right. split; [done|]. eauto. }
  split.
  - intros h' b op p [(-> & -> & Hl)|[_ Hl]]%Hsub; apply Hc in Hl; exact Hl.
  - intros h1 b1 op1 p1 h2 b2 op2 p2 [(-> & -> & Hl1)|[_ Hl1]]%Hsub
      [(-> & -> & Hl2)|[_ Hl2]]%Hsub Hsc; by eapply Hs.
  - intros h' op p op' p' [(_ & ? & _)|[Hne Hl]]%Hsub; [done|].
    intros [(-> & _ & _)|[_ Hl']]%Hsub; [by destruct (Hne eq_refl)|]. by eapply Hd.
Qed.

(** ** In-flight checks *)

Lemma elem_of_values {K V} `{Countable K} (m : gmap K V) v :
  v ∈ values m <-> exists k, m !! k = Some v.
Proof.
  unfold values. rewrite list_elem_of_fmap. split.
  - intros ([k v'] & -> & Hin). apply elem_of_map_to_list in Hin. eauto.
  - intros [k Hk]. exists (k, v). by rewrite elem_of_map_to_list.
Qed.

Lemma op_in_flight_false f d h b op p :
  op_in_flight f d = false -> live d h b op p -> f p = false.
Proof.
  unfold op_in_flight. rewrite orb_false_iff. intros [Hp Hs] Hl.
  destruct b; simpl in Hl.
  - destruct Hl as (s & Hl & _ & <-). apply not_true_iff_false. intros E.
    assert (existsb (fun s => f (s_purpose s)) (values (submitted d)) = true) as Hx;
      [|congruence]. apply existsb_exists. exists s. split; [|done].
    apply list_elem_of_In, elem_of_values. eauto.
  - destruct Hl as (q & Hl & _ & <-). apply not_true_iff_false. intros E.
    assert (existsb (fun p => f (p_purpose p)) (values (pending d)) = true) as Hx;
      [|congruence]. apply existsb_exists. exists q. split; [|done].
    apply list_elem_of_In, elem_of_values. eauto.
Qed.

Lemma no_pool_op_live d h b op p q :
  withdraw_batch_in_flight d = false -> is_pool_op q = true -> live d h b op p ->
  ~ same_class q p.
Proof.
  intros Hf Hq Hl. apply (op_in_flight_false is_pool_op) in Hl; [|done].
  intros [[_ ?]|(a & -> & ->)]; [congruence|done].
Qed.

Lemma no_sweep_live d h b op p a :
  deploy_and_sweep_in_flight a d = false -> live d h b op p ->
  ~ same_class (DeployAndSweep a) p.
Proof.
  intros Hf Hl. apply (op_in_flight_false (is_sweep_of a)) in Hl; [|done].
  intros [[? _]|(a' & E & ->)]; [done|]. simplify_eq. simpl in Hl.
  by rewrite bool_decide_eq_true_2 in Hl.
Qed.

(** ** Frames *)

(** The tables the books are read from. *)
Record same_books (d d' : UsdtDb) : Prop := {
  sb_deposits : deposits d' = deposits d;
  sb_pool : pool_state d' = pool_state d;
  sb_unclaimed : unclaimed d' = unclaimed d;
  sb_wstates : wstates d' = wstates d;
  sb_refunds : refunds d' = refunds d;
  sb_incurred : incurred d' = incurred d;
  sb_fee_votes : fee_votes d' = fee_votes d;
  sb_withdraw_fees_votes : withdraw_fees_votes d' = withdraw_fees_votes d;
}.

#[export] Instance same_books_preorder : PreOrder same_books.
Proof.
  split; [by intros d; split|].
  intros d1 d2 d3 [] []. split; etrans; eauto.
Qed.

Lemma op_ok_frame d d' p op : same_books d d' -> op_ok d p op -> op_ok d' p op.
Proof.
  intros [Ed Ep Eu _ _ _ _ _]. unfold op_ok, balance, accrued, amount_sum.
  destruct p; rewrite ?Ed, ?Ep, ?Eu; done.
Qed.

Lemma books_core_frame d d' n : same_books d d' -> books_core d n -> books_core d' n.
Proof.
  intros [Ed Ep Eu Ew Er Ei Ef Ev] []. split;
    unfold assets, obligations, unswept, balance, accrued, total_credited, queued_value,
      refund_value, deposit_fees, lifecycle_ok in *;
    rewrite ?Ed, ?Ep, ?Eu, ?Ew, ?Er, ?Ei, ?Ef, ?Ev; done.
Qed.

Lemma books_inv_frame d d' n :
  same_books d d' -> ops_inv d' -> books_inv d n -> books_inv d' n.
Proof. intros Hs Hops [Hc _]. split; [by eapply books_core_frame|done]. Qed.

(** Also the operation tables unchanged. *)
Lemma books_inv_same d d' n :
  same_books d d' -> pending d' = pending d -> submitted d' = submitted d ->
  books_inv d n -> books_inv d' n.
Proof.
  intros Hs Hp Hsub Hinv. eapply books_inv_frame; [done| |done].
  apply (ops_inv_shrink d); [apply Hinv| |intros; by eapply op_ok_frame].
  intros h [] op p; simpl; by rewrite ?Hp, ?Hsub.
Qed.

Lemma start_session_frame self p dg a d :
  exists f, start_session self p dg a d = set_sessions f d.
Proof.
  unfold start_session. case_match; [|by eexists]. exists id. by destruct d.
Qed.

(** Writing only sessions leaves the operation tables alone. *)
Lemma ops_inv_sessions f d : ops_inv d -> ops_inv (set_sessions f d).
Proof.
  intros Hops. by apply (ops_inv_shrink d).
Qed.
End ledger.
