(* ===== verification/UsdtTriggers.v ===== *)
(** * Triggers and the books

    Every trigger of the USDT server ([maybe_trigger_sweep],
    [maybe_trigger_residual_recovery], [maybe_trigger_fee_withdrawal],
    [maybe_trigger_withdrawal_batch]) enqueues only operations the books cover,
    and only when none drawing on the same funds is live. *)

From S2P Require Import Prelude FedimintCore UsdtTypes UsdtEvm UsdtUserOp UsdtSigning UsdtProof.
From S2P Require Import UsdtDb UsdtServer UsdtHandlers UsdtLedger.

(** ** Batches *)

#[local] Arguments batch_total : simpl never.

Lemma batch_total_cons w ws : batch_total (w :: ws) = w.2 + batch_total ws.
Proof. done. Qed.

Lemma saturating_total_eq (l : list (OutPoint * UsdtWithdrawalV0)) :
  Forall (fun kv => 0 <= w_amount kv.2) l ->
  saturating_total l = Z.min U64_MAX (batch_total ((fun w => (w_recipient w, w_amount w)) <$> l.*2)).
Proof.
  unfold saturating_total.
  assert (Hg : forall acc, 0 <= acc <= U64_MAX -> Forall (fun kv => 0 <= w_amount kv.2) l ->
    foldl (fun acc '(_, w) => saturating_add_u64 acc (w_amount w)) acc l
    = Z.min U64_MAX (acc + batch_total ((fun w => (w_recipient w, w_amount w)) <$> l.*2))).
  { induction l as [|[o w] l IH]; intros acc Hacc HF;
      [unfold batch_total; simpl; unfold_widths; lia|].
    rewrite !fmap_cons, batch_total_cons. cbn [foldl fst snd].
    inversion HF as [|? ? Hw HF']; simplify_eq/=. rewrite IH; [|unfold saturating_add_u64; unfold_widths; lia|done].
    assert (0 <= batch_total ((fun w => (w_recipient w, w_amount w)) <$> l.*2)).
    { clear -HF'. induction HF' as [|[o' w'] l' Hw' HF' IH]; [done|].
      by apply Z.add_nonneg_nonneg. }
    unfold saturating_add_u64. lia. }
  intros HF. rewrite Hg by (done || (unfold_widths; lia)). f_equal; lia.
Qed.

Lemma select_batch_sublist d l : exists l', select_batch d l `prefix_of` l' /\ l' ≡ₚ l.
Proof.
  unfold select_batch. exists (merge_sort by_out_point l). split.
  - set (t := take BATCH_MAX_ITEMS _). transitivity t; [|unfold t];
      eexists; symmetry; apply take_drop.
  - apply merge_sort_Permutation.
Qed.

Lemma NoDup_fst_filter {A B} (P : A * B -> Prop) `{!forall x, Decision (P x)} (l : list (A * B)) :
  NoDup l.*1 -> NoDup (filter P l).*1.
Proof.
  induction l as [|x l IH]; [done|]. rewrite fmap_cons, filter_cons, NoDup_cons.
  intros [Hx Hl]. case_decide; [|by apply IH]. rewrite fmap_cons, NoDup_cons.
  split; [|by apply IH]. intros Hin. apply Hx. apply list_elem_of_fmap in Hin as (y & -> & Hy).
  apply list_elem_of_filter in Hy as [_ Hy]. by apply list_elem_of_fmap_2.
Qed.

Lemma select_batch_spec d :
  NoDup (select_batch d (queued_withdrawals d)).*1 /\
  forall o w, (o, w) ∈ select_batch d (queued_withdrawals d) ->
    unclaimed d !! o = Some w /\ wstates d !! o = Some Queued.
Proof.
  destruct (select_batch_sublist d (queued_withdrawals d)) as (l & [k Hk] & Hp).
  assert (Hq : forall o w, (o, w) ∈ queued_withdrawals d ->
    unclaimed d !! o = Some w /\ wstates d !! o = Some Queued).
  { intros o w Hin. unfold queued_withdrawals in Hin. apply list_elem_of_filter in Hin as [? Hin].
    by apply elem_of_map_to_list in Hin. }
  assert (Hnd : NoDup l.*1).
  { rewrite Hp. unfold queued_withdrawals.
    apply NoDup_fst_filter, NoDup_fst_map_to_list. }
  rewrite Hk, fmap_app in Hnd. apply NoDup_app in Hnd as [Hnd _]. split; [done|].
  intros o w Hin. apply Hq. rewrite <- Hp, Hk. apply elem_of_app. by left.
Qed.

Lemma amount_sum_batch d (l : list (OutPoint * UsdtWithdrawalV0)) :
  (forall o w, (o, w) ∈ l -> unclaimed d !! o = Some w) ->
  amount_sum d l.*1 = batch_total ((fun w => (w_recipient w, w_amount w)) <$> l.*2).
Proof.
  induction l as [|[o w] l IH]; intros Hl; [done|].
  rewrite !fmap_cons, batch_total_cons. unfold amount_sum in *. cbn [foldr fst snd].
  rewrite IH, (Hl o w) by set_solver. done.
Qed.

(** ** Writing the same state to many out points *)

Lemma foldl_put_wstate v os d :
  foldl (fun d o => put_wstate o v d) d os
  = set_wstates (fun m => foldl (fun m o => <[o := v]> m) m os) d.
Proof.
  revert d. induction os as [|o os IH]; intros d; simpl; [by destruct d|]. rewrite IH. done.
Qed.

Lemma lookup_foldl_insert {V} (v : V) (os : list OutPoint) (m : gmap OutPoint V) (o : OutPoint) :
  foldl (fun m o => <[o := v]> m) m os !! o = if bool_decide (o ∈ os) then Some v else m !! o.
Proof.
  revert m. induction os as [|o' os IH]; intros m; simpl; [done|].
  rewrite IH. case_bool_decide as H1; [by rewrite bool_decide_eq_true_2 by set_solver|].
  destruct (decide (o = o')) as [->|Hne].
  - by rewrite lookup_insert_eq, bool_decide_eq_true_2 by set_solver.
  - by rewrite lookup_insert_ne, bool_decide_eq_false_2 by set_solver.
Qed.

Section triggers.
Context `{AbiOk} (self : Usdt).

Lemma enqueue_op_inv op p blk d n :
  books_inv d n -> op_ok d p op ->
  (forall h b op' p', live d h b op' p' -> ~ same_class p p') ->
  books_inv (enqueue_op self op p blk d) n.
Proof.
  intros Hinv Hok Hnone. unfold enqueue_op.
  destruct (start_session_frame self (UserOp (op_hash_of self op))
    (eth_signed_message_hash (op_hash_of self op)) 0
    (set_pending (insert (op_hash_of self op) (mkPendingUserOp op p blk)) d)) as [f ->].
  apply (books_inv_frame d); [by split| |done].
  apply ops_inv_sessions, ops_inv_enqueue; [apply Hinv|done|done].
Qed.

Lemma sweep_op_ok d a r m :
  deposits d !! a = Some r -> record_ok r ->
  op_ok d (DeployAndSweep a) (sweep_op self a r (saturating_sub (credited r) (swept r)) m).
Proof.
  intros Hr [Hs _ Hc _]. split; [done|]. exists r. split; [done|]. intros x.
  unfold sweep_op. rewrite decode_sweep; simpl; unfold saturating_sub in *;
    [intros [= <-]; lia|unfold_widths; lia].
Qed.

Lemma maybe_trigger_sweep_inv a d n :
  books_inv d n -> books_inv (maybe_trigger_sweep self a d) n.
Proof.
  intros Hinv. unfold maybe_trigger_sweep.
  destruct (deposits d !! a) as [r|] eqn:Er; [|done].
  case_match; [done|]. case_match; [done|]. case_match; [done|].
  case_match; [|done]. case_match; [|done]. case_match; [done|]. case_match; [done|].
  apply enqueue_op_inv; [done| |].
  - apply sweep_op_ok; [done|]. by apply (inv_records _ _ Hinv a).
  - intros h b op' p' Hl. by eapply no_sweep_live.
Qed.

Lemma accelerate_sweeps_inv d n :
  books_inv d n -> books_inv (accelerate_sweeps_for_withdrawals self d) n.
Proof.
  unfold accelerate_sweeps_for_withdrawals. generalize (map_to_list (deposits d)) as l.
  intros l. revert d. induction l as [|[a r] l IH]; intros d Hinv; simpl; [done|].
  apply IH. case_match; [by apply maybe_trigger_sweep_inv|done].
Qed.

Lemma maybe_trigger_residual_recovery_inv a d n :
  books_inv d n -> books_inv (maybe_trigger_residual_recovery self a d) n.
Proof.
  intros Hinv. unfold maybe_trigger_residual_recovery.
  repeat (case_match; try done).
  apply enqueue_op_inv; [done|done|]. intros h b op' p' _ [[? _]|(? & ? & _)]; done.
Qed.

Lemma pool_or_default_balance d : pool_balance (pool_or_default self d) = balance d.
Proof. unfold pool_or_default, balance. by destruct (pool_state d). Qed.
Lemma pool_or_default_accrued d : accrued_fees (pool_or_default self d) = accrued d.
Proof. unfold pool_or_default, accrued. by destruct (pool_state d). Qed.

Lemma agreed_fee_withdrawal_voted d recipient a :
  agreed_fee_withdrawal self d = Some (recipient, a) ->
  exists v, v ∈ values (withdraw_fees_votes d) /\ wfv_recipient v = recipient /\ wfv_amount v = a.
Proof.
  unfold agreed_fee_withdrawal. set (keys := _ <$> _). intros E.
  apply head_Some_elem_of in E. apply list_elem_of_filter in E as [_ E].
  rewrite (merge_sort_Permutation vote_key_le keys) in E.
  unfold keys in E. apply list_elem_of_fmap in E as (v & [= -> ->] & Hv). eauto.
Qed.

Lemma maybe_trigger_fee_withdrawal_inv d n :
  books_inv d n -> books_inv (maybe_trigger_fee_withdrawal self d) n.
Proof.
  intros Hinv. unfold maybe_trigger_fee_withdrawal.
  destruct (withdraw_batch_in_flight d) eqn:Ef; [done|].
  destruct (agreed_fee_withdrawal self d) as [[recipient a]|] eqn:Ea; [|done].
  rewrite pool_or_default_balance, pool_or_default_accrued.
  destruct (accrued d <? a) eqn:E1; [done|]. destruct (balance d <? a) eqn:E2; [done|].
  case_match; [done|]. zbool. apply agreed_fee_withdrawal_voted in Ea as (v & Hv & _ & <-).
  apply elem_of_values in Hv as [k Hv].
  pose proof (inv_fee_withdrawals _ _ Hinv k v Hv) as Hpos. simpl in Hpos.
  apply enqueue_op_inv; [done| |].
  - simpl. intros x Hx. apply decode_batch_Ok in Hx as [-> _]. unfold batch_total. simpl. lia.
  - intros h b op' p' Hl. by eapply no_pool_op_live.
Qed.

Lemma build_batch_inv l d n blk :
  books_inv d n -> withdraw_batch_in_flight d = false ->
  NoDup l.*1 ->
  (forall o w, (o, w) ∈ l -> unclaimed d !! o = Some w /\ wstates d !! o = Some Queued) ->
  saturating_total l <= balance d ->
  books_inv (build_and_enqueue_withdrawal_batch self l (pool_or_default self d) blk d) n.
Proof.
  intros Hinv Hf Hnd Hl Hbal. unfold build_and_enqueue_withdrawal_batch.
  set (op := pool_op _ _ _ _). set (h := op_hash_of self op).
  change (fun (d : UsdtDb) (o : OutPoint) => set_wstates (insert o (Signing h)) d)
    with (fun (d : UsdtDb) (o : OutPoint) => put_wstate o (Signing h) d).
  rewrite foldl_put_wstate.
  match goal with |- books_inv (start_session _ ?p ?dg ?a ?d') _ =>
    destruct (start_session_frame self p dg a d') as [f ->] end.
  assert (Hops : ops_inv (set_pending (insert h (mkPendingUserOp op (Withdraw l.*1) blk)) d)).
  { apply ops_inv_enqueue; [apply Hinv| |]; simpl.
    - split; [done|]. split.
      + intros o Ho. apply list_elem_of_fmap in Ho as ([o' w] & -> & Ho). eexists. by apply Hl.
      + intros x Hx. apply decode_batch_Ok in Hx as [-> Hmax]. simpl in *.
        rewrite amount_sum_batch by (intros; by apply Hl). split; [done|].
        rewrite saturating_total_eq in Hbal; [lia|].
        apply Forall_forall. intros [o w] Ho. apply Hl in Ho as [Ho _].
        by apply (inv_unclaimed _ _ Hinv) in Ho as [? _].
    - intros h' b op' p' Hl'. by eapply no_pool_op_live. }
  destruct Hinv as [[] _]. split; [split|]; try done; simpl.
  - intros o. specialize (inv_lifecycle o). unfold lifecycle_ok in *. simpl.
    rewrite lookup_foldl_insert. case_bool_decide as Ho; [|done].
    apply list_elem_of_fmap in Ho as ([o' w] & -> & Ho). apply Hl in Ho as [Ho Hq].
    simpl in *. rewrite Ho, Hq in *. naive_solver.
  - apply ops_inv_sessions. apply (ops_inv_shrink _ _ Hops); [done|].
    intros h' b op' p' _ Hok. by destruct p'.
Qed.

Lemma maybe_trigger_withdrawal_batch_inv d n :
  books_inv d n -> books_inv (maybe_trigger_withdrawal_batch self d) n.
Proof.
  intros Hinv. unfold maybe_trigger_withdrawal_batch.
  destruct (withdraw_batch_in_flight d) eqn:Ef; [done|].
  destruct (queued_withdrawals d) eqn:Eq; [done|]. rewrite <- Eq. clear Eq.
  case_match; [done|]. rewrite pool_or_default_balance.
  destruct (_ <? saturating_total _) eqn:Eb; zbool; [by apply accelerate_sweeps_inv|].
  destruct (select_batch_spec d) as [Hnd Hsel]. by apply build_batch_inv.
Qed.
End triggers.
