(* ===== verification/UsdtSettlement.v ===== *)
(** * Settlement and the books

    A threshold-agreed confirmation moves exactly what its operation's calldata
    commits to, pays or refunds the withdrawals of a batch, and clears every
    operation that drew on the same funds. *)

From S2P Require Import Prelude FedimintCore UsdtTypes UsdtEvm UsdtUserOp UsdtSigning UsdtProof.
From S2P Require Import UsdtDb UsdtServer UsdtHandlers UsdtLedger UsdtTriggers.

(** ** Deleting many out points *)

Lemma lookup_foldl_delete {V} (os : list OutPoint) (m : gmap OutPoint V) (o : OutPoint) :
  foldl (fun m o => delete o m) m os !! o = if bool_decide (o ∈ os) then None else m !! o.
Proof.
  revert m. induction os as [|o' os IH]; intros m; simpl; [done|].
  rewrite IH. case_bool_decide as H1; [by rewrite bool_decide_eq_true_2 by set_solver|].
  destruct (decide (o = o')) as [->|Hne].
  - by rewrite lookup_delete_eq, bool_decide_eq_true_2 by set_solver.
  - by rewrite lookup_delete_ne, bool_decide_eq_false_2 by set_solver.
Qed.

Lemma map_sum_foldl_delete {V} (f : V -> Z) (os : list OutPoint) (m : gmap OutPoint V) :
  NoDup os ->
  map_sum (fun _ => f) (foldl (fun m o => delete o m) m os)
  = map_sum (fun _ => f) m - foldr (fun o acc => default 0 (f <$> m !! o) + acc) 0 os.
Proof.
  intros Hnd. revert m. induction Hnd as [|o os Ho Hnd IH]; intros m; simpl; [lia|].
  rewrite IH.
  assert (Hext : foldr (fun o' acc => default 0 (f <$> delete o m !! o') + acc) 0 os
    = foldr (fun o' acc => default 0 (f <$> m !! o') + acc) 0 os).
  { clear IH Hnd. induction os as [|o' os IH]; simpl; [done|].
    rewrite lookup_delete_ne by set_solver. rewrite IH by set_solver. done. }
  rewrite Hext. destruct (m !! o) as [v|] eqn:E; simpl.
  - rewrite (map_sum_delete (fun _ => f) m o v E). lia.
  - rewrite delete_id by done. lia.
Qed.

(** A settled batch, table by table. *)
Lemma foldl_settle b os d :
  foldl (settle_withdrawal b) d os =
  set_wstates (fun m => foldl (fun m o => <[o := Confirmed b]> m) m os)
  (set_unclaimed (fun m => foldl (fun m o => delete o m) m os)
  (set_batch_caps (fun m => foldl (fun m o => delete o m) m os)
  (set_incurred (fun m => foldl (fun m o => delete o m) m os) d))).
Proof.
  revert d. induction os as [|o os IH]; intros d; simpl; [by destruct d|]. by rewrite IH.
Qed.

Lemma foldl_requeue c os d :
  foldl (requeue_withdrawal c) d os =
  set_wstates (fun m => foldl (fun m o => <[o := Queued]> m) m os)
  (set_batch_caps (fun m => foldl (fun m o => <[o := c]> m) m os) d).
Proof.
  revert d. induction os as [|o os IH]; intros d; simpl; [by destruct d|]. by rewrite IH.
Qed.

Lemma foldl_add_incurred s os d :
  exists inc, foldl (add_incurred s) d os = set_incurred (fun _ => inc) d /\
    (0 <= s -> map_Forall (fun _ x => 0 <= x) (incurred d) -> map_Forall (fun _ x => 0 <= x) inc).
Proof.
  revert d. induction os as [|o os IH]; intros d; simpl; [exists (incurred d); by destruct d|].
  destruct (IH (add_incurred s d o)) as (inc & E & Hinc). exists inc. split; [by rewrite E|].
  intros Hs HF. apply Hinc; [done|]. simpl. apply map_Forall_insert_2; [|done].
  destruct (incurred d !! o) as [x|] eqn:Ex; simpl.
  - apply HF in Ex. simpl in Ex. unfold saturating_add_u64. unfold_widths. lia.
  - unfold saturating_add_u64. unfold_widths. lia.
Qed.

(** ** Sizes of the books *)

Ltac unfold_books :=
  unfold assets, obligations, unswept, deposit_fees, total_credited, balance, accrued,
    queued_value, refund_value in *; simpl in *.

Section settlement.
Context `{AbiOk} (self : Usdt).

Lemma core_nonneg d n :
  books_core d n ->
  0 <= unswept d /\ 0 <= deposit_fees d /\ 0 <= queued_value d /\ 0 <= refund_value d.
Proof.
  intros []. split_and!; apply map_sum_nonneg; eapply map_Forall_impl; try eassumption;
    intros k v Hv; simpl in *; [destruct Hv|destruct Hv| |]; lia.
Qed.

(** Everything in the books fits a [u64] when the credited total does. *)
Lemma core_bounds d n :
  books_core d n -> total_credited d <= U64_MAX ->
  balance d + unswept d <= U64_MAX /\
  queued_value d + refund_value d + accrued d + deposit_fees d <= U64_MAX.
Proof.
  intros Hc Hb. pose proof (core_nonneg d n Hc). destruct Hc.
  unfold assets, obligations in *. lia.
Qed.

Lemma unclaimed_sums d n os :
  books_core d n -> NoDup os ->
  0 <= amount_sum d os /\ 0 <= max_fee_sum d os /\
  amount_sum d os + max_fee_sum d os <= queued_value d.
Proof.
  intros Hc Hnd.
  assert (Hsum : forall (f : UsdtWithdrawalV0 -> Z),
    (forall w, 0 <= w_amount w /\ 0 <= w_max_fee w -> 0 <= f w) ->
    0 <= foldr (fun o acc => default 0 (f <$> unclaimed d !! o) + acc) 0 os).
  { intros f Hf. clear Hnd. induction os as [|o os IH]; simpl; [lia|].
    destruct (unclaimed d !! o) as [w|] eqn:E; simpl; [|lia].
    apply (inv_unclaimed _ _ Hc), Hf in E. lia. }
  split; [apply Hsum; lia|]. split; [apply Hsum; lia|].
  pose proof (map_sum_foldl_delete (fun w => w_amount w + w_max_fee w) os (unclaimed d) Hnd) as E.
  assert (0 <= map_sum (fun _ w => w_amount w + w_max_fee w)
    (foldl (fun m o => delete o m) (unclaimed d) os)) as Hrest.
  { apply map_sum_nonneg. intros o w Ho. rewrite lookup_foldl_delete in Ho.
    case_bool_decide; [done|]. apply (inv_unclaimed _ _ Hc) in Ho. simpl in *. lia. }
  assert (foldr (fun o acc => default 0 ((fun w => w_amount w + w_max_fee w) <$> unclaimed d !! o)
    + acc) 0 os = amount_sum d os + max_fee_sum d os) as Es.
  { clear. unfold amount_sum, max_fee_sum. induction os as [|o os IH]; simpl; [done|].
    rewrite IH. destruct (unclaimed d !! o); simpl; lia. }
  unfold queued_value. lia.
Qed.

Lemma committed_fees_eq d n os :
  books_core d n -> NoDup os -> total_credited d <= U64_MAX ->
  committed_fees os d = max_fee_sum d os.
Proof.
  intros Hc Hnd Hb. pose proof (unclaimed_sums d n os Hc Hnd) as (? & ? & ?).
  pose proof (core_bounds d n Hc Hb). pose proof (core_nonneg d n Hc). pose proof (inv_accrued _ _ Hc).
  assert (Hle : max_fee_sum d os <= U64_MAX) by lia.
  unfold committed_fees. clear -Hle Hc.
  assert (Hg : forall acc, 0 <= acc -> acc + max_fee_sum d os <= U64_MAX ->
    foldl (fun acc o => match unclaimed d !! o with
      | Some w => saturating_add_u64 acc (w_max_fee w) | None => acc end) acc os
    = acc + max_fee_sum d os); [|rewrite Hg; lia].
  clear Hle. induction os as [|o os IH]; intros acc Ha Hle; unfold max_fee_sum in *; simpl in *; [lia|].
  assert (0 <= foldr (fun o acc => default 0 (w_max_fee <$> unclaimed d !! o) + acc) 0 os).
  { clear IH Hle. induction os as [|o' os IH]; simpl; [lia|].
    destruct (unclaimed d !! o') as [w|] eqn:E; simpl; [|lia].
    apply (inv_unclaimed _ _ Hc) in E. simpl in E. lia. }
  destruct (unclaimed d !! o) as [w|] eqn:E; simpl in *; [|apply IH; lia].
  apply (inv_unclaimed _ _ Hc) in E as [_ Hw]. unfold saturating_add_u64.
  rewrite Z.min_r by lia. rewrite IH by lia. lia.
Qed.

(** ** Sweeps *)

Lemma balance_put_pool p d : balance (put_pool p d) = pool_balance p.
Proof. done. Qed.

Lemma apply_sweep_core a r obs x d n :
  books_core d n -> total_credited d <= U64_MAX -> deposits d !! a = Some r ->
  0 <= x <= credited r - swept r -> (success obs = false -> x = 0) ->
  books_core (apply_sweep_confirmed self a obs x d) n.
Proof.
  intros Hc Hb Hr Hx Hx0. pose proof (core_bounds d n Hc Hb) as [Hb1 Hb2].
  pose proof (core_nonneg d n Hc) as (Hu & Hf & Hq & Hre).
  pose proof (inv_records _ _ Hc a r Hr) as [Hsw Hfe Hcr Hcl].
  assert (Hub : credited r - swept r <= unswept d).
  { apply (map_sum_ge_lookup (fun _ r => credited r - swept r)) with a; [|done].
    intros k v Hv. apply (inv_records _ _ Hc) in Hv as []. lia. }
  assert (Hfb : fees_accrued r <= deposit_fees d).
  { apply (map_sum_ge_lookup (fun _ r => fees_accrued r)) with a; [|done].
    intros k v Hv. apply (inv_records _ _ Hc) in Hv as []. lia. }
  destruct Hc. unfold apply_sweep_confirmed. destruct (success obs) eqn:Es.
  - simpl. rewrite Hr. unfold put_deposit, put_pool.
    rewrite pool_or_default_balance, pool_or_default_accrued.
    unfold saturating_add_u64, mark_swept, bump_nonce. simpl.
    rewrite (Z.min_r U64_MAX (balance d + x)), (Z.min_r U64_MAX (accrued d + fees_accrued r)) by lia.
    unfold saturating_add_u64.
    rewrite (Z.min_r U64_MAX (swept r + x)), (Z.min_l (swept r + x)) by lia.
    split; try done; unfold_books;
      rewrite ?map_sum_insert, ?Hr; simpl; try lia.
    apply map_Forall_insert_2; [|done]. split; simpl; lia.
  - rewrite Hr. unfold put_deposit, bump_nonce.
    split; try done; unfold_books; rewrite ?map_sum_insert, ?Hr; simpl; try lia.
    apply map_Forall_insert_2; [|done]. by split.
Qed.

Lemma apply_sweep_ops a r obs x d p op :
  deposits d !! a = Some r -> 0 <= balance d + x <= U64_MAX -> 0 <= x ->
  accrued d + fees_accrued r <= U64_MAX -> 0 <= fees_accrued r ->
  ~ same_class p (DeployAndSweep a) -> op_ok d p op ->
  op_ok (apply_sweep_confirmed self a obs x d) p op.
Proof.
  intros Hr Hbx Hx Hac Hfe Hnc. unfold apply_sweep_confirmed. destruct (success obs).
  - simpl. rewrite Hr. unfold put_deposit, put_pool.
    rewrite pool_or_default_balance, pool_or_default_accrued.
    unfold saturating_add_u64. rewrite !Z.min_r by lia.
    destruct p as [b| | |]; unfold op_ok, balance, accrued, amount_sum in *; simpl; try done.
    + intros [Hs (rb & Hrb & Hd)]. split; [done|]. exists rb. split; [|done].
      rewrite lookup_insert_ne; [done|]. intros ->. apply Hnc. right. eauto.
    + intros (? & ? & Hd). split; [done|]. split; [done|]. intros y Hy.
      destruct (Hd y Hy) as [-> ?]. split; [done|]. lia.
    + intros Hd y Hy. destruct (Hd y Hy). lia.
  - rewrite Hr. unfold put_deposit.
    destruct p as [b| | |]; unfold op_ok, balance, accrued, amount_sum in *; simpl; try done.
    intros [Hs (rb & Hrb & Hd)]. split; [done|]. exists rb. split; [|done].
    rewrite lookup_insert_ne; [done|]. intros ->. apply Hnc. right. eauto.
Qed.

(** ** Recovery of stranded gas *)

Lemma apply_recovery_core a d n : books_core d n -> books_core (apply_recovery_confirmed a d) n.
Proof.
  intros Hc. unfold apply_recovery_confirmed.
  destruct (deposits d !! a) as [r|] eqn:Hr; [|by destruct Hc; split].
  pose proof (inv_records _ _ Hc a r Hr) as Hrec. destruct Hc. unfold put_deposit.
  split; try done; unfold_books; rewrite ?map_sum_insert, ?Hr; simpl; try lia.
  apply map_Forall_insert_2; [|done]. by destruct Hrec; split.
Qed.

Lemma apply_recovery_ops a d p op :
  op_ok d p op -> op_ok (apply_recovery_confirmed a d) p op.
Proof.
  unfold apply_recovery_confirmed. destruct (deposits d !! a) as [r|] eqn:Hr; [|by destruct p].
  destruct p as [b| | |]; try done. intros [Hs (rb & Hrb & Hd)]. split; [done|]. simpl.
  destruct (decide (b = a)) as [->|Hne].
  - exists (bump_nonce rb). simplify_eq. by rewrite lookup_insert_eq.
  - exists rb. by rewrite lookup_insert_ne.
Qed.

(** ** Payouts *)

Lemma apply_fee_withdrawal_core obs x d n :
  books_core d n -> 0 <= x <= balance d -> x <= accrued d ->
  books_core (apply_fee_withdrawal_confirmed self obs x d) n.
Proof.
  intros Hc Hx Hxa. unfold apply_fee_withdrawal_confirmed.
  rewrite pool_or_default_balance, pool_or_default_accrued. unfold saturating_sub.
  destruct Hc. destruct (success obs); (split; try done; unfold_books; try lia).
Qed.

Lemma apply_withdraw_paid_core os obs d n :
  books_core d n -> total_credited d <= U64_MAX -> success obs = true ->
  NoDup os -> (forall o, o ∈ os -> is_Some (unclaimed d !! o)) ->
  amount_sum d os <= balance d ->
  books_core (apply_withdraw_confirmed self os obs (amount_sum d os) d) n.
Proof.
  intros Hc Hb Hs Hnd Hun Hle. unfold apply_withdraw_confirmed. rewrite Hs.
  rewrite pool_or_default_balance, pool_or_default_accrued.
  rewrite (committed_fees_eq d n) by done. rewrite foldl_settle.
  pose proof (unclaimed_sums d n os Hc Hnd) as (? & ? & ?).
  pose proof (core_bounds d n Hc Hb) as [Hb1 Hb2]. pose proof (core_nonneg d n Hc) as (? & ? & ? & ?).
  unfold saturating_sub, saturating_add_u64.
  rewrite (Z.max_r 0) by lia. rewrite (Z.min_r U64_MAX) by lia.
  assert (Hq : map_sum (fun _ w => w_amount w + w_max_fee w)
      (foldl (fun m o => delete o m) (unclaimed d) os)
    = queued_value d - (amount_sum d os + max_fee_sum d os)).
  { rewrite (map_sum_foldl_delete (fun w => w_amount w + w_max_fee w)) by done.
    unfold queued_value. f_equal. clear. unfold amount_sum, max_fee_sum.
    induction os as [|o os IH]; simpl; [done|]. rewrite IH.
    destruct (unclaimed d !! o); simpl; lia. }
  destruct Hc. split; try done; unfold put_pool; simpl; cbn [unclaimed deposits pool_state refunds] in *.
  - unfold_books. rewrite Hq. lia.
  - unfold_books. lia.
  - unfold_books. lia.
  - unfold_books. lia.
  - intros o w Ho. rewrite lookup_foldl_delete in Ho. case_bool_decide; [done|]. eauto.
  - intros o w Ho. rewrite lookup_foldl_delete in Ho. case_bool_decide; [done|]. eauto.
  - intros o. specialize (inv_lifecycle o). unfold lifecycle_ok in *. simpl.
    rewrite lookup_foldl_insert, lookup_foldl_delete. case_bool_decide as Ho; [|done].
    split; [done|]. destruct (Hun o Ho) as [w Hw]. rewrite Hw in inv_lifecycle.
    by destruct (wstates d !! o) as [[]|]; destruct_and?.
Qed.
(** ** Reverted batches *)

Lemma upper_median_elem l : l <> [] -> upper_median l ∈ l.
Proof.
  intros Hl. unfold upper_median.
  assert (length (merge_sort Z.le l) = length l) as Hlen
    by (by rewrite (merge_sort_Permutation Z.le l)).
  destruct (merge_sort Z.le l !! (length l / 2)%nat) as [x|] eqn:E; simpl.
  - apply list_elem_of_lookup_2 in E. by rewrite (merge_sort_Permutation Z.le l) in E.
  - apply lookup_ge_None in E. rewrite Hlen in E.
    assert (length l / 2 < length l)%nat by (destruct l; [done|]; apply Nat.div_lt; simpl; lia).
    lia.
Qed.

(** The fields of the median are fields of stored votes. *)
Lemma fee_vote_median_spec d m :
  fee_vote_median self d = Some m ->
  (m = mkFeeVote 0 0 /\ threshold (num_peers self) = 0%nat) \/
  exists v v', v ∈ values (fee_votes d) /\ v' ∈ values (fee_votes d) /\
    max_fee_per_gas_wei m = max_fee_per_gas_wei (sfv_vote v) /\
    usdt_per_eth_e6 m = usdt_per_eth_e6 (sfv_vote v').
Proof.
  unfold fee_vote_median. set (votes := omap _ _). intros E.
  destruct (length votes <? _)%nat eqn:El; [done|]. apply Nat.ltb_ge in El. simplify_eq.
  assert (Hin : forall v, v ∈ votes -> exists s, s ∈ values (fee_votes d) /\ sfv_vote s = v).
  { intros v Hv. unfold votes in Hv. apply list_elem_of_omap in Hv as (s & Hs & Hv).
    exists s. split; [done|]. by case_match; simplify_eq. }
  destruct (decide (votes = [])) as [E|Hne]; [left|right].
  { rewrite E in *. split; [done|]. simpl in El. lia. }
  assert (Hf : forall f : FeeVote -> Z, exists v, v ∈ votes /\ upper_median (f <$> votes) = f v).
  { intros f. assert (upper_median (f <$> votes) ∈ f <$> votes) as Hm.
    { apply upper_median_elem. by destruct votes. }
    apply list_elem_of_fmap in Hm as (v & -> & Hv). eauto. }
  destruct (Hf max_fee_per_gas_wei) as (v & Hv & Ev), (Hf usdt_per_eth_e6) as (v' & Hv' & Ev').
  apply Hin in Hv as (s & Hs & <-), Hv' as (s' & Hs' & <-). exists s, s'. eauto.
Qed.

Lemma fee_vote_median_nonneg d n m :
  books_core d n -> fee_vote_median self d = Some m ->
  0 <= max_fee_per_gas_wei m /\ 0 <= usdt_per_eth_e6 m.
Proof.
  intros Hc E. apply fee_vote_median_spec in E as [[-> _]|(v & v' & Hv & Hv' & -> & ->)]; [done|].
  apply elem_of_values in Hv as [k Hv], Hv' as [k' Hv'].
  apply (inv_fee_votes _ _ Hc) in Hv, Hv'. unfold fee_vote_in_sane_range in *. zbool. lia.
Qed.

Lemma gas_share_nonneg d n k gas :
  books_core d n -> 0 <= gas -> 0 <= gas_share self k gas d.
Proof.
  intros Hc Hg. unfold gas_share. destruct (k =? 0)%nat eqn:Ek; [done|]. apply Nat.eqb_neq in Ek.
  destruct (fee_vote_median self d) as [m|] eqn:Em; simpl; [|done].
  apply (fee_vote_median_nonneg d n) in Em as [_ Hr]; [|done].
  destruct (wei_gas_cost_to_usdt gas (usdt_per_eth_e6 m)) as [t|] eqn:Et; [|done].
  unfold wei_gas_cost_to_usdt in Et. run_inv Et.
  repeat match goal with
  | H : checked_mul_u128 _ _ = Some _ |- _ => apply checked_mul_u128_Some in H as [-> _]
  | H : checked_add_u128 _ _ = Some _ |- _ => apply checked_add_u128_Some in H as [-> _]
  end.
  ok_facts. subst. apply Z.div_pos; [|lia]. apply Z.div_pos; [|done]. unfold WEI_PER_ETH. nia.
Qed.

Lemma create_refund_core o w reason d n :
  books_core d n -> total_credited d <= U64_MAX -> unclaimed d !! o = Some w ->
  books_core (create_withdrawal_refund self o reason d) n.
Proof.
  intros Hc Hb Hw. unfold create_withdrawal_refund. rewrite Hw.
  rewrite pool_or_default_balance, pool_or_default_accrued.
  pose proof (core_bounds d n Hc Hb) as [_ Hb2]. pose proof (core_nonneg d n Hc) as (? & ? & ? & ?).
  pose proof (inv_unclaimed _ _ Hc o w Hw) as [Hwa Hwf].
  assert (Hgb : w_amount w + w_max_fee w <= queued_value d).
  { apply (map_sum_ge_lookup (fun _ w => w_amount w + w_max_fee w)) with o; [|done].
    intros k v Hv. apply (inv_unclaimed _ _ Hc) in Hv. simpl in *. lia. }
  assert (0 <= default 0 (incurred d !! o)) as Hi.
  { destruct (incurred d !! o) as [x|] eqn:E; [|done]. by apply (inv_incurred _ _ Hc) in E. }
  pose proof (inv_lifecycle _ _ Hc o) as Hlo. unfold lifecycle_ok in Hlo. rewrite Hw in Hlo.
  assert (Hr : refunds d !! o = None) by (by destruct (wstates d !! o) as [[]|]; destruct_and?).
  pose proof (inv_accrued _ _ Hc) as Hacc.
  unfold saturating_sub, saturating_add_u64.
  rewrite (Z.min_r U64_MAX (w_amount w + w_max_fee w)) by lia.
  set (i := Z.min (default 0 (incurred d !! o)) (w_amount w + w_max_fee w)).
  assert (0 <= i <= w_amount w + w_max_fee w) by lia.
  rewrite (Z.min_r U64_MAX (accrued d + i)), (Z.max_r 0) by lia.
  pose proof (map_sum_delete (fun _ w => w_amount w + w_max_fee w) (unclaimed d) o w Hw) as Hq.
  destruct Hc. unfold put_pool, put_wstate. split; try done; simpl.
  - unfold_books. rewrite (map_sum_insert_new _ (refunds d)) by done. simpl. lia.
  - unfold_books. lia.
  - by apply map_Forall_delete.
  - apply map_Forall_insert_2; [simpl; lia|done].
  - by apply map_Forall_delete.
  - intros o'. specialize (inv_lifecycle o'). unfold lifecycle_ok in *. simpl.
    destruct (decide (o' = o)) as [->|Hne].
    + by rewrite lookup_insert_eq, lookup_delete_eq.
    + by rewrite !lookup_insert_ne, lookup_delete_ne by done.
Qed.

Lemma put_pool_core p d n :
  books_core d n -> pool_balance p = balance d -> accrued_fees p = accrued d ->
  books_core (put_pool p d) n.
Proof.
  intros [] Eb Ea. unfold put_pool. split; try done; unfold_books; rewrite ?Eb, ?Ea; try done.
Qed.

Lemma set_incurred_core inc d n :
  books_core d n -> map_Forall (fun _ x => 0 <= x) inc ->
  books_core (set_incurred (fun _ => inc) d) n.
Proof. intros [] ?. by split. Qed.

Lemma apply_withdraw_reverted_core os obs x d n :
  books_core d n -> total_credited d <= U64_MAX -> success obs = false ->
  0 <= actual_gas_cost_wei obs ->
  (forall o, o ∈ os -> is_Some (unclaimed d !! o)) ->
  books_core (apply_withdraw_confirmed self os obs x d) n.
Proof.
  intros Hc Hb Hs Hg Hun. unfold apply_withdraw_confirmed. rewrite Hs.
  rewrite pool_or_default_balance, pool_or_default_accrued.
  set (p := mkPoolState _ _ _ _). set (share := gas_share _ _ _ _).
  assert (Hp : books_core (put_pool p d) n) by (by apply put_pool_core).
  assert (Hsh : 0 <= share) by (by eapply gas_share_nonneg).
  destruct (foldl_add_incurred share os (put_pool p d)) as (inc & -> & Hinc).
  assert (Hd : books_core (set_incurred (fun _ => inc) (put_pool p d)) n).
  { apply set_incurred_core; [done|]. apply Hinc; [done|apply Hp]. }
  set (d1 := set_incurred (fun _ => inc) (put_pool p d)) in *.
  destruct (length os <=? 1)%nat eqn:En; [apply Nat.leb_le in En|apply Nat.leb_gt in En].
  - destruct os as [|o [|o' os]]; simpl in *; [done| |lia].
    destruct (Hun o ltac:(set_solver)) as [w Hw]. by apply (create_refund_core o w).
  - rewrite foldl_requeue. destruct Hd. split; try done; simpl.
    intros o. specialize (inv_lifecycle o). unfold lifecycle_ok in *. simpl in *.
    rewrite lookup_foldl_insert. case_bool_decide as Ho; [|done].
    destruct (Hun o Ho) as [w Hw]. rewrite Hw in *.
    by destruct (wstates d !! o) as [[]|]; destruct_and?.
Qed.
End settlement.
