(* ===== verification/UsdtConfirm.v ===== *)
(** * Confirmation of user operations

    [apply_user_op_confirmed] as a whole: the purge of the nonce chain clears
    every operation that draws on the funds just moved, so that what was settled
    once cannot be settled again, and the books stay balanced. *)

From S2P Require Import Prelude FedimintCore UsdtTypes UsdtEvm UsdtUserOp UsdtSigning UsdtProof.
From S2P Require Import UsdtDb UsdtServer UsdtHandlers UsdtLedger UsdtTriggers UsdtSettlement.

(** ** Purging *)

(** Nothing but sessions, chunks and confirmation votes differs. *)
Record same_core (d d' : UsdtDb) : Prop := {
  sc_books : same_books d d';
  sc_pending : pending d' = pending d;
  sc_submitted : submitted d' = submitted d;
}.

#[export] Instance same_core_preorder : PreOrder same_core.
Proof.
  split; [by intros d; split|].
  intros d1 d2 d3 [] []. split; [by etrans|congruence|congruence].
Qed.

Lemma remove_sessions_core h d : same_core d (remove_signing_sessions_for_op h d).
Proof.
  unfold remove_signing_sessions_for_op. generalize (map_to_list (sessions d)) as l.
  intros l. revert d. induction l as [|[id s] l IH]; intros d; simpl; [done|].
  etrans; [|apply IH]. by case_match.
Qed.

Lemma purge_submitted_fold snd n exc l d :
  let d' := foldl (fun d '(hash, s) =>
    if bool_decide (hash = exc) then d
    else if same_slot snd n (unsigned (signed s))
    then remove_confirmed_votes hash (set_submitted (delete hash) d) else d) d l in
  same_books d d' /\ pending d' = pending d /\ submitted d' ⊆ submitted d /\
  forall h s, (h, s) ∈ l -> h <> exc -> same_slot snd n (unsigned (signed s)) = true ->
    submitted d' !! h = None.
Proof.
  revert d. induction l as [|[h s] l IH]; intros d; simpl; [set_solver|].
  set (d1 := if bool_decide (h = exc) then d else _).
  assert (H1 : same_books d d1 /\ pending d1 = pending d /\ submitted d1 ⊆ submitted d /\
    (h <> exc -> same_slot snd n (unsigned (signed s)) = true -> submitted d1 !! h = None)).
  { unfold d1. case_bool_decide; [by split_and!|]. case_match; [|by split_and!].
    split_and!; try done; simpl; [apply delete_subseteq|intros; apply lookup_delete_eq]. }
  destruct H1 as (Hb & Hp & Hs & Hn), (IH d1) as (Hb' & Hp' & Hs' & Hn').
  split; [by etrans|]. split; [congruence|]. split; [by etrans|].
  intros h' s' [E|Hin]%elem_of_cons Hne Hslot; [|by eapply Hn']. simplify_eq.
  apply eq_None_not_Some. intros [v Hv]. apply (lookup_weaken _ (submitted d1)) in Hv; [|done].
  by rewrite Hn in Hv.
Qed.

Lemma purge_pending_fold snd n exc l d :
  let d' := foldl (fun d '(hash, p) =>
    if bool_decide (hash = exc) then d
    else if same_slot snd n (p_op p)
    then remove_signing_sessions_for_op hash (set_pending (delete hash) d) else d) d l in
  same_books d d' /\ submitted d' = submitted d /\ pending d' ⊆ pending d /\
  forall h q, (h, q) ∈ l -> h <> exc -> same_slot snd n (p_op q) = true ->
    pending d' !! h = None.
Proof.
  revert d. induction l as [|[h q] l IH]; intros d; simpl; [set_solver|].
  set (d1 := if bool_decide (h = exc) then d else _).
  assert (H1 : same_books d d1 /\ submitted d1 = submitted d /\ pending d1 ⊆ pending d /\
    (h <> exc -> same_slot snd n (p_op q) = true -> pending d1 !! h = None)).
  { unfold d1. case_bool_decide; [by split_and!|]. case_match; [|by split_and!].
    destruct (remove_sessions_core h (set_pending (delete h) d)) as [Hb Hp Hs].
    split; [etrans; [|exact Hb]; by split|]. split; [by rewrite Hs|]. rewrite Hp. simpl.
    split; [apply delete_subseteq|intros; apply lookup_delete_eq]. }
  destruct H1 as (Hb & Hp & Hs & Hn), (IH d1) as (Hb' & Hp' & Hs' & Hn').
  split; [by etrans|]. split; [congruence|]. split; [by etrans|].
  intros h' q' [E|Hin]%elem_of_cons Hne Hslot; [|by eapply Hn']. simplify_eq.
  apply eq_None_not_Some. intros [v Hv]. apply (lookup_weaken _ (pending d1)) in Hv; [|done].
  by rewrite Hn in Hv.
Qed.

(** What survives a purge was there before, and sits in another nonce slot unless it
    is under the excepted hash. *)
Lemma purge_chain_spec snd n exc d :
  let d' := purge_user_op_nonce_chain snd n exc d in
  same_books d d' /\
  forall h b op p, live d' h b op p ->
    live d h b op p /\ (h = exc \/ same_slot snd n op = false).
Proof.
  unfold purge_user_op_nonce_chain. set (d1 := purge_submitted snd n exc d). simpl.
  pose proof (purge_submitted_fold snd n exc (map_to_list (submitted d)) d)
    as (Hb1 & Hp1 & Hs1 & Hn1). fold (purge_submitted snd n exc d) d1 in Hb1, Hp1, Hs1, Hn1.
  pose proof (purge_pending_fold snd n exc (map_to_list (pending d1)) d1)
    as (Hb2 & Hs2 & Hp2 & Hn2). fold (purge_pending snd n exc d1) in Hb2, Hs2, Hp2, Hn2.
  split; [by etrans|]. intros h [] op p; simpl.
  - rewrite Hs2. intros (s & Hs & <- & <-). pose proof (lookup_weaken _ _ _ _ Hs Hs1) as Hs0.
    split; [eauto|]. destruct (decide (h = exc)) as [->|Hne]; [by left|right].
    apply not_true_iff_false. intros Hslot.
    rewrite (Hn1 h s) in Hs; [done|by apply elem_of_map_to_list|done|done].
  - intros (q & Hq & <- & <-). pose proof (lookup_weaken _ _ _ _ Hq Hp2) as Hq1.
    split; [rewrite Hp1 in Hq1; eauto|].
    destruct (decide (h = exc)) as [->|Hne]; [by left|right].
    apply not_true_iff_false. intros Hslot.
    rewrite (Hn2 h q) in Hq; [done|by apply elem_of_map_to_list|done|done].
Qed.

Section confirm.
Context `{AbiOk} (self : Usdt).

(** The settlement branches leave the operation tables alone. *)
Lemma create_refund_tables o reason d :
  pending (create_withdrawal_refund self o reason d) = pending d /\
  submitted (create_withdrawal_refund self o reason d) = submitted d.
Proof. unfold create_withdrawal_refund. by case_match. Qed.

Lemma apply_purpose_tables s obs x d d1 r :
  apply_purpose self s obs x d = (d1, r) ->
  pending d1 = pending d /\ submitted d1 = submitted d.
Proof.
  unfold apply_purpose. intros E. destruct (s_purpose s) as [a|os|a|rcp amt]; simplify_eq.
  - unfold apply_sweep_confirmed. destruct (success obs); by repeat case_match.
  - unfold apply_withdraw_confirmed. destruct (success obs); [by rewrite foldl_settle|].
    set (p := mkPoolState _ _ _ _).
    match goal with |- context [foldl (add_incurred ?sh) ?d0 os] =>
      destruct (foldl_add_incurred sh os d0) as (inc & -> & _) end.
    destruct (length os <=? 1)%nat; [|by rewrite foldl_requeue].
    set (d0 := set_incurred _ _). assert (pending d0 = pending d /\ submitted d0 = submitted d) as [Ep Es]
      by done. clearbody d0. revert d0 Ep Es. induction os as [|o os IH]; intros d0 Ep Es; simpl; [done|].
    destruct (create_refund_tables o RevertsInIsolation d0) as [Ep' Es'].
    apply IH; congruence.
  - unfold apply_recovery_confirmed. by case_match.
  - done.
Qed.

(** No operation of the confirmed one's class survives. *)
Lemma confirm_clears_class d d1 h s :
  ops_inv d -> submitted d !! h = Some s ->
  pending d1 = pending d -> submitted d1 = submitted d ->
  let op := unsigned (signed s) in
  forall h' b op' p',
    live (purge_user_op_nonce_chain (sender op) (nonce op) h
            (remove_confirmed_votes h (set_submitted (delete h) d1))) h' b op' p' ->
    live d h' b op' p' /\ ~ same_class p' (s_purpose s).
Proof.
  intros [_ Hslot Hdis] Hs Ep Es op h' b op' p' Hl.
  apply purge_chain_spec in Hl as [Hl Hex].
  assert (Hl0 : live d h' b op' p' /\ (b = true -> h' <> h)).
  { destruct b; simpl in *.
    - destruct Hl as (s' & Hs' & <- & <-). rewrite Es in Hs'.
      apply lookup_delete_Some in Hs' as [Hne Hs']. split; eauto.
    - rewrite Ep in Hl. by split. }
  destruct Hl0 as [Hl0 Hne]. split; [done|]. intros Hsc.
  assert (Hls : live d h true op (s_purpose s)) by (simpl; eauto).
  destruct Hex as [->|Hex].
  - destruct b; [by destruct (Hne eq_refl)|]. by eapply Hdis.
  - destruct (Hslot _ _ _ _ _ _ _ _ Hl0 Hls Hsc) as [E1 E2].
    unfold same_slot in Hex. rewrite E1, E2, bool_decide_eq_true_2, Z.eqb_refl in Hex by done. done.
Qed.

(** The amount applied is the one the operation was checked against. *)
Lemma effective_swept_amount s obs x :
  effective_swept s obs = Some x ->
  (success obs = true /\ expected_swept s = Ok x) \/ (success obs = false /\ x = 0).
Proof.
  unfold effective_swept. destruct (success obs); [left|right; by simplify_eq].
  destruct (expected_swept s) as [e|]; [|done]. case_match; by simplify_eq.
Qed.

(** The books after the branch of the operation's purpose, and what they still cover. *)
Lemma apply_purpose_inv d n h s obs x d1 r :
  books_inv d n -> total_credited d <= U64_MAX -> submitted d !! h = Some s ->
  effective_swept s obs = Some x -> 0 <= actual_gas_cost_wei obs ->
  apply_purpose self s obs x d = (d1, r) ->
  books_core d1 n /\
  forall p op, ~ same_class p (s_purpose s) -> op_ok d p op -> op_ok d1 p op.
Proof.
  intros [Hc Hops] Hb Hs Hx Hg E. apply effective_swept_amount in Hx.
  pose proof (ops_covered _ Hops h true (unsigned (signed s)) (s_purpose s)
    ltac:(simpl; eauto)) as Hok.
  unfold apply_purpose in E. unfold expected_swept in Hx.
  destruct (s_purpose s) as [a|os|a|rcp amt] eqn:Ep; simplify_eq; simpl in Hok.
  - destruct Hok as [-> (r & Hr & Hd)].
    assert (0 <= x <= credited r - swept r) as Hxb.
    { pose proof (inv_records _ _ Hc _ _ Hr) as []. destruct Hx as [[_ Hx]|[_ ->]]; [eauto|lia]. }
    split; [apply apply_sweep_core with r; try done; destruct Hx as [[-> _]|[-> ->]]; done|].
    intros p op Hnc. pose proof (core_bounds d n Hc Hb) as [Hb1 Hb2].
    pose proof (core_nonneg d n Hc) as (? & ? & ? & ?). pose proof (inv_balance _ _ Hc).
    pose proof (inv_records _ _ Hc _ _ Hr) as [_ ? _ _].
    assert (credited r - swept r <= unswept d).
    { apply (map_sum_ge_lookup (fun _ r => credited r - swept r)) with a;
        [|done]. intros k v Hv. apply (inv_records _ _ Hc) in Hv as []. lia. }
    assert (fees_accrued r <= deposit_fees d).
    { apply (map_sum_ge_lookup (fun _ r => fees_accrued r)) with a;
        [|done]. intros k v Hv. apply (inv_records _ _ Hc) in Hv as []. lia. }
    apply apply_sweep_ops with r; try done; lia.
  - destruct Hok as (Hnd & Hun & Hd). split.
    + destruct Hx as [[Hsu Hx]|[Hsu ->]]; [|by apply apply_withdraw_reverted_core].
      destruct (Hd x Hx) as [-> Hle]. by apply apply_withdraw_paid_core.
    + intros p op Hnc Hop. destruct p; try (by destruct Hnc; left); [|done].
      unfold op_ok in *. enough (deposits (apply_withdraw_confirmed self os obs x d) = deposits d)
        as -> by done. unfold apply_withdraw_confirmed.
      destruct (success obs); [by rewrite foldl_settle|].
      match goal with |- context [foldl (add_incurred ?sh) ?d0 os] =>
        destruct (foldl_add_incurred sh os d0) as (inc & -> & _) end.
      destruct (length os <=? 1)%nat; [|by rewrite foldl_requeue].
      generalize (eq_refl (deposits d)). set (d0 := set_incurred _ _).
      change (deposits d = deposits d) with (deposits d0 = deposits d). clearbody d0.
      clear. revert d0. induction os as [|o os IH]; intros d0 E0; simpl; [done|].
      apply IH. rewrite <- E0. unfold create_withdrawal_refund. by case_match.
  - split; [by apply apply_recovery_core|]. intros. by apply apply_recovery_ops.
  - split.
    + destruct Hx as [[Hsu Hx]|[Hsu ->]].
      * destruct (Hok x Hx). by apply apply_fee_withdrawal_core.
      * pose proof (inv_balance _ _ Hc). pose proof (inv_accrued _ _ Hc).
        apply apply_fee_withdrawal_core; [done|lia|lia].
    + intros p op Hnc Hop. destruct p; try (by destruct Hnc; left); done.
Qed.

Lemma apply_user_op_confirmed_inv h obs d n :
  books_inv d n -> total_credited d <= U64_MAX -> 0 <= actual_gas_cost_wei obs ->
  books_inv (apply_user_op_confirmed self h obs d) n.
Proof.
  intros Hinv Hb Hg. unfold apply_user_op_confirmed.
  destruct (submitted d !! h) as [s|] eqn:Hs; [|by apply (books_inv_same d); [split|..]].
  destruct (effective_swept s obs) as [x|] eqn:Hx; [|done].
  destruct (apply_purpose self s obs x d) as [d1 r] eqn:Ea.
  destruct (apply_purpose_tables _ _ _ _ _ _ Ea) as [Ep Es].
  destruct (apply_purpose_inv _ _ _ _ _ _ _ _ Hinv Hb Hs Hx Hg Ea) as [Hc1 Hok].
  set (d2 := remove_confirmed_votes h (set_submitted (delete h) d1)).
  destruct (purge_chain_spec (sender (unsigned (signed s))) (nonce (unsigned (signed s))) h d2)
    as [Hsb _].
  pose proof (confirm_clears_class d d1 h s (inv_ops _ _ Hinv) Hs Ep Es) as Hlive.
  fold d2 in Hlive. simpl in Hlive.
  set (d3 := purge_user_op_nonce_chain _ _ h d2) in *.
  assert (Hsb' : same_books d1 d3) by (etrans; [|exact Hsb]; by split).
  assert (Hinv3 : books_inv d3 n).
  { split; [by eapply books_core_frame|].
    apply (ops_inv_shrink d); [apply Hinv|intros ? ? ? ? Hl; by apply Hlive in Hl as [? _]|].
    intros h' b op p Hl Hop. apply Hlive in Hl as [_ Hnc].
    apply (op_ok_frame d1); [done|]. by apply Hok. }
  destruct r as [a|]; [by apply maybe_trigger_sweep_inv|done].
Qed.
End confirm.
