(* ===== verification/UsdtSolvency.v ===== *)
(** * Solvency of the USDT module

    The ledger as a machine: fedimint-core feeds the handlers transaction inputs,
    outputs and consensus items, and the e-cash in circulation moves by the
    amounts they report.  Every reachable ledger is balanced: the token held in
    deposit accounts and in the pool equals the e-cash in circulation plus what
    is owed to withdrawers and to the guardians. *)

From S2P Require Import Prelude FedimintCore UsdtTypes UsdtEvm UsdtUserOp UsdtSigning UsdtProof.
From S2P Require Import UsdtDb UsdtServer UsdtHandlers UsdtLedger UsdtTriggers UsdtSettlement UsdtConfirm.

Section solvency.
Context `{AbiOk} `{StateTrieOk} `{AmountsOk} (self : Usdt).

(** ** Transactions *)

Lemma put_deposit_core d n a r r' delta fee :
  books_core d n -> default (mkDepositRecord (rec_claim_pk r) 0 0 0 0 0 0) (deposits d !! a) = r ->
  record_ok r' -> credited r' = credited r + delta -> swept r' = swept r ->
  fees_accrued r' = fees_accrued r + fee -> 0 <= fee <= delta ->
  books_core (put_deposit a r' d) (n + delta - fee).
Proof.
  intros [] Hr Hok Ec Es Ef Hd. unfold put_deposit.
  assert (Hold : forall f : DepositRecord -> Z, f (mkDepositRecord (rec_claim_pk r) 0 0 0 0 0 0) = 0 ->
    (match deposits d !! a with Some w => f w | None => 0 end) = f r).
  { intros f Hf. rewrite <- Hr. destruct (deposits d !! a); [done|]. simpl. done. }
  pose proof (Hold credited eq_refl) as Hcr. pose proof (Hold fees_accrued eq_refl) as Hfa.
  pose proof (Hold (fun r => credited r - swept r) eq_refl) as Hus. simpl in Hus.
  split; try done; unfold_books; rewrite ?map_sum_insert, ?Hcr, ?Hfa, ?Hus; try lia.
  by apply map_Forall_insert_2.
Qed.

Lemma op_ok_put_deposit d a r r' p op :
  default (mkDepositRecord (rec_claim_pk r) 0 0 0 0 0 0) (deposits d !! a) = r ->
  credited r - swept r <= credited r' - swept r' ->
  op_ok d p op -> op_ok (put_deposit a r' d) p op.
Proof.
  intros Hr Hle. destruct p as [b| | |]; try done. intros [Hs (rb & Hrb & Hd)]. split; [done|].
  simpl. destruct (decide (b = a)) as [->|Hne].
  - exists r'. rewrite lookup_insert_eq. split; [done|]. rewrite Hrb in Hr. simpl in Hr. subst rb.
    intros x Hx. specialize (Hd x Hx). lia.
  - exists rb. by rewrite lookup_insert_ne.
Qed.

Lemma deposit_inv claim_pk proof fee d n meta d' :
  books_inv d n -> 0 <= fee ->
  process_deposit_proof self claim_pk proof fee d = (Ok meta, d') ->
  books_inv d' (n + amount_of (amounts (amount meta)) USDT_UNIT
                  - amount_of (fees (amount meta)) USDT_UNIT).
Proof.
  intros Hinv Hfee E. unfold process_deposit_proof in E. run_inv E.
  set (acct := derive_deposit_account _ _ _ _) in *.
  set (r := default (mkDepositRecord claim_pk 0 0 0 0 0 0) (deposits d !! acct)) in *.
  ok_facts. zbool.
  match goal with H : verify_deposit_proof _ _ _ _ = Ok _ |- _ =>
    apply verify_deposit_proof_balance in H as (_ & Hpr & _) end.
  match goal with H : is_u64 ?x |- _ => rename x into proven end.
  simpl. rewrite !amount_of_new_custom. simpl.
  assert (Hr : record_ok r).
  { unfold r. destruct (deposits d !! acct) as [r0|] eqn:E0; simpl.
    - by apply (inv_records _ _ Hinv) in E0.
    - split; simpl; unfold_widths; lia. }
  assert (Hrd : default (mkDepositRecord (rec_claim_pk r) 0 0 0 0 0 0) (deposits d !! acct) = r)
    by (unfold r; by destruct (deposits d !! acct)).
  clearbody r. destruct Hr as [Hs Hf Hc Hcl]. unfold saturating_sub, is_u64 in *.
  assert (credited r < proven) by lia.
  rewrite (Z.max_r 0) in * by lia.
  apply maybe_trigger_sweep_inv.
  assert (Hok' : record_ok (mkDepositRecord (rec_claim_pk r) proven
    (saturating_add_u64 (claimed r) (proven - credited r)) (block_number proof) (swept r)
    (rec_nonce r) (saturating_add_u64 (fees_accrued r) fee))).
  { unfold saturating_add_u64. split; simpl; lia. }
  split.
  - apply put_deposit_core with r; simpl; try done; unfold saturating_add_u64; try lia. apply Hinv.
  - apply (ops_inv_shrink d); [apply Hinv|done|].
    intros h b op p _. apply op_ok_put_deposit with r; [done|]. simpl. lia.
Qed.

Lemma refund_inv o d n meta d' :
  books_inv d n -> process_refund o d = (Ok meta, d') ->
  books_inv d' (n + amount_of (amounts (amount meta)) USDT_UNIT
                  - amount_of (fees (amount meta)) USDT_UNIT).
Proof.
  intros [Hc Hops] E. unfold process_refund in E. run_inv E. ok_facts. simpl.
  rewrite amount_of_new_custom, amount_of_ZERO. simpl.
  match goal with H : refunds d !! o = Some ?r |- _ => rename r into rf; rename H into Hr end.
  pose proof (map_sum_delete (fun _ r => r_amount r) (refunds d) o rf Hr) as Hsum.
  pose proof (inv_refunds _ _ Hc o rf Hr) as Hnn. simpl in Hnn.
  split; [|apply (ops_inv_shrink d); [done|done|intros ? ? ? p _ Hok; by destruct p]].
  destruct Hc. split; try done; unfold_books; try lia.
  - by apply map_Forall_delete.
  - intros o'. specialize (inv_lifecycle o'). unfold lifecycle_ok in *. simpl.
    destruct (decide (o' = o)) as [->|Hne]; [|by rewrite lookup_delete_ne].
    rewrite lookup_delete_eq, Hr in *. by destruct (wstates d !! o) as [[]|]; destruct_and?.
Qed.

Lemma output_inv output o d n am d' :
  books_inv d n -> wstates d !! o = None ->
  (forall w, output = OutputV0 w -> 0 <= out_amount w /\ 0 <= out_max_fee w) ->
  process_output self output o d = (Ok am, d') ->
  amount_of (amounts am) USDT_UNIT + amount_of (fees am) USDT_UNIT <= n ->
  books_inv d' (n - (amount_of (amounts am) USDT_UNIT + amount_of (fees am) USDT_UNIT)).
Proof.
  intros [Hc Hops] Hfresh Hwf E Hle. destruct output as [w|v raw]; [|done].
  destruct (Hwf w eq_refl) as [Ha Hm]. clear Hwf.
  unfold process_output in E. run_inv E. ok_facts. simpl in *.
  rewrite !amount_of_new_custom in *. simpl in *.
  pose proof (inv_lifecycle _ _ Hc o) as Hl. unfold lifecycle_ok in Hl. rewrite Hfresh in Hl.
  destruct Hl as [Hun Hre].
  split; [|apply (ops_inv_shrink d); [done|done|]].
  - destruct Hc. unfold put_wstate. split; try done; unfold_books;
      rewrite ?map_sum_insert_new by done; simpl; try lia.
    + by apply map_Forall_insert_2.
    + intros o'. specialize (inv_lifecycle o'). unfold lifecycle_ok in *. simpl.
      destruct (decide (o' = o)) as [->|Hne]; [by rewrite !lookup_insert_eq|].
      by rewrite !lookup_insert_ne.
  - intros h b op p _ Hok. destruct p as [|os| |]; try done. destruct Hok as (Hnd & Hall & Hd).
    assert (Hsum : o ∉ os) by (intros Hin; destruct (Hall o Hin); congruence).
    split; [done|]. split.
    + intros o' Ho'. simpl. rewrite lookup_insert_ne by set_solver. by apply Hall.
    + intros x Hx. destruct (Hd x Hx) as [-> Hb]. split; [|done].
      clear -Hsum. unfold amount_sum. induction os as [|o' os IH]; simpl; [done|].
      rewrite lookup_insert_ne by set_solver. rewrite IH by set_solver. done.
Qed.

(** ** Consensus items *)

Lemma signature_inv session_id signature d n d' :
  books_inv d n -> process_mpc_signature self session_id signature d = (Ok tt, d') ->
  books_inv d' n.
Proof.
  intros Hinv E. unfold process_mpc_signature in E. run_inv E; ok_facts;
    (match goal with Hq : pending d !! _ = Some ?q |- context [set_submitted (insert ?h ?s)] =>
      apply (books_inv_frame d); [by split| |done];
      apply (ops_inv_shrink _ _ (ops_inv_sign d h q s (inv_ops _ _ Hinv) Hq eq_refl eq_refl));
        [done|intros ? ? ? p _ Hok; by destruct p] end).
Qed.

Lemma put_wstates_signing d n os h :
  books_inv d n -> (forall o, o ∈ os -> is_Some (unclaimed d !! o)) ->
  books_inv (foldl (fun d o => put_wstate o (Signing h) d) d os) n.
Proof.
  intros [Hc Hops] Hun. rewrite foldl_put_wstate.
  split; [|apply (ops_inv_shrink d); [done|done|intros ? ? ? p _ Hok; by destruct p]].
  destruct Hc. split; try done.
  intros o. specialize (inv_lifecycle o). unfold lifecycle_ok in *. simpl.
  rewrite lookup_foldl_insert. case_bool_decide as Ho; [|done].
  destruct (Hun o Ho) as [w Hw]. rewrite Hw in *.
  by destruct (wstates d !! o) as [[]|]; destruct_and?.
Qed.

Lemma replace_inv op_hash d n d' :
  books_inv d n -> process_replace_user_op self op_hash d = (Ok tt, d') -> books_inv d' n.
Proof.
  intros Hinv E. unfold process_replace_user_op in E. simpl in E.
  destruct (submitted d !! op_hash) as [s|] eqn:Hs; simpl in E; [|done].
  destruct (superseded s); simpl in E; [done|].
  destruct (submitted_op_timed_out self s d); simpl in E; [|done].
  destruct (fee_vote_median self d) as [m|]; simpl in E; [|done].
  set (f := repriced_user_op_fees _ _) in *. set (op' := reprice _ _) in *.
  destruct (replaceable s m f d) as [[]|]; simpl in E; [|done].
  set (h := op_hash_of self op') in *. destruct (op_known h d) eqn:Hk; simpl in E; [done|].
  unfold op_known in Hk. apply orb_false_iff in Hk as [_ Hk]. apply bool_decide_eq_false in Hk.
  rewrite <- eq_None_not_Some in Hk.
  pose proof (ops_covered _ (inv_ops _ _ Hinv) op_hash true (unsigned (signed s)) (s_purpose s)
    ltac:(simpl; eauto)) as Hok.
  set (q := mkPendingUserOp op' (s_purpose s) (consensus_block_count self d)) in *.
  set (d1 := set_pending (insert h q) d) in *.
  assert (Hinv1 : books_inv d1 n).
  { apply (books_inv_frame d); [by split| |done].
    apply (ops_inv_replace _ _ _ op_hash (unsigned (signed s))); [apply Hinv|simpl; eauto|done|done|].
    simpl. destruct (s_purpose s); exact Hok. }
  set (d2 := match s_purpose s with Withdraw os => _ | _ => d1 end) in *.
  assert (Hinv2 : books_inv d2 n /\ submitted d2 = submitted d).
  { unfold d2. destruct (s_purpose s) as [|os| |]; [done| |done|done]. split.
    - apply put_wstates_signing; [done|]. by destruct Hok as (_ & Hun & _).
    - by rewrite foldl_put_wstate. }
  destruct Hinv2 as [Hinv2 Es2].
  match type of E with (_, start_session _ ?p ?dg ?a ?d0) = _ =>
    destruct (start_session_frame self p dg a d0) as [g Eg] end.
  rewrite Eg in E. simplify_eq.
  apply (books_inv_frame d2); [by split| |done]. apply ops_inv_sessions.
  apply (ops_inv_shrink d2); [apply Hinv2| |intros ? ? ? p _ Hop; by destruct p].
  intros h' [] op p; simpl; [|done]. intros (s' & Hs' & <- & <-). rewrite lookup_insert in Hs'.
  case_decide; simplify_eq; [|eauto]. exists s. rewrite Es2. done.
Qed.

(** A write to tables the books do not read. *)
Ltac by_frame d := apply (books_inv_same d); [by split|reflexivity|reflexivity|assumption].

(** The ranges the field types give. *)
Definition item_wf (item : UsdtConsensusItem) : Prop :=
  match item with
  | UserOpConfirmed _ _ _ _ _ gas => 0 <= gas
  | BlockCount vote => is_u64 vote
  | BlockHash obs => is_u64 (obs_height obs)
  | _ => True
  end.

Lemma ring_frame height hash d :
  exists f, write_block_hash_ring height hash d = set_ring f d.
Proof.
  unfold write_block_hash_ring. generalize (map_to_list (ring (set_ring (insert height hash) d))).*1.
  intros l. set (d0 := set_ring (insert height hash) d).
  assert (Hd : exists f, d0 = set_ring f d) by (by eexists). clearbody d0. revert d0 Hd.
  induction l as [|k l IH]; intros d0 Hd; simpl; [done|]. apply IH.
  destruct Hd as [f ->]. case_match; [by eexists (fun m => delete k (f m))|eauto].
Qed.

Lemma fee_vote_write_inv peer v d n :
  books_inv d n -> fee_vote_in_sane_range (sfv_vote v) = true ->
  books_inv (set_fee_votes (insert peer v) d) n.
Proof.
  intros [Hc Hops] Hv.
  split; [|apply (ops_inv_shrink d); [done|done|intros ? ? ? p _ Hok; by destruct p]].
  destruct Hc. split; try done. by apply map_Forall_insert_2.
Qed.

Lemma item_inv item peer d n d' :
  books_inv d n -> total_credited d <= U64_MAX -> item_wf item ->
  process_consensus_item self item peer d = (Ok tt, d') -> books_inv d' n.
Proof.
  intros Hinv Hb Hwf E.
  destruct item as [vote|it|sid sig|sid|h su blk bh sw gas|vote|obs|h|obs|a wei|vote|v raw];
    simpl in E; [..|done].
  - unfold process_block_count in E. run_inv E. apply maybe_trigger_withdrawal_batch_inv. by_frame d.
  - unfold process_mpc_round in E. run_inv E. case_match; by_frame d.
  - by eapply signature_inv.
  - unfold process_rotate_signing in E. run_inv E.
    match goal with |- books_inv (start_session _ ?p ?dg ?a ?d0) _ =>
      destruct (start_session_frame self p dg a d0) as [f ->] end. by_frame d.
  - unfold process_user_op_confirmed in E. run_inv E. case_match; [|by_frame d].
    apply apply_user_op_confirmed_inv; [by_frame d|done|done].
  - unfold process_fee_vote in E. run_inv E; by apply fee_vote_write_inv.
  - unfold process_bootstrap_observation in E. run_inv E. case_match; by_frame d.
  - by eapply replace_inv.
  - unfold process_block_hash in E. run_inv E. case_match; [|by_frame d].
    destruct (ring_frame (obs_height obs) (obs_block_hash obs)
      (set_block_hash_votes (insert peer obs) d)) as [f ->]. by_frame d.
  - unfold process_recover_residual in E. run_inv E.
    apply maybe_trigger_residual_recovery_inv. by_frame d.
  - unfold process_withdraw_fees_vote in E. run_inv E. zbool.
    apply maybe_trigger_fee_withdrawal_inv.
    split; [|apply (ops_inv_shrink d); [apply Hinv|done|intros ? ? ? p _ Hok; by destruct p]].
    destruct Hinv as [[] _]. split; try done. by apply map_Forall_insert_2.
Qed.
(** ** The ledger machine *)

Record Ledger := mkLedger { db : UsdtDb; issued : Z }.

(** Net worth of a transaction item in the module's unit. *)
Definition net_input (meta : InputMeta) : Z :=
  amount_of (amounts (amount meta)) USDT_UNIT - amount_of (fees (amount meta)) USDT_UNIT.
Definition net_output (am : TransactionItemAmounts) : Z :=
  amount_of (amounts am) USDT_UNIT + amount_of (fees am) USDT_UNIT.

Definition input_wf (i : UsdtInput) : Prop :=
  match i with DepositProofV0 _ _ fee => is_u64 fee | _ => True end.
Definition output_wf (o : UsdtOutput) : Prop :=
  match o with OutputV0 w => is_u64 (out_amount w) /\ is_u64 (out_max_fee w) | _ => True end.

(** What core does with the module: it keeps the writes of accepted items only, it
    processes an out point once, it orders items of the federation's
    peers only, and it accepts an output only when e-cash in
    circulation funds it.  [total_credited] is the cumulative deposit volume;
    the runs considered keep it within a [u64] (18 trillion USDT). *)
Inductive ledger_step : Ledger -> Ledger -> Prop :=
| step_input l i meta d' :
    input_wf i -> process_input self i (db l) = (Ok meta, d') ->
    total_credited d' <= U64_MAX ->
    ledger_step l (mkLedger d' (issued l + net_input meta))
| step_output l o out_point am d' :
    output_wf o -> wstates (db l) !! out_point = None ->
    process_output self o out_point (db l) = (Ok am, d') ->
    net_output am <= issued l -> total_credited d' <= U64_MAX ->
    ledger_step l (mkLedger d' (issued l - net_output am))
| step_item l item peer d' :
    peer ∈ peer_ids (num_peers self) -> item_wf item ->
    process_consensus_item self item peer (db l) = (Ok tt, d') ->
    total_credited d' <= U64_MAX ->
    ledger_step l (mkLedger d' (issued l)).

Definition genesis : Ledger := mkLedger empty_db 0.
Definition reachable (l : Ledger) : Prop := rtc ledger_step genesis l.

Definition ledger_inv (l : Ledger) : Prop :=
  books_inv (db l) (issued l) /\ total_credited (db l) <= U64_MAX.

Lemma genesis_inv : ledger_inv genesis.
Proof.
  split; [|done]. split.
  - split; try done; try (intros k v Hk; simpl in Hk; by rewrite lookup_empty in Hk).
  - split; intros h [] op p; intros; simpl in *;
      repeat match goal with
      | H : exists _, ∅ !! _ = Some _ /\ _ |- _ => destruct H as (? & H & _)
      | H : ∅ !! _ = Some _ |- _ => by rewrite lookup_empty in H
      end.
Qed.

Lemma ledger_step_inv l l' : ledger_inv l -> ledger_step l l' -> ledger_inv l'.
Proof.
  intros [Hinv Hb] Hstep. destruct Hstep as
    [l i meta d' Hwf E Hb'|l o op am d' Hwf Hfr E Hle Hb'|l it peer d' Hpeer Hwf E Hb'];
    split; try exact Hb'; simpl.
  - unfold net_input. rewrite Z.add_sub_assoc. destruct i as [op|pk pr fee|v raw]; simpl in E; [| |done].
    + by eapply refund_inv.
    + eapply deposit_inv; [done| |done]. unfold input_wf, is_u64 in Hwf. lia.
  - eapply output_inv; try done. intros w ->. unfold output_wf, is_u64 in Hwf. lia.
  - by eapply item_inv.
Qed.

Lemma reachable_ledger_inv l : reachable l -> ledger_inv l.
Proof. intros Hr. eapply rtc_invariant; [|apply genesis_inv|exact Hr]. intros a b. apply ledger_step_inv. Qed.

(** C1: Every reachable ledger is balanced: the token in deposit accounts and in the
    pool equals the e-cash in circulation plus the queued withdrawals with their
    committed fees, the unclaimed refunds, and the guardians' fee revenue, earned
    or still to be swept; and none of these is negative. *)
Theorem ledger_balanced l :
  reachable l ->
  unswept (db l) + balance (db l)
    = issued l + queued_value (db l) + refund_value (db l) + accrued (db l) + deposit_fees (db l) /\
  0 <= unswept (db l) /\ 0 <= balance (db l) /\ 0 <= issued l /\ 0 <= queued_value (db l) /\
  0 <= refund_value (db l) /\ 0 <= accrued (db l) /\ 0 <= deposit_fees (db l).
Proof.
  intros Hr. apply reachable_ledger_inv in Hr as [[Hc _] _].
  pose proof (core_nonneg (db l) (issued l) Hc) as (? & ? & ? & ?).
  destruct Hc. unfold assets, obligations in *. lia.
Qed.

(** ** The audit *)

Lemma map_sum_values {K V} `{Countable K} (f : V -> Z) (m : gmap K V) :
  map_sum (fun _ => f) m = foldr Z.add 0 (f <$> values m).
Proof.
  unfold map_sum, values. rewrite map_fold_foldr. generalize (map_to_list m) as l. clear.
  induction l as [|[k v] l IH]; simpl; [done|]. rewrite IH. done.
Qed.

Lemma foldr_add_app l l' : foldr Z.add 0 (l ++ l') = foldr Z.add 0 l + foldr Z.add 0 l'.
Proof. induction l; simpl; lia. Qed.

Lemma clamp_i64_id x : x <= I64_MAX -> clamp_i64 x = x.
Proof. intros. unfold clamp_i64. by rewrite (proj2 (try_i64_Some x x)). Qed.

Lemma clamped_sum {K V} `{Countable K} (f g : V -> Z) (m : gmap K V) :
  map_Forall (fun _ v => g v = f v) m ->
  foldr Z.add 0 (g <$> values m) = map_sum (fun _ => f) m.
Proof.
  intros Hg. rewrite <- (map_sum_values g m). by apply map_sum_ext.
Qed.

Lemma foldr_add_opp {A} (g : A -> Z) (l : list A) :
  foldr Z.add 0 ((fun v => - g v) <$> l) = - foldr Z.add 0 (g <$> l).
Proof. induction l as [|x l IH]; [done|]. rewrite !fmap_cons. cbn [foldr]. lia. Qed.

(** C18: The audit covers the e-cash: as long as the cumulative deposits fit an [i64],
    the items the module reports add up to the e-cash in circulation plus the
    guardians' earnings and the fees committed to queued withdrawals, so a
    correct module never audits below what it has issued. *)
Theorem audit_covers_ecash l :
  reachable l -> total_credited (db l) <= I64_MAX ->
  foldr Z.add 0 (audit (db l))
    = issued l + accrued (db l) + deposit_fees (db l) + map_sum (fun _ => w_max_fee) (unclaimed (db l))
  /\ issued l <= foldr Z.add 0 (audit (db l)).
Proof.
  intros Hr Hb. apply reachable_ledger_inv in Hr as [[Hc _] _].
  pose proof (core_nonneg (db l) (issued l) Hc) as (Hu & Hf & Hq & Hre).
  set (d := db l) in *.
  assert (Hmf : 0 <= map_sum (fun _ => w_max_fee) (unclaimed d)).
  { apply map_sum_nonneg. intros k v Hv. apply (inv_unclaimed _ _ Hc) in Hv. simpl in *. lia. }
  assert (Hma : 0 <= map_sum (fun _ => w_amount) (unclaimed d)).
  { apply map_sum_nonneg. intros k v Hv. apply (inv_unclaimed _ _ Hc) in Hv. simpl in *. lia. }
  assert (Hqe : queued_value d = map_sum (fun _ => w_amount) (unclaimed d)
    + map_sum (fun _ => w_max_fee) (unclaimed d)) by (unfold queued_value; by rewrite <- map_sum_add).
  assert (Hun : forall (f : UsdtWithdrawalV0 -> Z) o w, unclaimed d !! o = Some w ->
    w_amount w <= map_sum (fun _ => w_amount) (unclaimed d)).
  { intros f o w Ho. apply (map_sum_ge_lookup (fun _ => w_amount)) with o; [|done].
    intros k v Hv. apply (inv_unclaimed _ _ Hc) in Hv. simpl in *. lia. }
  pose proof (inv_books _ _ Hc) as Hbk. pose proof (inv_held _ _ Hc) as Hh.
  pose proof (inv_accrued _ _ Hc) as Hac. pose proof (inv_issued _ _ Hc) as His.
  pose proof (inv_balance _ _ Hc) as Hba.
  unfold assets, obligations in Hbk, Hh.
  unfold audit. rewrite !foldr_add_app, !foldr_add_opp.
  rewrite (clamped_sum (fun r => credited r - swept r)); cycle 1.
  { intros a r Ha. pose proof (inv_records _ _ Hc a r Ha) as [Hsw _ _ _].
    unfold saturating_sub. rewrite Z.max_r, clamp_i64_id; [done| |lia].
    assert (credited r - swept r <= unswept d); [|lia].
    apply (map_sum_ge_lookup (fun _ r => credited r - swept r)) with a; [|done].
    intros k v Hv. apply (inv_records _ _ Hc) in Hv as []. lia. }
  rewrite (clamped_sum w_amount); cycle 1.
  { intros o w Ho. apply clamp_i64_id. pose proof (Hun w_amount o w Ho). lia. }
  rewrite (clamped_sum r_amount); cycle 1.
  { intros o r Ho. apply clamp_i64_id. assert (r_amount r <= refund_value d); [|lia].
    apply (map_sum_ge_lookup (fun _ => r_amount)) with o; [apply (inv_refunds _ _ Hc)|done]. }
  assert (Hp : foldr Z.add 0 (match pool_state d with
      Some v => [clamp_i64 (pool_balance v)] | None => [] end) = balance d).
  { assert (Hbm : balance d <= I64_MAX) by lia. clear -Hbm. unfold balance in *.
    destruct (pool_state d) as [v|]; simpl in *; [|done]. rewrite clamp_i64_id; lia. }
  change (map_sum (fun _ => r_amount) (refunds d)) with (refund_value d). rewrite Hp.
  unfold unswept in *. lia.
Qed.

(** No withdrawal is ever in the state [Submitted]: from being batched until it is
    confirmed or fails, its status stays [Signing], although the documentation of
    the state announces the transition when the operation is signed. *)
Theorem withdrawal_never_submitted l o h :
  reachable l -> wstates (db l) !! o <> Some (WithdrawalSubmitted h).
Proof.
  intros Hr E. apply reachable_ledger_inv in Hr as [[Hc _] _].
  pose proof (inv_lifecycle _ _ Hc o) as Hl. unfold lifecycle_ok in Hl. by rewrite E in Hl.
Qed.

(** C39: The median of stored votes always prices: on reachable ledgers of a federation
    with a positive threshold, neither deposits nor withdrawals can fail with an
    overflowing fee quote, so a faulty minority cannot block them that way. *)
Theorem quote_never_overflows l :
  reachable l -> (1 <= threshold (num_peers self))%nat ->
  (forall o op d', process_output self o op (db l) <> (Err OutputFeeQuoteOverflow, d')) /\
  (forall i d', process_input self i (db l) <> (Err InputFeeQuoteOverflow, d')).
Proof.
  intros Hr Ht. apply reachable_ledger_inv in Hr as [[Hc _] _].
  assert (Hs : forall m, fee_vote_median self (db l) = Some m -> fee_vote_in_sane_range m = true).
  { intros m Em. apply fee_vote_median_spec in Em as [[_ ?]|(v & v' & Hv & Hv' & Ef & Er)]; [lia|].
    apply elem_of_values in Hv as [k Hv], Hv' as [k' Hv'].
    apply (inv_fee_votes _ _ Hc) in Hv, Hv'. unfold fee_vote_in_sane_range in *. rewrite Ef, Er.
    zbool. rewrite !andb_true_iff, !Z.leb_le. lia. }
  split.
  - intros [w|v raw] op d' E; unfold process_output in E; [|done]. run_inv E; ok_facts; simplify_eq;
    match goal with H : withdrawal_fee_quote ?m = None, H' : fee_vote_median _ _ = Some ?m |- _ =>
      apply Hs in H'; destruct (gas_cost_fee_quote_sane WITHDRAWAL_GAS_UNITS m MIN_WITHDRAWAL_FEE)
        as (q & Hq & _); [done|done|done|]; unfold withdrawal_fee_quote in H; congruence end.
  - intros [op|pk pr fee|v raw] d' E; simpl in E; [unfold process_refund in E; run_inv E; by ok_facts| |done].
    unfold process_deposit_proof in E. run_inv E; ok_facts; simplify_eq;
    match goal with H : deposit_fee_quote ?m = None, H' : fee_vote_median _ _ = Some ?m |- _ =>
      apply Hs in H'; destruct (gas_cost_fee_quote_sane SWEEP_GAS_UNITS m MIN_DEPOSIT_FEE)
        as (q & Hq & _); [done|done|done|]; unfold deposit_fee_quote in H; congruence end.
Qed.
End solvency.
