(* ===== verification/UsdtDemo.v ===== *)
(** * A run of the USDT module

    A concrete federation of one guardian on which the theorems about reachable
    ledgers are evaluated: a deposit is proven and swept into the pool, and a
    withdrawal is queued, batched, signed and paid. *)

From S2P Require Import Prelude FedimintCore UsdtTypes UsdtEvm UsdtUserOp UsdtSigning UsdtProof.
From S2P Require Import UsdtDb UsdtServer UsdtHandlers UsdtLedger UsdtSolvency.

(** A 32-byte checksum in place of Keccak-256 (the theorems evaluated here do not
    rest on its collision resistance); calls as in [toy_evm]. *)
Definition checksum (b : bytes) : Hash :=
  replicate 24 0 ++ be_bytes 8 (foldl (fun acc x => (acc * 1000003 + x + 7) mod (2 ^ 61 - 1)) 17 b).

Definition demo_evm : Evm := with_hash checksum.

Lemma demo_abi_ok : @AbiOk demo_evm.
Proof. split; intros; apply unpack_pack. Qed.

Section demo.
#[local] Existing Instance demo_evm.
#[local] Existing Instance demo_abi_ok.
#[local] Existing Instance toy_trie.
#[local] Existing Instance toy_trie_ok.
#[local] Existing Instance map_amounts.
#[local] Existing Instance map_amounts_ok.

Definition demo_group : PublicKey := mkPublicKey 77.
Definition demo_claim : PublicKey := mkPublicKey 5.
Definition demo_usdt : Usdt := mkUsdt
  (mkUsdtConfigConsensus demo_group (replicate 20 1) 1 1 (replicate 20 2) (replicate 20 3)
     (replicate 20 4) (replicate 20 6) ∅ 1 0 1 zero_address 3600)
  (mkNumPeers [0] 1) 0 false.

(** The steps of the run: [inl] a consensus item of the guardian, [inr (inl _)] an
    input, [inr (inr _)] an output with its out point. *)
Definition demo_event : Type := UsdtConsensusItem + (UsdtInput + UsdtOutput * OutPoint).

Definition demo_apply (l : Ledger) (e : demo_event) : option Ledger :=
  match e with
  | inl item =>
      match process_consensus_item demo_usdt item 0 (db l) with
      | (Ok _, d) => Some (mkLedger d (issued l))
      | _ => None
      end
  | inr (inl i) =>
      match process_input demo_usdt i (db l) with
      | (Ok meta, d) => Some (mkLedger d (issued l + net_input meta))
      | _ => None
      end
  | inr (inr (o, op)) =>
      match process_output demo_usdt o op (db l) with
      | (Ok am, d) => if net_output am <=? issued l
                      then Some (mkLedger d (issued l - net_output am)) else None
      | _ => None
      end
  end.

(** The side conditions of a step, as a boolean. *)
Definition demo_ok (l : Ledger) (e : demo_event) : bool :=
  match demo_apply l e with
  | None => false
  | Some l' =>
      (total_credited (db l') <=? U64_MAX) &&
      match e with
      | inl (UserOpConfirmed _ _ _ _ _ gas) => 0 <=? gas
      | inl (BlockCount vote) => (0 <=? vote) && (vote <=? U64_MAX)
      | inl (BlockHash obs) => (0 <=? obs_height obs) && (obs_height obs <=? U64_MAX)
      | inl _ => true
      | inr (inl (DepositProofV0 _ _ fee)) => (0 <=? fee) && (fee <=? U64_MAX)
      | inr (inl _) => true
      | inr (inr (OutputV0 w, op)) =>
          bool_decide (wstates (db l) !! op = None) && (0 <=? out_amount w)
          && (out_amount w <=? U64_MAX) && (0 <=? out_max_fee w) && (out_max_fee w <=? U64_MAX)
      | inr (inr (OutputDefault _ _, _)) => false
      end
  end.

Lemma demo_step l e l' :
  demo_ok l e = true -> demo_apply l e = Some l' -> ledger_step demo_usdt l l'.
Proof.
  unfold demo_ok. intros Hok E. rewrite E in Hok. apply andb_true_iff in Hok as [Hb Hok]. zbool.
  destruct e as [item|[i|[o op]]]; simpl in E.
  - destruct (process_consensus_item _ _ _ _) as [[[]|] d] eqn:Ep; simplify_eq.
    eapply step_item; [by apply list_elem_of_singleton| |exact Ep|done].
    destruct item; simpl in *; try done; by zbool.
  - destruct (process_input _ _ _) as [[meta|] d] eqn:Ep; simplify_eq.
    eapply step_input; [|exact Ep|done]. destruct i; simpl in *; try done. by zbool.
  - destruct (process_output _ _ _ _) as [[am|] d] eqn:Ep; [|done].
    destruct (_ <=? _) eqn:El; simplify_eq. zbool. destruct o as [w|]; [|done].
    zbool. eapply step_output; [|done|exact Ep|done|done]. by split.
Qed.

(** Runs a list of events, checking every step. *)
Fixpoint usdt_run (l : Ledger) (es : list demo_event) : option Ledger :=
  match es with
  | [] => Some l
  | e :: es => if demo_ok l e then demo_apply l e ≫= fun l => usdt_run l es else None
  end.

Lemma usdt_run_reachable es l l' :
  reachable demo_usdt l -> usdt_run l es = Some l' -> reachable demo_usdt l'.
Proof.
  revert l. induction es as [|e es IH]; intros l Hl E; simpl in E; [by simplify_eq|].
  destruct (demo_ok l e) eqn:Ho; [|done]. destruct (demo_apply l e) as [l1|] eqn:Ea; [|done].
  simpl in E. apply (IH l1); [|done]. eapply rtc_r; [exact Hl|]. by apply (demo_step l e).
Qed.

Definition demo_proof : DepositProof := mkDepositProof 9 [1] [[50000000]] [[50000000]].
Definition demo_vote : FeeVote := mkFeeVote 1000000000 3000000000.
Definition demo_out_point : OutPoint := (900, 0).

(** Votes, then a deposit; its sweep is enqueued. *)
Definition demo_events1 : list demo_event :=
  [inl (BlockCount 10); inl (FeeVoteItem demo_vote);
   inl (BlockHash (mkBlockHashObservation 9 (checksum [1])));
   inr (inl (DepositProofV0 demo_claim demo_proof 2880000))].
Definition demo_ledger1 : Ledger := default (genesis) (usdt_run genesis demo_events1).

Definition first_key {V} (m : gmap Hash V) : Hash := default [] (head (map_to_list m).*1).
(** The guardians' signature over the only open session. *)
Definition demo_sign (l : Ledger) : demo_event :=
  let open := filter (fun kv : Hash * SigningSession => state kv.2 = InProgress)
                (map_to_list (sessions (db l))) in
  inl (MpcSignature (default [] (head open.*1)) (77 :: replicate 63 0)).

Definition demo_ledger2 : Ledger := default genesis (usdt_run demo_ledger1 [demo_sign demo_ledger1]).

(** The sweep is confirmed and a withdrawal queued; the next block batches it. *)
Definition demo_events3 : list demo_event :=
  [inl (UserOpConfirmed (first_key (submitted (db demo_ledger2))) true 12 [7] 50000000 5);
   inr (inr (OutputV0 (mkUsdtOutputV0 (replicate 20 8) 10000000 1296000 demo_claim),
             demo_out_point));
   inl (BlockCount 20)].
Definition demo_ledger3 : Ledger := default genesis (usdt_run demo_ledger2 demo_events3).
Definition demo_ledger4 : Ledger := default genesis (usdt_run demo_ledger3 [demo_sign demo_ledger3]).
Definition demo_events5 : list demo_event :=
  [inl (UserOpConfirmed (first_key (submitted (db demo_ledger4))) true 22 [7] 10000000 5)].
Definition demo_ledger5 : Ledger := default genesis (usdt_run demo_ledger4 demo_events5).

Lemma run_reachable l es :
  reachable demo_usdt l -> bool_decide (is_Some (usdt_run l es)) = true ->
  reachable demo_usdt (default genesis (usdt_run l es)).
Proof.
  intros Hl [l' Er]%bool_decide_eq_true. rewrite Er. by apply (usdt_run_reachable es l).
Qed.

Lemma demo_reachable1 : reachable demo_usdt demo_ledger1.
Proof. apply run_reachable; [apply rtc_refl|]. vm_compute. reflexivity. Qed.
Lemma demo_reachable2 : reachable demo_usdt demo_ledger2.
Proof. apply run_reachable; [apply demo_reachable1|]. vm_compute. reflexivity. Qed.
Lemma demo_reachable3 : reachable demo_usdt demo_ledger3.
Proof. apply run_reachable; [apply demo_reachable2|]. vm_compute. reflexivity. Qed.
Lemma demo_reachable4 : reachable demo_usdt demo_ledger4.
Proof. apply run_reachable; [apply demo_reachable3|]. vm_compute. reflexivity. Qed.
Lemma demo_reachable5 : reachable demo_usdt demo_ledger5.
Proof. apply run_reachable; [apply demo_reachable4|]. vm_compute. reflexivity. Qed.

(** The books after the payment. *)
Example demo_books5 :
  (unswept (db demo_ledger5), balance (db demo_ledger5), issued demo_ledger5,
   queued_value (db demo_ledger5), accrued (db demo_ledger5))
  = (0, 40000000, 35824000, 0, 4176000).
Proof. vm_compute. reflexivity. Qed.

Lemma ledger_balanced_witness :
  let d := db demo_ledger3 in
  unswept d + balance d
    = issued demo_ledger3 + queued_value d + refund_value d + accrued d + deposit_fees d /\
  0 <= unswept d /\ 0 <= balance d /\ 0 <= issued demo_ledger3 /\ 0 <= queued_value d /\
  0 <= refund_value d /\ 0 <= accrued d /\ 0 <= deposit_fees d.
Proof. apply (ledger_balanced demo_usdt demo_ledger3), demo_reachable3. Defined.

Lemma audit_covers_ecash_witness :
  let d := db demo_ledger3 in
  foldr Z.add 0 (audit d)
    = issued demo_ledger3 + accrued d + deposit_fees d + map_sum (fun _ => w_max_fee) (unclaimed d)
  /\ issued demo_ledger3 <= foldr Z.add 0 (audit d).
Proof.
  apply (audit_covers_ecash demo_usdt demo_ledger3); [apply demo_reachable3|].
  vm_compute. discriminate.
Defined.

Lemma withdrawal_never_submitted_witness :
  wstates (db demo_ledger4) !! demo_out_point <> Some (WithdrawalSubmitted [7]).
Proof. apply (withdrawal_never_submitted demo_usdt demo_ledger4), demo_reachable4. Defined.

Lemma quote_never_overflows_witness :
  (forall o op d', process_output demo_usdt o op (db demo_ledger3) <> (Err OutputFeeQuoteOverflow, d')) /\
  (forall i d', process_input demo_usdt i (db demo_ledger3) <> (Err InputFeeQuoteOverflow, d')).
Proof.
  apply (quote_never_overflows demo_usdt demo_ledger3); [apply demo_reachable3|simpl; lia].
Defined.
End demo.
