(* ===== verification/UsdtSessions.v ===== *)
(** * Every operation gets signed

    The signing sessions of [modules/usdt/fedimint-usdt-server/src/lib.rs]
    ([start_session], [process_mpc_round], [process_rotate_signing],
    [process_mpc_signature]) against the operations the handlers enqueue, replace and
    purge: no pending operation is ever left without a session that can sign it.  A
    session's id depends on the digest and the attempt only, and the sessions of
    retired operations stay in the table, so this rests on nonces never being reused. *)

From S2P Require Import Prelude FedimintCore UsdtTypes UsdtEvm UsdtUserOp UsdtSigning UsdtProof.
From S2P Require Import UsdtDb UsdtServer UsdtHandlers UsdtLedger UsdtTriggers UsdtSettlement.
From S2P Require Import UsdtConfirm UsdtSolvency UsdtDemo.

Definition ATTEMPTS_MAX : Z := 2 ^ 32 - 1.

(** ** What purging keeps *)

Lemma purge_submitted_keeps snd n exc h l d :
  (forall s, (h, s) ∈ l -> same_slot snd n (unsigned (signed s)) = false) ->
  let d' := foldl (fun d '(hash, s) =>
    if bool_decide (hash = exc) then d
    else if same_slot snd n (unsigned (signed s))
    then remove_confirmed_votes hash (set_submitted (delete hash) d) else d) d l in
  submitted d' !! h = submitted d !! h /\ sessions d' = sessions d.
Proof.
  revert d. induction l as [|[h1 s1] l IH]; intros d Hl; cbn [foldl]; [done|].
  destruct (IH (if bool_decide (h1 = exc) then d
    else if same_slot snd n (unsigned (signed s1))
    then remove_confirmed_votes h1 (set_submitted (delete h1) d) else d)) as [Es Ess];
    [intros s Hs; apply Hl; by right|].
  rewrite Es, Ess. case_bool_decide; [done|]. destruct (same_slot snd n _) eqn:Eslot; [|done].
  split; [|done]. simpl. apply lookup_delete_ne. intros ->. rewrite (Hl s1) in Eslot; [done|by left].
Qed.

Lemma remove_sessions_sub h d sid s :
  sessions (remove_signing_sessions_for_op h d) !! sid = Some s -> sessions d !! sid = Some s.
Proof.
  unfold remove_signing_sessions_for_op. generalize (map_to_list (sessions d)) as l. intros l.
  revert d. induction l as [|[id s1] l IH]; intros d; cbn [foldl]; [done|].
  intros E%IH. case_bool_decide; [|done]. simpl in E. by apply lookup_delete_Some in E as [_ E].
Qed.

Lemma remove_sessions_keeps h d sid s :
  sessions d !! sid = Some s -> ses_purpose s <> UserOp h ->
  sessions (remove_signing_sessions_for_op h d) !! sid = Some s.
Proof.
  intros Hs Hp. unfold remove_signing_sessions_for_op.
  assert (Hl : forall s1, (sid, s1) ∈ map_to_list (sessions d) -> s1 = s)
    by (intros s1 H1%elem_of_map_to_list; congruence).
  revert Hs Hl. generalize (map_to_list (sessions d)) as l. intros l.
  revert d. induction l as [|[id s1] l IH]; intros d Hs Hl; cbn [foldl]; [done|].
  apply IH; [|intros s2 H2; apply Hl; by right].
  case_bool_decide as Hd; [|done]. simpl. rewrite lookup_delete_ne; [done|].
  intros ->. rewrite (Hl s1) in Hd by (by left). done.
Qed.

Lemma purge_pending_keeps snd n exc h l d :
  (forall q, (h, q) ∈ l -> same_slot snd n (p_op q) = false) ->
  let d' := foldl (fun d '(hash, p) =>
    if bool_decide (hash = exc) then d
    else if same_slot snd n (p_op p)
    then remove_signing_sessions_for_op hash (set_pending (delete hash) d) else d) d l in
  pending d' !! h = pending d !! h /\
  (forall sid s, sessions d' !! sid = Some s -> sessions d !! sid = Some s) /\
  (forall sid s, sessions d !! sid = Some s -> ses_purpose s = UserOp h -> sessions d' !! sid = Some s).
Proof.
  revert d. induction l as [|[h1 q1] l IH]; intros d Hl; cbn [foldl]; [done|].
  destruct (IH (if bool_decide (h1 = exc) then d
    else if same_slot snd n (p_op q1)
    then remove_signing_sessions_for_op h1 (set_pending (delete h1) d) else d)) as (Ep & Hsub & Hkeep);
    [intros q Hq; apply Hl; by right|].
  rewrite Ep. destruct (bool_decide (h1 = exc)); [done|]. destruct (same_slot snd n _) eqn:Eslot; [|done].
  assert (h1 <> h) as Hne by (intros ->; rewrite (Hl q1) in Eslot; [done|by left]).
  destruct (remove_sessions_core h1 (set_pending (delete h1) d)) as [_ Hp _]. rewrite Hp.
  split; [by apply lookup_delete_ne|]. split.
  - intros sid s Hs. by apply Hsub, remove_sessions_sub in Hs.
  - intros sid s Hs Hps. apply Hkeep; [|done]. apply remove_sessions_keeps; [done|]. rewrite Hps.
    congruence.
Qed.

(** Operations in other slots survive a purge, with their sessions. *)
Lemma purge_chain_keeps snd n exc d :
  let d' := purge_user_op_nonce_chain snd n exc d in
  (forall h b op p, live d h b op p -> same_slot snd n op = false -> live d' h b op p) /\
  (forall sid s, sessions d' !! sid = Some s -> sessions d !! sid = Some s) /\
  (forall h op p sid s, live d h false op p -> same_slot snd n op = false ->
     sessions d !! sid = Some s -> ses_purpose s = UserOp h -> sessions d' !! sid = Some s).
Proof.
  unfold purge_user_op_nonce_chain. set (d1 := purge_submitted snd n exc d). cbn zeta.
  assert (Ep : pending d1 = pending d)
    by (by destruct (purge_submitted_fold snd n exc (map_to_list (submitted d)) d) as (_ & ? & _)).
  assert (Ess : sessions d1 = sessions d).
  { unfold d1, purge_submitted. generalize (map_to_list (submitted d)) as l. intros l. generalize d.
    induction l as [|[h s] l IH]; intros d0; cbn [foldl]; [done|]. rewrite IH. by repeat case_match. }
  assert (Hes : submitted (purge_pending snd n exc d1) = submitted d1)
    by (by destruct (purge_pending_fold snd n exc (map_to_list (pending d1)) d1) as (_ & ? & _)).
  assert (Hpend : forall h op p, live d h false op p -> same_slot snd n op = false ->
    forall q, (h, q) ∈ map_to_list (pending d1) -> same_slot snd n (p_op q) = false).
  { intros h op p (q & Hq & <- & <-) Hslot q' Hq'%elem_of_map_to_list. rewrite Ep in Hq'. congruence. }
  split_and!.
  - intros h [] op p Hl Hslot.
    + destruct Hl as (s & Hs & <- & <-). exists s. rewrite Hes.
      destruct (purge_submitted_keeps snd n exc h (map_to_list (submitted d)) d) as [Ek _].
      { intros s' Hs'%elem_of_map_to_list. congruence. }
      fold (purge_submitted snd n exc d) d1 in Ek. by rewrite Ek.
    + pose proof (Hpend h op p Hl Hslot) as Hq. destruct Hl as (q & Hl & <- & <-). exists q.
      destruct (purge_pending_keeps snd n exc h (map_to_list (pending d1)) d1 Hq) as (Ek & _).
      fold (purge_pending snd n exc d1) in Ek. by rewrite Ek, Ep.
  - intros sid s Hs. rewrite <- Ess.
    revert Hs. unfold purge_pending. generalize (map_to_list (pending d1)) as l. intros l.
    generalize d1. clear. induction l as [|[h q] l IH]; intros d1; cbn [foldl]; [done|].
    intros Hs%IH. repeat case_match; try done. by apply remove_sessions_sub in Hs.
  - intros h op p sid s Hl Hslot Hs Hps. rewrite <- Ess in Hs.
    destruct (purge_pending_keeps snd n exc h (map_to_list (pending d1)) d1 (Hpend h op p Hl Hslot))
      as (_ & _ & Hk). by apply Hk.
Qed.

Section sessions.
Context `{AbiOk} `{!HashOk} `{StateTrieOk} `{AmountsOk} (self : Usdt).
(** CREATE2 gives no depositor the pool's address. *)
Hypothesis pool_apart : forall pk,
  derive_deposit_account (group_public_key (cfg self)) (account_factory (cfg self))
    (simple_account_impl (cfg self)) pk <> pool_account self.

(** ** Names do not clash *)

Lemma op_hash_slot op op' :
  op_hash_of self op = op_hash_of self op' -> same_nonce_slot op op'.
Proof.
  unfold op_hash_of, user_op_hash. intros E.
  apply (inj keccak256), hash_address_chain_inj in E as (E & _ & _).
  apply (inj keccak256), user_op_inj in E as (? & ? & _). by split.
Qed.

Definition session_key (h : Hash) (attempt : Z) : Hash :=
  signing_session_id (eth_signed_message_hash h) attempt.

Lemma session_key_inj h a h' a' :
  0 <= a <= ATTEMPTS_MAX -> 0 <= a' <= ATTEMPTS_MAX -> session_key h a = session_key h' a' -> h = h' /\ a = a'.
Proof.
  intros Ha Ha' E. unfold session_key, signing_session_id in E. apply (inj keccak256), app_inv_head in E.
  apply app_inj_2 in E as [E1 E2]; [|by rewrite !length_be_bytes]. split.
  - unfold eth_signed_message_hash in E1. by apply (inj keccak256), app_inv_head in E1.
  - eapply (be_bytes_inj 4); [..|done]; change (256 ^ Z.of_nat 4) with (2 ^ 32); unfold ATTEMPTS_MAX in *; lia.
Qed.

(** ** The invariant *)

(** The nonce the next operation of an account has to carry. *)
Definition account_nonce (d : UsdtDb) (a : EvmAddress) : Z :=
  if decide (a = pool_account self) then default 0 (pool_nonce <$> pool_state d)
  else default 0 (rec_nonce <$> deposits d !! a).

Definition op_placed (d : UsdtDb) (h : Hash) (op : UnsignedUserOp) (p : UserOpPurpose) : Prop :=
  h = op_hash_of self op /\ nonce op = account_nonce d (sender op) /\
  match p with
  | DeployAndSweep a | RecoverResidualOp a => sender op = a /\ is_Some (deposits d !! a)
  | Withdraw _ | WithdrawFees _ _ => sender op = pool_account self
  end.

(** An operation that sessions were opened for: in a table, or behind its account. *)
Definition accounted (d : UsdtDb) (h : Hash) : Prop :=
  exists op, h = op_hash_of self op /\
    ((exists b p, live d h b op p) \/ nonce op < account_nonce d (sender op)).

Record session_ok (k : Z) (d : UsdtDb) (sid : Hash) (s : SigningSession) (h : Hash) : Prop := {
  so_purpose : ses_purpose s = UserOp h;
  so_digest : digest s = eth_signed_message_hash h;
  so_key : sid = session_key h (attempt s);
  so_attempt : 0 <= attempt s <= k;
  so_signers : signers s = signer_subset (num_peers self) (digest s) (attempt s);
  so_accounted : accounted d h;
}.

(** The session that can sign a pending operation: the one of its latest attempt, and
    the only one in progress. *)
Definition live_session (d : UsdtDb) (h : Hash) (s : SigningSession) : Prop :=
  sessions d !! session_key h (attempt s) = Some s /\ ses_purpose s = UserOp h /\
  state s = InProgress /\
  forall sid' s', sessions d !! sid' = Some s' -> ses_purpose s' = UserOp h ->
    attempt s' <= attempt s /\ (state s' = InProgress -> attempt s' = attempt s).

Record signing_inv (k : Z) (d : UsdtDb) : Prop := {
  sg_placed h b op p : live d h b op p -> op_placed d h op p;
  sg_once h op p op' p' : live d h false op p -> ~ live d h true op' p';
  sg_pool p : pool_state d = Some p -> pool_account_addr p = pool_account self;
  sg_deposits a : is_Some (deposits d !! a) -> a <> pool_account self;
  sg_nonce a : 0 <= account_nonce d a <= k;
  sg_session sid s : sessions d !! sid = Some s -> exists h, session_ok k d sid s h;
  sg_live h op p : live d h false op p -> exists s, live_session d h s;
}.

(** ** Frames *)

(** What the invariant reads, up to the sessions. *)
Record same_ops (d d' : UsdtDb) : Prop := {
  so_live h b op p : live d' h b op p <-> live d h b op p;
  so_nonce a : account_nonce d' a = account_nonce d a;
  so_pool p : pool_state d' = Some p -> (forall q, pool_state d = Some q -> pool_account_addr q = pool_account self) ->
    pool_account_addr p = pool_account self;
  so_known a : is_Some (deposits d !! a) -> is_Some (deposits d' !! a);
  so_apart a : is_Some (deposits d' !! a) -> is_Some (deposits d !! a) \/ a <> pool_account self;
}.

Lemma same_ops_tables d d' :
  pending d' = pending d -> submitted d' = submitted d -> deposits d' = deposits d ->
  pool_state d' = pool_state d -> same_ops d d'.
Proof.
  intros Ep Es Ed Eo. split.
  - intros h [] op p; simpl; by rewrite ?Ep, ?Es.
  - intros a. unfold account_nonce. by rewrite Ed, Eo.
  - rewrite Eo. eauto.
  - by rewrite Ed.
  - rewrite Ed. eauto.
Qed.

Lemma op_placed_frame d d' h op p : same_ops d d' -> op_placed d h op p -> op_placed d' h op p.
Proof.
  intros Hs (Hh & Hn & Hp). split; [done|]. rewrite (so_nonce _ _ Hs). split; [done|].
  pose proof (so_known _ _ Hs). destruct p; naive_solver.
Qed.

Lemma accounted_frame d d' h : same_ops d d' -> accounted d h -> accounted d' h.
Proof.
  intros Hs (op & Hh & Hor). exists op. split; [done|]. rewrite (so_nonce _ _ Hs).
  destruct Hor as [(b & p & Hl)|?]; [left|by right]. exists b, p. by apply (so_live _ _ Hs).
Qed.

Lemma session_ok_frame k k' d d' sid s h :
  k <= k' -> same_ops d d' -> session_ok k d sid s h -> session_ok k' d' sid s h.
Proof. intros Hk Hs []. split; try done; [lia|]. by eapply accounted_frame. Qed.

(** The invariant of everything but the sessions, and the rest from the sessions. *)
Lemma signing_frame k k' d d' :
  k <= k' -> same_ops d d' -> signing_inv k d ->
  (forall sid s, sessions d' !! sid = Some s -> exists h, session_ok k' d' sid s h) ->
  (forall h op p, live d h false op p -> exists s, live_session d' h s) ->
  signing_inv k' d'.
Proof.
  intros Hk Hs [Hplaced Honce Hpool Hdep Hnon _ _] Hses Hlive. split.
  - intros h b op p Hl. eapply op_placed_frame; [done|]. eapply Hplaced. by apply (so_live _ _ Hs).
  - intros h op p op' p' Hl Hl'. apply (so_live _ _ Hs) in Hl, Hl'. by eapply Honce.
  - intros p Hp. by eapply so_pool.
  - intros a Ha. apply (so_apart _ _ Hs) in Ha as [Ha|Ha]; [by apply Hdep|done].
  - intros a. rewrite (so_nonce _ _ Hs). specialize (Hnon a). lia.
  - done.
  - intros h op p Hl. apply (so_live _ _ Hs) in Hl. by eapply Hlive.
Qed.

Lemma live_session_same d d' h s : sessions d' = sessions d -> live_session d h s -> live_session d' h s.
Proof. intros E. unfold live_session. by rewrite E. Qed.

Lemma signing_same k k' d d' :
  k <= k' -> same_ops d d' -> sessions d' = sessions d -> signing_inv k d -> signing_inv k' d'.
Proof.
  intros Hk Hs E Hinv. apply (signing_frame k k' d d' Hk Hs Hinv).
  - intros sid s Hsid. rewrite E in Hsid. destruct (sg_session _ _ Hinv sid s Hsid) as [h Hh].
    exists h. by eapply session_ok_frame.
  - intros h op p Hl. destruct (sg_live _ _ Hinv h op p Hl) as [s Hlv]. exists s.
    by eapply live_session_same.
Qed.

Lemma signing_tables k k' d d' :
  k <= k' -> pending d' = pending d -> submitted d' = submitted d -> deposits d' = deposits d ->
  pool_state d' = pool_state d -> sessions d' = sessions d -> signing_inv k d -> signing_inv k' d'.
Proof. intros. apply (signing_same k k' d); [done| |done|done]. by apply same_ops_tables. Qed.

(** ** Opening a session for a new operation *)

Lemma no_session_for k d h op :
  signing_inv k d -> h = op_hash_of self op -> nonce op = account_nonce d (sender op) ->
  (forall b op' p, ~ live d h b op' p) ->
  forall sid s, sessions d !! sid = Some s -> ses_purpose s <> UserOp h.
Proof.
  intros Hinv Hh Hn Hnew sid s Hs Hp. destruct (sg_session _ _ Hinv sid s Hs) as [h' []].
  rewrite Hp in so_purpose0. simplify_eq.
  destruct so_accounted0 as (op' & E & [(b & p & Hl)|Hlt]); [by eapply Hnew|].
  apply op_hash_slot in E as [Es En]. rewrite <- Es, <- En in Hlt. lia.
Qed.

Lemma no_session_at k d h a :
  signing_inv k d -> k <= ATTEMPTS_MAX -> 0 <= a <= ATTEMPTS_MAX ->
  (forall sid s, sessions d !! sid = Some s -> ses_purpose s = UserOp h -> attempt s < a) ->
  sessions d !! session_key h a = None.
Proof.
  intros Hinv Hk Ha Hno. apply eq_None_not_Some. intros [s Hs].
  destruct (sg_session _ _ Hinv _ s Hs) as [h' []].
  apply session_key_inj in so_key0 as [-> ->]; [|lia..]. specialize (Hno _ _ Hs so_purpose0). lia.
Qed.

Definition new_session (d : UsdtDb) (h : Hash) (a : Z) : SigningSession :=
  mkSigningSession (UserOp h) (eth_signed_message_hash h)
    (signer_subset (num_peers self) (eth_signed_message_hash h) a) 0 InProgress a
    (consensus_block_count self d).

Lemma start_session_new d h a :
  sessions d !! session_key h a = None ->
  start_session self (UserOp h) (eth_signed_message_hash h) a d
  = set_sessions (insert (session_key h a) (new_session d h a)) d.
Proof. intros E. unfold start_session. fold (session_key h a). by rewrite E. Qed.

Lemma live_enqueue d d1 h q h' b op p :
  pending d1 = <[h:=q]> (pending d) -> submitted d1 = submitted d ->
  live d1 h' b op p -> (h' = h /\ b = false /\ op = p_op q /\ p = p_purpose q) \/ live d h' b op p.
Proof.
  intros Ep Es Hl. apply live_pending_insert. destruct b; simpl in *; by rewrite <- ?Ep, <- ?Es.
Qed.

(** The invariant of tables with one more operation and its first session. *)
Lemma signing_insert k k' d d2 h q s0 :
  signing_inv k d -> k <= k' -> op_placed d h (p_op q) (p_purpose q) ->
  (forall b op p, ~ live d h b op p) ->
  (forall sid s, sessions d !! sid = Some s -> ses_purpose s <> UserOp h) ->
  sessions d !! session_key h 0 = None ->
  pending d2 = <[h:=q]> (pending d) -> submitted d2 = submitted d -> deposits d2 = deposits d ->
  pool_state d2 = pool_state d -> sessions d2 = <[session_key h 0 := s0]> (sessions d) ->
  ses_purpose s0 = UserOp h -> digest s0 = eth_signed_message_hash h -> attempt s0 = 0 ->
  signers s0 = signer_subset (num_peers self) (digest s0) 0 -> state s0 = InProgress ->
  signing_inv k' d2.
Proof.
  intros Hinv Hk Hpl Hnew Hno Hfree Ep Es Ed Eo Ess2 Hs0p Hs0d Hs0a Hs0s Hs0i.
  assert (Hold : forall h' b op p, live d h' b op p -> live d2 h' b op p).
  { intros h' [] op p Hl; simpl in *; [by rewrite Es|]. destruct Hl as (q' & Hq & <- & <-).
    exists q'. rewrite Ep. rewrite lookup_insert_ne; [done|]. intros <-. eapply (Hnew false). simpl. eauto. }
  assert (Hln : forall h' b op p, live d2 h' b op p ->
    (h' = h /\ b = false /\ op = p_op q /\ p = p_purpose q) \/ live d h' b op p)
    by (intros; by eapply live_enqueue).
  assert (Hnon : forall a, account_nonce d2 a = account_nonce d a)
    by (intros a; unfold account_nonce; by rewrite Ed, Eo).
  assert (Hplace : forall h' op p, op_placed d h' op p -> op_placed d2 h' op p).
  { intros h' op p (? & ? & Hp). unfold op_placed. by rewrite Hnon, Ed. }
  split.
  - intros h' b op p [(-> & _ & -> & ->)|Hl]%Hln; [by apply Hplace|]. eapply Hplace, sg_placed; done.
  - intros h' op p op' p' [(-> & _ & _ & _)|Hl]%Hln [(? & ? & _)|Hl']%Hln; try done.
    + by destruct (Hnew _ _ _ Hl').
    + by eapply sg_once.
  - rewrite Eo. apply (sg_pool _ _ Hinv).
  - rewrite Ed. apply (sg_deposits _ _ Hinv).
  - intros a. rewrite Hnon. pose proof (sg_nonce _ _ Hinv a). lia.
  - intros sid s Hs. rewrite Ess2 in Hs. apply lookup_insert_Some in Hs as [[<- <-]|[_ Hs]].
    + exists h. split; rewrite ?Hs0a; try done; [pose proof (sg_nonce _ _ Hinv []); lia|].
      destruct Hpl as (Hh & _). exists (p_op q). split; [done|]. left. exists false, (p_purpose q), q.
      simpl. by rewrite Ep, lookup_insert_eq.
    + destruct (sg_session _ _ Hinv sid s Hs) as [h' []]. exists h'. split; try done; [lia|].
      destruct so_accounted0 as (op' & E & Hor). exists op'. split; [done|]. rewrite Hnon.
      destruct Hor as [(b & p & Hl)|Hlt]; [left|by right]. exists b, p. by apply Hold.
  - intros h' op p [(-> & _ & _ & _)|Hl]%Hln.
    + exists s0. rewrite <- Hs0a in Ess2. split; [by rewrite Ess2, lookup_insert_eq|]. split; [done|].
      split; [done|]. intros sid' s' Hs' Hp'. rewrite Ess2 in Hs'.
      apply lookup_insert_Some in Hs' as [[<- <-]|[_ Hs']]; [done|]. by destruct (Hno sid' s').
    + destruct (sg_live _ _ Hinv h' op p Hl) as (s & Hs & Hps & Hst & Hmax). exists s.
      assert (h' <> h) as Hne by (intros ->; by eapply Hnew).
      split; [|split; [done|]; split; [done|]]; rewrite Ess2.
      * rewrite lookup_insert_ne; [done|]. intros E. rewrite <- E, Hfree in Hs. done.
      * intros sid' s' Hs' Hp'. apply lookup_insert_Some in Hs' as [[<- <-]|[_ Hs']]; [|by eapply Hmax].
        congruence.
Qed.
Lemma start_signing k k' d d1 h q :
  signing_inv k d -> k <= k' -> k' <= ATTEMPTS_MAX ->
  op_placed d h (p_op q) (p_purpose q) -> (forall b op p, ~ live d h b op p) ->
  pending d1 = <[h:=q]> (pending d) -> submitted d1 = submitted d -> deposits d1 = deposits d ->
  pool_state d1 = pool_state d -> sessions d1 = sessions d ->
  signing_inv k' (start_session self (UserOp h) (eth_signed_message_hash h) 0 d1).
Proof.
  intros Hinv Hk HkU Hpl Hnew Ep Es Ed Eo Ess.
  assert (Hno : forall sid s, sessions d !! sid = Some s -> ses_purpose s <> UserOp h)
    by (destruct Hpl as (? & ? & _); by eapply no_session_for).
  assert (Hfree : sessions d !! session_key h 0 = None).
  { eapply (no_session_at k); [done|lia|unfold ATTEMPTS_MAX; lia|]. intros sid s Hs Hp. by destruct (Hno sid s). }
  rewrite start_session_new by (by rewrite Ess).
  eapply (signing_insert k k' d _ h q (new_session d1 h 0)); try done. simpl. by rewrite Ess.
Qed.

Lemma enqueue_signing k k' d op p blk :
  signing_inv k d -> k <= k' -> k' <= ATTEMPTS_MAX -> op_placed d (op_hash_of self op) op p ->
  (forall b op' p', ~ live d (op_hash_of self op) b op' p') ->
  signing_inv k' (enqueue_op self op p blk d).
Proof. intros. by eapply (start_signing k k' d _ _ (mkPendingUserOp op p blk)). Qed.

Lemma not_known h d : op_known h d = false -> forall b op p, ~ live d h b op p.
Proof.
  intros [Hp Hs]%orb_false_iff b op p Hl. apply bool_decide_eq_false in Hp, Hs.
  destruct b; simpl in Hl; destruct Hl as (q & Hq & _); [apply Hs|apply Hp]; by eexists.
Qed.

Lemma deposit_nonce k d a r :
  signing_inv k d -> deposits d !! a = Some r -> account_nonce d a = rec_nonce r.
Proof.
  intros Hinv Hr. unfold account_nonce. rewrite decide_False; [by rewrite Hr|].
  apply (sg_deposits _ _ Hinv). by eexists.
Qed.

Lemma pool_nonce_is d : account_nonce d (pool_account self) = pool_nonce (pool_or_default self d).
Proof. unfold account_nonce, pool_or_default. rewrite decide_True by done. by destruct (pool_state d). Qed.

Lemma pool_addr_is k d : signing_inv k d -> pool_account_addr (pool_or_default self d) = pool_account self.
Proof.
  intros Hinv. unfold pool_or_default. destruct (pool_state d) as [p|] eqn:E; [|done].
  by apply (sg_pool _ _ Hinv).
Qed.

(** ** Triggers *)

Lemma maybe_trigger_sweep_signing k a d :
  signing_inv k d -> k <= ATTEMPTS_MAX -> signing_inv k (maybe_trigger_sweep self a d).
Proof.
  intros Hinv Hk. unfold maybe_trigger_sweep. destruct (deposits d !! a) as [r|] eqn:Hr; [|done].
  repeat (case_match; [done|]). destruct (fee_vote_median self d); [|done].
  destruct (deposit_fee_quote _); [|done]. case_match; [done|].
  destruct (op_known _ d) eqn:Hkn; [done|]. apply (enqueue_signing k); [done..| |by apply not_known].
  split; [done|]. split; [|by split; [|eexists]]. symmetry. by eapply deposit_nonce.
Qed.

Lemma accelerate_sweeps_signing k d :
  signing_inv k d -> k <= ATTEMPTS_MAX -> signing_inv k (accelerate_sweeps_for_withdrawals self d).
Proof.
  intros Hinv Hk. unfold accelerate_sweeps_for_withdrawals. generalize (map_to_list (deposits d)) as l.
  intros l. revert d Hinv. induction l as [|[a r] l IH]; intros d Hinv; cbn [foldl]; [done|].
  apply IH. case_match; [by apply maybe_trigger_sweep_signing|done].
Qed.

Lemma maybe_trigger_residual_recovery_signing k a d :
  signing_inv k d -> k <= ATTEMPTS_MAX -> signing_inv k (maybe_trigger_residual_recovery self a d).
Proof.
  intros Hinv Hk. unfold maybe_trigger_residual_recovery. repeat (case_match; [done|]).
  destruct (deposits d !! a) as [r|] eqn:Hr; [|done]. repeat (case_match; [done|]).
  destruct (fee_vote_median self d); [|done]. destruct (recoverable_wei _ _); [|done].
  destruct (op_known _ d) eqn:Hkn; [done|]. apply (enqueue_signing k); [done..| |by apply not_known].
  split; [done|]. split; [|by split; [|eexists]]. symmetry. by eapply deposit_nonce.
Qed.

Lemma pool_op_placed k d ws m p :
  signing_inv k d -> is_pool_op p = true ->
  let op := pool_op self (pool_or_default self d) ws m in op_placed d (op_hash_of self op) op p.
Proof.
  intros Hinv Hp op. assert (Hs : sender op = pool_account self) by apply (pool_addr_is k d Hinv).
  split; [done|]. rewrite Hs, pool_nonce_is. split; [done|]. by destruct p.
Qed.

Lemma maybe_trigger_fee_withdrawal_signing k d :
  signing_inv k d -> k <= ATTEMPTS_MAX -> signing_inv k (maybe_trigger_fee_withdrawal self d).
Proof.
  intros Hinv Hk. unfold maybe_trigger_fee_withdrawal. case_match; [done|].
  destruct (agreed_fee_withdrawal self d) as [[rcp amt]|]; [|done]. repeat (case_match; [done|]).
  destruct (op_known _ d) eqn:Hkn; [done|]. apply (enqueue_signing k); [done..| |by apply not_known].
  by eapply pool_op_placed.
Qed.

Lemma maybe_trigger_withdrawal_batch_signing k d :
  signing_inv k d -> k <= ATTEMPTS_MAX -> signing_inv k (maybe_trigger_withdrawal_batch self d).
Proof.
  intros Hinv Hk. unfold maybe_trigger_withdrawal_batch.
  destruct (withdraw_batch_in_flight d) eqn:Hf; [done|].
  destruct (queued_withdrawals d) eqn:Eq; [done|]. rewrite <- Eq. clear Eq.
  case_match; [done|]. case_match; [by apply accelerate_sweeps_signing|].
  unfold build_and_enqueue_withdrawal_batch. set (op := pool_op _ _ _ _).
  set (os := (select_batch _ _).*1).
  change (fun (d : UsdtDb) (o : OutPoint) => set_wstates (insert o (Signing (op_hash_of self op))) d)
    with (fun (d : UsdtDb) (o : OutPoint) => put_wstate o (Signing (op_hash_of self op)) d).
  rewrite foldl_put_wstate.
  pose proof (pool_op_placed k d ((fun w => (w_recipient w, w_amount w)) <$> (select_batch d (queued_withdrawals d)).*2)
    (fee_vote_median self d) (Withdraw os) Hinv eq_refl) as Hpl.
  eapply (start_signing k k d _ _ (mkPendingUserOp op (Withdraw os) (consensus_block_count self d)));
    try done.
  intros b op' p' Hl. destruct (sg_placed _ _ Hinv _ _ _ _ Hl) as (E & _ & Hp').
  apply op_hash_slot in E as [Es _]. destruct Hpl as (_ & _ & Hs).
  assert (is_pool_op p' = false) by (by eapply op_in_flight_false).
  assert (Hsp : sender op' = pool_account self) by (rewrite <- Es; exact Hs).
  destruct p' as [a| |a|]; try done; destruct Hp' as [Ea Hd]; apply (sg_deposits _ _ Hinv) in Hd; congruence.
Qed.

(** ** The signing items *)

(** Rewriting a session without touching what it is for; it may leave the state in
    progress only when its operation is not pending. *)
Lemma signing_write_session k k' d d' sid s s' :
  k <= k' -> signing_inv k d -> same_ops d d' -> sessions d !! sid = Some s ->
  sessions d' = <[sid := s']> (sessions d) ->
  ses_purpose s' = ses_purpose s -> digest s' = digest s -> signers s' = signers s ->
  attempt s' = attempt s ->
  (state s' = InProgress -> state s = InProgress) ->
  (forall h op p, live d h false op p -> ses_purpose s = UserOp h -> state s = InProgress ->
     state s' = InProgress) ->
  signing_inv k' d'.
Proof.
  intros Hk Hinv Hso Hs E Ep Ed Esg Ea Hst Hlv. apply (signing_frame k k' d); [done..| |].
  - intros sid1 s1 Hs1. rewrite E in Hs1. apply lookup_insert_Some in Hs1 as [[<- <-]|[_ Hs1]].
    + destruct (sg_session _ _ Hinv sid s Hs) as [h Hok]. apply (session_ok_frame _ _ _ _ _ _ _ Hk Hso) in Hok.
      exists h. destruct Hok. by split; rewrite ?Ep, ?Ed, ?Ea, ?Esg.
    + destruct (sg_session _ _ Hinv sid1 s1 Hs1) as [h Hok]. exists h. by eapply session_ok_frame.
  - intros h op p Hl. destruct (sg_live _ _ Hinv h op p Hl) as (s1 & Hs1 & Hp1 & Hi1 & Hmax).
    assert (Hm : forall sid' s2, sessions d' !! sid' = Some s2 -> ses_purpose s2 = UserOp h ->
      attempt s2 <= attempt s1 /\ (state s2 = InProgress -> attempt s2 = attempt s1)).
    { intros sid' s2 Hx2 Hp2. rewrite E in Hx2. apply lookup_insert_Some in Hx2 as [[<- <-]|[_ Hx2]]; [|by eapply Hmax].
      rewrite Ep in Hp2. destruct (Hmax _ _ Hs Hp2). rewrite Ea. split; [done|]. eauto. }
    destruct (decide (sid = session_key h (attempt s1))) as [->|Hne].
    + rewrite Hs in Hs1. injection Hs1 as <-. exists s'. unfold live_session.
      rewrite Ea, E, lookup_insert_eq, Ep. split; [done|]. split; [done|]. split; [by eapply Hlv|].
      rewrite <- E. exact Hm.
    + exists s1. split; [by rewrite E, lookup_insert_ne|]. done.
Qed.

Lemma mpc_round_signing k it peer d d' :
  signing_inv k d -> process_mpc_round self it peer d = (Ok tt, d') -> signing_inv k d'.
Proof.
  intros Hinv E. unfold process_mpc_round in E. run_inv E. ok_facts.
  case_match; [|by apply (signing_tables k k d)].
  match goal with Hs : sessions d !! ?sid = Some ?s |- _ =>
    eapply (signing_write_session k k d _ sid s); [done|done|by apply same_ops_tables|exact Hs|..]; try done end.
Qed.

Lemma live_sign d h q s :
  pending d !! h = Some q -> unsigned (signed s) = p_op q -> s_purpose s = p_purpose q ->
  forall h' b op p, live (set_pending (delete h) (set_submitted (insert h s) d)) h' b op p ->
  (h' = h /\ b = true /\ live d h false op p) \/ ((b = false -> h' <> h) /\ live d h' b op p).
Proof.
  intros Hq Eop Ep h' [] op p; simpl.
  - intros (s' & Hs' & <- & <-). rewrite lookup_insert in Hs'.
    case_decide; simplify_eq; [left|right; eauto]. split; [done|]. split; [done|].
    exists q. by rewrite Eop, Ep.
  - intros (q' & Hq' & <- & <-). apply lookup_delete_Some in Hq' as [Hne Hq']. right. split; [done|]. eauto.
Qed.

Lemma signing_sign k d h q s :
  signing_inv k d -> pending d !! h = Some q ->
  unsigned (signed s) = p_op q -> s_purpose s = p_purpose q ->
  signing_inv k (set_pending (delete h) (set_submitted (insert h s) d)).
Proof.
  intros Hinv Hq Eop Ep. pose proof (live_sign d h q s Hq Eop Ep) as Hl.
  assert (Hlq : live d h false (p_op q) (p_purpose q)) by (simpl; eauto).
  set (d' := set_pending _ _) in *. split; try exact (sg_pool _ _ Hinv); try exact (sg_deposits _ _ Hinv);
    try exact (sg_nonce _ _ Hinv).
  - intros h' b op p [(-> & -> & Hx1)|[_ Hx1]]%Hl; exact (sg_placed _ _ Hinv _ _ _ _ Hx1).
  - intros h' op p op' p' [(_ & ? & _)|[Hne Hx1]]%Hl [(-> & _ & Hx2)|[_ Hx2]]%Hl; try done; [by destruct (Hne eq_refl)|].
    by eapply (sg_once _ _ Hinv).
  - intros sid s1 Hs1. destruct (sg_session _ _ Hinv sid s1 Hs1) as [h1 []]. exists h1. split; try done.
    destruct so_accounted0 as (op & E & [(b & p & Hx1)|Hlt]); exists op; (split; [done|]); [left|by right].
    destruct (decide (h1 = h /\ b = false)) as [[-> ->]|Hne].
    + exists true, p. simpl in *. destruct Hx1 as (q' & Hx1 & <- & <-). rewrite Hq in Hx1. injection Hx1 as <-.
      exists s. by rewrite lookup_insert_eq, Eop, Ep.
    + exists b, p. destruct b; simpl in *.
      * destruct (decide (h1 = h)) as [->|]; [|by rewrite lookup_insert_ne].
        destruct Hx1 as (s2 & Hx1 & _). exfalso. eapply (sg_once _ _ Hinv); [exact Hlq|]. simpl. eauto.
      * rewrite lookup_delete_ne; [done|]. intros ->. by apply Hne.
  - intros h' op p [(_ & ? & _)|[_ Hx1]]%Hl; [done|]. exact (sg_live _ _ Hinv _ _ _ Hx1).
Qed.

Lemma mpc_signature_signing k sid sig d d' :
  signing_inv k d -> process_mpc_signature self sid sig d = (Ok tt, d') -> signing_inv k d'.
Proof.
  intros Hinv E. unfold process_mpc_signature in E. run_inv E; ok_facts;
  match goal with Hs : sessions d !! sid = Some ?s, Hq : pending d !! ?h = Some ?q, Hp : ses_purpose ?s = UserOp ?h
    |- context [set_submitted (insert ?h ?s1)] =>
    pose proof (signing_sign k d h q s1 Hinv Hq eq_refl eq_refl) as Hinv';
    eapply (signing_write_session k k _ _ sid s); [done|exact Hinv'|by apply same_ops_tables|exact Hs|..]; try done;
    intros h' op p Hl Hp'; exfalso; rewrite Hp in Hp'; injection Hp' as <-; simpl in Hl;
    destruct Hl as (q' & Hq' & _); by rewrite lookup_delete_eq in Hq' end.
Qed.

(** A failed session, without or with its successor. *)
Definition rotated (d d' : UsdtDb) (h : Hash) (sid : Hash) (s : SigningSession) : Prop :=
  let a := attempt s + 1 in
  (sessions d' = <[sid := with_state SessionFailed s]> (sessions d) /\
     is_Some (sessions d !! session_key h a)) \/
  (sessions d !! session_key h a = None /\
     sessions d' = <[session_key h a := new_session d h a]> (<[sid := with_state SessionFailed s]> (sessions d))).

Lemma purpose_of_ok k d sid s h h1 :
  session_ok k d sid s h1 -> ses_purpose s = UserOp h -> session_ok k d sid s h.
Proof. intros Hok Hp. rewrite (so_purpose _ _ _ _ _ Hok) in Hp. by injection Hp as <-. Qed.

Lemma rotated_sessions k d d' sid s h :
  signing_inv k d -> same_ops d d' -> sessions d !! sid = Some s -> ses_purpose s = UserOp h ->
  rotated d d' h sid s -> forall sid1 s1, sessions d' !! sid1 = Some s1 -> exists h1, session_ok (k + 1) d' sid1 s1 h1.
Proof.
  intros Hinv Hso Hs Hp Hcase sid1 s1 Hx1.
  destruct (sg_session _ _ Hinv sid s Hs) as [h0 Hok]. apply (purpose_of_ok _ _ _ _ h) in Hok; [|done].
  pose proof (so_attempt _ _ _ _ _ Hok) as Ha.
  assert (Hold : forall sid1 s1, sessions d !! sid1 = Some s1 -> exists h1, session_ok (k + 1) d' sid1 s1 h1).
  { intros sid2 s2 Hx2. destruct (sg_session _ _ Hinv sid2 s2 Hx2) as [h1 Hok1]. exists h1.
    eapply session_ok_frame; [|done..]. lia. }
  assert (Hfailed : session_ok (k + 1) d' sid (with_state SessionFailed s) h).
  { apply (session_ok_frame k (k + 1) d d') in Hok; [|lia|done]. by destruct Hok. }
  assert (Hnew : session_ok (k + 1) d' (session_key h (attempt s + 1)) (new_session d h (attempt s + 1)) h).
  { split; try done; simpl; [lia|]. eapply accounted_frame; [done|]. by destruct Hok. }
  destruct Hcase as [[E _]|[_ E]]; rewrite E in Hx1;
    repeat (apply lookup_insert_Some in Hx1 as [[<- <-]|[_ Hx1]]; [by exists h|]); by apply Hold.
Qed.

(** The operation whose session failed is taken over by the successor. *)
Lemma rotated_own k d d' sid s h s1 :
  signing_inv k d -> k + 1 <= ATTEMPTS_MAX -> sessions d !! sid = Some s -> state s = InProgress ->
  ses_purpose s = UserOp h -> live_session d h s1 -> rotated d d' h sid s ->
  live_session d' h (new_session d h (attempt s + 1)).
Proof.
  intros Hinv Hk Hs Hi Hp (_ & _ & _ & Hmax) Hcase.
  destruct (sg_session _ _ Hinv sid s Hs) as [h0 Hok]. apply (purpose_of_ok _ _ _ _ h) in Hok; [|done].
  pose proof (so_attempt _ _ _ _ _ Hok) as Ha. destruct (Hmax sid s Hs Hp) as [_ Heq]. specialize (Heq Hi).
  destruct Hcase as [[_ [s2 Hx2]]|[_ E]].
  - destruct (sg_session _ _ Hinv _ s2 Hx2) as [h2 Hok2].
    pose proof (so_key _ _ _ _ _ Hok2) as Ek. pose proof (so_attempt _ _ _ _ _ Hok2).
    apply session_key_inj in Ek as [<- Ea]; [|lia..].
    destruct (Hmax _ _ Hx2 (so_purpose _ _ _ _ _ Hok2)). lia.
  - split; [by rewrite E, lookup_insert_eq|]. split; [done|]. split; [done|].
    intros sid2 s2 Hx2 Hp2. rewrite E in Hx2. simpl.
    apply lookup_insert_Some in Hx2 as [[<- <-]|[_ Hx2]]; [done|].
    apply lookup_insert_Some in Hx2 as [[<- <-]|[Hns Hx2]]; simpl; [split; [lia|done]|].
    destruct (Hmax _ _ Hx2 Hp2) as [Hle He2]. split; [lia|]. intros Hi2. exfalso. apply Hns.
    destruct (sg_session _ _ Hinv _ s2 Hx2) as [h2 Hok2]. apply (purpose_of_ok _ _ _ _ h) in Hok2; [|done].
    rewrite (so_key _ _ _ _ _ Hok2), (so_key _ _ _ _ _ Hok). f_equal. rewrite (He2 Hi2). done.
Qed.

(** Other operations keep their sessions. *)
Lemma rotated_other k d d' sid s h h1 s1 :
  signing_inv k d -> k + 1 <= ATTEMPTS_MAX -> sessions d !! sid = Some s -> ses_purpose s = UserOp h ->
  h1 <> h -> live_session d h1 s1 -> rotated d d' h sid s -> live_session d' h1 s1.
Proof.
  intros Hinv Hk Hs Hp Hne (Hx1 & Hp1 & Hi1 & Hmax) Hcase.
  destruct (sg_session _ _ Hinv sid s Hs) as [h0 Hok]. apply (purpose_of_ok _ _ _ _ h) in Hok; [|done].
  pose proof (so_attempt _ _ _ _ _ Hok) as Ha.
  assert (Hold : forall sid2 s2, sessions d' !! sid2 = Some s2 -> ses_purpose s2 = UserOp h1 ->
    sessions d !! sid2 = Some s2).
  { intros sid2 s2 Hx2 Hp2. destruct Hcase as [[E _]|[_ E]]; rewrite E in Hx2;
      repeat (apply lookup_insert_Some in Hx2 as [[_ <-]|[_ Hx2]]; [simpl in Hp2; congruence|]); done. }
  split; [|split; [done|]; split; [done|]; intros; eapply Hmax; eauto].
  assert (sid <> session_key h1 (attempt s1)) by (intros ->; rewrite Hs in Hx1; simplify_eq; congruence).
  assert (session_key h (attempt s + 1) <> session_key h1 (attempt s1)).
  { destruct (sg_session _ _ Hinv _ s1 Hx1) as [h2 Hok2]. pose proof (so_attempt _ _ _ _ _ Hok2).
    intros Ek. apply session_key_inj in Ek as [-> _]; [done|lia..]. }
  destruct Hcase as [[-> _]|[_ ->]]; by rewrite ?lookup_insert_ne.
Qed.

Lemma rotate_signing k d d' sid s h :
  signing_inv k d -> k + 1 <= ATTEMPTS_MAX -> same_ops d d' -> sessions d !! sid = Some s ->
  state s = InProgress -> ses_purpose s = UserOp h -> rotated d d' h sid s -> signing_inv (k + 1) d'.
Proof.
  intros Hinv Hk Hso Hs Hi Hp Hcase. apply (signing_frame k (k + 1) d); [lia|done|done|..].
  - by eapply rotated_sessions.
  - intros h1 op p Hl. destruct (sg_live _ _ Hinv h1 op p Hl) as (s1 & Hs1).
    destruct (decide (h1 = h)) as [->|Hne].
    + eexists. by eapply rotated_own.
    + exists s1. by eapply rotated_other.
Qed.

Lemma process_rotate_signing_inv k sid d d' :
  signing_inv k d -> k + 1 <= ATTEMPTS_MAX -> process_rotate_signing self sid d = (Ok tt, d') ->
  signing_inv (k + 1) d'.
Proof.
  intros Hinv Hk E. unfold process_rotate_signing in E. run_inv E. ok_facts. zbool.
  match goal with Hs : sessions d !! sid = Some ?s0 |- _ => rename Hs into Hs1; rename s0 into s end.
  destruct (sg_session _ _ Hinv sid s Hs1) as [h Hok]. pose proof (so_attempt _ _ _ _ _ Hok) as Ha.
  assert (Hau : u32_add (attempt s) 1 = attempt s + 1)
    by (unfold u32_add, ATTEMPTS_MAX in *; rewrite Z.mod_small; lia).
  rewrite (so_purpose _ _ _ _ _ Hok), (so_digest _ _ _ _ _ Hok), Hau.
  set (d1 := remove_session_chunks sid _).
  apply (rotate_signing k d _ sid s h); try done; [|by apply Hok|].
  { destruct (start_session_frame self (UserOp h) (eth_signed_message_hash h) (attempt s + 1) d1) as [f ->].
    by apply same_ops_tables. }
  assert (Hne : sid <> session_key h (attempt s + 1)).
  { rewrite (so_key _ _ _ _ _ Hok). intros Ek. apply session_key_inj in Ek as [_ ?]; lia. }
  unfold start_session. fold (session_key h (attempt s + 1)).
  assert (El : sessions d1 !! session_key h (attempt s + 1) = sessions d !! session_key h (attempt s + 1))
    by (by apply lookup_insert_ne).
  rewrite El. destruct (sessions d !! session_key h (attempt s + 1)) eqn:Es2; [left; by split; [|eexists]|].
  by right.
Qed.

(** ** Replacement *)

Lemma mark_superseded_signing k d h s :
  signing_inv k d -> submitted d !! h = Some s ->
  signing_inv k (set_submitted (insert h (mark_superseded s)) d).
Proof.
  intros Hinv Hs. apply (signing_same k k d); [done| |done|done]. split; try done; [|eauto|eauto].
  intros h' [] op p; simpl; [|done]. split.
  - intros (s' & Hs' & <- & <-). apply lookup_insert_Some in Hs' as [[<- <-]|[_ Hs']]; eauto.
  - intros (s' & Hs' & <- & <-). destruct (decide (h' = h)) as [->|Hne].
    + rewrite lookup_insert_eq. simplify_eq. by eexists.
    + rewrite lookup_insert_ne by done. by eexists.
Qed.

Lemma replace_signing k op_hash d d' :
  signing_inv k d -> k <= ATTEMPTS_MAX -> process_replace_user_op self op_hash d = (Ok tt, d') ->
  signing_inv k d'.
Proof.
  intros Hinv Hk E. unfold process_replace_user_op in E. simpl in E.
  destruct (submitted d !! op_hash) as [s|] eqn:Hs; simpl in E; [|done].
  destruct (superseded s); simpl in E; [done|].
  destruct (submitted_op_timed_out self s d); simpl in E; [|done].
  destruct (fee_vote_median self d) as [m|]; simpl in E; [|done].
  set (op := reprice _ _) in *. destruct (replaceable s m _ d) as [[]|]; simpl in E; [|done].
  destruct (op_known (op_hash_of self op) d) eqn:Hkn; simpl in E; [done|]. injection E as <-.
  pose proof (not_known _ _ Hkn) as Hnew.
  assert (Hpl : op_placed d (op_hash_of self op) op (s_purpose s)).
  { destruct (sg_placed _ _ Hinv op_hash true (unsigned (signed s)) (s_purpose s)) as (_ & Hn & Hp); [by exists s|].
    split; [done|]. split; [exact Hn|exact Hp]. }
  pose proof (mark_superseded_signing k d op_hash s Hinv Hs) as Hinv'.
  set (dm := set_submitted _ d) in *.
  assert (Hnew' : forall b op' p', ~ live dm (op_hash_of self op) b op' p').
  { intros [] op' p'; [|exact (Hnew false op' p')]. intros (s' & Hs' & _). simpl in Hs'.
    apply lookup_insert_Some in Hs' as [[Eh _]|[_ Hs']].
    - apply (Hnew true (unsigned (signed s)) (s_purpose s)). rewrite <- Eh. by exists s.
    - apply (Hnew true (unsigned (signed s')) (s_purpose s')). by exists s'. }
  eapply (start_signing k k dm _ _ (mkPendingUserOp op (s_purpose s) (consensus_block_count self d)));
    try done; destruct (s_purpose s); rewrite ?foldl_put_wstate; done.
Qed.

(** ** Confirmation *)

Lemma pool_after_withdraw os obs x d :
  exists bal acc, pool_state (apply_withdraw_confirmed self os obs x d)
    = Some (mkPoolState (pool_account_addr (pool_or_default self d)) bal
        (u64_add (pool_nonce (pool_or_default self d)) 1) acc) /\
  deposits (apply_withdraw_confirmed self os obs x d) = deposits d /\
  sessions (apply_withdraw_confirmed self os obs x d) = sessions d.
Proof.
  unfold apply_withdraw_confirmed. destruct (success obs).
  - rewrite foldl_settle. simpl. eauto.
  - set (p := mkPoolState _ _ _ _).
    match goal with |- context [foldl (add_incurred ?sh) ?d0 os] =>
      destruct (foldl_add_incurred sh os d0) as (inc & -> & _) end.
    destruct (length os <=? 1)%nat eqn:El; [apply Nat.leb_le in El|rewrite foldl_requeue; simpl; unfold p; eauto].
    destruct os as [|o [|? ?]]; cbn [foldl length] in *; [simpl; unfold p; eauto| |lia].
    unfold create_withdrawal_refund. case_match; simpl; unfold p; eauto.
Qed.

(** The account of a confirmed operation is past its nonce, the others are where they were. *)
Record nonce_moved (d d1 : UsdtDb) (snd : EvmAddress) : Prop := {
  nm_nonce a : account_nonce d1 a = if decide (a = snd) then account_nonce d a + 1 else account_nonce d a;
  nm_pool p : pool_state d1 = Some p -> pool_account_addr p = pool_account self;
  nm_deposits a : is_Some (deposits d1 !! a) <-> is_Some (deposits d !! a);
}.

Lemma pool_nonce_moved k d d1 bal acc :
  signing_inv k d -> k <= ATTEMPTS_MAX -> deposits d1 = deposits d ->
  pool_state d1 = Some (mkPoolState (pool_account_addr (pool_or_default self d)) bal
    (u64_add (pool_nonce (pool_or_default self d)) 1) acc) ->
  nonce_moved d d1 (pool_account self).
Proof.
  intros Hinv Hk Ed Ep. split; [|intros p Hp; rewrite Ep in Hp; simplify_eq; by apply (pool_addr_is k)|by rewrite Ed].
  intros a. unfold account_nonce at 1. rewrite Ep, Ed. case_decide as Ha; [subst a|unfold account_nonce; by rewrite decide_False].
  rewrite pool_nonce_is. simpl. pose proof (sg_nonce _ _ Hinv (pool_account self)) as Hn.
  rewrite pool_nonce_is in Hn. unfold u64_add, wrap64, ATTEMPTS_MAX in *. rewrite Z.mod_small; lia.
Qed.

Lemma deposit_nonce_moved k d d1 a r r1 :
  signing_inv k d -> k <= ATTEMPTS_MAX -> deposits d !! a = Some r -> deposits d1 = <[a := r1]> (deposits d) ->
  rec_nonce r1 = saturating_add_u64 (rec_nonce r) 1 ->
  pool_state d1 = pool_state d \/
    (exists bal acc, pool_state d1 = Some (mkPoolState (pool_account_addr (pool_or_default self d)) bal
      (pool_nonce (pool_or_default self d)) acc)) ->
  nonce_moved d d1 a.
Proof.
  intros Hinv Hk Hr Ed En Hp.
  assert (Ha : a <> pool_account self) by (apply (sg_deposits _ _ Hinv); by eexists).
  pose proof (sg_nonce _ _ Hinv a) as Hn. rewrite (deposit_nonce k d a r) in Hn by done.
  assert (Hpn : account_nonce d1 (pool_account self) = account_nonce d (pool_account self)).
  { unfold account_nonce. rewrite !decide_True by done. destruct Hp as [->|(bal & acc & ->)]; [done|].
    unfold pool_or_default. by destruct (pool_state d). }
  split.
  - intros b. destruct (decide (b = pool_account self)) as [->|Hb]; [by rewrite decide_False|].
    unfold account_nonce. rewrite !(decide_False (P := b = pool_account self)) by done. rewrite Ed.
    case_decide as Hba; [subst b|by rewrite lookup_insert_ne]. rewrite lookup_insert_eq, Hr. simpl.
    rewrite En. unfold saturating_add_u64, U64_MAX, ATTEMPTS_MAX in *. lia.
  - intros p Hp1. destruct Hp as [Hp|(bal & acc & Hp)]; rewrite Hp in Hp1; [by apply (sg_pool _ _ Hinv)|].
    simplify_eq. by apply (pool_addr_is k).
  - intros b. rewrite Ed, lookup_insert_is_Some. destruct (decide (a = b)) as [<-|]; [|naive_solver].
    rewrite Hr. split; [by eexists|by left].
Qed.

Lemma apply_purpose_nonces k d h s obs x d1 r :
  signing_inv k d -> k <= ATTEMPTS_MAX -> submitted d !! h = Some s -> apply_purpose self s obs x d = (d1, r) ->
  sessions d1 = sessions d /\ nonce_moved d d1 (sender (unsigned (signed s))).
Proof.
  intros Hinv Hk Hs E. destruct (sg_placed _ _ Hinv h true _ _ ltac:(by exists s)) as (_ & _ & Hp).
  unfold apply_purpose in E. destruct (s_purpose s) as [a|os|a|rcp amt]; simplify_eq.
  - destruct Hp as [<- [rc Hr]]. unfold apply_sweep_confirmed. destruct (success obs); simpl; rewrite Hr.
    + split; [done|]. eapply (deposit_nonce_moved k); [done..| |]; [done|right; simpl; eauto].
    + split; [done|]. eapply (deposit_nonce_moved k); [done..| |]; [done|by left].
  - rewrite Hp. destruct (pool_after_withdraw os obs x d) as (bal & acc & Ep & Ed & Ess). split; [done|].
    by eapply pool_nonce_moved.
  - destruct Hp as [<- [rc Hr]]. unfold apply_recovery_confirmed. rewrite Hr. split; [done|].
    eapply (deposit_nonce_moved k); [done..| |]; [done|by left].
  - rewrite Hp. unfold apply_fee_withdrawal_confirmed. split; [done|]. simpl.
    destruct (success obs); by eapply pool_nonce_moved.
Qed.

(** The account's operations are gone with its nonce; the others keep their sessions. *)
Lemma signing_past_nonce k d d3 snd :
  signing_inv k d -> nonce_moved d d3 snd ->
  (forall h b op p, live d3 h b op p <-> live d h b op p /\ sender op <> snd) ->
  (forall sid s, sessions d3 !! sid = Some s -> sessions d !! sid = Some s) ->
  (forall h op p sid s, live d h false op p -> sender op <> snd -> sessions d !! sid = Some s ->
     ses_purpose s = UserOp h -> sessions d3 !! sid = Some s) ->
  signing_inv (k + 1) d3.
Proof.
  intros Hinv [Hnon Hpool Hdep] Hlive Hsub Hkeep. split.
  - intros h b op p [Hl Hne]%Hlive. destruct (sg_placed _ _ Hinv _ _ _ _ Hl) as (Hh & Hn & Hp).
    split; [done|]. rewrite Hnon, decide_False by done. split; [done|].
    destruct p; try done; destruct Hp as [? Hd]; by rewrite Hdep.
  - intros h op p op' p' [Hl _]%Hlive [Hl' _]%Hlive. by eapply (sg_once _ _ Hinv).
  - exact Hpool.
  - intros a. rewrite Hdep. apply (sg_deposits _ _ Hinv).
  - intros a. rewrite Hnon. pose proof (sg_nonce _ _ Hinv a). case_decide; lia.
  - intros sid s Hs%Hsub. destruct (sg_session _ _ Hinv sid s Hs) as [h []]. exists h. split; try done; [lia|].
    destruct so_accounted0 as (op & E & Hor). exists op. split; [done|]. rewrite Hnon.
    destruct Hor as [(b & p & Hl)|Hlt]; [|right; case_decide; lia].
    destruct (decide (sender op = snd)) as [Es|Es]; [right|left; exists b, p; by apply Hlive].
    destruct (sg_placed _ _ Hinv _ _ _ _ Hl) as (_ & -> & _). lia.
  - intros h op p [Hl Hne]%Hlive. destruct (sg_live _ _ Hinv _ _ _ Hl) as (s & Hs & Hp & Hi & Hmax).
    exists s. split; [by eapply Hkeep|]. split; [done|]. split; [done|]. intros sid' s' Hs'%Hsub. by eapply Hmax.
Qed.

(** In a ledger, the slot of a live operation is its account. *)
Lemma live_slot k d h b op p snd :
  signing_inv k d -> live d h b op p ->
  same_slot snd (account_nonce d snd) op = true <-> sender op = snd.
Proof.
  intros Hinv Hl. destruct (sg_placed _ _ Hinv _ _ _ _ Hl) as (_ & Hn & _). unfold same_slot.
  rewrite andb_true_iff, bool_decide_eq_true, Z.eqb_eq. split; [by intros [? _]|]. intros <-. by split.
Qed.

Lemma confirm_signing k h obs d :
  signing_inv k d -> k + 1 <= ATTEMPTS_MAX -> signing_inv (k + 1) (apply_user_op_confirmed self h obs d).
Proof.
  intros Hinv Hk. unfold apply_user_op_confirmed.
  destruct (submitted d !! h) as [s|] eqn:Hs; [|apply (signing_tables k (k + 1) d); done || lia].
  destruct (effective_swept s obs) as [x|]; [|apply (signing_tables k (k + 1) d); done || lia].
  destruct (apply_purpose self s obs x d) as [d1 r] eqn:Ea.
  destruct (apply_purpose_nonces k d h s obs x d1 r) as [Ess Hmv]; [done|lia|done..|].
  destruct (apply_purpose_tables self s obs x d d1 r Ea) as [Ep Es].
  set (op := unsigned (signed s)) in *.
  assert (Hlh : live d h true op (s_purpose s)) by (by exists s).
  destruct (sg_placed _ _ Hinv _ _ _ _ Hlh) as (_ & Hn & _).
  set (d2 := remove_confirmed_votes h (set_submitted (delete h) d1)).
  destruct (purge_chain_spec (sender op) (nonce op) h d2) as [Hsb Hgone].
  destruct (purge_chain_keeps (sender op) (nonce op) h d2) as (Hstay & Hsub & Hkeep).
  set (d3 := purge_user_op_nonce_chain _ _ h d2) in *.
  assert (Hl2 : forall h' b op' p', live d2 h' b op' p' <-> live d h' b op' p' /\ (b = true -> h' <> h)).
  { intros h' [] op' p'; simpl; rewrite ?Ep, ?Es; [|naive_solver]. setoid_rewrite lookup_delete_Some. naive_solver. }
  assert (Hslot : forall h' b op' p', live d h' b op' p' ->
    same_slot (sender op) (nonce op) op' = false <-> sender op' <> sender op).
  { intros h' b op' p' Hl. rewrite Hn, <- not_true_iff_false. by rewrite (live_slot k d h' b op' p'). }
  assert (Hinv3 : signing_inv (k + 1) d3).
  { apply (signing_past_nonce k d d3 (sender op)); [done|..].
    - destruct Hsb as [Ed Epo _ _ _ _ _ _], Hmv as [Hm1 Hm2 Hm3]. split.
      + intros a. rewrite <- Hm1. unfold account_nonce. by rewrite Ed, Epo.
      + intros p. rewrite Epo. apply Hm2.
      + intros a. by rewrite Ed.
    - intros h' b op' p'. split.
      + intros [[Hl Hb]%Hl2 Hor]%Hgone. split; [done|]. destruct Hor as [->|Hf]; [|by eapply Hslot].
        destruct b; [by destruct (Hb eq_refl)|]. exfalso. by eapply (sg_once _ _ Hinv).
      + intros [Hl Hne]. apply Hstay; [|by eapply Hslot]. apply Hl2. split; [done|]. intros -> ->.
        destruct Hl as (s' & Hs' & <- & _). rewrite Hs in Hs'. by simplify_eq.
    - intros sid s' Hs'%Hsub. simpl in Hs'. by rewrite Ess in Hs'.
    - intros h' op' p' sid s' Hl Hne Hs' Hp'. eapply Hkeep; [by apply Hl2|by eapply Hslot| |done].
      simpl. by rewrite Ess. }
  destruct r as [a|]; [by apply maybe_trigger_sweep_signing|done].
Qed.

(** ** Every step *)

Lemma deposit_signing k claim_pk proof fee d meta d' :
  signing_inv k d -> k <= ATTEMPTS_MAX -> process_deposit_proof self claim_pk proof fee d = (Ok meta, d') ->
  signing_inv k d'.
Proof.
  intros Hinv Hk E. unfold process_deposit_proof in E. run_inv E.
  set (acct := derive_deposit_account _ _ _ _) in *.
  apply maybe_trigger_sweep_signing; [|done].
  set (r := default (mkDepositRecord claim_pk 0 0 0 0 0 0) (deposits d !! acct)).
  assert (Ha : acct <> pool_account self) by apply pool_apart.
  apply (signing_same k k d); [done| |done|done]. split; try done; [|eauto|..].
  - intros acc. unfold account_nonce. case_decide; [done|]. simpl.
    destruct (decide (acc = acct)) as [->|Hne]; [|by rewrite lookup_insert_ne].
    rewrite lookup_insert_eq. unfold r. by destruct (deposits d !! acct).
  - intros acc Hd. simpl. apply lookup_insert_is_Some'. by right.
  - intros acc Hd. simpl in Hd. apply lookup_insert_is_Some' in Hd as [<-|Hd]; eauto.
Qed.

Lemma item_signing k item peer d d' :
  signing_inv k d -> k + 1 <= ATTEMPTS_MAX -> process_consensus_item self item peer d = (Ok tt, d') ->
  signing_inv (k + 1) d'.
Proof.
  intros Hinv Hk E. assert (Hup : forall d1, signing_inv k d1 -> signing_inv (k + 1) d1)
    by (intros d1 Hi; apply (signing_tables k (k + 1) d1); done || lia).
  destruct item as [vote|it|sid sig|sid|h su blk bh sw gas|vote|obs|h|obs|a wei|vote|v raw];
    simpl in E; [..|done].
  - unfold process_block_count in E. run_inv E. apply Hup, maybe_trigger_withdrawal_batch_signing; [|lia].
    by apply (signing_tables k k d).
  - apply Hup. by eapply mpc_round_signing.
  - apply Hup. by eapply mpc_signature_signing.
  - by eapply process_rotate_signing_inv.
  - unfold process_user_op_confirmed in E. run_inv E.
    match goal with |- signing_inv _ (if _ then _ else ?d1) =>
      assert (Hi : signing_inv k d1) by (by apply (signing_tables k k d)) end.
    case_match; [by apply confirm_signing|by apply Hup].
  - apply Hup. unfold process_fee_vote in E. run_inv E; by apply (signing_tables k k d).
  - apply Hup. unfold process_bootstrap_observation in E. run_inv E. case_match; by apply (signing_tables k k d).
  - apply Hup. eapply replace_signing; [done|lia|done].
  - apply Hup. unfold process_block_hash in E. run_inv E. case_match; [|by apply (signing_tables k k d)].
    destruct (ring_frame (obs_height obs) (obs_block_hash obs)
      (set_block_hash_votes (insert peer obs) d)) as [f ->]. by apply (signing_tables k k d).
  - apply Hup. unfold process_recover_residual in E. run_inv E.
    apply maybe_trigger_residual_recovery_signing; [|lia]. by apply (signing_tables k k d).
  - apply Hup. unfold process_withdraw_fees_vote in E. run_inv E.
    apply maybe_trigger_fee_withdrawal_signing; [|lia]. by apply (signing_tables k k d).
Qed.

Lemma ledger_step_signing k l l' :
  signing_inv k (db l) -> k + 1 <= ATTEMPTS_MAX -> ledger_step self l l' -> signing_inv (k + 1) (db l').
Proof.
  intros Hinv Hk Hstep. assert (Hup : forall d1, signing_inv k d1 -> signing_inv (k + 1) d1)
    by (intros d1 Hi; apply (signing_tables k (k + 1) d1); done || lia).
  destruct Hstep as [l i meta d' _ E _|l o op am d' _ _ E _ _|l it peer d' _ _ E _]; simpl.
  - apply Hup. destruct i as [op|pk pr fee|v raw]; simpl in E; [| |done].
    + unfold process_refund in E. run_inv E. by apply (signing_tables k k (db l)).
    + eapply deposit_signing; [done|lia|done].
  - apply Hup. destruct o as [w|v raw]; [|done]. unfold process_output in E. run_inv E.
    by apply (signing_tables k k (db l)).
  - by eapply item_signing.
Qed.

Lemma genesis_signing : signing_inv 0 (db genesis).
Proof.
  assert (Hno : forall h b op p, ~ live (db genesis) h b op p)
    by (intros h [] op p (q & Hq & _); simpl in Hq; by rewrite lookup_empty in Hq).
  split.
  - intros h b op p Hl. by apply Hno in Hl.
  - intros h op p op' p' Hl. by apply Hno in Hl.
  - done.
  - intros a [r Hr]. simpl in Hr. by rewrite lookup_empty in Hr.
  - intros a. unfold account_nonce. simpl. rewrite lookup_empty. case_decide; done.
  - intros sid s Hs. simpl in Hs. by rewrite lookup_empty in Hs.
  - intros h op p Hl. by apply Hno in Hl.
Qed.

Lemma steps_signing n l :
  nsteps (ledger_step self) n genesis l -> Z.of_nat n <= ATTEMPTS_MAX -> signing_inv (Z.of_nat n) (db l).
Proof.
  revert l. induction n as [|n IH]; intros l Hs Hn; [inversion Hs; subst; apply genesis_signing|].
  apply nsteps_inv_r in Hs as (l1 & Hs & Hl). rewrite Nat2Z.inj_succ, <- Z.add_1_r in *.
  eapply ledger_step_signing; [apply IH; [done|lia]|lia|done].
Qed.

(** ** The theorem *)

Lemma signature_accepted k d h q s sig eth_sig peer :
  signing_inv k d -> pending d !! h = Some q -> live_session d h s ->
  signature_from_compact sig = true -> length sig = 64%nat ->
  verify_ecdsa (eth_signed_message_hash h) sig (group_public_key (cfg self)) = true ->
  assemble_eth_signature sig (eth_signed_message_hash h) (evm_address (group_public_key (cfg self))) = Some eth_sig ->
  exists d', process_consensus_item self (MpcSignature (session_key h (attempt s)) sig) peer d = (Ok tt, d') /\
    pending d' !! h = None /\ exists b, submitted d' !! h =
      Some (mkSubmittedUserOp (mkSignedUserOp (p_op q) eth_sig) (p_purpose q) b false).
Proof.
  intros Hinv Hq (Hs & Hp & Hi & _) Hc Hl Hv Ha.
  destruct (sg_session _ _ Hinv _ s Hs) as [h1 Hok]. pose proof (so_digest _ _ _ _ _ Hok) as Hd.
  pose proof (so_purpose _ _ _ _ _ Hok) as Hp1. rewrite Hp in Hp1. injection Hp1 as <-.
  simpl. unfold process_mpc_signature. simpl. rewrite Hs. simpl. rewrite Hi. simpl. rewrite Hc, Hd, Hv. simpl.
  rewrite Hp, Hq. simpl. rewrite Hl, Ha. simpl. eexists. split; [done|]. simpl.
  split; [apply lookup_delete_eq|]. eexists. apply lookup_insert_eq.
Qed.

(** The attempt after the live session's is free. *)
Lemma next_attempt_free k d h s :
  signing_inv k d -> k + 1 <= ATTEMPTS_MAX -> live_session d h s ->
  0 <= attempt s <= k /\ digest s = eth_signed_message_hash h /\ sessions d !! session_key h (attempt s + 1) = None.
Proof.
  intros Hinv Hk (Hs & Hp & _ & Hmax). destruct (sg_session _ _ Hinv _ s Hs) as [h1 Hok].
  pose proof (so_purpose _ _ _ _ _ Hok) as Hp1. rewrite Hp in Hp1. injection Hp1 as <-.
  pose proof (so_attempt _ _ _ _ _ Hok). split; [done|]. split; [apply Hok|].
  apply (no_session_at k); [done|lia|lia|]. intros sid' s' Hs' Hp'. destruct (Hmax _ _ Hs' Hp'). lia.
Qed.

Lemma rotation_accepted k d h s peer :
  signing_inv k d -> k + 1 <= ATTEMPTS_MAX -> (exists op p, live d h false op p) -> live_session d h s ->
  timed_out self s d = true ->
  exists d' s', process_consensus_item self (RotateSigning (session_key h (attempt s))) peer d = (Ok tt, d') /\
    live_session d' h s' /\ attempt s' = attempt s + 1 /\
    signers s' = signer_subset (num_peers self) (eth_signed_message_hash h) (attempt s + 1).
Proof.
  intros Hinv Hk (op & p & Hl) Hlive Ht. pose proof Hlive as (Hs & Hp & Hi & _).
  destruct (next_attempt_free k d h s Hinv Hk Hlive) as (Ha & Hd & Hfree).
  assert (E : exists d', process_rotate_signing self (session_key h (attempt s)) d = (Ok tt, d') /\
    live d' h false op p /\ exists s2, sessions d' !! session_key h (attempt s + 1) = Some s2 /\
      ses_purpose s2 = UserOp h /\ state s2 = InProgress /\ attempt s2 = attempt s + 1).
  { unfold process_rotate_signing. simpl. rewrite Hs. simpl. rewrite bool_decide_eq_true_2 by done. simpl.
    rewrite Ht. simpl. eexists. split; [done|]. rewrite Hp, Hd.
    replace (u32_add (attempt s) 1) with (attempt s + 1)
      by (unfold u32_add, ATTEMPTS_MAX in *; rewrite Z.mod_small; lia).
    rewrite start_session_new.
    - split; [exact Hl|]. eexists. simpl. split; [apply lookup_insert_eq|done].
    - simpl. rewrite lookup_insert_ne; [done|]. intros Ek. apply session_key_inj in Ek; lia. }
  destruct E as (d' & E & Hl' & s2 & Hs2 & Hp2 & Hi2 & Ha2).
  pose proof (process_rotate_signing_inv k _ d d' Hinv Hk E) as Hinv'.
  destruct (sg_live _ _ Hinv' h op p Hl') as [s' Hlive']. exists d', s'. split; [exact E|]. split; [done|].
  pose proof Hlive' as (Hs' & Hp' & _ & Hmax'). destruct (Hmax' _ _ Hs2 Hp2) as [_ Hx]. specialize (Hx Hi2).
  destruct (sg_session _ _ Hinv' _ s' Hs') as [h1 Hok']. pose proof (so_purpose _ _ _ _ _ Hok') as Hp1.
  rewrite Hp' in Hp1. injection Hp1 as <-. split; [lia|].
  by rewrite (so_signers _ _ _ _ _ Hok'), (so_digest _ _ _ _ _ Hok'), <- Hx, Ha2.
Qed.

(** C6: No operation is ever stuck unsigned.  In every ledger reached in fewer than 2^32
    steps each pending operation has exactly one signing session in progress, run by
    the signers its attempt selects; any valid signature of the group key is accepted
    on that session and moves the operation, signed, among the submitted ones; and once
    the session has timed out a rotation is accepted and puts the next attempt's session
    in its place, so that the signers rotate until a quorum that answers has its turn. *)
Theorem pending_op_is_signable n l h q :
  nsteps (ledger_step self) n genesis l -> Z.of_nat n < ATTEMPTS_MAX -> pending (db l) !! h = Some q ->
  exists s, live_session (db l) h s /\
    (forall sid' s', sessions (db l) !! sid' = Some s' -> ses_purpose s' = UserOp h -> state s' = InProgress ->
       sid' = session_key h (attempt s)) /\
    signers s = signer_subset (num_peers self) (eth_signed_message_hash h) (attempt s) /\
    (forall peer sig eth_sig, signature_from_compact sig = true -> length sig = 64%nat ->
       verify_ecdsa (eth_signed_message_hash h) sig (group_public_key (cfg self)) = true ->
       assemble_eth_signature sig (eth_signed_message_hash h) (evm_address (group_public_key (cfg self)))
         = Some eth_sig ->
       exists d' b, process_consensus_item self (MpcSignature (session_key h (attempt s)) sig) peer (db l) = (Ok tt, d') /\
         pending d' !! h = None /\
         submitted d' !! h = Some (mkSubmittedUserOp (mkSignedUserOp (p_op q) eth_sig) (p_purpose q) b false)) /\
    (forall peer, timed_out self s (db l) = true ->
       exists d' s', process_consensus_item self (RotateSigning (session_key h (attempt s))) peer (db l) = (Ok tt, d') /\
         live_session d' h s' /\ attempt s' = attempt s + 1 /\
         signers s' = signer_subset (num_peers self) (eth_signed_message_hash h) (attempt s + 1)).
Proof.
  intros Hsteps Hn Hq. assert (Hinv := steps_signing n l Hsteps ltac:(lia)).
  assert (Hl : live (db l) h false (p_op q) (p_purpose q)) by (by exists q).
  destruct (sg_live _ _ Hinv _ _ _ Hl) as [s Hs]. exists s. split; [done|]. split.
  { intros sid' s' Hs' Hp' Hi'. destruct Hs as (_ & _ & _ & Hmax). destruct (Hmax _ _ Hs' Hp') as [_ Ha].
    destruct (sg_session _ _ Hinv _ s' Hs') as [h1 Hok]. apply (purpose_of_ok _ _ _ _ h) in Hok; [|done].
    by rewrite (so_key _ _ _ _ _ Hok), (Ha Hi'). }
  split.
  { destruct Hs as (Hs & Hp & _). destruct (sg_session _ _ Hinv _ s Hs) as [h1 Hok].
    pose proof (so_purpose _ _ _ _ _ Hok) as Hp1. rewrite Hp in Hp1. injection Hp1 as <-.
    by rewrite (so_signers _ _ _ _ _ Hok), (so_digest _ _ _ _ _ Hok). }
  split.
  - intros peer sig eth_sig Hc Hlen Hv Ha.
    destruct (signature_accepted _ _ h q s sig eth_sig peer Hinv Hq Hs) as (d' & E & Hp & b & Hb); [done..|].
    by exists d', b.
  - intros peer Ht. eapply (rotation_accepted _ _ h s peer Hinv); [lia|eauto|done|done].
Qed.
End sessions.

(** ** A pending sweep *)

(** Byte strings with their length in front. *)
Definition framed (b : bytes) : bytes := Z.of_nat (length b) :: b.
Definition unframe (b : bytes) : option (bytes * bytes) :=
  match b with n :: b => Some (take (Z.to_nat n) b, drop (Z.to_nat n) b) | [] => None end.

Lemma unframe_framed a b : unframe (framed a ++ b) = Some (a, b).
Proof. simpl. by rewrite Nat2Z.id, take_app_length, drop_app_length. Qed.

Lemma framed_inj a b r s : framed a ++ r = framed b ++ s -> a = b /\ r = s.
Proof. intros E. apply (f_equal unframe) in E. rewrite !unframe_framed in E. by simplify_eq. Qed.

(** A chain whose hash keeps all of its input. *)
Definition whole_hash (b : bytes) : Hash := replicate 32 0 ++ b.
Definition decode_pair (b : bytes) : option (bytes * Z) :=
  '(a, r) ← unframe b; x ← head r; Some (a, x).
Definition whole_evm : Evm := {|
  keccak256 := whole_hash;
  serialize := @serialize toy_evm;
  serialize_uncompressed := @serialize_uncompressed toy_evm;
  add_exp_tweak := @add_exp_tweak toy_evm;
  signature_from_compact := @signature_from_compact toy_evm;
  verify_ecdsa := @verify_ecdsa toy_evm;
  recover_ecdsa := @recover_ecdsa toy_evm;
  abi_initialize a := a;
  abi_ctor_args a b := a ++ b;
  abi_create_account a b := a ++ b;
  abi_transfer t a := framed t ++ [a];
  abi_decode_transfer := decode_pair;
  abi_withdraw_to t a := framed t ++ [a];
  abi_decode_withdraw_to := decode_pair;
  abi_execute d v f := framed d ++ v :: f;
  abi_decode_execute b := '(d, r) ← unframe b; v ← head r; Some (d, v, tail r);
  abi_execute_batch := @abi_execute_batch toy_evm;
  abi_decode_execute_batch := @abi_decode_execute_batch toy_evm;
  abi_user_op s n i c g p f m :=
    framed s ++ framed i ++ framed c ++ framed g ++ framed f ++ framed m ++ [n; p];
  abi_hash_address_chain h a c := framed h ++ framed a ++ [c];
|}.

Lemma whole_abi_ok : @AbiOk whole_evm.
Proof.
  split; intros; cbn [abi_decode_transfer abi_decode_withdraw_to abi_decode_execute whole_evm
    abi_transfer abi_withdraw_to abi_execute]; unfold decode_pair; rewrite ?unframe_framed; try done.
  apply unpack_pack.
Qed.

Lemma whole_hash_ok : @HashOk whole_evm.
Proof.
  split; simpl.
  - intros a b E. by apply app_inv_head in E.
  - intros * E. repeat (apply framed_inj in E as [-> E]). by simplify_eq.
  - intros * E. repeat (apply framed_inj in E as [-> E]). by simplify_eq.
Qed.

Section sessions_witness.
#[local] Existing Instance whole_evm.
#[local] Existing Instance whole_abi_ok.
#[local] Existing Instance whole_hash_ok.
#[local] Existing Instance toy_trie.
#[local] Existing Instance toy_trie_ok.
#[local] Existing Instance map_amounts.
#[local] Existing Instance map_amounts_ok.

Lemma whole_low20_inj b b' : low20 (keccak256 b) = low20 (keccak256 b') -> b = b'.
Proof. intros E. by apply (app_inv_head (replicate 20 0)) in E. Qed.

Lemma whole_pool_apart pk :
  derive_deposit_account (group_public_key (cfg demo_usdt)) (account_factory (cfg demo_usdt))
    (simple_account_impl (cfg demo_usdt)) pk <> pool_account demo_usdt.
Proof.
  intros E. apply whole_low20_inj, (app_inv_head [255]), app_inv_head, app_inv_tail in E.
  apply (app_inv_head (replicate 32 0)) in E. vm_compute in E. discriminate.
Qed.

Definition whole_apply (d : UsdtDb) (item : UsdtConsensusItem) : UsdtDb :=
  (process_consensus_item demo_usdt item 0 d).2.
Definition whole_anchored : UsdtDb :=
  foldl whole_apply empty_db [BlockCount 10; FeeVoteItem demo_vote; BlockHash (mkBlockHashObservation 9 (whole_hash [1]))].
Definition whole_deposit : UsdtInput := DepositProofV0 demo_claim demo_proof 2880000.
Definition whole_swept : UsdtDb := (process_input demo_usdt whole_deposit whole_anchored).2.
Definition whole_net : Z :=
  match (process_input demo_usdt whole_deposit whole_anchored).1 with Ok meta => net_input meta | Err _ => 0 end.
(** The step of an accepted item, its conditions as booleans. *)
Lemma whole_item_step item l :
  item_wf item -> is_ok (process_consensus_item demo_usdt item 0 (db l)).1 = true ->
  (total_credited (whole_apply (db l) item) <=? U64_MAX) = true ->
  ledger_step demo_usdt l (mkLedger (whole_apply (db l) item) (issued l)).
Proof.
  intros Hwf Hok Hb. unfold whole_apply in *.
  destruct (process_consensus_item _ _ _ _) as [[[]|] d] eqn:E; [|done]. simpl in *.
  eapply step_item; [by apply list_elem_of_singleton|exact Hwf|exact E|lia].
Qed.

Lemma whole_deposit_step :
  ledger_step demo_usdt (mkLedger whole_anchored 0) (mkLedger whole_swept (0 + whole_net)).
Proof.
  assert (Hok : is_ok (process_input demo_usdt whole_deposit whole_anchored).1 = true) by (by vm_compute).
  assert (Hb : (total_credited whole_swept <=? U64_MAX) = true) by (by vm_compute).
  unfold whole_swept, whole_net in *.
  destruct (process_input _ _ _) as [[meta|] d] eqn:E; [|done]. simpl in *.
  eapply (step_input demo_usdt (mkLedger whole_anchored 0) whole_deposit); [|exact E|lia].
  clear. split; vm_compute; discriminate.
Qed.

Lemma whole_run : nsteps (ledger_step demo_usdt) 4 genesis (mkLedger whole_swept (0 + whole_net)).
Proof.
  unfold genesis.
  eapply nsteps_l; [apply (whole_item_step (BlockCount 10)); [done|by vm_compute|by vm_compute]|].
  eapply nsteps_l; [apply (whole_item_step (FeeVoteItem demo_vote)); [done|by vm_compute|by vm_compute]|].
  eapply nsteps_l; [apply (whole_item_step (BlockHash (mkBlockHashObservation 9 (whole_hash [1]))));
    [done|by vm_compute|by vm_compute]|].
  eapply nsteps_l; [exact whole_deposit_step|constructor].
Qed.

Lemma whole_pending : exists h q, pending whole_swept !! h = Some q.
Proof.
  assert (Hp : length (map_to_list (pending whole_swept)) = 1%nat) by (vm_compute; exact eq_refl).
  destruct (map_to_list (pending whole_swept)) as [|[h q] l] eqn:E; [done|].
  exists h, q. apply elem_of_map_to_list. rewrite E. by left.
Qed.

Lemma pending_op_is_signable_witness :
  exists h s, live_session whole_swept h s /\
    signers s = signer_subset (num_peers demo_usdt) (eth_signed_message_hash h) (attempt s).
Proof.
  destruct whole_pending as (h & q & Hq).
  destruct (pending_op_is_signable demo_usdt whole_pool_apart 4 _ h q whole_run eq_refl Hq) as (s & Hs & _ & Hsub & _).
  exists h, s. split; [exact Hs|exact Hsub].
Defined.
End sessions_witness.
