(* ===== verification/UsdtLifecycle.v ===== *)
(** * The life of a withdrawal

    A withdrawal that was paid or that failed stays so: no later step of the
    ledger pays it, refunds it or queues it again. *)

From S2P Require Import Prelude FedimintCore UsdtTypes UsdtEvm UsdtUserOp UsdtSigning UsdtProof.
From S2P Require Import UsdtDb UsdtServer UsdtHandlers UsdtLedger UsdtTriggers UsdtSettlement.
From S2P Require Import UsdtConfirm UsdtSolvency UsdtDemo.

(** A settled out point keeps its state, and can only lose its refund. *)
Definition kept (d d' : UsdtDb) : Prop := forall o st,
  wstates d !! o = Some st -> unclaimed d !! o = None ->
  wstates d' !! o = Some st /\ unclaimed d' !! o = None /\
  (forall r, refunds d' !! o = Some r -> refunds d !! o = Some r).

#[export] Instance kept_preorder : PreOrder kept.
Proof.
  split; [intros d o st; eauto|].
  intros d1 d2 d3 H12 H23 o st Hw Hu. destruct (H12 o st Hw Hu) as (Hw2 & Hu2 & Hr2).
  destruct (H23 o st Hw2 Hu2) as (? & ? & ?). eauto.
Qed.

Lemma kept_same d d' :
  wstates d' = wstates d -> unclaimed d' = unclaimed d -> refunds d' = refunds d -> kept d d'.
Proof. intros Ew Eu Er o st. rewrite Ew, Eu, Er. eauto. Qed.

Lemma same_books_kept d d' : same_books d d' -> kept d d'.
Proof. intros []. by apply kept_same. Qed.

(** Writing only out points that are still unclaimed. *)
Lemma kept_write os st d d' :
  (forall o, o ∈ os -> is_Some (unclaimed d !! o)) ->
  wstates d' = foldl (fun m o => <[o := st]> m) (wstates d) os ->
  (forall o, unclaimed d !! o = None -> unclaimed d' !! o = None) ->
  refunds d' = refunds d -> kept d d'.
Proof.
  intros Hun Ew Hu Er o st' Hw Hn. rewrite Ew, Er, lookup_foldl_insert.
  case_bool_decide as Ho; [destruct (Hun o Ho); congruence|]. eauto.
Qed.

Section lifecycle.
Context `{AbiOk} `{StateTrieOk} `{AmountsOk} (self : Usdt).

Lemma start_session_kept p dg a d : kept d (start_session self p dg a d).
Proof. destruct (start_session_frame self p dg a d) as [f ->]. by apply kept_same. Qed.

Lemma enqueue_op_kept op p blk d : kept d (enqueue_op self op p blk d).
Proof. unfold enqueue_op. etrans; [|apply start_session_kept]. by apply kept_same. Qed.

Lemma maybe_trigger_sweep_kept a d : kept d (maybe_trigger_sweep self a d).
Proof.
  unfold maybe_trigger_sweep. repeat (case_match; try reflexivity). apply enqueue_op_kept.
Qed.

Lemma accelerate_sweeps_kept d : kept d (accelerate_sweeps_for_withdrawals self d).
Proof.
  unfold accelerate_sweeps_for_withdrawals. generalize (map_to_list (deposits d)) as l.
  intros l. revert d. induction l as [|[a r] l IH]; intros d; simpl; [reflexivity|].
  etrans; [|apply IH]. case_match; [apply maybe_trigger_sweep_kept|reflexivity].
Qed.

Lemma maybe_trigger_residual_recovery_kept a d :
  kept d (maybe_trigger_residual_recovery self a d).
Proof.
  unfold maybe_trigger_residual_recovery. repeat (case_match; try reflexivity).
  apply enqueue_op_kept.
Qed.

Lemma maybe_trigger_fee_withdrawal_kept d : kept d (maybe_trigger_fee_withdrawal self d).
Proof.
  unfold maybe_trigger_fee_withdrawal. repeat (case_match; try reflexivity).
  apply enqueue_op_kept.
Qed.

Lemma maybe_trigger_withdrawal_batch_kept d : kept d (maybe_trigger_withdrawal_batch self d).
Proof.
  unfold maybe_trigger_withdrawal_batch. destruct (withdraw_batch_in_flight d); [reflexivity|].
  destruct (queued_withdrawals d) eqn:Eq; [reflexivity|]. rewrite <- Eq. clear Eq.
  case_match; [reflexivity|]. case_match; [apply accelerate_sweeps_kept|].
  unfold build_and_enqueue_withdrawal_batch. etrans; [|apply start_session_kept].
  set (h := op_hash_of _ _).
  change (fun (d : UsdtDb) (o : OutPoint) => set_wstates (insert o (Signing h)) d)
    with (fun (d : UsdtDb) (o : OutPoint) => put_wstate o (Signing h) d).
  rewrite foldl_put_wstate. destruct (select_batch_spec d) as [_ Hsel].
  apply (kept_write (select_batch d (queued_withdrawals d)).*1 (Signing h)); try done.
  intros o Ho. apply list_elem_of_fmap in Ho as ([o' w] & -> & Ho). eexists. by apply Hsel.
Qed.

Lemma create_refund_kept o d :
  is_Some (unclaimed d !! o) -> kept d (create_withdrawal_refund self o RevertsInIsolation d).
Proof.
  intros [w Hw] o' st Hst Hn. unfold create_withdrawal_refund. rewrite Hw. simpl.
  assert (o' <> o) by congruence. rewrite !lookup_insert_ne, lookup_delete_ne by done. eauto.
Qed.

Lemma apply_withdraw_kept os obs x d :
  (forall o, o ∈ os -> is_Some (unclaimed d !! o)) ->
  kept d (apply_withdraw_confirmed self os obs x d).
Proof.
  intros Hun. unfold apply_withdraw_confirmed. destruct (success obs).
  - rewrite foldl_settle. apply (kept_write os (Confirmed (block obs))); try done.
    intros o Ho. simpl. rewrite lookup_foldl_delete. by case_bool_decide.
  - match goal with |- context [foldl (add_incurred ?sh) ?d0 os] =>
      destruct (foldl_add_incurred sh os d0) as (inc & -> & _) end.
    set (d0 := set_incurred _ _). assert (Hd0 : kept d d0) by (by apply kept_same).
    assert (Hun0 : forall o, o ∈ os -> is_Some (unclaimed d0 !! o)) by done.
    etrans; [exact Hd0|]. clearbody d0.
    destruct (length os <=? 1)%nat eqn:El; [apply Nat.leb_le in El|].
    + destruct os as [|o [|o' os]]; simpl in *; [reflexivity| |lia].
      apply create_refund_kept. apply Hun0. set_solver.
    + rewrite foldl_requeue. by apply (kept_write os Queued).
Qed.

Lemma apply_user_op_confirmed_kept h obs d n :
  books_inv d n -> kept d (apply_user_op_confirmed self h obs d).
Proof.
  intros Hinv. unfold apply_user_op_confirmed.
  destruct (submitted d !! h) as [s|] eqn:Hs; [|by apply kept_same].
  destruct (effective_swept s obs) as [x|]; [|reflexivity].
  destruct (apply_purpose self s obs x d) as [d1 r] eqn:Ea.
  assert (Hk : kept d d1).
  { pose proof (ops_covered _ (inv_ops _ _ Hinv) h true (unsigned (signed s)) (s_purpose s)
      ltac:(simpl; eauto)) as Hok.
    unfold apply_purpose in Ea. destruct (s_purpose s) as [a|os|a|rcp amt]; simplify_eq.
    - apply kept_same; unfold apply_sweep_confirmed; destruct (success obs); by repeat case_match.
    - destruct Hok as (_ & Hun & _). by apply apply_withdraw_kept.
    - apply kept_same; unfold apply_recovery_confirmed; by case_match.
    - by apply kept_same. }
  set (d2 := remove_confirmed_votes h (set_submitted (delete h) d1)).
  destruct (purge_chain_spec (sender (unsigned (signed s))) (nonce (unsigned (signed s))) h d2)
    as [Hsb _].
  etrans; [exact Hk|]. etrans; [|destruct r; [apply maybe_trigger_sweep_kept|reflexivity]].
  etrans; [|by apply same_books_kept]. by apply kept_same.
Qed.

Lemma replace_kept op_hash d n d' :
  books_inv d n -> process_replace_user_op self op_hash d = (Ok tt, d') -> kept d d'.
Proof.
  intros Hinv E. unfold process_replace_user_op in E. simpl in E.
  destruct (submitted d !! op_hash) as [s|] eqn:Hs; simpl in E; [|done].
  pose proof (ops_covered _ (inv_ops _ _ Hinv) op_hash true (unsigned (signed s)) (s_purpose s)
    ltac:(simpl; eauto)) as Hok.
  run_inv E; (etrans; [|apply start_session_kept]).
  destruct (s_purpose s) as [|os| |]; try by apply kept_same.
  destruct Hok as (_ & Hun & _). rewrite foldl_put_wstate.
  match goal with |- context [foldl (fun m o => <[o := ?st]> m)] => by apply (kept_write os st) end.
Qed.

Lemma item_kept item peer d n d' :
  books_inv d n -> process_consensus_item self item peer d = (Ok tt, d') -> kept d d'.
Proof.
  intros Hinv E.
  destruct item as [vote|it|sid sig|sid|h su blk bh sw gas|vote|obs|h|obs|a wei|vote|v raw];
    simpl in E; [..|done].
  - unfold process_block_count in E. run_inv E.
    etrans; [|apply maybe_trigger_withdrawal_batch_kept]. by apply kept_same.
  - unfold process_mpc_round in E. run_inv E. case_match; by apply kept_same.
  - unfold process_mpc_signature in E. run_inv E; by apply kept_same.
  - unfold process_rotate_signing in E. run_inv E. etrans; [|apply start_session_kept].
    by apply kept_same.
  - unfold process_user_op_confirmed in E. run_inv E.
    assert (Hb : books_inv (set_confirmed_votes
      (insert (h, peer) (mkUserOpConfirmedObservation su blk bh sw gas)) d) n)
      by (by apply (books_inv_same d); [split|..]).
    etrans; [|case_match; [by eapply apply_user_op_confirmed_kept|reflexivity]].
    by apply kept_same.
  - unfold process_fee_vote in E. run_inv E; by apply kept_same.
  - unfold process_bootstrap_observation in E. run_inv E. case_match; by apply kept_same.
  - by eapply replace_kept.
  - unfold process_block_hash in E. run_inv E. case_match; [|by apply kept_same].
    destruct (ring_frame (obs_height obs) (obs_block_hash obs)
      (set_block_hash_votes (insert peer obs) d)) as [f ->]. by apply kept_same.
  - unfold process_recover_residual in E. run_inv E.
    etrans; [|apply maybe_trigger_residual_recovery_kept]. by apply kept_same.
  - unfold process_withdraw_fees_vote in E. run_inv E.
    etrans; [|apply maybe_trigger_fee_withdrawal_kept]. by apply kept_same.
Qed.

Lemma ledger_step_kept l l' : ledger_inv l -> ledger_step self l l' -> kept (db l) (db l').
Proof.
  intros [Hinv _] Hstep. destruct Hstep as
    [l i meta d' Hwf E Hb'|l o op am d' Hwf Hfr E Hle Hb'|l it peer d' Hpeer Hwf E Hb']; simpl.
  - destruct i as [op|pk pr fee|v raw]; simpl in E; [| |done].
    + unfold process_refund in E. run_inv E. intros o st Hw Hu. simpl. split; [done|].
      split; [done|]. intros r Hr. by apply lookup_delete_Some in Hr as [_ ?].
    + unfold process_deposit_proof in E. run_inv E.
      etrans; [|apply maybe_trigger_sweep_kept]. by apply kept_same.
  - destruct o as [w|v raw]; [|done]. unfold process_output in E. run_inv E.
    intros o st Hw Hu. simpl. assert (o <> op) by congruence.
    rewrite !lookup_insert_ne by done. eauto.
  - by eapply item_kept.
Qed.

Definition terminal (st : WithdrawalState) : Prop :=
  match st with Confirmed _ | WithdrawalFailed _ => True | _ => False end.

(** C9: A withdrawal is settled once: when it is confirmed or has failed, it keeps that
    state in every later ledger, its value never returns to the queue, a confirmed
    one never gets a refund, and a failed one's refund is never created again
    once it has been claimed. *)
Theorem withdrawal_settled_once l l' o st :
  reachable self l -> rtc (ledger_step self) l l' ->
  wstates (db l) !! o = Some st -> terminal st ->
  wstates (db l') !! o = Some st /\ unclaimed (db l') !! o = None /\
  (forall b, st = Confirmed b -> refunds (db l') !! o = None) /\
  (refunds (db l) !! o = None -> refunds (db l') !! o = None).
Proof.
  intros Hr Hs Hw Ht. apply (reachable_ledger_inv self) in Hr as Hi.
  assert (Hi' : ledger_inv l') by (apply (reachable_ledger_inv self); unfold reachable in *; by etrans).
  assert (Hu : unclaimed (db l) !! o = None).
  { pose proof (inv_lifecycle _ _ (inv_core _ _ (proj1 Hi)) o) as Hl. unfold lifecycle_ok in Hl.
    rewrite Hw in Hl. by destruct st; destruct_and?. }
  assert (Hk : kept (db l) (db l')).
  { clear Hr Hi' Hw Hu. induction Hs as [|l l1 l' Hstep Hs IH]; [reflexivity|].
    etrans; [by apply ledger_step_kept|]. by apply IH, (ledger_step_inv self l). }
  destruct (Hk o st Hw Hu) as (Hw' & Hu' & Hr'). split; [done|]. split; [done|]. split.
  - intros b ->. pose proof (inv_lifecycle _ _ (inv_core _ _ (proj1 Hi')) o) as Hl.
    unfold lifecycle_ok in Hl. rewrite Hw' in Hl. by destruct Hl.
  - intros Hn. apply eq_None_not_Some. intros [r Hr1]. apply Hr' in Hr1. congruence.
Qed.
End lifecycle.

#[local] Existing Instance demo_evm.
#[local] Existing Instance demo_abi_ok.
#[local] Existing Instance toy_trie.
#[local] Existing Instance toy_trie_ok.
#[local] Existing Instance map_amounts.
#[local] Existing Instance map_amounts_ok.

Lemma withdrawal_settled_once_witness :
  wstates (db demo_ledger5) !! demo_out_point = Some (Confirmed 22) /\
  unclaimed (db demo_ledger5) !! demo_out_point = None /\
  (forall b, Confirmed 22 = Confirmed b -> refunds (db demo_ledger5) !! demo_out_point = None) /\
  (refunds (db demo_ledger5) !! demo_out_point = None ->
   refunds (db demo_ledger5) !! demo_out_point = None).
Proof.
  apply (withdrawal_settled_once demo_usdt demo_ledger5); [apply demo_reachable5|apply rtc_refl| |exact I].
  vm_compute. reflexivity.
Defined.
