(* ===== verification/UsdtVotes.v ===== *)
(** * Agreement on heights, prices and block hashes

    The guardians' votes become the federation's view of the chain: a block
    height ([consensus_block_count]), a fee estimate ([fee_vote_median]) and the
    ring of anchored block hashes that deposit proofs are checked against. *)

From S2P Require Import Prelude OrderStats FedimintCore UsdtTypes UsdtEvm UsdtUserOp UsdtSigning.
From S2P Require Import UsdtProof UsdtDb UsdtServer UsdtHandlers UsdtLedger UsdtTriggers.
From S2P Require Import UsdtSettlement UsdtConfirm UsdtSolvency UsdtDemo.

(** ** Who writes votes *)

Definition votes_view (d : UsdtDb) :=
  (block_count_votes d, fee_votes d, ring d, block_hash_votes d).
Definition same_votes (d d' : UsdtDb) : Prop := votes_view d' = votes_view d.

#[export] Instance same_votes_preorder : PreOrder same_votes.
Proof. split; [done|]. intros d1 d2 d3 H1 H2. unfold same_votes in *. congruence. Qed.

Lemma foldl_same_votes {A} (f : UsdtDb -> A -> UsdtDb) (l : list A) d :
  (forall d x, same_votes d (f d x)) -> same_votes d (foldl f d l).
Proof.
  intros Hf. revert d. induction l as [|x l IH]; intros d; simpl; [done|].
  etrans; [apply Hf|apply IH].
Qed.

Section frames.
Context `{Evm} (self : Usdt).

Lemma start_session_votes p dg a d : same_votes d (start_session self p dg a d).
Proof. destruct (start_session_frame self p dg a d) as [f ->]. done. Qed.

Lemma enqueue_op_votes op p blk d : same_votes d (enqueue_op self op p blk d).
Proof. unfold enqueue_op. etrans; [|apply start_session_votes]. done. Qed.

Lemma maybe_trigger_sweep_votes a d : same_votes d (maybe_trigger_sweep self a d).
Proof.
  unfold maybe_trigger_sweep. repeat (case_match; try reflexivity). apply enqueue_op_votes.
Qed.

Lemma maybe_trigger_residual_recovery_votes a d :
  same_votes d (maybe_trigger_residual_recovery self a d).
Proof.
  unfold maybe_trigger_residual_recovery. repeat (case_match; try reflexivity).
  apply enqueue_op_votes.
Qed.

Lemma maybe_trigger_fee_withdrawal_votes d : same_votes d (maybe_trigger_fee_withdrawal self d).
Proof.
  unfold maybe_trigger_fee_withdrawal. repeat (case_match; try reflexivity).
  apply enqueue_op_votes.
Qed.

Lemma maybe_trigger_withdrawal_batch_votes d :
  same_votes d (maybe_trigger_withdrawal_batch self d).
Proof.
  unfold maybe_trigger_withdrawal_batch. repeat (case_match; try reflexivity).
  - apply foldl_same_votes. intros d0 [a r]. case_match; [apply maybe_trigger_sweep_votes|done].
  - unfold build_and_enqueue_withdrawal_batch. etrans; [|apply start_session_votes].
    etrans; [|apply foldl_same_votes]; done.
Qed.

Lemma remove_sessions_votes h d : same_votes d (remove_signing_sessions_for_op h d).
Proof. apply foldl_same_votes. intros d0 [id s]. by case_match. Qed.

Lemma purge_votes snd n h d : same_votes d (purge_user_op_nonce_chain snd n h d).
Proof.
  transitivity (purge_submitted snd n h d); apply foldl_same_votes; intros d0 [h' x];
    repeat (case_match; try done). etrans; [|apply remove_sessions_votes]. done.
Qed.

Lemma apply_withdraw_votes os obs x d : same_votes d (apply_withdraw_confirmed self os obs x d).
Proof.
  unfold apply_withdraw_confirmed.
  repeat case_match; repeat (etrans; [|apply foldl_same_votes; try done]); try done.
  intros d0 o. unfold create_withdrawal_refund. by case_match.
Qed.

Lemma apply_purpose_votes s obs x d : same_votes d (apply_purpose self s obs x d).1.
Proof.
  unfold apply_purpose. destruct (s_purpose s); simpl; [|apply apply_withdraw_votes| |done].
  - unfold apply_sweep_confirmed. destruct (success obs); by case_match.
  - unfold apply_recovery_confirmed. by case_match.
Qed.

Lemma apply_user_op_confirmed_votes h obs d :
  same_votes d (apply_user_op_confirmed self h obs d).
Proof.
  unfold apply_user_op_confirmed. destruct (submitted d !! h) as [s|]; [|done].
  destruct (effective_swept s obs) as [x|]; [|done].
  pose proof (apply_purpose_votes s obs x d) as Hp.
  destruct (apply_purpose self s obs x d) as [d1 r]; simpl in Hp.
  etrans; [exact Hp|]. etrans; [|destruct r; [apply maybe_trigger_sweep_votes|done]].
  etrans; [|apply purge_votes]. done.
Qed.

(** The handlers that leave the votes alone; the others are the three vote items. *)
Definition votes_on_chain (item : UsdtConsensusItem) : bool :=
  match item with BlockCount _ | FeeVoteItem _ | BlockHash _ => true | _ => false end.

Lemma item_same_votes item peer d d' :
  votes_on_chain item = false -> process_consensus_item self item peer d = (Ok tt, d') ->
  same_votes d d'.
Proof.
  intros Hv E.
  destruct item as [vote|it|sid sig|sid|h su blk bh sw gas|vote|obs|h|obs|a wei|vote|v raw];
    simpl in Hv, E; try done.
  - unfold process_mpc_round in E. run_inv E. by case_match.
  - unfold process_mpc_signature in E. by run_inv E.
  - unfold process_rotate_signing in E. run_inv E. etrans; [|apply start_session_votes]. done.
  - unfold process_user_op_confirmed in E. run_inv E.
    etrans; [|case_match; [apply apply_user_op_confirmed_votes|done]]. done.
  - unfold process_bootstrap_observation in E. run_inv E. by case_match.
  - unfold process_replace_user_op in E. run_inv E; (etrans; [|apply start_session_votes]);
      case_match; (etrans; [|done || (apply foldl_same_votes; done)]); try done.
    all: etrans; [|apply foldl_same_votes]; done.
  - unfold process_recover_residual in E. run_inv E.
    etrans; [|apply maybe_trigger_residual_recovery_votes]. done.
  - unfold process_withdraw_fees_vote in E. run_inv E.
    etrans; [|apply maybe_trigger_fee_withdrawal_votes]. done.
Qed.
End frames.

(** ** The agreed height *)

(** One entry per peer: the vote, or zero. *)
Definition vote_of (m : gmap PeerId Z) (p : PeerId) : Z := default 0 (m !! p).

Lemma values_delete {V} (m : gmap PeerId V) p v :
  m !! p = Some v -> values m ≡ₚ v :: values (delete p m).
Proof.
  intros Hp. unfold values. rewrite <- (insert_delete_id m p v Hp) at 1.
  by rewrite (map_to_list_insert (delete p m) p v (lookup_delete_eq m p)).
Qed.

Lemma length_values {V} (m : gmap PeerId V) : length (values m) = size m.
Proof. unfold values. by rewrite length_fmap, length_map_to_list. Qed.

Lemma padded_votes (m : gmap PeerId Z) (ps : list PeerId) :
  NoDup ps -> (forall p, is_Some (m !! p) -> p ∈ ps) ->
  (size m <= length ps)%nat /\
  values m ++ replicate (length ps - size m) 0 ≡ₚ vote_of m <$> ps.
Proof.
  intros Hnd. revert m. induction Hnd as [|p ps Hp Hnd IH]; intros m Hdom.
  { assert (m = ∅) as ->; [|by rewrite map_size_empty].
    apply map_empty. intros p. apply eq_None_not_Some. intros Hs. by apply Hdom, elem_of_nil in Hs. }
  destruct (IH (delete p m)) as [Hsz Hperm].
  { intros q [v Hq]. apply lookup_delete_Some in Hq as [Hne Hq].
    specialize (Hdom q ltac:(eauto)). set_solver. }
  assert (Heq : vote_of (delete p m) <$> ps = vote_of m <$> ps).
  { apply list_fmap_ext. intros i q Hq. unfold vote_of. apply list_elem_of_lookup_2 in Hq.
    rewrite lookup_delete_ne by set_solver. done. }
  rewrite Heq in Hperm. rewrite fmap_cons. unfold vote_of at 1.
  destruct (m !! p) as [v|] eqn:Ep; simpl.
  - assert (0 < size m)%nat by (apply Nat.neq_0_lt_0; intros E0%map_size_empty_inv; by subst).
    rewrite map_size_delete, Ep in Hsz, Hperm. cbn [length]. split; [lia|].
    rewrite (values_delete m p v Ep). simpl. constructor. rewrite <- Hperm.
    replace (S (length ps) - size m)%nat with (length ps - pred (size m))%nat by lia. done.
  - rewrite delete_id in * by done. split; [lia|].
    rewrite Nat.sub_succ_l by done. simpl.
    by rewrite <- Permutation_middle, Hperm.
Qed.

Section agreement.
Context `{Evm} `{StateTrie} `{AmountsOps} (self : Usdt).
#[local] Abbreviation peers := (peer_ids (num_peers self)).
Context (Hnd : NoDup (peer_ids (num_peers self))) (Hne : peer_ids (num_peers self) <> []).

Definition voters_ok (d : UsdtDb) : Prop :=
  map_Forall (fun p v => p ∈ peers /\ is_u64 v) (block_count_votes d).

Lemma consensus_block_count_kth d :
  voters_ok d ->
  kth (vote_of (block_count_votes d) <$> peers) (length peers / 2)
    = Some (consensus_block_count self d).
Proof.
  intros Hv. destruct (padded_votes (block_count_votes d) peers) as [_ Hp]; [exact Hnd|..].
  { intros p [v Hpv]. by apply Hv in Hpv as [? _]. }
  unfold consensus_block_count, total.
  rewrite length_values. pose proof (kth_Permutation _ _ (length peers / 2) Hp) as Hk. unfold kth in Hk at 1. rewrite Hk.
  destruct (kth_is_Some (vote_of (block_count_votes d) <$> peers) (length peers / 2)) as [x ->];
    [|done].
  rewrite length_fmap. destruct peers; [done|]. apply Nat.div_lt; simpl; lia.
Qed.

Lemma consensus_block_count_mono d d' :
  voters_ok d -> voters_ok d' ->
  (forall p, vote_of (block_count_votes d) p <= vote_of (block_count_votes d') p) ->
  consensus_block_count self d <= consensus_block_count self d'.
Proof.
  intros Hv Hv' Hle. eapply kth_mono; [|by apply consensus_block_count_kth..].
  generalize peers as l. induction l; simpl; constructor; auto.
Qed.

Lemma ledger_step_cases l l' :
  ledger_step self l l' ->
  same_votes (db l) (db l') \/
  exists peer item, peer ∈ peers /\ item_wf item /\ votes_on_chain item = true /\
    process_consensus_item self item peer (db l) = (Ok tt, db l').
Proof.
  intros Hstep. destruct Hstep as
    [l i meta d' Hwf E Hb'|l o op am d' Hwf Hfr E Hle Hb'|l it peer d' Hpeer Hwf E Hb']; simpl.
  - left. destruct i as [op|pk pr fee|v raw]; simpl in E; [| |done].
    + unfold process_refund in E. by run_inv E.
    + unfold process_deposit_proof in E. run_inv E. etrans; [|apply maybe_trigger_sweep_votes]. done.
  - left. destruct o as [w|v raw]; [|done]. unfold process_output in E. by run_inv E.
  - destruct (votes_on_chain it) eqn:Ev; [right; eauto 10|left; by eapply item_same_votes].
Qed.

(** The votes on the height are of peers, and only grow. *)
Definition heights_grow (d d' : UsdtDb) : Prop :=
  voters_ok d' /\
  forall p, vote_of (block_count_votes d) p <= vote_of (block_count_votes d') p.

Lemma heights_same d d' :
  block_count_votes d' = block_count_votes d -> voters_ok d -> heights_grow d d'.
Proof. intros Eq. unfold heights_grow, voters_ok. by rewrite Eq. Qed.

Lemma same_votes_heights d d' : same_votes d d' -> voters_ok d -> heights_grow d d'.
Proof. intros Hs. apply heights_same. unfold same_votes, votes_view in Hs. by injection Hs. Qed.

Lemma item_heights item peer d d' :
  peer ∈ peers -> item_wf item -> voters_ok d ->
  process_consensus_item self item peer d = (Ok tt, d') -> heights_grow d d'.
Proof.
  intros Hp Hwf Hv E. destruct (votes_on_chain item) eqn:Hi;
    [|by eapply same_votes_heights, Hv; eapply item_same_votes].
  destruct item; simpl in Hi, E; try done.
  - unfold process_block_count in E. run_inv E. zbool.
    set (d0 := set_block_count_votes _ _).
    assert (heights_grow d d0) as [Ha1 Ha2].
    { split; [by apply map_Forall_insert_2|].
      intros p. unfold vote_of at 2. simpl. rewrite lookup_insert. case_decide as Ep; [|done].
      subst p. unfold vote_of. simpl. lia. }
    destruct (same_votes_heights d0 (maybe_trigger_withdrawal_batch self d0)) as [Hb1 Hb2];
      [apply maybe_trigger_withdrawal_batch_votes|done|].
    split; [done|]. intros p. specialize (Ha2 p). specialize (Hb2 p). lia.
  - unfold process_fee_vote in E. run_inv E; by apply heights_same.
  - unfold process_block_hash in E. run_inv E. case_match; [|by apply heights_same].
    destruct (ring_frame (obs_height obs) (obs_block_hash obs)
      (set_block_hash_votes (insert peer obs) d)) as [f ->]. by apply heights_same.
Qed.

Lemma ledger_step_heights l l' :
  ledger_step self l l' -> voters_ok (db l) -> heights_grow (db l) (db l').
Proof.
  intros Hstep Hv. apply ledger_step_cases in Hstep as [Hs|(peer & item & Hp & Hwf & _ & E)].
  - by apply same_votes_heights.
  - by eapply item_heights.
Qed.

Lemma reachable_voters_ok l : reachable self l -> voters_ok (db l).
Proof.
  intros Hr. apply (rtc_invariant (ledger_step self) (fun l => voters_ok (db l)) genesis); [| |exact Hr].
  - intros a b Ha Hs. by destruct (ledger_step_heights a b Hs Ha).
  - intros p v Hp. simpl in Hp. by rewrite lookup_empty in Hp.
Qed.

Lemma agreed_height_step_mono l l' :
  voters_ok (db l) -> ledger_step self l l' ->
  consensus_block_count self (db l) <= consensus_block_count self (db l').
Proof.
  intros Hv Hs. destruct (ledger_step_heights l l' Hs Hv). by apply consensus_block_count_mono.
Qed.

Lemma agreed_height_rtc_mono l l' :
  voters_ok (db l) -> rtc (ledger_step self) l l' ->
  consensus_block_count self (db l) <= consensus_block_count self (db l').
Proof.
  intros Hv Hr. induction Hr as [|l l1 l' Hs Hr IH]; [lia|].
  pose proof (agreed_height_step_mono l l1 Hv Hs).
  destruct (ledger_step_heights l l1 Hs Hv) as [Hv1 _]. specialize (IH Hv1). lia.
Qed.

(** The agreed block height never goes back, and while fewer than half of the
    guardians are faulty it always lies between heights that honest guardians have
    voted for (counting zero before their first vote): a faulty minority can
    neither advance the federation past what an honest guardian has seen, nor
    hold it below the slowest one. *)
Theorem agreed_height_sound l l' (honest : PeerId -> Prop) `{!forall p, Decision (honest p)} :
  reachable self l -> rtc (ledger_step self) l l' ->
  (2 * length (filter (fun p => ~ honest p) peers) < length peers)%nat ->
  consensus_block_count self (db l) <= consensus_block_count self (db l') /\
  (exists p, p ∈ peers /\ honest p /\
     vote_of (block_count_votes (db l)) p <= consensus_block_count self (db l)) /\
  (exists p, p ∈ peers /\ honest p /\
     consensus_block_count self (db l) <= vote_of (block_count_votes (db l)) p).
Proof.
  intros Hr Hs Hf. apply reachable_voters_ok in Hr.
  split; [by apply agreed_height_rtc_mono|].
  pose proof (Nat.div_mod_eq (length peers) 2). pose proof (Nat.mod_upper_bound (length peers) 2).
  apply (kth_bracketed _ honest _ (length peers / 2));
    [lia|lia|by apply consensus_block_count_kth].
Qed.

(** ** The block-hash ring *)

Lemma foldl_prune (P : Z -> bool) (keys : list Z) d k :
  ring (foldl (fun d key => if P key then set_ring (delete key) d else d) d keys) !! k
  = if bool_decide (k ∈ keys) && P k then None else ring d !! k.
Proof.
  revert d. induction keys as [|key keys IH]; intros d; cbn [foldl]; [done|]. rewrite IH.
  destruct (P key) eqn:EP; destruct (decide (k = key)) as [->|Hneq]; rewrite ?EP.
  - rewrite (bool_decide_eq_true_2 (key ∈ key :: keys)) by set_solver. simpl.
    rewrite lookup_delete_eq. by destruct (bool_decide (key ∈ keys)).
  - simpl. rewrite lookup_delete_ne by done.
    by rewrite (bool_decide_ext (k ∈ key :: keys) (k ∈ keys)) by set_solver.
  - by rewrite !andb_false_r.
  - by rewrite (bool_decide_ext (k ∈ key :: keys) (k ∈ keys)) by set_solver.
Qed.

Lemma write_ring_lookup height hash d k :
  ring (write_block_hash_ring height hash d) !! k
  = if saturating_add_u64 k BLOCK_HASH_RING_LEN <=? height then None
    else <[height := hash]> (ring d) !! k.
Proof.
  unfold write_block_hash_ring.
  rewrite (foldl_prune (fun key => saturating_add_u64 key BLOCK_HASH_RING_LEN <=? height)).
  destruct (_ <=? height); [|by rewrite andb_false_r]. rewrite andb_true_r.
  case_bool_decide as Hk; [done|]. apply eq_None_not_Some. intros [x Hx]. apply Hk.
  apply list_elem_of_fmap. exists (k, x). split; [done|]. by apply elem_of_map_to_list.
Qed.

Context (Hdepth : is_u64 (confirmation_depth (cfg self))).

Definition anchors_ok (d : UsdtDb) : Prop :=
  map_Forall (fun k _ => 0 <= k <= saturating_sub (consensus_block_count self d)
                                     (confirmation_depth (cfg self))) (ring d) /\
  forall k1 k2, is_Some (ring d !! k1) -> is_Some (ring d !! k2) -> k2 < k1 + BLOCK_HASH_RING_LEN.

(** Anchoring a fresh confirmation-deep height keeps the window. *)
Lemma write_ring_anchors height hash d :
  anchors_ok d -> 0 <= height ->
  let c := consensus_block_count self d in
  height <= saturating_sub c (confirmation_depth (cfg self)) ->
  saturating_sub c height <= u64_add (confirmation_depth (cfg self)) DEPOSIT_VOTE_MAX_AGE_BLOCKS ->
  anchors_ok (write_block_hash_ring height hash d).
Proof.
  intros [Hd Hw] Hh c Hdeep Hage.
  assert (Hc : consensus_block_count self (write_block_hash_ring height hash d) = c).
  { by destruct (ring_frame height hash d) as [f ->]. }
  assert (Hage' : c - height <= confirmation_depth (cfg self) + DEPOSIT_VOTE_MAX_AGE_BLOCKS).
  { unfold u64_add, wrap64 in Hage. unfold is_u64 in Hdepth.
    pose proof (Z.mod_le (confirmation_depth (cfg self) + DEPOSIT_VOTE_MAX_AGE_BLOCKS) (2 ^ 64)).
    unfold saturating_sub, DEPOSIT_VOTE_MAX_AGE_BLOCKS in *. lia. }
  assert (Hin : forall k, is_Some (ring (write_block_hash_ring height hash d) !! k) ->
    height < k + BLOCK_HASH_RING_LEN /\ (k = height \/ is_Some (ring d !! k))).
  { intros k [x Hx]. rewrite write_ring_lookup in Hx. destruct (_ <=? height) eqn:El; [done|].
    apply Z.leb_gt in El. unfold saturating_add_u64 in El. split; [lia|].
    rewrite lookup_insert in Hx. case_decide; [by left|right; eauto]. }
  unfold anchors_ok. rewrite Hc. split.
  - intros k x Hx. destruct (Hin k ltac:(eauto)) as [_ [->|[y Hy]]]; [done|]. by apply Hd in Hy.
  - intros k1 k2 Hs1 Hs2.
    destruct (Hin k1 Hs1) as [Hb1 [->|Hk1]], (Hin k2 Hs2) as [Hb2 [->|Hk2]];
      [unfold BLOCK_HASH_RING_LEN; lia| |lia|by apply Hw].
    destruct Hk2 as [y Hy]. apply Hd in Hy. fold c in Hy.
    unfold saturating_sub, DEPOSIT_VOTE_MAX_AGE_BLOCKS, BLOCK_HASH_RING_LEN in *. lia.
Qed.

Lemma anchors_ok_grow d d' :
  ring d' = ring d -> consensus_block_count self d <= consensus_block_count self d' ->
  anchors_ok d -> anchors_ok d'.
Proof.
  intros Er Hc [Hd Hw]. unfold anchors_ok. rewrite Er. split; [|done].
  intros k x Hk. apply Hd in Hk. unfold saturating_sub in *. lia.
Qed.

Definition quorum_on (k : Z) (x : Hash) (d : UsdtDb) : Prop :=
  (threshold (num_peers self)
   <= length (filter (mkBlockHashObservation k x =.) (values (block_hash_votes d))))%nat.

Lemma ledger_step_anchors l l' :
  voters_ok (db l) -> anchors_ok (db l) -> ledger_step self l l' ->
  anchors_ok (db l') /\
  forall k x, ring (db l') !! k = Some x -> ring (db l) !! k = Some x \/ quorum_on k x (db l').
Proof.
  intros Hv Ha Hstep. pose proof (agreed_height_step_mono l l' Hv Hstep) as Hmono.
  assert (Hsame : ring (db l') = ring (db l) -> anchors_ok (db l') /\ forall k x,
    ring (db l') !! k = Some x -> ring (db l) !! k = Some x \/ quorum_on k x (db l')).
  { intros Er. split; [by eapply anchors_ok_grow|]. intros k x. rewrite Er. auto. }
  apply ledger_step_cases in Hstep as [Hs|(peer & item & Hp & Hwf & Hi & E)].
  { apply Hsame. unfold same_votes, votes_view in Hs. by injection Hs. }
  destruct l as [d n], l' as [d' n']; simpl in *.
  destruct item; simpl in Hi, E; try done.
  - apply Hsame. unfold process_block_count in E. run_inv E.
    match goal with |- ring (_ _ ?d0) = _ =>
      pose proof (maybe_trigger_withdrawal_batch_votes self d0) as Hs end.
    unfold same_votes, votes_view in Hs. by injection Hs.
  - apply Hsame. unfold process_fee_vote in E. by run_inv E.
  - unfold process_block_hash in E. run_inv E. zbool.
    set (d0 := set_block_hash_votes _ d) in *.
    destruct (_ <=? _)%nat eqn:Eq; [|by apply Hsame]. apply Nat.leb_le in Eq.
    split; [by apply write_ring_anchors; [|apply Hwf|..]|].
    intros k x Hk. rewrite write_ring_lookup in Hk. destruct (_ <=? _); [done|].
    rewrite lookup_insert in Hk. case_decide as Ek; [|by left]. right. simplify_eq.
    unfold quorum_on. destruct (ring_frame (obs_height obs) (obs_block_hash obs) d0) as [f ->].
    by destruct obs.
Qed.

Lemma reachable_anchors_ok l : reachable self l -> anchors_ok (db l).
Proof.
  intros Hr. refine (proj2 (rtc_invariant (ledger_step self)
    (fun l => voters_ok (db l) /\ anchors_ok (db l)) genesis l _ _ Hr)).
  - intros a b [Hv Ha] Hs. split; [by destruct (ledger_step_heights a b Hs Hv)|].
    by destruct (ledger_step_anchors a b Hv Ha Hs).
  - split; [intros p v Hp|split; [intros p v Hp|intros k1 k2 [x Hp]]];
      simpl in Hp; by rewrite lookup_empty in Hp.
Qed.

(** A table whose keys span fewer than [n] consecutive integers has at most [n] rows. *)
Lemma size_window {V} (m : gmap Z V) (n : nat) :
  (forall k1 k2, is_Some (m !! k1) -> is_Some (m !! k2) -> k2 < k1 + Z.of_nat n) ->
  (size m <= n)%nat.
Proof.
  intros Hw. destruct (decide (m = ∅)) as [->|Hm]; [rewrite map_size_empty; lia|].
  assert (exists lo, is_Some (m !! lo) /\ forall k, is_Some (m !! k) -> lo <= k) as (lo & Hlo & Hmin).
  { destruct (kth_is_Some (map_to_list m).*1 0) as [lo Hk].
    { rewrite length_fmap, length_map_to_list. apply Nat.neq_0_lt_0. by intros ->%map_size_empty_iff. }
    pose proof (kth_above _ _ _ Hk) as Hall.
    assert (Hel : forall k, k ∈ (map_to_list m).*1 <-> is_Some (m !! k)).
    { intros k. rewrite list_elem_of_fmap. split.
      - intros ([k' x] & -> & Hx). apply elem_of_map_to_list in Hx. simpl. eauto.
      - intros [x Hx]. exists (k, x). by rewrite elem_of_map_to_list. }
    exists lo. split.
    - apply Hel. unfold kth in Hk. apply list_elem_of_lookup_2 in Hk.
      by rewrite merge_sort_Permutation in Hk.
    - intros k Hkm%Hel. destruct (decide (lo <= k)) as [|Hn]; [done|exfalso].
      pose proof (length_filter_split (fun y => lo <= y)%Z (map_to_list m).*1).
      assert (Hlt : (0 < length (filter (fun y => ~ lo <= y)%Z (map_to_list m).*1))%nat); [|lia].
      assert (Hin : k ∈ filter (fun y => ~ lo <= y)%Z (map_to_list m).*1)
        by (by apply list_elem_of_filter).
      apply Nat.neq_0_lt_0. intros E0%nil_length_inv. rewrite E0 in Hin. by apply elem_of_nil in Hin. }
  rewrite <- size_dom. transitivity (size (list_to_set (seqZ lo (Z.of_nat n)) : gset Z)).
  - apply subseteq_size. intros k Hk%elem_of_dom. apply elem_of_list_to_set, elem_of_seqZ.
    specialize (Hmin k Hk). specialize (Hw lo k Hlo Hk). lia.
  - rewrite size_list_to_set by apply NoDup_seqZ. rewrite length_seqZ. lia.
Qed.

(** C23: The anchors of deposit proofs: on every reachable ledger the ring holds at
    most [BLOCK_HASH_RING_LEN] hashes, all within that many heights of each other
    and all at least the confirmation depth behind the agreed height; and a hash
    enters (or replaces another one) only when a threshold of guardians vote for
    exactly that height and hash. *)
Theorem anchors_sound l l' :
  reachable self l -> ledger_step self l l' ->
  map_Forall (fun k _ => 0 <= k <= saturating_sub (consensus_block_count self (db l))
                                     (confirmation_depth (cfg self))) (ring (db l)) /\
  (forall k1 k2, is_Some (ring (db l) !! k1) -> is_Some (ring (db l) !! k2) ->
     k2 < k1 + BLOCK_HASH_RING_LEN) /\
  Z.of_nat (size (ring (db l))) <= BLOCK_HASH_RING_LEN /\
  (forall k x, ring (db l') !! k = Some x ->
     ring (db l) !! k = Some x \/
     (threshold (num_peers self) <=
        length (filter (mkBlockHashObservation k x =.) (values (block_hash_votes (db l')))))%nat).
Proof.
  intros Hr Hs. pose proof (reachable_voters_ok l Hr) as Hv.
  pose proof (reachable_anchors_ok l Hr) as Ha. pose proof Ha as [Hd Hw].
  split; [done|]. split; [done|]. split.
  - apply (size_window _ 300) in Hw. unfold BLOCK_HASH_RING_LEN. lia.
  - by apply (ledger_step_anchors l l' Hv Ha Hs).
Qed.
End agreement.

(** ** The agreed fee estimate *)

(** The votes that still count, with their voters. *)
Definition fresh_votes (self : Usdt) (d : UsdtDb) : list (PeerId * StoredFeeVote) :=
  filter (fun v => saturating_sub (consensus_block_count self d) (recorded_block v.2)
                   <= FEE_VOTE_TTL_BLOCKS) (map_to_list (fee_votes d)).

Lemma fee_vote_median_fresh self d :
  fee_vote_median self d =
    let votes := (fun v => sfv_vote v.2) <$> fresh_votes self d in
    if (length votes <? threshold (num_peers self))%nat then None
    else Some (mkFeeVote (upper_median (max_fee_per_gas_wei <$> votes))
                         (upper_median (usdt_per_eth_e6 <$> votes))).
Proof.
  unfold fee_vote_median.
  match goal with |- context [omap ?f ?l] =>
    replace (omap f l) with ((fun v => sfv_vote v.2) <$> fresh_votes self d); [done|] end.
  unfold fresh_votes, values. induction (map_to_list (fee_votes d)) as [|v l IH]; [done|].
  rewrite fmap_cons, filter_cons. cbn [omap list_omap].
  destruct (decide _) as [Hle|Hgt].
  - rewrite (proj2 (Z.leb_le _ _)) by exact Hle. rewrite fmap_cons. by f_equal.
  - rewrite (proj2 (Z.leb_gt _ _)) by (apply Z.nle_gt, Hgt). done.
Qed.

Definition between_honest (honest : PeerId -> Prop) (votes : list (PeerId * StoredFeeVote))
    (f : FeeVote -> Z) (x : Z) : Prop :=
  (exists v, v ∈ votes /\ honest v.1 /\ f (sfv_vote v.2) <= x) /\
  (exists v, v ∈ votes /\ honest v.1 /\ x <= f (sfv_vote v.2)).

Lemma upper_median_bracketed (honest : PeerId -> Prop) `{!forall p, Decision (honest p)} votes f :
  (2 * length (filter (fun v : PeerId * StoredFeeVote => ~ honest v.1) votes) < length votes)%nat ->
  between_honest honest votes f (upper_median (f <$> ((fun v => sfv_vote v.2) <$> votes))).
Proof.
  intros Hf. rewrite <- list_fmap_compose. unfold upper_median. rewrite length_fmap.
  pose proof (Nat.div_mod_eq (length votes) 2). pose proof (Nat.mod_upper_bound (length votes) 2).
  destruct (kth_is_Some ((f ∘ (fun v : PeerId * StoredFeeVote => sfv_vote v.2)) <$> votes)
    (length votes / 2)) as [x Hx].
  { rewrite length_fmap. lia. }
  unfold kth in Hx. rewrite Hx.
  apply (kth_bracketed _ (fun v : PeerId * StoredFeeVote => honest v.1) _ (length votes / 2)) in Hx;
    [exact Hx|lia|lia].
Qed.

(** The fee estimate needs a threshold of fresh votes, and as long as faulty
    guardians cast less than half of a threshold of them, both the gas price and
    the exchange rate lie between estimates that honest guardians reported: a
    faulty minority can shift neither the users' fees nor the operations' gas
    bids out of the honest range. *)
Theorem fee_median_bracketed self d m (honest : PeerId -> Prop) `{!forall p, Decision (honest p)} :
  fee_vote_median self d = Some m ->
  (2 * length (filter (fun v : PeerId * StoredFeeVote => ~ honest v.1) (fresh_votes self d))
     < threshold (num_peers self))%nat ->
  (threshold (num_peers self) <= length (fresh_votes self d))%nat /\
  between_honest honest (fresh_votes self d) max_fee_per_gas_wei (max_fee_per_gas_wei m) /\
  between_honest honest (fresh_votes self d) usdt_per_eth_e6 (usdt_per_eth_e6 m).
Proof.
  rewrite fee_vote_median_fresh. cbv zeta. intros Hm Hf.
  destruct (_ <? _)%nat eqn:El; [done|]. apply Nat.ltb_ge in El. rewrite length_fmap in El.
  simplify_eq. split; [done|]. split; apply (upper_median_bracketed honest); lia.
Qed.

(** Four guardians; the faulty one's vote is far off. *)
Definition vote_usdt : Usdt :=
  mkUsdt (cfg demo_usdt) (mkNumPeers [0; 1; 2; 3] 3) 0 false.
Definition vote_db : UsdtDb :=
  set_fee_votes (fun _ => list_to_map
    [(0, mkStoredFeeVote (mkFeeVote 20 3000) 0); (1, mkStoredFeeVote (mkFeeVote 25 3100) 0);
     (2, mkStoredFeeVote (mkFeeVote 22 3050) 0); (3, mkStoredFeeVote (mkFeeVote 9999 1) 0)]) empty_db.

Lemma fee_median_bracketed_witness :
  (3 <= length (fresh_votes vote_usdt vote_db))%nat /\
  between_honest (fun p => p <> 3) (fresh_votes vote_usdt vote_db) max_fee_per_gas_wei 25 /\
  between_honest (fun p => p <> 3) (fresh_votes vote_usdt vote_db) usdt_per_eth_e6 3050.
Proof.
  apply (fee_median_bracketed vote_usdt vote_db (mkFeeVote 25 3050) (fun p => p <> 3));
    [vm_compute; reflexivity|].
  apply Nat.ltb_lt. vm_compute. reflexivity.
Defined.

Section witnesses.
#[local] Existing Instance demo_evm.
#[local] Existing Instance demo_abi_ok.
#[local] Existing Instance toy_trie.
#[local] Existing Instance toy_trie_ok.
#[local] Existing Instance map_amounts.
#[local] Existing Instance map_amounts_ok.

Lemma agreed_height_sound_witness :
  consensus_block_count demo_usdt (db demo_ledger3) <= consensus_block_count demo_usdt (db demo_ledger3) /\
  (exists p, p ∈ [0] /\ p = 0 /\
     vote_of (block_count_votes (db demo_ledger3)) p <= consensus_block_count demo_usdt (db demo_ledger3)) /\
  (exists p, p ∈ [0] /\ p = 0 /\
     consensus_block_count demo_usdt (db demo_ledger3) <= vote_of (block_count_votes (db demo_ledger3)) p).
Proof.
  refine (agreed_height_sound demo_usdt _ _ demo_ledger3 demo_ledger3 (fun p => p = 0) _ _ _).
  - apply NoDup_singleton.
  - done.
  - apply demo_reachable3.
  - apply rtc_refl.
  - apply Nat.ltb_lt. vm_compute. reflexivity.
Defined.

(** The block hash the deposit of the run is proven against. *)
Definition demo_voted : Ledger := default genesis
  (usdt_run genesis [inl (BlockCount 10); inl (FeeVoteItem demo_vote)]).
Definition demo_anchored : Ledger := default genesis
  (usdt_run demo_voted [inl (BlockHash (mkBlockHashObservation 9 (checksum [1])))]).

Lemma anchors_sound_witness :
  map_Forall (fun k _ => 0 <= k <= saturating_sub (consensus_block_count demo_usdt (db demo_voted)) 1)
    (ring (db demo_voted)) /\
  (forall k1 k2, is_Some (ring (db demo_voted) !! k1) -> is_Some (ring (db demo_voted) !! k2) ->
     k2 < k1 + BLOCK_HASH_RING_LEN) /\
  Z.of_nat (size (ring (db demo_voted))) <= BLOCK_HASH_RING_LEN /\
  (forall k x, ring (db demo_anchored) !! k = Some x ->
     ring (db demo_voted) !! k = Some x \/
     (1 <= length (filter (mkBlockHashObservation k x =.)
                    (values (block_hash_votes (db demo_anchored)))))%nat).
Proof.
  refine (anchors_sound demo_usdt _ _ _ demo_voted demo_anchored _ _).
  - apply NoDup_singleton.
  - done.
  - split; discriminate.
  - apply run_reachable; [apply rtc_refl|]. vm_compute. reflexivity.
  - apply (demo_step demo_voted (inl (BlockHash (mkBlockHashObservation 9 (checksum [1]))))).
    + vm_compute. reflexivity.
    + vm_compute. reflexivity.
Defined.
End witnesses.
