(* ===== verification/UsdtEndpoints.v ===== *)
(** * Guardian proposals and query endpoints

    [modules/usdt/fedimint-usdt-server/src/lib.rs]: what a guardian proposes to
    consensus each round ([consensus_proposal], [propose_timed_out_rotations],
    [propose_replace_user_ops]) from its local caches, and what the query
    endpoints answer.  None of it writes a table. *)

From S2P Require Import Prelude FedimintCore UsdtTypes UsdtEvm UsdtUserOp UsdtSigning.
From S2P Require Import UsdtProof UsdtDb UsdtServer UsdtHandlers UsdtDemo.

(** ** A guardian's local caches *)

Record UserOpConfirmedProposal := mkUserOpConfirmedProposal {
  prop_op_hash : Hash;
  prop_success : bool;
  prop_block : Z;
  prop_block_hash : Hash;
  prop_swept : UsdtAmount;
  prop_actual_gas_cost_wei : UsdtAmount;
}.

(** The mutex-protected fields of [Usdt] that [consensus_proposal] reads: written by
    background tasks and endpoints, never part of the consensus state.
    [pending_outgoing] holds the payload the signer thread of a session has ready. *)
Record Caches := mkCaches {
  block_count : Z;
  consensus_progress : Z;
  fee_estimate : option FeeVote;
  bootstrap_proposals : list BootstrapObservation;
  block_hash_proposals : option BlockHashObservation;
  residual_recovery_proposals : list (EvmAddress * Z);
  fee_withdrawal_intent : option WithdrawFeesVote;
  pending_outgoing : gmap Hash bytes;
  pending_signature_proposals : list (Hash * bytes);
  user_op_confirmed_proposals : list UserOpConfirmedProposal;
}.

(** [std::mem::take] on every queue. *)
Definition drained (g : Caches) : Caches := {|
  block_count := block_count g;
  consensus_progress := u64_add (consensus_progress g) 1;
  fee_estimate := fee_estimate g;
  bootstrap_proposals := [];
  block_hash_proposals := None;
  residual_recovery_proposals := [];
  fee_withdrawal_intent := None;
  pending_outgoing := pending_outgoing g;
  pending_signature_proposals := [];
  user_op_confirmed_proposals := [];
|}.

(** ** Proposals *)

Definition propose_timed_out_rotations (self : Usdt) (d : UsdtDb)
    (sessions : list (Hash * SigningSession)) : list UsdtConsensusItem :=
  omap (fun '(session_id, session) =>
    if bool_decide (state session = SessionFailed) then None
    else
      let 'UserOp op_hash := ses_purpose session in
      match pending d !! op_hash with
      | None => None
      | Some _ => if timed_out self session d then Some (RotateSigning session_id) else None
      end) sessions.

Definition propose_replace_user_ops (self : Usdt) (d : UsdtDb) : list UsdtConsensusItem :=
  let ccount := consensus_block_count self d in
  let median := fee_vote_median self d in
  omap (fun '(op_hash, s) =>
    if superseded s then None
    else if ccount <=? saturating_add_u64 (submitted_block s) (submitted_op_timeout_blocks self)
    then None
    else
      let affordable :=
        match s_purpose s with
        | Withdraw _ => match median with
                        | Some m => negb (withdraw_reprice_over_ceiling s m d)
                        | None => false
                        end
        | _ => true
        end in
      if affordable then Some (ReplaceUserOp op_hash) else None)
    (map_to_list (submitted d)).

Definition propose_block_count (self : Usdt) (g : Caches) (d : UsdtDb) : list UsdtConsensusItem :=
  let current_consensus := consensus_block_count self d in
  let vote :=
    if current_consensus =? 0 then block_count g
    else Z.min (block_count g) (u64_add current_consensus (if in_test_env self then 100 else 5)) in
  let current_vote := default 0 (block_count_votes d !! our_peer_id self) in
  if current_vote <? vote then [BlockCount vote] else [].

Definition propose_fee_vote (self : Usdt) (g : Caches) (d : UsdtDb) : list UsdtConsensusItem :=
  match fee_estimate g with
  | None => []
  | Some vote =>
      let should_propose :=
        match fee_votes d !! our_peer_id self with
        | Some stored =>
            bool_decide (sfv_vote stored <> vote)
            || (FEE_VOTE_REFRESH_BLOCKS <=?
                  saturating_sub (consensus_block_count self d) (recorded_block stored))
        | None => true
        end in
      if should_propose then [FeeVoteItem vote] else []
  end.

(** The freshest bootstrap and block-hash observations, unless already voted. *)
Definition propose_observations (self : Usdt) (g : Caches) (d : UsdtDb) : list UsdtConsensusItem :=
  match last (bootstrap_proposals g) with
  | Some obs => if bool_decide (bootstrap_votes d !! our_peer_id self = Some obs) then []
                else [BootstrapObservationItem obs]
  | None => []
  end ++
  match block_hash_proposals g with
  | Some obs => if bool_decide (block_hash_votes d !! our_peer_id self = Some obs) then []
                else [BlockHash obs]
  | None => []
  end ++
  omap (fun '(account, deposit_wei) =>
      if bool_decide (residual_votes d !! (account, our_peer_id self) = Some deposit_wei) then None
      else Some (RecoverResidual account deposit_wei)) (residual_recovery_proposals g).

Definition propose_fee_withdrawal (g : Caches) : list UsdtConsensusItem :=
  match fee_withdrawal_intent g with Some vote => [WithdrawFeesVoteItem vote] | None => [] end.

(** The chunks of the payload a signer has ready, except those already ordered. *)
Definition propose_rounds (self : Usdt) (g : Caches) (d : UsdtDb)
    (sessions : list (Hash * SigningSession)) : list UsdtConsensusItem :=
  '(session_id, session) ← sessions;
  if bool_decide (our_peer_id self ∉ signers session) then []
  else if negb (bool_decide (state session = InProgress)) then []
  else match pending_outgoing g !! session_id with
  | None => []
  | Some payload =>
      let chunks_list := chunk_payload payload in
      let chunk_count := Z.of_nat (length chunks_list) in
      omap (fun '(chunk, chunk_bytes) =>
        if bool_decide (is_Some (chunks d !! (session_id, round session, our_peer_id self, chunk)))
        then None
        else Some (MpcRound (mkMpcRoundItem session_id (round session) chunk chunk_count chunk_bytes)))
        (zip (seqZ 0 chunk_count) chunks_list)
  end.

Definition propose_signatures (g : Caches) (d : UsdtDb) : list UsdtConsensusItem :=
  omap (fun '(session_id, signature) =>
    match sessions d !! session_id with
    | Some session => if bool_decide (state session = InProgress)
                      then Some (MpcSignature session_id signature) else None
    | None => None
    end) (pending_signature_proposals g).

Definition propose_confirmations (self : Usdt) (g : Caches) (d : UsdtDb) : list UsdtConsensusItem :=
  omap (fun p =>
    let obs := mkUserOpConfirmedObservation (prop_success p) (prop_block p) (prop_block_hash p)
                 (prop_swept p) (prop_actual_gas_cost_wei p) in
    if bool_decide (confirmed_votes d !! (prop_op_hash p, our_peer_id self) = Some obs) then None
    else Some (UserOpConfirmed (prop_op_hash p) (prop_success p) (prop_block p) (prop_block_hash p)
                 (prop_swept p) (prop_actual_gas_cost_wei p)))
    (user_op_confirmed_proposals g).

Section proposals.
Context `{Evm}.

Definition consensus_proposal (self : Usdt) (g : Caches) (d : UsdtDb)
    : list UsdtConsensusItem * Caches :=
  let sessions := map_to_list (sessions d) in
  (propose_block_count self g d ++ propose_fee_vote self g d ++ propose_observations self g d
   ++ propose_fee_withdrawal g ++ propose_timed_out_rotations self d sessions
   ++ propose_replace_user_ops self d ++ propose_rounds self g d sessions
   ++ propose_signatures g d ++ propose_confirmations self g d, drained g).
End proposals.

(** ** Query endpoints *)

Record StatusResponse := mkStatusResponse {
  st_state : BootstrapState;
  st_entry_point_ok : bool;
  st_factory_ok : bool;
  st_impl_ok : bool;
  st_funded_guardians : Z;
  st_healthy_guardians : Z;
  st_threshold : Z;
}.

Definition clamp_u16 (n : nat) : Z := Z.min (Z.of_nat n) U16_MAX.

Definition handle_status (self : Usdt) (d : UsdtDb) : StatusResponse :=
  let counts := bootstrap_counts d in
  let t := threshold (num_peers self) in
  mkStatusResponse (bootstrap_state self d)
    (t <=? n_entry_point_ok counts)%nat (t <=? n_factory_ok counts)%nat (t <=? n_impl_ok counts)%nat
    (clamp_u16 (n_funded counts)) (clamp_u16 (n_rpc_healthy counts)) (clamp_u16 t).

Record DepositStatusResponse := mkDepositStatusResponse {
  ds_account_addr : EvmAddress;
  ds_credited : UsdtAmount;
  ds_claimed : UsdtAmount;
  ds_claimable : UsdtAmount;
}.

Record PoolStateResponse := mkPoolStateResponse {
  ps_account : EvmAddress;
  ps_balance : UsdtAmount;
  ps_accrued_fees : UsdtAmount;
}.

Inductive UserOpStatus := OpPending | OpSubmitted | OpUnknown.

Record FeeQuoteResponse := mkFeeQuoteResponse {
  quote_fee : UsdtAmount;
  valid_blocks : Z;
  available : bool;
}.

Inductive WithdrawalStatus :=
| StatusUnknown
| StatusQueued
| StatusSigning (op_hash : Hash)
| StatusSubmitted (op_hash : Hash)
| StatusConfirmed (block : Z)
| StatusFailed (reason : FailReason).

Definition handle_withdrawal_status (d : UsdtDb) (out_point : OutPoint) : WithdrawalStatus :=
  match wstates d !! out_point with
  | None => StatusUnknown
  | Some Queued => StatusQueued
  | Some (Signing op_hash) => StatusSigning op_hash
  | Some (WithdrawalSubmitted op_hash) => StatusSubmitted op_hash
  | Some (Confirmed block) => StatusConfirmed block
  | Some (WithdrawalFailed reason) => StatusFailed reason
  end.

Definition handle_refund_status (d : UsdtDb) (out_point : OutPoint) : option (UsdtAmount * FailReason) :=
  (fun r => (r_amount r, r_reason r)) <$> refunds d !! out_point.

(** The pending table is looked up first. *)
Definition user_op_status (d : UsdtDb) (op_hash : Hash) : UserOpStatus :=
  if bool_decide (is_Some (pending d !! op_hash)) then OpPending
  else if bool_decide (is_Some (submitted d !! op_hash)) then OpSubmitted
  else OpUnknown.

Definition quote_response (quote : option UsdtAmount) : FeeQuoteResponse :=
  mkFeeQuoteResponse (default 0 quote) FEE_QUOTE_VALID_BLOCKS (bool_decide (is_Some quote)).

Definition handle_withdraw_fee_quote (self : Usdt) (d : UsdtDb) : FeeQuoteResponse :=
  quote_response (fee_vote_median self d ≫= withdrawal_fee_quote).

Definition handle_deposit_fee_quote (self : Usdt) (d : UsdtDb) : FeeQuoteResponse :=
  quote_response (fee_vote_median self d ≫= deposit_fee_quote).

(** The newest anchored height and the length of the window. *)
Definition handle_latest_anchored_block (d : UsdtDb) : Z * Z :=
  (default 0 (ring_latest_height d), BLOCK_HASH_RING_LEN).

(** Records the operator's intent; [has_auth] is core's verdict on the request. *)
Inductive WithdrawFeesError := NoAuth | AmountNotPositive.
Definition withdraw_fees_endpoint (has_auth : bool) (vote : WithdrawFeesVote)
    : M Caches WithdrawFeesError unit :=
  ensure has_auth NoAuth;;
  reject_if (wfv_amount vote =? 0) AmountNotPositive;;
  modify (fun g => mkCaches (block_count g) (consensus_progress g) (fee_estimate g)
    (bootstrap_proposals g) (block_hash_proposals g) (residual_recovery_proposals g) (Some vote)
    (pending_outgoing g) (pending_signature_proposals g) (user_op_confirmed_proposals g)).

Section queries.
Context `{Evm}.

Definition handle_deposit_status (self : Usdt) (d : UsdtDb) (claim_pk : PublicKey)
    : DepositStatusResponse :=
  let account := derive_deposit_account (group_public_key (cfg self))
    (account_factory (cfg self)) (simple_account_impl (cfg self)) claim_pk in
  let '(cr, cl) := match deposits d !! account with
    | Some record => (credited record, claimed record)
    | None => (0, 0)
    end in
  mkDepositStatusResponse account cr cl (saturating_sub cr cl).

Definition pool_state_endpoint (self : Usdt) (d : UsdtDb) : PoolStateResponse :=
  let pool := pool_or_default self d in
  mkPoolStateResponse (pool_account_addr pool) (pool_balance pool) (accrued_fees pool).
End queries.

(** ** Quotes are honoured *)

Section theorems.
Context `{Evm} `{StateTrie} `{AmountsOps}.

Definition fee_refusal (e : UsdtInputError) : bool :=
  match e with
  | InputNoFeeQuoteAvailable | InputFeeQuoteOverflow | DepositFeeInsufficient _ _ => true
  | _ => false
  end.

(** What the quote endpoints answer is what settlement does in the same state: a
    withdrawal that commits at least the quoted fee is accepted and one that
    commits less is refused with that quote, a deposit offering the quoted fee is
    never refused for its fee, and when no quote is available neither is
    accepted. *)
Theorem quotes_honoured (self : Usdt) (d : UsdtDb) :
  (forall w op, let q := handle_withdraw_fee_quote self d in
    if available q then
      if out_max_fee w <? quote_fee q
      then process_output self (OutputV0 w) op d
             = (Err (FeeQuoteExceeded (quote_fee q) (out_max_fee w)), d)
      else exists am d', process_output self (OutputV0 w) op d = (Ok am, d')
    else exists e, process_output self (OutputV0 w) op d = (Err e, d) /\
           (e = OutputNoFeeQuoteAvailable \/ e = OutputFeeQuoteOverflow)) /\
  (forall pk proof fee, let q := handle_deposit_fee_quote self d in
    match process_input self (DepositProofV0 pk proof fee) d with
    | (Ok _, _) => available q = true /\ quote_fee q <= fee
    | (Err e, d') => d' = d /\ (available q = true -> quote_fee q <= fee -> fee_refusal e = false)
    end).
Proof.
  split.
  - intros w op. unfold handle_withdraw_fee_quote, process_output. simpl.
    destruct (fee_vote_median self d) as [m|]; simpl; [|eauto].
    destruct (withdrawal_fee_quote m) as [q|]; simpl; [|eauto].
    destruct (out_max_fee w <? q); simpl; eauto.
  - intros pk proof fee. unfold handle_deposit_fee_quote, quote_response.
    unfold process_input, process_deposit_proof. simpl.
    destruct (ring_hash_at d (block_number proof)) as [h|]; simpl; [|done].
    destruct (verify_deposit_proof _ _ _ _) as [proven|]; simpl; [|done].
    destruct (saturating_sub _ _ =? 0); simpl; [done|].
    destruct (fee_vote_median self d) as [m|]; simpl; [|done].
    destruct (deposit_fee_quote m) as [q|]; simpl; [|done].
    destruct (fee <? q) eqn:El; zbool; simpl; [split; [done|lia]|].
    destruct (_ <=? fee); simpl; [done|]. split; [done|lia].
Qed.

(** ** Proposals *)

(** Refusals that mean the item should not have been proposed: it repeats what is
    already recorded, or its own precondition can be read from the tables. *)
Definition wasted (e : ItemError) : bool :=
  match e with
  | RedundantBlockCount | RedundantFeeVote | RedundantBootstrap | RedundantBlockHash
  | RedundantResidualVote | RedundantConfirmation | RedundantChunk | AlreadyCompleted
  | NotInProgress | NotTimedOut | AlreadySuperseded | OverCeiling | UnknownSession
  | NotASigner | WrongRound | UnsupportedItem => true
  | _ => false
  end.

(** Each kind of proposal, processed in the tables it was computed from. *)
Definition lands (self : Usdt) (d : UsdtDb) (item : UsdtConsensusItem) : Prop :=
  forall e d', process_consensus_item self item (our_peer_id self) d = (Err e, d') -> wasted e = false.

Lemma block_count_lands self g d : Forall (lands self d) (propose_block_count self g d).
Proof.
  unfold propose_block_count. destruct (_ <? _) eqn:El; [|done]. constructor; [|done].
  intros e d' E. simpl in E. unfold process_block_count in E. simpl in E. by rewrite El in E.
Qed.

Lemma fee_vote_lands self g d : Forall (lands self d) (propose_fee_vote self g d).
Proof.
  unfold propose_fee_vote. destruct (fee_estimate g) as [v|]; [|done].
  destruct (match fee_votes d !! our_peer_id self with Some _ => _ | None => _ end) eqn:Es; [|done].
  constructor; [|done]. intros e d' E. simpl in E. unfold process_fee_vote in E. simpl in E.
  destruct (fee_vote_in_sane_range v); simpl in E; [|by simplify_eq].
  destruct (fee_votes d !! our_peer_id self) as [s|]; [|done].
  zbool. destruct (_ <? FEE_VOTE_REFRESH_BLOCKS) eqn:El; zbool;
    [|by rewrite andb_false_r in E].
  destruct Es as [Es|Es]; zbool; [|lia]. by rewrite bool_decide_eq_false_2 in E.
Qed.

Lemma observations_land self g d : Forall (lands self d) (propose_observations self g d).
Proof.
  unfold propose_observations. rewrite !Forall_app. split; [|split].
  - destruct (last _) as [obs|]; [|done]. case_bool_decide as Hn; [done|]. constructor; [|done].
    intros e d' E. simpl in E. unfold process_bootstrap_observation in E. simpl in E.
    by rewrite bool_decide_eq_false_2 in E.
  - destruct (block_hash_proposals g) as [obs|]; [|done]. case_bool_decide as Hn; [done|].
    constructor; [|done]. intros e d' E. simpl in E. unfold process_block_hash in E.
    run_inv E; try done. by zbool.
  - apply Forall_forall. intros item Hin. apply list_elem_of_omap in Hin as ([a w] & _ & E0).
    case_bool_decide as Hn; simplify_eq. intros e d' E. simpl in E.
    unfold process_recover_residual in E. run_inv E; ok_facts; simplify_eq; try done. by zbool.
Qed.

Lemma rotations_land self d l :
  l ⊆ map_to_list (sessions d) -> Forall (lands self d) (propose_timed_out_rotations self d l).
Proof.
  intros Hl. apply Forall_forall. intros item Hin.
  apply list_elem_of_omap in Hin as ([id s] & Hs & E0). apply Hl, elem_of_map_to_list in Hs.
  run_inv E0. intros e d' E. simpl in E. unfold process_rotate_signing in E. simpl in E.
  rewrite Hs in E. simpl in E.
  match goal with Ht : timed_out self s d = true |- _ =>
    unfold timed_out in Ht; apply andb_true_iff in Ht as [Hp Hq];
    unfold timed_out in E; rewrite Hp, Hq in E end.
  done.
Qed.

Lemma replacements_land self d : Forall (lands self d) (propose_replace_user_ops self d).
Proof.
  apply Forall_forall. intros item Hin.
  apply list_elem_of_omap in Hin as ([h s] & Hs & E0). apply elem_of_map_to_list in Hs.
  destruct (superseded s) eqn:Esup; [done|].
  destruct (_ <=? _) eqn:El in E0; [done|]. zbool.
  destruct (match s_purpose s with Withdraw _ => _ | _ => _ end) eqn:Ea; simpl in E0; simplify_eq.
  intros e d' E. simpl in E. unfold process_replace_user_op in E. simpl in E.
  rewrite Hs in E. simpl in E. rewrite Esup in E. simpl in E.
  unfold submitted_op_timed_out in E. rewrite (proj2 (Z.ltb_lt _ _)) in E by lia. simpl in E.
  destruct (fee_vote_median self d) as [m|]; simpl in E; [|by simplify_eq].
  unfold replaceable in E. destruct (s_purpose s) as [a|os|a|r x]; simpl in E.
  - destruct (_ <=? SWEEP_MAX_FEE_PER_GAS_WEI); simpl in E; [|by simplify_eq].
    destruct (op_known _ d); simpl in E; by simplify_eq.
  - rewrite Ea in E. simpl in E. destruct (op_known _ d); simpl in E; by simplify_eq.
  - by simplify_eq.
  - by simplify_eq.
Qed.

Lemma rounds_land self g d l :
  l ⊆ map_to_list (sessions d) -> Forall (lands self d) (propose_rounds self g d l).
Proof.
  intros Hl. apply Forall_forall. intros item Hin. unfold propose_rounds in Hin.
  apply list_elem_of_bind in Hin as ([id s] & Hin & Hs). apply Hl, elem_of_map_to_list in Hs.
  case_bool_decide as Hsig; [by apply elem_of_nil in Hin|].
  case_bool_decide; simpl in Hin; [|by apply elem_of_nil in Hin].
  destruct (pending_outgoing g !! id) as [payload|]; [|by apply elem_of_nil in Hin].
  apply list_elem_of_omap in Hin as ([i c] & _ & E0). case_bool_decide as Hn; simplify_eq.
  intros e d' E. simpl in E. unfold process_mpc_round in E. simpl in E. rewrite Hs in E. simpl in E.
  rewrite bool_decide_eq_true_2 in E by done. rewrite Z.eqb_refl in E.
  simpl in E. run_inv E; try done. by zbool.
Qed.

Lemma signatures_land self g d : Forall (lands self d) (propose_signatures g d).
Proof.
  apply Forall_forall. intros item Hin. apply list_elem_of_omap in Hin as ([id sig] & _ & E0).
  destruct (sessions d !! id) as [s|] eqn:Hs; [|done]. case_bool_decide as Hst; simplify_eq.
  intros e d' E. simpl in E. unfold process_mpc_signature in E. simpl in E. rewrite Hs in E.
  simpl in E. rewrite Hst in E. run_inv E; ok_facts; by simplify_eq.
Qed.

Lemma confirmations_land self g d : Forall (lands self d) (propose_confirmations self g d).
Proof.
  apply Forall_forall. intros item Hin. apply list_elem_of_omap in Hin as (p & _ & E0).
  cbv zeta in E0. case_bool_decide as Hn; simplify_eq. intros e d' E. simpl in E.
  unfold process_user_op_confirmed in E. run_inv E; try done. by zbool.
Qed.


(** A stalled signing session is replaced: once no round has completed for the
    timeout, every guardian, signer or not, proposes its rotation; the proposal
    is accepted from any peer, fails the session, drops its chunks and opens the
    next attempt with the signers of that attempt. *)
Theorem stalled_session_rotates (self : Usdt) (g : Caches) (d : UsdtDb) id s op_hash peer :
  sessions d !! id = Some s -> ses_purpose s = UserOp op_hash -> is_Some (pending d !! op_hash) ->
  timed_out self s d = true ->
  let next := u32_add (attempt s) 1 in
  let next_id := signing_session_id (digest s) next in
  sessions d !! next_id = None ->
  RotateSigning id ∈ (consensus_proposal self g d).1 /\
  exists d', process_consensus_item self (RotateSigning id) peer d = (Ok tt, d') /\
    sessions d' !! next_id =
      Some (mkSigningSession (UserOp op_hash) (digest s) (signer_subset (num_peers self) (digest s) next)
              0 InProgress next (consensus_block_count self d)) /\
    sessions d' !! id = Some (with_state SessionFailed s) /\
    (forall r p c, chunks d' !! (id, r, p, c) = None).
Proof.
  intros Hs Hp [o Ho] Ht next next_id Hnext.
  assert (Hne : next_id <> id) by (intros E; rewrite E in Hnext; congruence).
  pose proof Ht as Ht'. unfold timed_out in Ht'. apply andb_true_iff in Ht' as [Hst _]. split.
  - unfold consensus_proposal. simpl. rewrite !elem_of_app. do 4 right. left.
    apply list_elem_of_omap. exists (id, s). split; [by apply elem_of_map_to_list|]. simpl.
    rewrite Hp, Ho, Ht. zbool. by rewrite Hst.
  - eexists. split.
    + simpl. unfold process_rotate_signing. simpl. rewrite Hs. simpl. rewrite Hst. simpl.
      rewrite Ht. simpl. reflexivity.
    + unfold start_session. fold next next_id. simpl. rewrite lookup_insert_ne, Hnext by done.
      simpl. rewrite Hp, lookup_insert_eq, lookup_insert_ne, lookup_insert_eq by done.
      split; [done|]. split; [done|]. intros r p c. apply map_lookup_filter_None. right. tauto.
Qed.
End theorems.

Section witnesses.
#[local] Existing Instance demo_evm.
#[local] Existing Instance toy_trie.
#[local] Existing Instance map_amounts.

(** The run's sweep is never signed, and the chain moves on. *)
Definition demo_stalled : UsdtDb :=
  (process_consensus_item demo_usdt (BlockCount 200) 0 (UsdtSolvency.db demo_ledger1)).2.
Definition stalled_id : Hash := first_key (sessions demo_stalled).
Definition stalled_session : SigningSession :=
  default (mkSigningSession (UserOp []) [] [] 0 InProgress 0 0) (sessions demo_stalled !! stalled_id).
Definition demo_caches : Caches := mkCaches 0 0 None [] None [] None ∅ [] [].

Lemma stalled_session_rotates_witness :
  let next := u32_add (attempt stalled_session) 1 in
  let next_id := signing_session_id (digest stalled_session) next in
  RotateSigning stalled_id ∈ (consensus_proposal demo_usdt demo_caches demo_stalled).1 /\
  exists d', process_consensus_item demo_usdt (RotateSigning stalled_id) 0 demo_stalled = (Ok tt, d') /\
    sessions d' !! next_id =
      Some (mkSigningSession (UserOp (first_key (pending demo_stalled))) (digest stalled_session)
              (signer_subset (num_peers demo_usdt) (digest stalled_session) next)
              0 InProgress next (consensus_block_count demo_usdt demo_stalled)) /\
    sessions d' !! stalled_id = Some (with_state SessionFailed stalled_session) /\
    (forall r p c, chunks d' !! (stalled_id, r, p, c) = None).
Proof.
  refine (stalled_session_rotates demo_usdt demo_caches demo_stalled stalled_id stalled_session
    (first_key (pending demo_stalled)) 0 _ _ _ _ _).
  - vm_compute. reflexivity.
  - vm_compute. reflexivity.
  - apply (bool_decide_unpack _). vm_compute. exact I.
  - vm_compute. reflexivity.
  - vm_compute. reflexivity.
Defined.
End witnesses.
