(* ===== verification/UsdtAttacks.v ===== *)
(** * Attacks on the deposit path

    [modules/usdt/fedimint-usdt-tests/src/attacks.rs] and the tool that plays them
    against a running federation ([bin/usdt_adversary.rs]): hand-crafted deposit inputs
    that try to mint value their submitter does not hold, and the refusal each must
    meet.  The tries and the header the attacks are built of come from the alloy crates;
    [TrieBuilder] is what the code calls of them. *)

From S2P Require Import Prelude AmmPoolId FedimintCore UsdtTypes UsdtEvm UsdtUserOp UsdtSigning UsdtProof UsdtDb.
From S2P Require Import UsdtServer UsdtHandlers UsdtEndpoints UsdtSolvency UsdtDemo UsdtSessions.
From stdpp Require Import strings.
#[local] Open Scope Z_scope.

(** ** Messages *)

(** [str::contains]. *)
Fixpoint contains (s fragment : string) : bool :=
  String.prefix fragment s ||
  match s with String.EmptyString => false | String.String _ s => contains s fragment end.

Lemma prefix_app_true a b : String.prefix a (a +:+ b) = true.
Proof.
  induction a as [|c a IH]; [by destruct b|]. simpl. by destruct (Ascii.ascii_dec c c).
Qed.

Lemma contains_app a fragment b : contains (a +:+ (fragment +:+ b)) fragment = true.
Proof.
  induction a as [|c a IH].
  - change ("" +:+ (fragment +:+ b))%string with (fragment +:+ b)%string.
    pose proof (prefix_app_true fragment b) as E. by destruct (fragment +:+ b)%string; simpl in *; rewrite E.
  - simpl. rewrite IH. apply orb_true_r.
Qed.

(** [Display for UsdtInputError]; [reason] is the text of a verification error. *)
Definition show_input_error (reason : string) (e : UsdtInputError) : string :=
  match e with
  | UnsupportedInputVariant => "This module does not support this input variant"
  | DepositFeeInsufficient quote offered =>
      "This input's fee " +:+ (show_u64 offered +:+ (" is below the federation's deposit fee quote " +:+ show_u64 quote))
  | FeeExceedsAmount amount fee =>
      "This input's fee " +:+ (show_u64 fee +:+ (" would consume all or more of its " +:+ (show_u64 amount +:+ " claimed amount")))
  | InputNoFeeQuoteAvailable => "No federation fee-vote median is available yet; deposits cannot be claimed"
  | InputFeeQuoteOverflow => "Computing the deposit fee quote overflowed"
  | UnknownRefund => "No refund record exists for this out_point (never failed, or already claimed)"
  | DepositProofNotAnchored block =>
      ("deposit proof's block " +:+ show_u64 block) +:+
      (" is not anchored in the federation's block-hash ring (not yet confirmed, or aged out of the retained window)")
  | DepositProofInvalid => "deposit proof verification failed: " +:+ reason
  | DepositProofStale proven credited =>
      ("deposit proof proves " +:+ (show_u64 proven +:+ (" but " +:+ show_u64 credited))) +:+
      " is already credited for this account (nothing new to credit)"
  end%string.

Inductive ExpectedRejection := NotAnchored | Invalid | Stale.

Definition rejection_fragment (e : ExpectedRejection) : string :=
  match e with
  | NotAnchored => "is not anchored in the federation's block-hash ring"
  | Invalid => "deposit proof verification failed"
  | Stale => "is already credited for this account"
  end.

(** [ExpectedRejection::matches] and [label]. *)
Definition rejection_matches (e : ExpectedRejection) (reason : string) : bool :=
  contains reason (rejection_fragment e).
Definition rejection_label (e : ExpectedRejection) : string :=
  match e with
  | NotAnchored => "DepositProofNotAnchored"
  | Invalid => "DepositProofInvalid"
  | Stale => "DepositProofStale"
  end.

Lemma contains_within a space fragment b :
  contains (a +:+ (space +:+ (fragment +:+ b))) fragment = true.
Proof.
  induction a as [|c a IH]; [exact (contains_app space fragment b)|]. simpl. rewrite IH. apply orb_true_r.
Qed.

(** Each class of refusal is recognised by its message. *)
Lemma not_anchored_matches reason b :
  rejection_matches NotAnchored (show_input_error reason (DepositProofNotAnchored b)) = true.
Proof.
  exact (contains_within ("deposit proof's block " +:+ show_u64 b) " " (rejection_fragment NotAnchored)
    " (not yet confirmed, or aged out of the retained window)").
Qed.
Lemma invalid_matches reason :
  rejection_matches Invalid (show_input_error reason DepositProofInvalid) = true.
Proof. exact (contains_app "" (rejection_fragment Invalid) (": " +:+ reason)). Qed.
Lemma stale_matches reason p c :
  rejection_matches Stale (show_input_error reason (DepositProofStale p c)) = true.
Proof.
  exact (contains_within ("deposit proof proves " +:+ (show_u64 p +:+ (" but " +:+ show_u64 c))) " "
    (rejection_fragment Stale) " (nothing new to credit)").
Qed.

(** ** Building tries *)

Class TrieBuilder := {
  leaf_node : bytes -> bytes -> bytes;
  rlp_u256 : Z -> bytes;
  rlp_account : Hash -> bytes;
  rlp_header : Hash -> Z -> bytes;
}.

(** What the builders promise of the verifier: the encodings decode, and a trie with one
    leaf, whose root is the leaf's hash, has that leaf at its key and nothing elsewhere. *)
Class TrieBuilderOk `{Evm} `{StateTrie} `{TrieBuilder} : Prop := {
  header_root root n : header_state_root (rlp_header root n) = Some root;
  header_nonempty root n : rlp_header root n <> [];
  account_root root : account_storage_root (rlp_account root) = Some root;
  decode_u256_rlp x : is_u64 x -> decode_u256 (rlp_u256 x) = Some x;
  trie_leaf_node key v : trie_leaf (leaf_node key v) = Some v;
  leaf_present key v : verify_proof (keccak256 (leaf_node key v)) key (Some v) [leaf_node key v] = true;
  leaf_only key v key' x : key' <> key -> verify_proof (keccak256 (leaf_node key v)) key' (Some x) [leaf_node key v] = false;
  leaf_absent key v key' : key' <> key -> verify_proof (keccak256 (leaf_node key v)) key' None [leaf_node key v] = true;
}.

Section attacks.
Context `{EV : Evm} `{ST : StateTrie} `{TB : TrieBuilder}.

(** A proof that [account] holds [balance], and the hash its header has. *)
Definition synthetic_deposit_proof (usdt_contract account : EvmAddress) (balance block_number : Z)
    : DepositProof * Hash :=
  let storage_key := keccak256 (balances_storage_key account) in
  let storage_leaf_rlp := leaf_node storage_key (rlp_u256 balance) in
  let storage_root := keccak256 storage_leaf_rlp in
  let account_key := keccak256 usdt_contract in
  let account_leaf_rlp := leaf_node account_key (rlp_account storage_root) in
  let state_root := keccak256 account_leaf_rlp in
  let header_rlp := rlp_header state_root block_number in
  (mkDepositProof block_number header_rlp [account_leaf_rlp] [storage_leaf_rlp], keccak256 header_rlp).

Record Attack := mkAttack {
  at_name : string;
  at_input : UsdtInput;
  at_declared : UsdtAmount;
  hermetic_anchor : option (Z * Hash);
  at_expected : ExpectedRejection;
}.

Definition attack_forged_balance (usdt_contract : EvmAddress) (claim_pk : PublicKey) (account : EvmAddress)
    (block : Z) (forged : UsdtAmount) : Attack :=
  let '(proof, _) := synthetic_deposit_proof usdt_contract account forged block in
  mkAttack "forged-balance" (DepositProofV0 claim_pk proof 0) forged None Invalid.

Definition attack_wrong_account (usdt_contract : EvmAddress) (claim_pk : PublicKey) (other_account : EvmAddress)
    (block : Z) (balance : UsdtAmount) : Attack :=
  let '(proof, hash) := synthetic_deposit_proof usdt_contract other_account balance block in
  mkAttack "wrong-account" (DepositProofV0 claim_pk proof 0) balance (Some (block, hash)) Stale.

Definition attack_unanchored (usdt_contract : EvmAddress) (claim_pk : PublicKey) (account : EvmAddress)
    (unanchored_block : Z) (balance : UsdtAmount) : Attack :=
  let '(proof, _) := synthetic_deposit_proof usdt_contract account balance unanchored_block in
  mkAttack "unanchored-block" (DepositProofV0 claim_pk proof 0) balance None NotAnchored.

(** [header_rlp[mid] ^= 0xff]. *)
Definition flip_byte (b : bytes) (i : nat) : bytes := alter (fun x => Z.lxor x 255) i b.

Definition attack_forged_header (usdt_contract : EvmAddress) (claim_pk : PublicKey) (account : EvmAddress)
    (block : Z) (balance : UsdtAmount) : Attack :=
  let '(proof, hash) := synthetic_deposit_proof usdt_contract account balance block in
  let proof := mkDepositProof (block_number proof)
    (flip_byte (header_rlp proof) (length (header_rlp proof) / 2)) (account_proof proof) (storage_proof proof) in
  mkAttack "forged-header" (DepositProofV0 claim_pk proof 0) balance (Some (block, hash)) Invalid.

Definition attack_oversize (usdt_contract : EvmAddress) (claim_pk : PublicKey) (account : EvmAddress)
    (block : Z) (balance : UsdtAmount) : Attack :=
  let '(proof, _) := synthetic_deposit_proof usdt_contract account balance block in
  let proof := mkDepositProof (block_number proof) (header_rlp proof) (account_proof proof)
    (storage_proof proof ++ [replicate (Z.to_nat MAX_DEPOSIT_PROOF_BYTES + 1) 0]) in
  mkAttack "oversize" (DepositProofV0 claim_pk proof 0) balance None Invalid.

Definition attack_replay (claim_pk : PublicKey) (proof : DepositProof) (credited : UsdtAmount) : Attack :=
  mkAttack "replay" (DepositProofV0 claim_pk proof 0) credited None Stale.

Definition attack_stale_growth (usdt_contract : EvmAddress) (claim_pk : PublicKey) (account : EvmAddress)
    (older_block : Z) (smaller_balance : UsdtAmount) : Attack :=
  let '(proof, hash) := synthetic_deposit_proof usdt_contract account smaller_balance older_block in
  mkAttack "stale-growth" (DepositProofV0 claim_pk proof 0) smaller_balance (Some (older_block, hash)) Stale.
End attacks.

(** ** Every attack is repelled *)

Section defense.
Context `{EV : Evm} `{!HashOk} `{ST : StateTrie} `{TB : TrieBuilder} `{!TrieBuilderOk} `{AmountsOps}.
Variables (self : Usdt) (d : UsdtDb) (claim_pk : PublicKey) (reason : string).

#[local] Abbreviation usdt := (usdt_contract (cfg self)).

(** The account the server credits for the claim key, and what it has credited. *)
Definition claim_account : EvmAddress :=
  derive_deposit_account (group_public_key (cfg self)) (account_factory (cfg self))
    (simple_account_impl (cfg self)) claim_pk.
Definition credited_of (account : EvmAddress) : UsdtAmount := default 0 (credited <$> deposits d !! account).

(** The federation refuses the input with the expected class and writes nothing. *)
Definition repelled (a : Attack) : Prop :=
  exists e, process_input self (at_input a) d = (Err e, d) /\
    rejection_matches (at_expected a) (show_input_error reason e) = true.

(** The anchor the hermetic driver scripts. *)
Definition anchored (a : Attack) : Prop :=
  match hermetic_anchor a with Some (b, h) => ring_hash_at d b = Some h | None => True end.

Lemma unanchored_refused proof fee :
  ring_hash_at d (block_number proof) = None ->
  process_input self (DepositProofV0 claim_pk proof fee) d = (Err (DepositProofNotAnchored (block_number proof)), d).
Proof. intros E. simpl. unfold process_deposit_proof. simpl. by rewrite E. Qed.

Lemma unverified_refused proof fee h err :
  ring_hash_at d (block_number proof) = Some h ->
  verify_deposit_proof proof h usdt claim_account = Err err ->
  process_input self (DepositProofV0 claim_pk proof fee) d = (Err DepositProofInvalid, d).
Proof.
  intros E Hv. simpl. unfold process_deposit_proof. simpl. rewrite E. simpl. fold claim_account. by rewrite Hv.
Qed.

Lemma nothing_new_refused proof fee h proven :
  ring_hash_at d (block_number proof) = Some h ->
  verify_deposit_proof proof h usdt claim_account = Ok proven -> proven <= credited_of claim_account ->
  process_input self (DepositProofV0 claim_pk proof fee) d
  = (Err (DepositProofStale proven (credited_of claim_account)), d).
Proof.
  intros E Hv Hc. simpl. unfold process_deposit_proof. simpl. rewrite E. simpl. fold claim_account. rewrite Hv. simpl.
  unfold credited_of in *. destruct (deposits d !! claim_account) as [r|]; simpl in *;
    unfold saturating_sub; rewrite (proj2 (Z.eqb_eq _ 0)) by lia; done.
Qed.

(** A header that is not the anchored one. *)
Lemma wrong_header_invalid proof header account :
  keccak256 (header_rlp proof) <> keccak256 header ->
  exists err, verify_deposit_proof proof (keccak256 header) usdt account = Err err.
Proof.
  intros Hne. unfold verify_deposit_proof, check. destruct (encoded_len_bytes proof <=? _); [|by eexists].
  rewrite bool_decide_eq_false_2 by done. by eexists.
Qed.

(** What the synthetic proof shows of an account. *)
Lemma synthetic_verifies account balance block who :
  is_u64 balance ->
  encoded_len_bytes (synthetic_deposit_proof usdt account balance block).1 <= MAX_DEPOSIT_PROOF_BYTES ->
  verify_deposit_proof (synthetic_deposit_proof usdt account balance block).1
    (synthetic_deposit_proof usdt account balance block).2 usdt who
  = Ok (if bool_decide (balances_storage_key who = balances_storage_key account) then balance else 0).
Proof.
  intros Hb Hlen. unfold verify_deposit_proof, check. rewrite (proj2 (Z.leb_le _ _)) by done.
  unfold synthetic_deposit_proof in *. simpl. rewrite bool_decide_eq_true_2 by done. rewrite header_root. simpl.
  unfold proven_value, terminal_leaf_value. simpl. rewrite trie_leaf_node. simpl. rewrite leaf_present. simpl.
  rewrite account_root. simpl. rewrite trie_leaf_node. simpl.
  case_bool_decide as Hk.
  - rewrite Hk, leaf_present. simpl. rewrite decode_u256_rlp by done. simpl.
    unfold try_u64. unfold is_u64 in Hb. by rewrite (proj2 (Z.leb_le _ _)) by lia.
  - assert (keccak256 (balances_storage_key who) <> keccak256 (balances_storage_key account)).
    { intros E. apply Hk. by apply (inj keccak256). }
    rewrite leaf_only, leaf_absent by done. done.
Qed.

Lemma balances_key_inj a b : length a = length b -> balances_storage_key a = balances_storage_key b -> a = b.
Proof.
  unfold balances_storage_key, pad32. intros Hl E. apply (inj keccak256) in E. rewrite Hl in E.
  apply app_inv_tail in E. by apply app_inv_head in E.
Qed.

(** A flipped byte makes another header. *)
Lemma flip_byte_differs b : b <> [] -> flip_byte b (length b / 2) <> b.
Proof.
  intros Hb E. assert (Hi : (length b / 2 < length b)%nat).
  { apply Nat.div_lt; [destruct b; [done|simpl; lia]|lia]. }
  apply lookup_lt_is_Some in Hi as [x Hx]. apply (f_equal (lookup (length b / 2)%nat)) in E.
  unfold flip_byte in E. rewrite list_lookup_alter, Hx, decide_True in E by done. injection E as E.
  apply (f_equal (fun y => Z.lxor y x)) in E. rewrite Z.lxor_nilpotent, (Z.lxor_comm x 255), Z.lxor_assoc, Z.lxor_nilpotent in E.
  by rewrite Z.lxor_0_r in E.
Qed.

Lemma sweep_keeps a d0 :
  ring (maybe_trigger_sweep self a d0) = ring d0 /\ deposits (maybe_trigger_sweep self a d0) = deposits d0.
Proof.
  unfold maybe_trigger_sweep. repeat (case_match; try done).
  unfold enqueue_op, start_session. case_match; done.
Qed.

(** What an accepted claim leaves: its block still anchored, its proof verified and the
    proven balance credited. *)
Lemma accepted_claim_leaves proof fee d0 meta :
  process_input self (DepositProofV0 claim_pk proof fee) d0 = (Ok meta, d) ->
  exists h proven, ring_hash_at d (block_number proof) = Some h /\
    verify_deposit_proof proof h usdt claim_account = Ok proven /\ credited_of claim_account = proven.
Proof.
  simpl. unfold process_deposit_proof. intros E. run_inv E. ok_facts. fold claim_account in *.
  match goal with E : maybe_trigger_sweep self ?a ?d1 = d |- _ =>
    destruct (sweep_keeps a d1) as [Er Ed]; rewrite E in Er, Ed end.
  eexists _, _. unfold ring_hash_at, credited_of. rewrite Er, Ed. simpl. rewrite lookup_insert_eq. eauto.
Qed.

(** The size of a synthetic proof: a header and two leaves, a fraction of the cap. *)
Definition fits (account : EvmAddress) (balance block : Z) : Prop :=
  encoded_len_bytes (synthetic_deposit_proof usdt account balance block).1 <= MAX_DEPOSIT_PROOF_BYTES.

Lemma forged_balance_repelled account block forged header :
  ring_hash_at d block = Some (keccak256 header) ->
  header <> header_rlp (synthetic_deposit_proof usdt account forged block).1 ->
  repelled (attack_forged_balance usdt claim_pk account block forged).
Proof.
  intros Hr Hne. unfold repelled, attack_forged_balance. simpl.
  destruct (wrong_header_invalid (synthetic_deposit_proof usdt account forged block).1 header claim_account) as [err Hv].
  { intros E%(inj keccak256). by apply Hne. }
  exists DepositProofInvalid. split; [by eapply unverified_refused|apply invalid_matches].
Qed.

Lemma forged_header_repelled account block balance :
  anchored (attack_forged_header usdt claim_pk account block balance) ->
  repelled (attack_forged_header usdt claim_pk account block balance).
Proof.
  unfold anchored, repelled, attack_forged_header. simpl. intros Hr.
  destruct (wrong_header_invalid (mkDepositProof block (flip_byte (header_rlp (synthetic_deposit_proof usdt account balance block).1)
    (length (header_rlp (synthetic_deposit_proof usdt account balance block).1) / 2))
    (account_proof (synthetic_deposit_proof usdt account balance block).1)
    (storage_proof (synthetic_deposit_proof usdt account balance block).1))
    (header_rlp (synthetic_deposit_proof usdt account balance block).1) claim_account) as [err Hv].
  { intros E%(inj keccak256). apply (flip_byte_differs _ (header_nonempty _ _) E). }
  exists DepositProofInvalid. split; [by eapply unverified_refused|apply invalid_matches].
Qed.

Lemma oversize_repelled account block balance h :
  ring_hash_at d block = Some h -> repelled (attack_oversize usdt claim_pk account block balance).
Proof.
  intros Hr. exists DepositProofInvalid. split; [|apply invalid_matches].
  eapply (unverified_refused _ 0 h Oversized); [done|]. unfold verify_deposit_proof, check.
  rewrite (proj2 (Z.leb_gt _ _)); [done|]. unfold encoded_len_bytes. cbn [header_rlp account_proof storage_proof].
  pose proof (length_replicate (Z.to_nat MAX_DEPOSIT_PROOF_BYTES + 1) 0) as Hbig.
  revert Hbig. generalize (replicate (Z.to_nat MAX_DEPOSIT_PROOF_BYTES + 1) 0) as big. intros big Hbig.
  simpl. rewrite Hbig. unfold MAX_DEPOSIT_PROOF_BYTES. lia.
Qed.

Lemma synthetic_stale name account block balance declared :
  is_u64 balance -> fits account balance block ->
  ring_hash_at d block = Some (synthetic_deposit_proof usdt account balance block).2 ->
  (if bool_decide (balances_storage_key claim_account = balances_storage_key account) then balance else 0)
    <= credited_of claim_account ->
  repelled (mkAttack name (DepositProofV0 claim_pk (synthetic_deposit_proof usdt account balance block).1 0)
    declared (Some (block, (synthetic_deposit_proof usdt account balance block).2)) Stale).
Proof.
  intros Hb Hf Hr Hc. eexists. split; [|apply stale_matches].
  eapply nothing_new_refused; [exact Hr|by apply synthetic_verifies|exact Hc].
Qed.

(** C14: Every attack of the matrix is refused with the class it expects, and the
    database is left as it was: a forged balance, because the block the guardians
    anchored has another header; an unanchored block; a tampered header; an oversized
    proof of an anchored block; a genuine proof of somebody else's account, which shows
    nothing of the claimer's; a replay, in whatever state the first claim left; and an
    older, smaller balance than the one credited. *)
Theorem attacks_repelled block amount account :
  is_u64 amount -> 0 <= credited_of claim_account ->
  (forall header, ring_hash_at d block = Some (keccak256 header) ->
     header <> header_rlp (synthetic_deposit_proof usdt account amount block).1 ->
     repelled (attack_forged_balance usdt claim_pk account block amount)) /\
  (ring_hash_at d block = None -> repelled (attack_unanchored usdt claim_pk account block amount)) /\
  (anchored (attack_forged_header usdt claim_pk account block amount) ->
     repelled (attack_forged_header usdt claim_pk account block amount)) /\
  (is_Some (ring_hash_at d block) -> repelled (attack_oversize usdt claim_pk account block amount)) /\
  (anchored (attack_wrong_account usdt claim_pk account block amount) -> fits account amount block ->
     length account = length claim_account -> account <> claim_account ->
     repelled (attack_wrong_account usdt claim_pk account block amount)) /\
  (forall proof fee d0 meta, process_input self (DepositProofV0 claim_pk proof fee) d0 = (Ok meta, d) ->
     repelled (attack_replay claim_pk proof amount)) /\
  (anchored (attack_stale_growth usdt claim_pk account block amount) -> fits account amount block ->
     amount <= credited_of claim_account ->
     repelled (attack_stale_growth usdt claim_pk account block amount)).
Proof.
  intros Hb Hc. split; [intros header; apply forged_balance_repelled|]. split.
  { intros Hr. eexists. split; [by apply unanchored_refused|apply not_anchored_matches]. }
  split; [apply forged_header_repelled|]. split; [intros [h Hr]; by eapply oversize_repelled|].
  split; [|split].
  - intros Hr Hf Hl Hne. apply synthetic_stale; [done..|]. rewrite bool_decide_eq_false_2; [done|].
    intros E. apply Hne. by apply balances_key_inj in E.
  - intros proof fee d0 meta (h & proven & Hr & Hv & Hp)%accepted_claim_leaves.
    eexists. split; [eapply nothing_new_refused; [exact Hr|exact Hv|lia]|apply stale_matches].
  - intros Hr Hf Hle. apply synthetic_stale; [done..|]. by case_bool_decide.
Qed.
End defense.

(** ** The adversary tool *)

Section adversary.
Context `{EV : Evm} `{ST : StateTrie} `{TB : TrieBuilder}.

(** [submit_crafted_input_for_test]'s outcome. *)
Inductive CraftedInputOutcome := CraftedAccepted (minted : UsdtAmount) | CraftedRejected (why : string).

(** The attacks [main] plays: none needs a deposit on the chain. *)
Definition no_funds_cases (usdt_contract : EvmAddress) (claim_pk_b : PublicKey) (account_b account_a : EvmAddress)
    (block : Z) : list Attack :=
  [attack_forged_balance usdt_contract claim_pk_b account_b block 999999999999;
   attack_wrong_account usdt_contract claim_pk_b account_a block 500000000;
   attack_unanchored usdt_contract claim_pk_b account_b (block + 10000) 500000000;
   attack_forged_header usdt_contract claim_pk_b account_b block 500000000;
   attack_oversize usdt_contract claim_pk_b account_b block 500000000].

(** The loop over the cases: an infrastructure error is reported and is no breach. *)
Fixpoint count_breaches (submit : UsdtInput -> UsdtAmount -> result string CraftedInputOutcome)
    (cases : list Attack) : nat :=
  match cases with
  | [] => 0
  | a :: cases =>
      match submit (at_input a) (at_declared a) with
      | Ok (CraftedRejected _) => count_breaches submit cases
      | Ok (CraftedAccepted _) => S (count_breaches submit cases)
      | Err _ => count_breaches submit cases
      end
  end.

(** [main] once the client is ready: [Ok true] is exit code 0. *)
Definition run_adversary (submit : UsdtInput -> UsdtAmount -> result string CraftedInputOutcome)
    (latest : Z) (usdt_contract : EvmAddress) (claim_pk_b : PublicKey) (account_b account_a : EvmAddress)
    : result string bool :=
  if 0 <? latest
  then Ok (count_breaches submit (no_funds_cases usdt_contract claim_pk_b account_b account_a latest) =? 0)%nat
  else Err "federation has not anchored any confirmation-deep block yet; try again shortly"%string.
End adversary.

Lemma max_opt_ge l m x : max_opt l = Some m -> x ∈ l -> x <= m.
Proof.
  revert m. induction l as [|y l IH]; intros m E Hx; [by apply not_elem_of_nil in Hx|].
  simpl in E. fold (max_opt l) in E. injection E as <-. apply elem_of_cons in Hx as [->|Hx].
  - destruct (max_opt l); lia.
  - destruct (max_opt l) as [z|] eqn:El; [pose proof (IH z eq_refl Hx); lia|].
    destruct l; [by apply not_elem_of_nil in Hx|]. by simpl in El.
Qed.

Lemma beyond_latest_unanchored d h : (handle_latest_anchored_block d).1 < h -> ring_hash_at d h = None.
Proof.
  unfold handle_latest_anchored_block, ring_latest_height, ring_hash_at. simpl. intros Hlt.
  destruct (ring d !! h) as [x|] eqn:E; [|done]. exfalso.
  assert (Hin : h ∈ (map_to_list (ring d)).*1).
  { apply list_elem_of_fmap. exists (h, x). split; [done|by apply elem_of_map_to_list]. }
  destruct (max_opt _) as [m|] eqn:Em; simpl in Hlt.
  - pose proof (max_opt_ge _ _ _ Em Hin). lia.
  - destruct (map_to_list (ring d)).*1; [by apply not_elem_of_nil in Hin|]. by simpl in Em.
Qed.

Section live.
Context `{EV : Evm} `{!HashOk} `{ST : StateTrie} `{TB : TrieBuilder} `{AmountsOps}.
Variables (self : Usdt) (d : UsdtDb) (submit : UsdtInput -> UsdtAmount -> result string CraftedInputOutcome).
(** Core accepts a transaction only when the module accepts its inputs. *)
Hypothesis submit_settles : forall input declared minted,
  submit input declared = Ok (CraftedAccepted minted) ->
  exists meta d', process_input self input d = (Ok meta, d').

Lemma count_breaches_none cases :
  Forall (fun a => exists e, process_input self (at_input a) d = (Err e, d)) cases ->
  count_breaches submit cases = 0%nat.
Proof.
  induction 1 as [|a cases (e & E) _ IH]; [done|]. simpl.
  destruct (submit (at_input a) (at_declared a)) as [[minted|why]|err] eqn:Es; [|done..].
  apply submit_settles in Es as (meta & d' & Es). rewrite E in Es. done.
Qed.

Definition header_of (a : Attack) : bytes :=
  match at_input a with DepositProofV0 _ proof _ => header_rlp proof | _ => [] end.

(** Against a live federation, whose anchors the tool cannot script, it reports no
    breach: whatever accounts and claim key it uses, once a block is anchored and that
    block's header is none of the forged ones, every crafted input is refused. *)
Theorem live_federation_holds claim_pk account_b account_a header :
  0 < (handle_latest_anchored_block d).1 ->
  ring_hash_at d (handle_latest_anchored_block d).1 = Some (keccak256 header) ->
  Forall (fun a => header_of a <> header)
    (no_funds_cases (usdt_contract (cfg self)) claim_pk account_b account_a (handle_latest_anchored_block d).1) ->
  run_adversary submit (handle_latest_anchored_block d).1 (usdt_contract (cfg self)) claim_pk account_b account_a
  = Ok true.
Proof.
  set (block := (handle_latest_anchored_block d).1). intros Hpos Hr Hne. unfold run_adversary.
  rewrite (proj2 (Z.ltb_lt _ _)) by done. do 2 f_equal. apply Nat.eqb_eq, count_breaches_none.
  assert (Hforged : forall proof fee, block_number proof = block -> header_rlp proof <> header ->
    exists e, process_input self (DepositProofV0 claim_pk proof fee) d = (Err e, d)).
  { intros proof fee Hb Hh. destruct (wrong_header_invalid self proof header (claim_account self claim_pk)) as [err Hv].
    - by intros E%(inj keccak256).
    - exists DepositProofInvalid. eapply unverified_refused; [|exact Hv]. by rewrite Hb. }
  repeat (apply Forall_cons in Hne as [? Hne]).
  repeat (apply Forall_cons; split); [..|constructor]; try (by apply Hforged).
  eexists. apply unanchored_refused. apply beyond_latest_unanchored. change (block < block + 10000). lia.
Qed.
End live.

(** ** A concrete chain *)

Section attacks_witness.
#[local] Existing Instance whole_evm.
#[local] Existing Instance whole_hash_ok.
#[local] Existing Instance map_amounts.

(** Tries of one leaf: a leaf is its key and value, a header its number and state root. *)
Definition leaf_trie : StateTrie := {|
  header_state_root h := match h with _ :: root => Some root | [] => None end;
  account_storage_root a := Some a;
  decode_u256 v := head v;
  trie_leaf n := snd <$> unframe n;
  verify_proof root key v nodes :=
    match nodes with
    | [n] => bool_decide (root = keccak256 n) &&
        match unframe n with
        | Some (k, x) => bool_decide (v = if decide (k = key) then Some x else None)
        | None => false
        end
    | _ => false
    end;
|}.
Definition leaf_builder : TrieBuilder := {|
  leaf_node key v := framed key ++ v;
  rlp_u256 x := [x];
  rlp_account root := root;
  rlp_header root n := n :: root;
|}.
#[local] Existing Instance leaf_trie.
#[local] Existing Instance leaf_builder.

Lemma leaf_builder_ok : TrieBuilderOk.
Proof.
  split; intros; cbn [header_state_root rlp_header account_storage_root rlp_account decode_u256 rlp_u256 trie_leaf
    leaf_node verify_proof leaf_trie leaf_builder]; rewrite ?unframe_framed; try done.
  - rewrite decide_True by done. by rewrite !bool_decide_eq_true_2.
  - rewrite decide_False by done. by rewrite andb_comm.
  - rewrite decide_False by done. by rewrite !bool_decide_eq_true_2.
Qed.

Definition attack_db : UsdtDb := set_ring (fun _ => {[9 := keccak256 [9; 1; 2; 3]]}) empty_db.

Lemma attacks_repelled_witness :
  repelled demo_usdt attack_db "" (attack_forged_balance (replicate 20 1) demo_claim (replicate 20 8) 9 500) /\
  repelled demo_usdt attack_db "" (attack_unanchored (replicate 20 1) demo_claim (replicate 20 8) 10 500).
Proof.
  split.
  - apply (@attacks_repelled _ _ _ _ leaf_builder_ok _ demo_usdt attack_db demo_claim "" 9 500 (replicate 20 8)
      ltac:(split; [done|vm_compute; discriminate]) ltac:(vm_compute; discriminate)) with (header := [9; 1; 2; 3]).
    + apply lookup_singleton_eq.
    + vm_compute. discriminate.
  - apply (@attacks_repelled _ _ _ _ leaf_builder_ok _ demo_usdt attack_db demo_claim "" 10 500 (replicate 20 8)
      ltac:(split; [done|vm_compute; discriminate]) ltac:(vm_compute; discriminate)).
    by apply lookup_singleton_ne.
Defined.

Lemma live_federation_holds_witness :
  run_adversary (fun input declared =>
      match process_input demo_usdt input attack_db with
      | (Ok _, _) => Ok (CraftedAccepted declared)
      | (Err e, _) => Ok (CraftedRejected (show_input_error "" e))
      end) 9 (replicate 20 1) demo_claim (replicate 20 8) (replicate 20 7) = Ok true.
Proof.
  apply (live_federation_holds demo_usdt attack_db) with (header := [9; 1; 2; 3]).
  - intros input declared minted E. destruct (process_input demo_usdt input attack_db) as [[meta|e] d']; [eauto|done].
  - done.
  - apply lookup_singleton_eq.
  - repeat (apply Forall_cons; split); try (vm_compute; discriminate). constructor.
Defined.
End attacks_witness.
