(* ===== verification/UsdtMainnet.v ===== *)
(** * The deployment check

    [modules/usdt/fedimint-usdt-tests/bin/verify_mainnet_config.rs]: the tool that asks
    the real chain whether the addresses a federation would be configured with are what
    the module takes them for, above all whether the deposit addresses it derives offline
    are the ones the deployed factory creates accounts at.  [main] is the tool over a node
    that may answer anything; the theorems say what a passing run proves about a chain
    whose node answers truthfully, and that the central check is exact. *)

From S2P Require Import Prelude FedimintCore UsdtTypes UsdtEvm UsdtFactory UsdtAddress UsdtProof.
From stdpp Require Import strings.
#[local] Open Scope Z_scope.

(** ** The constants *)

Definition USDT_CONTRACT : string := "0xdAC17F958D2ee523a2206206994597C13D831ec7".
Definition ENTRY_POINT_V07 : string := "0x0000000071727De22E5E9d8BAf0edAc6f37da032".
Definition FACTORY_V07 : string := "0x91E60e0613810449d098b0b5Ec8b51A0FE8c8985".
Definition SIMPLE_ACCOUNT_IMPL_V07 : string := "0x68641de71cfEa5A5d0d29712449eE254bB1400C2".
Definition FACTORY_V06 : string := "0x9406Cc6185a346906296840746125a0E44976454".
Definition SIMPLE_ACCOUNT_IMPL_V06 : string := "0x8abb13360b87Be5EeB1b98647A016adD927a136c".
Definition ETH_USD_PRICE_FEED : string := "0x5f4eC3Df9cbd43714FE2740f5E3616155c5b8419".
Definition USDT_HOLDER : string := "0xF977814e90dA44bFA03b6295A0616a897441aceC".

Definition configured_contracts : list (string * string) :=
  [("usdt_contract", USDT_CONTRACT);
   ("entry_point (v0.7)", ENTRY_POINT_V07);
   ("account_factory (v0.7)", FACTORY_V07);
   ("simple_account_impl (v0.7)", SIMPLE_ACCOUNT_IMPL_V07);
   ("eth_usd_price_feed", ETH_USD_PRICE_FEED);
   ("account_factory (v0.6, control)", FACTORY_V06);
   ("simple_account_impl (v0.6, control)", SIMPLE_ACCOUNT_IMPL_V06)].

(** ** What the node is asked *)

(** A block is asked for by its number: the RLP of its header and the hash the node
    gives it.  A proof is the account's nodes and, per storage key, that key's nodes.
    The word [U256::from_be_bytes] makes of a salt is the salt. *)
Inductive Query : Type -> Type :=
| QChainId : Query Z
| QBlockNumber : Query Z
| QCode (addr : EvmAddress) : Query bytes
| QGetAddress (factory owner : EvmAddress) (salt : Hash) : Query EvmAddress
| QAccountImplementation (factory : EvmAddress) : Query EvmAddress
| QEntryPoint (account_impl : EvmAddress) : Query EvmAddress
| QBlock (number : Z) : Query (option (bytes * Hash))
| QProof (contract : EvmAddress) (keys : list Hash) (at_block : Z)
    : Query (list bytes * list (list bytes))
| QBalanceOf (token holder : EvmAddress) (at_block : Z) : Query Z.

(** The node between two requests; [None] is a request that failed. *)
Class MainnetNode (Node : Type) := ask : forall A, Query A -> Node -> option A * Node.

(** The crates the tool calls: alloy's address parser, the selector [sol!] generates for
    [getAddress], and the public key of a secret scalar. *)
Class ToolCrates := {
  parse_address : string -> option EvmAddress;
  get_address_selector : bytes;
  public_of_secret : bytes -> PublicKey;
}.

Inductive CheckError :=
| QueryFailed | BadAddress | NotMainnet (chain_id : Z) | SelectorMismatch
| NoCode (label : string) | WrongImplementation | WrongEntryPoint (found : EvmAddress)
| Mismatches (n : nat) | ControlMoved | ControlReproduced
| BlockMissing | HeaderDisagrees | ProofCount (n : nat) | ProofRejected | ZeroBalance | BalanceDisagrees.

(** ** The tool *)

Section tool.
Context {Node : Type} `{MainnetNode Node} `{Evm} `{StateTrie} `{ToolCrates}.

Definition query {A} (q : Query A) : M Node CheckError A := fun s =>
  match ask A q s with
  | (Some a, s') => (Ok a, s')
  | (None, s') => (Err QueryFailed, s')
  end.

Definition parse (s : string) : M Node CheckError EvmAddress :=
  lift (ok_or (parse_address s) BadAddress).

Definition test_public_key (seed : Z) : PublicKey :=
  public_of_secret (replicate 32 (Z.max seed 1)).

(** One compared pair: a disagreement is counted, never returned early. *)
Definition report (derived onchain : EvmAddress) (mismatches : nat) : nat :=
  if decide (derived = onchain) then mismatches else S mismatches.

Definition check_selectors : M Node CheckError unit :=
  let get_address := take 4 (keccak256 (ascii_bytes "getAddress(address,uint256)")) in
  let create_account := take 4 (keccak256 (ascii_bytes "createAccount(address,uint256)")) in
  ensure (bool_decide (get_address = get_address_selector)) SelectorMismatch;;
  ensure (bool_decide (get_address = hex_bytes "8cb84e18")) SelectorMismatch;;
  ensure (bool_decide (create_account = hex_bytes "5fbfb9cf")) SelectorMismatch.

Fixpoint check_code_present (contracts : list (string * string)) : M Node CheckError unit :=
  match contracts with
  | [] => mret tt
  | (label, addr) :: contracts =>
      addr ← parse addr;
      code ← query (QCode addr);
      ensure (negb (bool_decide (code = []))) (NoCode label);;
      check_code_present contracts
  end.

Definition check_factory_wiring : M Node CheckError EvmAddress :=
  factory_addr ← parse FACTORY_V07;
  impl_addr ← query (QAccountImplementation factory_addr);
  expected_impl ← parse SIMPLE_ACCOUNT_IMPL_V07;
  ensure (bool_decide (impl_addr = expected_impl)) WrongImplementation;;
  entry_point ← query (QEntryPoint impl_addr);
  expected_entry ← parse ENTRY_POINT_V07;
  ensure (bool_decide (entry_point = expected_entry)) (WrongEntryPoint entry_point);;
  mret factory_addr.

(** The body of the two loops of [check_derivation] over [group_pk]s: the address the
    module derives against the one the factory reports for the same owner and salt. *)
Definition compare_deposit (factory impl : EvmAddress) (i : Z) (mismatches : nat)
    : M Node CheckError nat :=
  let group_pk := test_public_key (16 + i) in
  let claim_pk := test_public_key (160 + i) in
  let owner := evm_address group_pk in
  let salt := deposit_salt claim_pk in
  let derived := derive_deposit_account group_pk factory impl claim_pk in
  onchain ← query (QGetAddress factory owner salt);
  mret (report derived onchain mismatches).

Definition compare_pool (factory impl : EvmAddress) (i : Z) (mismatches : nat)
    : M Node CheckError nat :=
  let group_pk := test_public_key (16 + i) in
  let owner := evm_address group_pk in
  let derived := derive_pool_account group_pk factory impl in
  onchain ← query (QGetAddress factory owner pool_salt);
  mret (report derived onchain mismatches).

Fixpoint compare_all (body : Z -> nat -> M Node CheckError nat) (seeds : list Z) (mismatches : nat)
    : M Node CheckError nat :=
  match seeds with
  | [] => mret mismatches
  | i :: seeds => mismatches ← body i mismatches; compare_all body seeds mismatches
  end.

Definition check_derivation (factory_addr : EvmAddress) : M Node CheckError unit :=
  simple_account_impl ← parse SIMPLE_ACCOUNT_IMPL_V07;
  mismatches ← compare_all (compare_deposit factory_addr simple_account_impl) (seqZ 0 4) 0;
  mismatches ← compare_all (compare_pool factory_addr simple_account_impl) (seqZ 0 2) mismatches;
  ensure (mismatches =? 0)%nat (Mismatches mismatches).

Definition check_v06_negative_control : M Node CheckError unit :=
  factory_addr ← parse FACTORY_V06;
  impl_addr ← query (QAccountImplementation factory_addr);
  expected_impl ← parse SIMPLE_ACCOUNT_IMPL_V06;
  ensure (bool_decide (impl_addr = expected_impl)) ControlMoved;;
  entry_point ← query (QEntryPoint impl_addr);
  entry_point_v07 ← parse ENTRY_POINT_V07;
  ensure (negb (bool_decide (entry_point = entry_point_v07))) ControlMoved;;
  let group_pk := test_public_key 16 in
  let claim_pk := test_public_key 160 in
  let derived := derive_deposit_account group_pk factory_addr impl_addr claim_pk in
  onchain ← query (QGetAddress factory_addr (evm_address group_pk) (deposit_salt claim_pk));
  reject_if (bool_decide (derived = onchain)) ControlReproduced.

Definition check_self_deployed_factory : M Node CheckError unit :=
  entry_point ← parse ENTRY_POINT_V07;
  let derived_factory := derive_account_factory entry_point in
  let derived_impl := derive_simple_account_impl derived_factory in
  code ← query (QCode derived_factory);
  if bool_decide (code = []) then mret tt
  else
    onchain_impl ← query (QAccountImplementation derived_factory);
    onchain_entry_point ← query (QEntryPoint onchain_impl);
    ensure (bool_decide (onchain_impl = derived_impl)) WrongImplementation;;
    ensure (bool_decide (onchain_entry_point = entry_point)) (WrongEntryPoint onchain_entry_point);;
    let group_pk := test_public_key 16 in
    let claim_pk := test_public_key 160 in
    let derived := derive_deposit_account group_pk derived_factory derived_impl claim_pk in
    onchain ← query (QGetAddress derived_factory (evm_address group_pk) (deposit_salt claim_pk));
    let mismatches := report derived onchain 0 in
    ensure (mismatches =? 0)%nat (Mismatches mismatches).

(** The subtraction is a [u64]'s. *)
Definition check_storage_slot : M Node CheckError unit :=
  usdt ← parse USDT_CONTRACT;
  holder ← parse USDT_HOLDER;
  head ← query QBlockNumber;
  let block_number := u64_sub head 32 in
  block ← query (QBlock block_number);
  '(header_rlp, block_hash) ← lift (ok_or block BlockMissing);
  ensure (bool_decide (keccak256 header_rlp = block_hash)) HeaderDisagrees;;
  proof ← query (QProof usdt [balances_storage_key holder] block_number);
  ensure (length proof.2 =? 1)%nat (ProofCount (length proof.2));;
  storage ← lift (ok_or (proof.2 !! 0%nat) (ProofCount 0));
  let deposit_proof := mkDepositProof block_number header_rlp proof.1 storage in
  proven ← lift (map_err (fun _ => ProofRejected)
                   (verify_deposit_proof deposit_proof block_hash usdt holder));
  via_call ← query (QBalanceOf usdt holder block_number);
  ensure (0 <? proven) ZeroBalance;;
  ensure (proven =? via_call) BalanceDisagrees.

Definition main : M Node CheckError unit :=
  chain_id ← query QChainId;
  ensure (chain_id =? 1) (NotMainnet chain_id);;
  _ ← query QBlockNumber;
  check_selectors;;
  check_code_present configured_contracts;;
  factory_v07 ← check_factory_wiring;
  check_derivation factory_v07;;
  check_v06_negative_control;;
  check_self_deployed_factory;;
  check_storage_slot.
End tool.

(** ** Passing runs, step by step *)

Lemma bind_ok {S E A B} (m : M S E A) (f : A -> M S E B) s b s' :
  (m ≫= f) s = (Ok b, s') -> exists a s1, m s = (Ok a, s1) /\ f a s1 = (Ok b, s').
Proof. simpl. destruct (m s) as [[a|e] s1]; [by exists a, s1|done]. Qed.

Lemma ensure_ok {S E} b (e : E) (s s' : S) u : ensure b e s = (Ok u, s') -> b = true /\ s' = s.
Proof. simpl. destruct b; naive_solver. Qed.

Lemma lift_ok {S E A} (r : result E A) (s s' : S) a : lift r s = (Ok a, s') -> r = Ok a /\ s' = s.
Proof. simpl. naive_solver. Qed.

(** Takes the steps of a passing run apart into what each of them established. *)
Ltac steps H :=
  repeat lazymatch type of H with
  | (_ ≫= _) _ = (Ok _, _) =>
      let R := fresh "R" in apply bind_ok in H as (? & ? & R & H)
  | (let _ := _ in _) _ = _ => cbv zeta in H
  end.

(** ** A chain, and a node that tells the truth about it *)

(** What is fixed once a contract is deployed, and the token balances by block.
    [proxy_code] is the creation code of the proxy a factory was compiled with. *)
Record Chain := mkChain {
  code_at : EvmAddress -> bytes;
  proxy_code : EvmAddress -> bytes;
  implementation_of : EvmAddress -> EvmAddress;
  entry_point_of : EvmAddress -> EvmAddress;
  token_balance : EvmAddress -> EvmAddress -> Z -> Z;
}.

Section truth.
Context {Node : Type} `{MainnetNode Node} `{Evm} `{StateTrieOk} `{ToolCrates} (chain : Chain).

(** [SimpleAccountFactory.getAddress]: where [createAccount] puts the account. *)
Definition factory_account (factory owner : EvmAddress) (salt : Hash) : EvmAddress :=
  create2_address factory salt
    (keccak256 (proxy_code chain factory
                ++ abi_ctor_args (implementation_of chain factory) (abi_initialize owner))).

Record truthful : Prop := {
  code_true a s x s' : ask _ (QCode a) s = (Some x, s') -> x = code_at chain a;
  address_true f o salt s x s' :
    ask _ (QGetAddress f o salt) s = (Some x, s') -> x = factory_account f o salt;
  implementation_true f s x s' :
    ask _ (QAccountImplementation f) s = (Some x, s') -> x = implementation_of chain f;
  entry_point_true i s x s' : ask _ (QEntryPoint i) s = (Some x, s') -> x = entry_point_of chain i;
  balance_true t h n s x s' :
    ask _ (QBalanceOf t h n) s = (Some x, s') -> x = token_balance chain t h n;
}.

(** The factory creates every account, and the pool, where the module derives it. *)
Definition derivation_agrees (factory impl : EvmAddress) : Prop := forall group claim,
  factory_account factory (evm_address group) (deposit_salt claim)
    = derive_deposit_account group factory impl claim /\
  factory_account factory (evm_address group) pool_salt = derive_pool_account group factory impl.

(** No two preimages meet in the 20 bytes of an address. *)
Hypothesis address_inj : forall a b, low20 (keccak256 a) = low20 (keccak256 b) -> a = b.

Lemma create2_code factory salt args code code' :
  create2_address factory salt (keccak256 (code ++ args))
    = create2_address factory salt (keccak256 (code' ++ args)) -> code = code'.
Proof.
  unfold create2_address. intros E. apply address_inj in E. injection E as E.
  do 2 apply app_inv_head in E. apply (f_equal low20), address_inj in E. by apply app_inv_tail in E.
Qed.

Lemma create2_exact factory owner salt :
  create2_simple_account factory (implementation_of chain factory) owner salt
    = factory_account factory owner salt <->
  proxy_code chain factory = ERC1967_PROXY_CREATION_CODE.
Proof.
  unfold create2_simple_account, factory_account, deposit_init_code_hash. split; [|by intros ->].
  intros E. symmetry. by eapply create2_code.
Qed.

Lemma same_proxy_agrees factory :
  proxy_code chain factory = ERC1967_PROXY_CREATION_CODE ->
  derivation_agrees factory (implementation_of chain factory).
Proof. intros E group claim. split; symmetry; by apply create2_exact. Qed.

Lemma report_zero derived onchain n : report derived onchain n = 0%nat <-> derived = onchain /\ n = 0%nat.
Proof. unfold report. case_decide; naive_solver. Qed.

(** ** The central check *)

Hypothesis honest : truthful.

Definition agrees (factory : EvmAddress) : bool :=
  bool_decide (proxy_code chain factory = ERC1967_PROXY_CREATION_CODE).

(** A comparison adds one exactly when the factory's proxy is another one. *)
Definition counts (factory : EvmAddress) (body : Z -> nat -> M Node CheckError nat) : Prop :=
  forall i k s, (body i k s).1 = Err QueryFailed \/
                (body i k s).1 = Ok (if agrees factory then k else S k).

Lemma report_counts factory owner salt k :
  report (create2_simple_account factory (implementation_of chain factory) owner salt)
         (factory_account factory owner salt) k
  = if agrees factory then k else S k.
Proof.
  unfold report, agrees. case_decide as D; rewrite create2_exact in D; by case_bool_decide.
Qed.

Lemma query_address factory owner salt s :
  (query (QGetAddress factory owner salt) s).1 = Err QueryFailed \/
  exists s', query (QGetAddress factory owner salt) s = (Ok (factory_account factory owner salt), s').
Proof.
  unfold query. destruct (ask _ _ s) as [[x|] s'] eqn:E; [|by left].
  right. exists s'. by rewrite (address_true honest _ _ _ _ _ _ E).
Qed.

Lemma compare_deposit_counts factory :
  counts factory (compare_deposit factory (implementation_of chain factory)).
Proof.
  intros i k s. unfold compare_deposit. simpl.
  destruct (query_address factory (evm_address (test_public_key (16 + i)))
              (deposit_salt (test_public_key (160 + i))) s) as [E|[s' E]].
  - left. destruct (query _ s) as [[]]; simpl in *; by simplify_eq.
  - right. rewrite E. simpl. f_equal. apply report_counts.
Qed.

Lemma compare_pool_counts factory :
  counts factory (compare_pool factory (implementation_of chain factory)).
Proof.
  intros i k s. unfold compare_pool. simpl.
  destruct (query_address factory (evm_address (test_public_key (16 + i))) pool_salt s) as [E|[s' E]].
  - left. destruct (query _ s) as [[]]; simpl in *; by simplify_eq.
  - right. rewrite E. simpl. f_equal. apply report_counts.
Qed.

Lemma compare_all_counts factory body seeds : counts factory body -> forall k s,
  (compare_all body seeds k s).1 = Err QueryFailed \/
  (compare_all body seeds k s).1 = Ok (if agrees factory then k else k + length seeds)%nat.
Proof.
  intros Hb. induction seeds as [|i seeds IH]; intros k s; simpl.
  { right. f_equal. case_match; lia. }
  destruct (Hb i k s) as [E|E]; destruct (body i k s) as [[k'|e] s']; simpl in *; simplify_eq; [by left|].
  destruct (IH (if agrees factory then k else S k) s') as [E'|E']; rewrite E'; [by left|right].
  f_equal. case_match; lia.
Qed.

(** On a truthful node the comparison of the offline derivation with the factory is
    exact: unless a request fails, it passes when the factory creates the proxies the
    module assumes, and otherwise reports all six pairs as wrong, never just the first. *)
Theorem derivation_check_exact factory s :
  parse_address SIMPLE_ACCOUNT_IMPL_V07 = Some (implementation_of chain factory) ->
  (check_derivation factory s).1 = Err QueryFailed \/
  (check_derivation factory s).1 = if agrees factory then Ok tt else Err (Mismatches 6).
Proof.
  intros Hi. unfold check_derivation, parse. rewrite Hi. cbn [M_bind mbind lift ok_or].
  pose proof (compare_all_counts factory _ (seqZ 0 4) (compare_deposit_counts factory) 0 s) as Hd.
  destruct (compare_all (compare_deposit _ _) _ _ _) as [[k|e] s1]; simpl in Hd; cbn [M_bind mbind];
    [|left; by destruct Hd; simplify_eq].
  destruct Hd as [|Hd]; [done|].
  pose proof (compare_all_counts factory _ (seqZ 0 2) (compare_pool_counts factory) k s1) as Hp.
  destruct (compare_all (compare_pool _ _) _ _ _) as [[k'|e] s2]; simpl in Hp; cbn [M_bind mbind];
    [|left; by destruct Hp; simplify_eq].
  right. destruct Hp as [|Hp]; [done|]. destruct (agrees factory); by simplify_eq/=.
Qed.

(** ** What a passing run establishes *)

Lemma answered {A} (q : Query A) s a s' : query q s = (Ok a, s') -> ask A q s = (Some a, s').
Proof. unfold query. intros E. by run_inv E. Qed.

Lemma parse_ok text (s s' : Node) a : parse text s = (Ok a, s') -> parse_address text = Some a /\ s' = s.
Proof. unfold parse. intros E. by apply lift_ok in E as [? ->]; ok_facts. Qed.

Ltac learn :=
  repeat match goal with
  | R : parse _ _ = (Ok _, _) |- _ => apply parse_ok in R as [R ->]
  | R : ensure _ _ _ = (Ok _, _) |- _ => apply ensure_ok in R as [R ->]
  | R : reject_if _ _ _ = (Ok _, _) |- _ => apply ensure_ok in R as [R ->]
  | R : lift _ _ = (Ok _, _) |- _ => apply lift_ok in R as [R ->]
  | R : query _ _ = (Ok _, _) |- _ => apply answered in R
  | R : ask _ (QCode _) _ = _ |- _ => apply (code_true honest) in R
  | R : ask _ (QGetAddress _ _ _) _ = _ |- _ => apply (address_true honest) in R
  | R : ask _ (QAccountImplementation _) _ = _ |- _ => apply (implementation_true honest) in R
  | R : ask _ (QEntryPoint _) _ = _ |- _ => apply (entry_point_true honest) in R
  | R : ask _ (QBalanceOf _ _ _) _ = _ |- _ => apply (balance_true honest) in R
  end; zbool; ok_facts.

Lemma code_present_ok contracts s u s' :
  check_code_present contracts s = (Ok u, s') ->
  Forall (fun c => exists a, parse_address c.2 = Some a /\ code_at chain a <> []) contracts.
Proof.
  revert s. induction contracts as [|[label addr] contracts IH]; intros s E; [constructor|].
  cbn [check_code_present] in E. steps E. learn. subst. constructor; [eauto|exact (IH _ E)].
Qed.

Lemma wiring_ok s factory s' :
  check_factory_wiring s = (Ok factory, s') -> exists entry,
  parse_address FACTORY_V07 = Some factory /\
  parse_address SIMPLE_ACCOUNT_IMPL_V07 = Some (implementation_of chain factory) /\
  parse_address ENTRY_POINT_V07 = Some entry /\
  entry_point_of chain (implementation_of chain factory) = entry.
Proof. unfold check_factory_wiring. intros E. steps E. learn. simpl in E. simplify_eq. by eexists. Qed.

Lemma control_ok s u s' :
  check_v06_negative_control s = (Ok u, s') -> exists factory,
  parse_address FACTORY_V06 = Some factory /\
  proxy_code chain factory <> ERC1967_PROXY_CREATION_CODE.
Proof.
  unfold check_v06_negative_control. intros E. steps E. learn. subst. eexists; split; [done|].
  intros Hp. apply E. symmetry. by eapply same_proxy_agrees.
Qed.

Lemma self_deployed_ok s u s' :
  check_self_deployed_factory s = (Ok u, s') -> exists entry,
  parse_address ENTRY_POINT_V07 = Some entry /\
  let factory := derive_account_factory entry in
  code_at chain factory = [] \/
  implementation_of chain factory = derive_simple_account_impl factory /\
  entry_point_of chain (implementation_of chain factory) = entry /\
  proxy_code chain factory = ERC1967_PROXY_CREATION_CODE.
Proof.
  unfold check_self_deployed_factory. intros E. steps E. learn. eexists; split; [done|].
  simpl. case_bool_decide as C; [left; congruence|right]. steps E. learn. subst.
  split_and!; [done..|]. apply Nat.eqb_eq, report_zero in E as [E _].
  eapply create2_exact. rewrite R3. exact E.
Qed.

(** The slot the module reads holds the balance the token itself reports: a funded
    holder's balance, found in the state a header commits to. *)
Definition slot_holds_balances : Prop := exists usdt holder header n balance,
  parse_address USDT_CONTRACT = Some usdt /\ parse_address USDT_HOLDER = Some holder /\
  balance_in header usdt holder = Some balance /\
  0 < balance /\ token_balance chain usdt holder n = balance.

Lemma storage_slot_ok s u s' : check_storage_slot s = (Ok u, s') -> slot_holds_balances.
Proof.
  unfold check_storage_slot. intros E. steps E.
  match type of E with context [match ?p with _ => _ end] => destruct p as [header hash] end.
  steps E. learn. subst.
  match goal with V : verify_deposit_proof _ _ _ _ = Ok _ |- _ =>
    apply verify_deposit_proof_balance in V as (_ & _ & V) end.
  do 5 eexists. split_and!; [done|done|done|done|reflexivity].
Qed.
End truth.

(** A passing run shows, of a chain whose node answers truthfully and unless two
    preimages meet in an address: every configured address is a contract; the factory
    is wired to the pinned implementation and that one to the v0.7 EntryPoint; for
    every group key and claim key, not only those it tried, the factory creates the
    deposit account and the pool exactly where the module derives them; the v0.6
    factory does not; the factory the module would deploy itself is absent or agrees
    just as well; and the balances slot holds what the token reports. *)
Theorem mainnet_check_is_sound `{MainnetNode Node} `{Evm} `{StateTrieOk} `{ToolCrates} chain s s' :
  truthful chain ->
  (forall a b, low20 (keccak256 a) = low20 (keccak256 b) -> a = b) ->
  main s = (Ok tt, s') ->
  exists factory impl entry control,
    parse_address FACTORY_V07 = Some factory /\ parse_address SIMPLE_ACCOUNT_IMPL_V07 = Some impl /\
    parse_address ENTRY_POINT_V07 = Some entry /\ parse_address FACTORY_V06 = Some control /\
    Forall (fun c => exists a, parse_address c.2 = Some a /\ code_at chain a <> []) configured_contracts /\
    implementation_of chain factory = impl /\ entry_point_of chain impl = entry /\
    derivation_agrees chain factory impl /\
    ~ derivation_agrees chain control (implementation_of chain control) /\
    (let own := derive_account_factory entry in
     code_at chain own = [] \/
     derivation_agrees chain own (derive_simple_account_impl own) /\
     entry_point_of chain (derive_simple_account_impl own) = entry) /\
    slot_holds_balances chain.
Proof.
  intros Ht Hi E. unfold main in E. steps E.
  match goal with W : check_factory_wiring _ = (Ok ?f, _) |- _ =>
    apply (wiring_ok _ Ht) in W as (entry & Hf & Himpl & He & Hentry); rename f into factory end.
  match goal with D : check_derivation _ ?s = _ |- _ =>
    pose proof (derivation_check_exact _ Hi Ht factory s Himpl) as Hd; rewrite D in Hd end.
  match goal with C : check_code_present _ _ = _ |- _ => apply (code_present_ok _ Ht) in C as Hcode end.
  match goal with C : check_v06_negative_control _ = _ |- _ =>
    apply (control_ok _ Hi Ht) in C as (control & Hc & Hnot) end.
  match goal with C : check_self_deployed_factory _ = _ |- _ =>
    apply (self_deployed_ok _ Hi Ht) in C as (entry' & He' & Hself) end.
  apply (storage_slot_ok _ Ht) in E. rewrite He in He'. simplify_eq.
  assert (proxy_code chain factory = ERC1967_PROXY_CREATION_CODE) as Hp.
  { destruct Hd as [Hd|Hd]; [done|]. unfold agrees in Hd. by case_bool_decide. }
  eexists factory, _, _, control. split_and!; try done.
  - by apply same_proxy_agrees.
  - intros Ha. apply Hnot. eapply (create2_exact chain Hi).
    symmetry. apply (Ha (mkPublicKey 0) (mkPublicKey 0)).
  - destruct Hself as [?|(Hown & Hoe & Hop)]; [by left|right]. rewrite <- Hown.
    split; [by apply same_proxy_agrees|done].
Qed.

(** ** A concrete chain *)

(** A hash that keeps its input after twelve bytes, the first four of which are the
    selector for the two signatures the tool knows. *)
Definition toy_selector (b : bytes) : bytes :=
  if decide (b = ascii_bytes "getAddress(address,uint256)") then hex_bytes "8cb84e18"
  else if decide (b = ascii_bytes "createAccount(address,uint256)") then hex_bytes "5fbfb9cf"
  else [0; 0; 0; 0].
Definition toy_keccak (b : bytes) : Hash := toy_selector b ++ replicate 8 0 ++ b.
Definition toy_chain_evm : Evm := with_hash toy_keccak.

Definition toy_crates : ToolCrates := {|
  parse_address s := match EvmAddress_from_str s with Ok a => Some a | Err _ => None end;
  get_address_selector := hex_bytes "8cb84e18";
  public_of_secret b := mkPublicKey (default 0 (head b));
|}.

Definition toy_address (s : string) : EvmAddress := default [] (@parse_address toy_crates s).

(** The chain, by the creation code of the proxies its factories make. *)
Definition toy_chain (proxy : bytes) : Chain := {|
  code_at _ := [1];
  proxy_code f := if decide (f = toy_address FACTORY_V06) then [] else proxy;
  implementation_of f :=
    if decide (f = toy_address FACTORY_V07) then toy_address SIMPLE_ACCOUNT_IMPL_V07
    else if decide (f = toy_address FACTORY_V06) then toy_address SIMPLE_ACCOUNT_IMPL_V06
    else @derive_simple_account_impl toy_chain_evm f;
  entry_point_of i :=
    if decide (i = toy_address SIMPLE_ACCOUNT_IMPL_V06) then [6] else toy_address ENTRY_POINT_V07;
  token_balance _ _ _ := 50000000;
|}.

Definition toy_mainnet (proxy : bytes) : MainnetNode unit := fun A q s =>
  (match q in Query A return option A with
   | QChainId => Some 1
   | QBlockNumber => Some 100
   | QCode a => Some (code_at (toy_chain proxy) a)
   | QGetAddress f o salt => Some (@factory_account toy_chain_evm (toy_chain proxy) f o salt)
   | QAccountImplementation f => Some (implementation_of (toy_chain proxy) f)
   | QEntryPoint i => Some (entry_point_of (toy_chain proxy) i)
   | QBlock _ => Some (Some ([1], toy_keccak [1]))
   | QProof _ _ _ => Some ([[50000000]], [[[50000000]]])
   | QBalanceOf t h n => Some (token_balance (toy_chain proxy) t h n)
   end, s).

Lemma toy_mainnet_truthful proxy :
  @truthful unit (toy_mainnet proxy) toy_chain_evm (toy_chain proxy).
Proof. split; unfold ask, toy_mainnet; intros; by simplify_eq. Qed.

Lemma toy_address_inj a b :
  low20 (@keccak256 toy_chain_evm a) = low20 (@keccak256 toy_chain_evm b) -> a = b.
Proof.
  assert (forall c, low20 (toy_keccak c) = c) as D; [|simpl; by rewrite !D].
  intros c. unfold low20, toy_keccak, toy_selector. by repeat case_decide.
Qed.

(** On a chain with the module's own proxies the whole run passes ... *)
Lemma mainnet_check_is_sound_witness :
  let _ := toy_mainnet ERC1967_PROXY_CREATION_CODE in
  let _ := toy_chain_evm in let _ := toy_trie in let _ := toy_trie_ok in let _ := toy_crates in
  let chain := toy_chain ERC1967_PROXY_CREATION_CODE in
  main tt = (Ok tt, tt) /\
  (exists impl, derivation_agrees chain (toy_address FACTORY_V07) impl) /\
  slot_holds_balances chain.
Proof.
  intros evm_node ???? chain. assert (main tt = (Ok tt, tt)) as Hm by (vm_compute; reflexivity).
  split; [exact Hm|].
  destruct (@mainnet_check_is_sound unit (toy_mainnet ERC1967_PROXY_CREATION_CODE) toy_chain_evm
    toy_trie toy_trie_ok toy_crates chain tt tt (toy_mainnet_truthful _) toy_address_inj Hm)
    as (factory & impl & entry & control & Hf & _ & _ & _ & _ & _ & _ & Ha & _ & _ & Hs).
  split; [exists impl|exact Hs].
  assert (factory = toy_address FACTORY_V07) as <-; [|exact Ha].
  apply (f_equal (default [])) in Hf. symmetry. exact Hf.
Defined.

(** ... and on one with any other it reports all six pairs. *)
Lemma derivation_check_exact_witness :
  let _ := toy_mainnet [96; 128] in let _ := toy_chain_evm in let _ := toy_crates in
  (check_derivation (toy_address FACTORY_V07) tt).1 = Err (Mismatches 6).
Proof.
  intros ???.
  destruct (@derivation_check_exact unit (toy_mainnet [96; 128]) toy_chain_evm toy_crates
    (toy_chain [96; 128]) toy_address_inj (toy_mainnet_truthful _) (toy_address FACTORY_V07) tt)
    as [E|E]; [vm_compute; reflexivity|vm_compute in E; discriminate E|exact E].
Defined.
