(* ===== verification/UsdtScan.v ===== *)
(** * Deposit discovery

    [modules/usdt/fedimint-usdt-server/src/scan.rs] and the scanner of
    [modules/usdt/fedimint-usdt-server/src/lib.rs] ([plan_scan_range],
    [scan_step]): each guardian scans the chain for transfers to discoverable
    accounts and serves them in pages; and the client's side in
    [modules/usdt/fedimint-usdt-client/src/lib.rs] ([page_peer_candidates],
    [safe_scan_cursor], [discover_deposits]), which follows the pages of every
    guardian and advances a cursor it never looks behind again. *)

From S2P Require Import Prelude OrderStats FedimintCore UsdtTypes UsdtEvm UsdtSigning.

(** ** The guardian's scan *)

Record TransferLog := mkTransferLog { tl_block : Z; tl_to : EvmAddress; tl_value : Z }.

Record TransferCandidate := mkTransferCandidate {
  tc_block : Z;
  tc_to : EvmAddress;
  tc_value : UsdtAmount;
}.
#[export] Instance TransferCandidate_eq_dec : EqDecision TransferCandidate.
Proof. solve_decision. Defined.

Definition CANDIDATE_RETENTION_BLOCKS : Z := 50400.
Definition MAX_CANDIDATE_ENTRIES : nat := 4096.
Definition MAX_TRANSFER_CANDIDATES_PER_RESPONSE : nat := 512.
Definition SCAN_GRID_BLOCKS : Z := 5.

Record CandidateLog := mkCandidateLog { entries : list TransferCandidate; scanned_to : Z }.
Definition empty_log : CandidateLog := mkCandidateLog [] 0.

(** [while front is below the floor { pop_front }]. *)
Fixpoint prune_front (floor : Z) (l : list TransferCandidate) : list TransferCandidate :=
  match l with
  | c :: l' => if tc_block c <? floor then prune_front floor l' else l
  | [] => []
  end.

Definition record_scan (log : CandidateLog) (up_to : Z) (found : list TransferCandidate)
    : CandidateLog :=
  let scanned := Z.max (scanned_to log) up_to in
  let kept := prune_front (saturating_sub scanned CANDIDATE_RETENTION_BLOCKS) (entries log ++ found) in
  mkCandidateLog (drop (length kept - MAX_CANDIDATE_ENTRIES) kept) scanned.

(** A page of candidates above [since_block], and the height it is complete to. *)
Definition since (log : CandidateLog) (since_block : Z) (limit : nat)
    : list TransferCandidate * Z :=
  let matching := filter (fun c => since_block < tc_block c) (entries log) in
  let mark := match matching !! limit with
    | Some first_omitted => Z.min (scanned_to log) (saturating_sub (tc_block first_omitted) 1)
    | None => scanned_to log
    end in
  (take limit matching, mark).

Definition align_down_to_grid (value grid : Z) : Z :=
  if grid <=? 1 then value else value - value mod grid.

(** The range to read this tick; durations in nanoseconds. *)
Definition plan_scan_range (cursor target scan_batch_blocks grid since_last_scan max_lag : Z)
    : option (Z * Z) :=
  if target =? 0 then None
  else
    let batch := Z.max scan_batch_blocks 1 in
    let grid := Z.max (Z.min grid batch) 1 in
    let floor :=
      if cursor =? 0 then
        let start := Z.max (saturating_sub target CANDIDATE_RETENTION_BLOCKS) 1 in
        align_down_to_grid (saturating_sub start 1) grid
      else cursor in
    let pending := saturating_sub target floor in
    if pending =? 0 then None
    else if (pending <? batch) && (since_last_scan <? max_lag) then None
    else
      let to := align_down_to_grid (Z.min target (saturating_add_u64 floor batch)) grid in
      if to <=? floor then None else Some (saturating_add_u64 floor 1, to).

Inductive ScanOutcome := Scanned (backlog : bool) | Idle.

Section scan.
Context `{Evm}.

Definition filter_scan_candidates (logs : list TransferLog) (group : PublicKey)
    : list TransferCandidate :=
  omap (fun l =>
    if (0 <? tl_value l) && is_potential_deposit group (tl_to l)
    then Some (mkTransferCandidate (tl_block l) (tl_to l) (default U64_MAX (try_u64 (tl_value l))))
    else None) logs.

(** [get_transfer_logs] is the node's answer: [None] for a failed request. *)
Definition scan_step (get_transfer_logs : Z -> Z -> option (list TransferLog)) (log : CandidateLog)
    (target : Z) (group : PublicKey) (scan_batch_blocks grid since_last_scan max_lag : Z)
    : ScanOutcome * CandidateLog :=
  match plan_scan_range (scanned_to log) target scan_batch_blocks grid since_last_scan max_lag with
  | None => (Idle, log)
  | Some (from, to) =>
      match get_transfer_logs from to with
      | Some logs =>
          (Scanned (Z.max scan_batch_blocks 1 <=? saturating_sub target to),
           record_scan log to (filter_scan_candidates logs group))
      | None => (Idle, log)
      end
  end.
End scan.

(** ** The client's discovery round *)

Definition MAX_CATCHUP_PAGES : nat := 32.

(** The rounds after the first; [None] from [fetch] is a failed request. *)
Fixpoint page_loop (fetch : Z -> option (list TransferCandidate * Z)) (rounds : nat)
    (peer_since : Z) (candidates : list TransferCandidate) (scanned_to : Z)
    : list TransferCandidate * Z :=
  match rounds with
  | O => (candidates, scanned_to)
  | S rounds =>
      match fetch peer_since with
      | None => (candidates, scanned_to)
      | Some (page, mark) =>
          let full_page := (length page =? MAX_TRANSFER_CANDIDATES_PER_RESPONSE)%nat in
          let made_progress := peer_since <? mark in
          let candidates := candidates ++ page in
          if negb full_page || negb made_progress then (candidates, mark)
          else page_loop fetch rounds mark candidates mark
      end
  end.

Definition page_peer_candidates (since : Z) (fetch : Z -> option (list TransferCandidate * Z))
    : option (list TransferCandidate * Z) :=
  match fetch since with
  | None => None
  | Some _ => Some (page_loop fetch MAX_CATCHUP_PAGES since [] since)
  end.

(** fedimint-core's [NumPeers::max_evil], the complement of its threshold. *)
Definition max_evil (np : NumPeers) : nat := (total np - threshold np)%nat.

(** The [max_evil + 1]-th highest mark. *)
Definition safe_scan_cursor (scanned_tos : list Z) (np : NumPeers) : option Z :=
  reverse (merge_sort Z.le scanned_tos) !! max_evil np.

(** [HashSet::insert] on every candidate: first occurrences, in order. *)
Fixpoint first_seen (seen l : list TransferCandidate) : list TransferCandidate :=
  match l with
  | [] => []
  | c :: l => if bool_decide (c ∈ seen) then first_seen seen l else c :: first_seen (c :: seen) l
  end.

(** The round's matches and the cursor to store: [claim_keys] is the client's table
    of claim keys by deposit account. *)
Definition discover_deposits (claim_keys : gmap EvmAddress PublicKey) (np : NumPeers) (since : Z)
    (responses : list (list TransferCandidate * Z)) : list (TransferCandidate * PublicKey) * Z :=
  let cursor := Z.max (default since (safe_scan_cursor responses.*2 np)) since in
  let unseen := first_seen [] (concat responses.*1) in
  (omap (fun c => (fun pk => (c, pk)) <$> claim_keys !! tc_to c) unseen, cursor).

(** ** Candidates in block order *)

Definition by_block (a b : TransferCandidate) : Prop := tc_block a <= tc_block b.

Lemma sorted_lookup (l : list TransferCandidate) i j a b :
  StronglySorted by_block l -> (i <= j)%nat -> l !! i = Some a -> l !! j = Some b ->
  tc_block a <= tc_block b.
Proof.
  intros Hs. revert i j. induction Hs as [|x l Hs IH HF]; intros i j Hij Ha Hb; [done|].
  destruct i as [|i], j as [|j]; simpl in *; simplify_eq; [lia| |lia|].
  - rewrite Forall_lookup in HF. by apply HF in Hb.
  - by apply (IH i j); [lia|..].
Qed.

Lemma sorted_filter (P : TransferCandidate -> Prop) `{!forall x, Decision (P x)} l :
  StronglySorted by_block l -> StronglySorted by_block (filter P l).
Proof.
  induction 1 as [|x l Hs IH HF]; [constructor|]. rewrite filter_cons. case_decide; [|done].
  constructor; [done|]. by apply Forall_filter_sub.
Qed.

Lemma prune_front_sorted floor l :
  StronglySorted by_block l -> prune_front floor l = filter (fun c => floor <= tc_block c) l.
Proof.
  induction 1 as [|x l Hs IH HF]; [done|]. simpl. rewrite filter_cons.
  destruct (tc_block x <? floor) eqn:El; zbool.
  - rewrite decide_False by lia. done.
  - rewrite decide_True by lia. f_equal. symmetry. apply filter_keep_all.
    eapply Forall_impl; [exact HF|]. unfold by_block. intros. lia.
Qed.

(** ** The log is complete *)

Lemma align_down_le v g : 0 <= v -> 0 <= align_down_to_grid v g <= v.
Proof.
  intros. unfold align_down_to_grid. destruct (g <=? 1) eqn:E; zbool; [lia|].
  pose proof (Z.mod_pos_bound v g). pose proof (Z.mod_le v g). lia.
Qed.

Lemma align_down_mod v g : 1 <= g -> align_down_to_grid v g mod g = 0.
Proof.
  intros. unfold align_down_to_grid. destruct (g <=? 1) eqn:E; zbool.
  - replace g with 1 by lia. apply Z.mod_1_r.
  - pose proof (Z.div_mod v g ltac:(lia)). replace (v - v mod g) with (v / g * g) by lia.
    apply Z.mod_mul. lia.
Qed.

(** The range starts right after what is covered, at most a batch long, ends at or
    below the target on the grid; a cold start begins a retention window back. *)
Lemma plan_scan_range_spec cursor target batch grid el lag from to :
  0 <= cursor -> is_u64 target ->
  plan_scan_range cursor target batch grid el lag = Some (from, to) ->
  exists floor, from = floor + 1 /\ 0 <= floor < to /\ to <= target /\
    to - floor <= Z.max batch 1 /\ to mod (Z.max (Z.min grid (Z.max batch 1)) 1) = 0 /\
    (cursor <> 0 -> floor = cursor) /\
    (cursor = 0 -> floor <= Z.max 0 (target - CANDIDATE_RETENTION_BLOCKS - 1)).
Proof.
  intros Hc Ht. unfold plan_scan_range. destruct (target =? 0) eqn:E0; [done|]. zbool.
  set (g := Z.max (Z.min grid (Z.max batch 1)) 1).
  match goal with |- context [saturating_sub target ?f] => set (floor := f) end.
  assert (Hf : 0 <= floor /\ (cursor <> 0 -> floor = cursor) /\
    (cursor = 0 -> floor <= Z.max 0 (target - CANDIDATE_RETENTION_BLOCKS - 1))).
  { unfold floor. destruct (cursor =? 0) eqn:Ec; zbool; [|by split_and!; [|lia|]].
    match goal with |- context [align_down_to_grid ?v g] =>
      pose proof (align_down_le v g ltac:(unfold saturating_sub; lia)) end.
    unfold saturating_sub, CANDIDATE_RETENTION_BLOCKS in *. lia. }
  clearbody floor. destruct Hf as (Hf0 & Hf1 & Hf2).
  destruct (saturating_sub target floor =? 0) eqn:Ep; [done|]. zbool.
  destruct (_ && _); [done|].
  pose proof (align_down_le (Z.min target (saturating_add_u64 floor (Z.max batch 1))) g
    ltac:(unfold saturating_add_u64, is_u64, U64_MAX in *; lia)) as Ha.
  pose proof (align_down_mod (Z.min target (saturating_add_u64 floor (Z.max batch 1))) g
    ltac:(unfold g; lia)) as Hm.
  set (to' := align_down_to_grid _ g) in *. destruct (to' <=? floor) eqn:El; [done|]. zbool.
  intros E. simplify_eq. exists floor. unfold saturating_add_u64, is_u64 in *.
  split_and!; try done; lia.
Qed.

Section completeness.
Context `{Evm} (group : PublicKey) (grid max_lag : Z).
(** The transfers of the token on the chain, in block order. *)
Context (chain : list TransferLog).
Context (Hchain : StronglySorted (fun a b => tl_block a <= tl_block b) chain).

(** The transfers of blocks [a + 1 ..= b] to discoverable accounts. *)
Definition blocks_between (a b : Z) : list TransferLog :=
  filter (fun l => a < tl_block l <= b) chain.
Definition truth (a b : Z) : list TransferCandidate :=
  filter_scan_candidates (blocks_between a b) group.

Lemma filter_scan_app l l' :
  filter_scan_candidates (l ++ l') group
  = filter_scan_candidates l group ++ filter_scan_candidates l' group.
Proof. apply omap_app. Qed.

Lemma truth_split a b c : a <= b <= c -> truth a c = truth a b ++ truth b c.
Proof.
  intros Hab. unfold truth. rewrite <- filter_scan_app. f_equal. unfold blocks_between.
  induction Hchain as [|x l Hs IH HF]; [done|]. rewrite !filter_cons.
  destruct (decide (a < tl_block x <= b)), (decide (a < tl_block x <= c)),
    (decide (b < tl_block x <= c)); try lia; simpl; rewrite IH by done; try done.
  rewrite (filter_drop_all (fun l => a < tl_block l <= b) l); [done|].
  eapply Forall_impl; [exact HF|]. simpl. lia.
Qed.

Lemma truth_bounds a b : Forall (fun c => a < tc_block c <= b) (truth a b).
Proof.
  apply Forall_forall. intros c Hc. apply list_elem_of_omap in Hc as (l & Hl & E).
  apply list_elem_of_filter in Hl as [? _]. by case_match; simplify_eq.
Qed.

Lemma truth_sorted a b : StronglySorted by_block (truth a b).
Proof.
  unfold truth, blocks_between.
  induction Hchain as [|x l Hs IH HF]; [constructor|]. rewrite filter_cons.
  case_decide; [|by apply IH]. unfold filter_scan_candidates. cbn [omap list_omap].
  case_match eqn:E; [|by apply IH]. constructor; [by apply IH|].
  apply Forall_forall. intros c Hc. apply list_elem_of_omap in Hc as (y & Hy & E').
  apply list_elem_of_filter in Hy as [_ Hy]. rewrite Forall_forall in HF. apply HF in Hy.
  unfold by_block. repeat case_match; by simplify_eq.
Qed.

Lemma truth_from a a' b : a <= a' -> filter (fun c => a' < tc_block c) (truth a b) = truth (Z.max a' a) b.
Proof.
  intros Ha. rewrite Z.max_l by done. destruct (decide (a' <= b)).
  - rewrite (truth_split a a' b) by lia. rewrite filter_app.
    rewrite (filter_drop_all _ (truth a a')), filter_keep_all; [done|..];
      (eapply Forall_impl; [apply truth_bounds|]; simpl; lia).
  - rewrite filter_drop_all by (eapply Forall_impl; [apply truth_bounds|]; simpl; lia).
    unfold truth, blocks_between. by rewrite filter_drop_all by (apply Forall_true; intros; lia).
Qed.

(** One tick of the scanner: what it aims at, how long it waited and whether the
    node answered. *)
Record Tick := mkTick { tk_target : Z; tk_batch : Z; tk_elapsed : Z; tk_answered : bool }.

Definition node (t : Tick) (from to : Z) : option (list TransferLog) :=
  if tk_answered t then Some (filter (fun l => from <= tl_block l <= to) chain) else None.

Definition tick (log : CandidateLog) (t : Tick) : CandidateLog :=
  (scan_step (node t) log (tk_target t) group (tk_batch t) grid (tk_elapsed t) max_lag).2.

Lemma tick_cases log t :
  0 <= scanned_to log -> is_u64 (tk_target t) ->
  tick log t = log \/
  exists floor to, 0 <= floor < to /\
    (scanned_to log <> 0 -> floor = scanned_to log) /\
    (scanned_to log = 0 -> floor <= Z.max 0 (tk_target t - CANDIDATE_RETENTION_BLOCKS - 1)) /\
    tick log t = record_scan log to (truth floor to).
Proof.
  intros Hc Ht. unfold tick, scan_step.
  destruct (plan_scan_range _ _ _ _ _ _) as [[from to]|] eqn:Ep; [|by left].
  apply plan_scan_range_spec in Ep as (floor & -> & ? & _ & _ & _ & H1 & H2); [|done..].
  unfold node. destruct (tk_answered t); [|by left]. right. exists floor, to. simpl.
  split; [done|]. split; [done|]. split; [done|]. unfold truth, blocks_between. do 2 f_equal.
  apply list_filter_iff'. intros. lia.
Qed.

(** The log as a function of what was scanned, once scanning has begun. *)
Definition log_ok (start : Z) (log : CandidateLog) : Prop :=
  0 <= start < scanned_to log /\
  entries log `suffix_of` truth start (scanned_to log) /\
  (length (entries log) <= MAX_CANDIDATE_ENTRIES)%nat /\
  ((forall b, (length (truth (b - CANDIDATE_RETENTION_BLOCKS - 1) b) <= MAX_CANDIDATE_ENTRIES)%nat) ->
   entries log =
     truth (Z.max (scanned_to log - CANDIDATE_RETENTION_BLOCKS - 1) start) (scanned_to log)).

Lemma suffix_sorted (l k : list TransferCandidate) :
  l `suffix_of` k -> StronglySorted by_block k -> StronglySorted by_block l.
Proof.
  intros [p ->]. induction p as [|x p IH]; simpl; [done|]. intros Hs. apply IH. by inversion Hs.
Qed.

Lemma prune_front_suffix floor l : prune_front floor l `suffix_of` l.
Proof.
  induction l as [|c l IH]; simpl; [done|]. case_match; [|done]. by apply suffix_cons_r.
Qed.

(** Recording a batch that starts where the log ends. *)
Lemma record_scan_ok start log cur to :
  start <= cur < to -> scanned_to log <= cur -> 0 <= start ->
  entries log `suffix_of` truth start cur ->
  ((forall b, (length (truth (b - CANDIDATE_RETENTION_BLOCKS - 1) b) <= MAX_CANDIDATE_ENTRIES)%nat) ->
   entries log = truth (Z.max (cur - CANDIDATE_RETENTION_BLOCKS - 1) start) cur) ->
  log_ok start (record_scan log to (truth cur to)).
Proof.
  intros Hlt Hsc Hst Hsuf Hex. unfold log_ok, record_scan. cbn [entries scanned_to].
  rewrite Z.max_r by lia. set (floor := saturating_sub to CANDIDATE_RETENTION_BLOCKS).
  assert (Hsuf' : entries log ++ truth cur to `suffix_of` truth start to).
  { destruct Hsuf as [p Hp]. exists p. by rewrite (truth_split start cur to), Hp, app_assoc by lia. }
  assert (Hss : StronglySorted by_block (entries log ++ truth cur to))
    by (eapply suffix_sorted; [exact Hsuf'|apply truth_sorted]).
  set (kept := prune_front floor _).
  assert (Hk : kept `suffix_of` truth start to) by (etrans; [apply prune_front_suffix|done]).
  split; [lia|]. split; [etrans; [|exact Hk]; apply suffix_drop|]. split.
  { rewrite length_drop. lia. }
  intros Hwin. specialize (Hex Hwin).
  assert (Hkept : kept = truth (Z.max (to - CANDIDATE_RETENTION_BLOCKS - 1) start) to).
  { unfold kept. rewrite prune_front_sorted by done. rewrite Hex.
    rewrite <- truth_split by (unfold CANDIDATE_RETENTION_BLOCKS; lia).
    set (lo := Z.max (cur - CANDIDATE_RETENTION_BLOCKS - 1) start).
    rewrite (list_filter_iff' _ (fun c => Z.max (to - CANDIDATE_RETENTION_BLOCKS - 1) lo < tc_block c)).
    - rewrite truth_from by lia. f_equal. unfold lo. lia.
    - intros c Hc. pose proof (truth_bounds lo to) as Hb. rewrite Forall_forall in Hb.
      apply Hb in Hc. unfold floor, saturating_sub, lo in *. lia. }
  assert (length kept <= MAX_CANDIDATE_ENTRIES)%nat as Hlen.
  { rewrite Hkept. etrans; [|apply (Hwin to)].
    set (lo := to - CANDIDATE_RETENTION_BLOCKS - 1).
    destruct (decide (Z.max lo start <= to)).
    - rewrite (truth_split lo (Z.max lo start) to), length_app by lia. lia.
    - unfold lo, CANDIDATE_RETENTION_BLOCKS in *. lia. }
  replace (length kept - MAX_CANDIDATE_ENTRIES)%nat with 0%nat by lia. done.
Qed.

Lemma ticks_ok ts log :
  Forall (fun t => is_u64 (tk_target t)) ts ->
  foldl tick empty_log ts = log ->
  log = empty_log \/
  exists start t0, t0 ∈ ts /\ start <= Z.max 0 (tk_target t0 - CANDIDATE_RETENTION_BLOCKS - 1) /\
    log_ok start log.
Proof.
  revert log. induction ts as [|t ts IH] using rev_ind; intros log Hts E; [by left|].
  rewrite foldl_app in E. simpl in E. apply Forall_app in Hts as [Hts Ht].
  rewrite Forall_singleton in Ht. destruct (IH _ Hts eq_refl) as [E0|(start & t0 & Hin & Hb & Hok)].
  - rewrite E0 in E. destruct (tick_cases empty_log t) as [Et|(floor & to & Hf & _ & H2 & Et)];
      [simpl; lia|exact Ht|left; congruence|right].
    exists floor, t. split; [set_solver|]. split; [by apply H2|]. rewrite <- E, Et.
    assert (Hnil : truth floor floor = [])
      by (unfold truth, blocks_between; rewrite filter_drop_all; [done|apply Forall_true; intros; lia]).
    apply record_scan_ok; simpl; try lia; [by rewrite Hnil|].
    intros _. by rewrite Z.max_r by (unfold CANDIDATE_RETENTION_BLOCKS; lia).
  - right. exists start, t0. split; [set_solver|]. split; [done|].
    set (l0 := foldl tick empty_log ts) in *. pose proof Hok as (Hs & Hsuf & Hlen & Hex).
    destruct (tick_cases l0 t) as [Et|(floor & to & Hf & H1 & _ & Et)]; [lia|done|..].
    + rewrite Et in E. by subst log.
    + specialize (H1 ltac:(lia)). subst floor. rewrite <- E, Et. apply record_scan_ok; try done; lia.
Qed.

(** C30: The scan misses nothing: whatever batches, delays and failed requests, once a
    guardian has begun scanning its log is a suffix of the discoverable transfers
    between where it began (a retention window back, or the first block) and its
    high-water mark; and as long as no retention window holds more of them than
    the log's capacity, the log is exactly those of the last window: nothing
    dropped early, skipped or listed twice. *)
Theorem scan_log_complete ts log :
  Forall (fun t => is_u64 (tk_target t)) ts ->
  foldl tick empty_log ts = log -> log <> empty_log ->
  exists start t0, t0 ∈ ts /\
    0 <= start <= Z.max 0 (tk_target t0 - CANDIDATE_RETENTION_BLOCKS - 1) /\
    entries log `suffix_of` truth start (scanned_to log) /\
    (length (entries log) <= MAX_CANDIDATE_ENTRIES)%nat /\
    ((forall b, (length (truth (b - CANDIDATE_RETENTION_BLOCKS - 1) b) <= MAX_CANDIDATE_ENTRIES)%nat) ->
     entries log =
       truth (Z.max (scanned_to log - CANDIDATE_RETENTION_BLOCKS - 1) start) (scanned_to log)).
Proof.
  intros Hts E Hne. destruct (ticks_ok ts log Hts E) as [|(start & t0 & ? & ? & Hs & ? & ? & ?)]; [done|].
  exists start, t0. split_and!; try done; lia.
Qed.
End completeness.

(** ** Paging *)

Section paging.
Context (log : CandidateLog).
Context (Hsorted : StronglySorted by_block (entries log)).
Context (Hscanned : Forall (fun c => 0 < tc_block c <= scanned_to log) (entries log)).
#[local] Abbreviation limit := MAX_TRANSFER_CANDIDATES_PER_RESPONSE.

Definition above (s : Z) : list TransferCandidate :=
  filter (fun c => s < tc_block c) (entries log).
Definition in_block (b : Z) : list TransferCandidate :=
  filter (fun c => tc_block c = b) (entries log).

(** A guardian that answers every request from this log. *)
Definition serve (s : Z) : option (list TransferCandidate * Z) := Some (since log s limit).

Lemma above_sorted s : StronglySorted by_block (above s).
Proof. by apply sorted_filter. Qed.

Lemma above_elem s c : c ∈ above s -> s < tc_block c /\ 0 < tc_block c <= scanned_to log.
Proof.
  intros Hc. apply list_elem_of_filter in Hc as [? Hc]. rewrite Forall_forall in Hscanned.
  apply Hscanned in Hc. lia.
Qed.

Lemma above_above s s' : s <= s' -> above s' = filter (fun c => s' < tc_block c) (above s).
Proof.
  intros. unfold above. rewrite list_filter_filter. apply list_filter_iff'. intros. lia.
Qed.

(** One page: what it holds, and what its mark means. *)
Lemma since_spec s :
  let '(page, mark) := since log s limit in
  page = take limit (above s) /\
  (forall c, c ∈ entries log -> s < tc_block c <= mark -> c ∈ page) /\
  match above s !! limit with
  | Some c => mark = tc_block c - 1 /\ length page = limit
  | None => mark = scanned_to log /\ page = above s
  end.
Proof.
  unfold since. fold (above s). destruct (above s !! limit) as [c|] eqn:Ec.
  - pose proof (above_elem s c ltac:(by apply list_elem_of_lookup_2 in Ec)) as Hc.
    split; [done|]. split.
    + intros e He Hb. assert (e ∈ above s) as Hin by (apply list_elem_of_filter; split; [lia|done]).
      apply list_elem_of_lookup in Hin as [i Hi].
      destruct (decide (i < limit)%nat) as [Hl|Hl].
      * apply list_elem_of_lookup. exists i. by rewrite lookup_take_lt.
      * pose proof (sorted_lookup _ limit i c e (above_sorted s) ltac:(lia) Ec Hi).
        unfold saturating_sub in Hb. lia.
    + split; [unfold saturating_sub; lia|]. rewrite length_take.
      apply lookup_lt_Some in Ec. lia.
  - apply lookup_ge_None in Ec. rewrite take_ge by done. split; [done|]. split; [|done].
    intros e He Hb. apply list_elem_of_filter. split; [lia|done].
Qed.

(** The first omitted entry, with its whole block unless the block is crowded. *)
Lemma omitted_progress s c :
  above s !! limit = Some c ->
  (length (above (tc_block c)) + limit < length (above s))%nat /\
  ((length (in_block (tc_block c)) <= limit)%nat -> s < tc_block c - 1).
Proof.
  intros Hc. pose proof (above_elem s c ltac:(by apply list_elem_of_lookup_2 in Hc)) as Hcb.
  assert (Hfirst : forall i e, (i <= limit)%nat -> above s !! i = Some e -> tc_block e <= tc_block c)
    by (intros i e Hi He; by apply (sorted_lookup _ i limit _ _ (above_sorted s) Hi He Hc)).
  assert (Hlen : (S limit <= length (above s))%nat) by (apply lookup_lt_Some in Hc; lia).
  assert (Htake : length (take (S limit) (above s)) = S limit) by (rewrite length_take; lia). split.
  - rewrite (above_above s (tc_block c)) by lia.
    rewrite <- (take_drop (S limit) (above s)) at 1. rewrite filter_app, length_app.
    rewrite (filter_drop_all _ (take (S limit) (above s))).
    + pose proof (length_filter (fun e => tc_block c < tc_block e) (drop (S limit) (above s))).
      rewrite length_drop in *. simpl. lia.
    + apply Forall_lookup. intros i e He. apply lookup_take_Some in He as [He Hi].
      apply Hfirst in He; lia.
  - intros Hcrowd. destruct (decide (s < tc_block c - 1)) as [|Hn]; [done|exfalso].
    assert (S limit <= length (in_block (tc_block c)))%nat; [|lia].
    rewrite <- Htake. assert (in_block (tc_block c) = filter (fun e => tc_block e = tc_block c) (above s)) as ->.
    { unfold in_block, above. rewrite list_filter_filter. apply list_filter_iff'. intros. lia. }
    rewrite <- (take_drop (S limit) (above s)) at 2. rewrite filter_app, length_app.
    rewrite (filter_keep_all _ (take (S limit) (above s))); [lia|].
    apply Forall_lookup. intros i e He. apply lookup_take_Some in He as [He Hi].
    pose proof (Hfirst i e ltac:(lia) He).
    pose proof (above_elem s e ltac:(by apply list_elem_of_lookup_2 in He)). lia.
Qed.

(** The loop covers everything up to the mark it returns. *)
Lemma page_loop_covers rounds s0 s acc mark acc' mark' :
  (forall c, c ∈ entries log -> s0 < tc_block c <= s -> c ∈ acc) ->
  (forall c, c ∈ acc -> c ∈ entries log /\ s0 < tc_block c) -> s0 <= s -> mark = s ->
  page_loop serve rounds s acc mark = (acc', mark') ->
  (forall c, c ∈ entries log -> s0 < tc_block c <= mark' -> c ∈ acc') /\
  (forall c, c ∈ acc' -> c ∈ entries log /\ s0 < tc_block c).
Proof.
  revert s acc mark. induction rounds as [|rounds IH]; intros s acc mark Hcov Hin Hs -> E;
    cbn [page_loop serve] in E; [by simplify_eq|].
  pose proof (since_spec s) as Hsp. destruct (since log s limit) as [page m].
  destruct Hsp as (Hpage & Hc & _).
  assert (Hcov' : forall c, c ∈ entries log -> s0 < tc_block c <= m -> c ∈ acc ++ page).
  { intros c He Hb. apply elem_of_app. destruct (decide (tc_block c <= s)); [left|right];
      [apply Hcov|apply Hc]; (done || lia). }
  assert (Hin' : forall c, c ∈ acc ++ page -> c ∈ entries log /\ s0 < tc_block c).
  { intros c [?|Hp]%elem_of_app; [by apply Hin|]. rewrite Hpage in Hp.
    apply list_elem_of_lookup in Hp as [i Hp]. apply lookup_take_Some in Hp as [Hp _].
    apply list_elem_of_lookup_2, list_elem_of_filter in Hp as [? ?]. split; [done|lia]. }
  destruct (negb _ || negb _) eqn:Eb; [simplify_eq; by split|].
  apply orb_false_iff in Eb as [_ Eb]. zbool. eapply IH; [..|exact E]; try done. lia.
Qed.

Lemma crowd_step (s : Z) (n : nat) :
  (forall b, (length (in_block b) <= limit)%nat) ->
  forall c, above s !! limit = Some c -> (length (above s) <= limit * S n)%nat ->
  s < tc_block c - 1 /\ (length (above (tc_block c)) <= limit * n)%nat.
Proof.
  intros Hcrowd c Hc Hl. destruct (omitted_progress s c Hc) as [Hp Hb].
  split; [by apply Hb|]. lia.
Qed.

(** Two rounds get past every [limit] entries. *)
Lemma page_loop_complete n : forall rounds s acc mark,
  (forall b, (length (in_block b) <= limit)%nat) ->
  (length (above s) <= limit * n)%nat -> (2 * n + 2 <= rounds)%nat -> s <= scanned_to log ->
  (page_loop serve rounds s acc mark).2 = scanned_to log.
Proof.
  assert (Hlim : (1 <= limit)%nat) by (unfold limit; lia).
  induction n as [|n IH]; intros rounds s acc mark Hcrowd Hl Hr Hs;
    (destruct rounds as [|[|rounds]]; [lia|lia|]).
  - assert (above s = []) as Hnil by (apply nil_length_inv; lia).
    cbn [page_loop serve]. pose proof (since_spec s) as Hsp. destruct (since log s limit) as [page m].
    destruct Hsp as (Hpage & _ & Hm). rewrite Hnil in Hpage, Hm. simpl in Hm.
    destruct Hm as [-> _]. rewrite take_nil in Hpage. subst page. done.
  - assert (Hlast : forall rounds s acc mark, (length (above s) <= limit)%nat -> s <= scanned_to log ->
      (page_loop serve (S (S rounds)) s acc mark).2 = scanned_to log).
    { clear -Hlim Hscanned Hsorted. intros rounds s acc mark Hl Hs. cbn [page_loop serve].
      pose proof (since_spec s) as Hsp. destruct (since log s limit) as [page m].
      destruct Hsp as (_ & _ & Hm). rewrite lookup_ge_None_2 in Hm by done. destruct Hm as [-> ->].
      destruct (negb _ || negb _); [done|].
      pose proof (since_spec (scanned_to log)) as Hsp. destruct (since log _ limit) as [page m].
      assert (above (scanned_to log) = []) as Hnil.
      { unfold above. apply filter_drop_all. eapply Forall_impl; [exact Hscanned|]. simpl. lia. }
      destruct Hsp as (Hpage & _ & Hm). rewrite Hnil in Hpage, Hm. destruct Hm as [-> _].
      rewrite take_nil in Hpage. subst page. done. }
    destruct (above s !! limit) as [c|] eqn:Ec; [|apply lookup_ge_None in Ec; by apply Hlast].
    destruct (crowd_step s n Hcrowd c Ec Hl) as [Hp Hn].
    pose proof (above_elem s c ltac:(by apply list_elem_of_lookup_2 in Ec)) as Hcb.
    cbn [page_loop serve]. pose proof (since_spec s) as Hsp. destruct (since log s limit) as [page m].
    destruct Hsp as (_ & _ & Hm). rewrite Ec in Hm. destruct Hm as [-> Hlp].
    rewrite Hlp, Nat.eqb_refl, (proj2 (Z.ltb_lt s (tc_block c - 1))) by lia. cbn [negb orb].
    destruct (above (tc_block c - 1) !! limit) as [c2|] eqn:Ec2.
    + destruct (omitted_progress _ c2 Ec2) as [_ Hb2]. specialize (Hb2 (Hcrowd _)).
      pose proof (above_elem _ c2 ltac:(by apply list_elem_of_lookup_2 in Ec2)) as Hcb2.
      pose proof (since_spec (tc_block c - 1)) as Hsp. destruct (since log (tc_block c - 1) limit) as [page2 m2].
      destruct Hsp as (_ & _ & Hm). rewrite Ec2 in Hm. destruct Hm as [-> Hlp2].
      rewrite Hlp2, Nat.eqb_refl, (proj2 (Z.ltb_lt _ (tc_block c2 - 1))) by lia. cbn [negb orb].
      apply IH; [done| |lia|lia]. etrans; [|exact Hn].
      rewrite (above_above (tc_block c) (tc_block c2 - 1)) by lia. apply length_filter.
    + apply lookup_ge_None in Ec2.
      destruct rounds as [|rounds]; [lia|].
      apply (Hlast rounds (tc_block c - 1) _ (tc_block c - 1)); [done|lia].
Qed.

Lemma page_peer_candidates_serve s :
  page_peer_candidates s serve = Some (page_loop serve MAX_CATCHUP_PAGES s [] s).
Proof. done. Qed.

(** Paging through a guardian's log loses nothing and invents nothing: the
    candidates gathered are entries above the cursor and include every one up to
    the mark returned; and as long as no block holds more than a page of them, the
    bound on round trips is enough to reach the guardian's high-water mark, so
    that the result is exactly the log above the cursor. *)
Theorem paging_complete s cands mark :
  page_peer_candidates s serve = Some (cands, mark) ->
  (forall c, c ∈ entries log -> s < tc_block c <= mark -> c ∈ cands) /\
  (forall c, c ∈ cands -> c ∈ entries log /\ s < tc_block c) /\
  ((forall b, (length (in_block b) <= limit)%nat) ->
   (length (entries log) <= MAX_CANDIDATE_ENTRIES)%nat -> s <= scanned_to log ->
   mark = scanned_to log /\ forall c, c ∈ cands <-> c ∈ entries log /\ s < tc_block c).
Proof.
  rewrite page_peer_candidates_serve. intros E. simplify_eq.
  destruct (page_loop_covers MAX_CATCHUP_PAGES s s [] s cands mark) as [Hc Hi]; try done.
  { intros. lia. }
  { intros c Hc. by apply elem_of_nil in Hc. }
  split; [done|]. split; [done|]. intros Hcrowd Hlen Hs.
  assert (mark = scanned_to log) as Hm.
  { pose proof (page_loop_complete 8 MAX_CATCHUP_PAGES s [] s Hcrowd) as Hp. rewrite E in Hp.
    apply Hp; [|unfold MAX_CATCHUP_PAGES; lia|done].
    etrans; [apply length_filter|]. exact Hlen. }
  split; [done|]. intros c. split; [apply Hi|]. intros [He Hb]. apply Hc; [done|].
  rewrite Forall_forall in Hscanned. apply Hscanned in He. lia.
Qed.

(** A block with more than a page of candidates pins discovery below it: whatever
    cursor under that block a client starts from, the mark this guardian's pages
    lead it to stays below the block, so nothing from there on is ever reached. *)
Theorem crowded_block_pins b s cands mark :
  (limit < length (in_block b))%nat -> s < b ->
  page_peer_candidates s serve = Some (cands, mark) -> mark < b.
Proof.
  intros Hcrowd Hs. rewrite page_peer_candidates_serve. intros E. simplify_eq.
  assert (Hgen : forall rounds s acc m, s < b -> m < b ->
    page_loop serve rounds s acc m = (cands, mark) -> mark < b).
  { clear E Hs s. induction rounds as [|rounds IH]; intros s acc m Hs Hm E;
      cbn [page_loop serve] in E; [by simplify_eq|].
    pose proof (since_spec s) as Hsp. destruct (since log s limit) as [page m'].
    destruct Hsp as (_ & _ & Hmark).
    assert (Hblock : in_block b = filter (fun e => tc_block e = b) (above s)).
    { unfold in_block, above. rewrite list_filter_filter. apply list_filter_iff'. intros. lia. }
    rewrite Hblock in Hcrowd.
    destruct (above s !! limit) as [c|] eqn:Ec.
    - destruct Hmark as [-> _].
      assert (tc_block c <= b) as Hcb.
      { apply Z.nlt_ge. intros Hlt. apply Nat.lt_nge in Hcrowd. apply Hcrowd.
        rewrite <- (take_drop limit (above s)), filter_app, length_app.
        rewrite (filter_drop_all _ (drop limit (above s))).
        - pose proof (length_filter (fun e => tc_block e = b) (take limit (above s))).
          rewrite length_take in *. simpl. lia.
        - apply Forall_lookup. intros i e He. rewrite lookup_drop in He.
          pose proof (sorted_lookup _ limit (limit + i) c e (above_sorted s) ltac:(lia) Ec He). lia. }
      destruct (negb _ || negb _); [simplify_eq; lia|]. by eapply IH; [..|exact E]; lia.
    - apply lookup_ge_None in Ec.
      pose proof (length_filter (fun e => tc_block e = b) (above s)). lia. }
  by eapply Hgen; [exact Hs|exact Hs|exact E].
Qed.
End paging.

(** ** The discovery round *)

Lemma first_seen_elem seen l c : c ∈ first_seen seen l <-> c ∈ l /\ c ∉ seen.
Proof.
  revert seen. induction l as [|x l IH]; intros seen; simpl; [set_solver|].
  case_bool_decide; [rewrite IH; set_solver|].
  rewrite elem_of_cons, IH. destruct (decide (c = x)); set_solver.
Qed.

Lemma first_seen_NoDup seen l : NoDup (first_seen seen l).
Proof.
  revert seen. induction l as [|x l IH]; intros seen; simpl; [constructor|].
  case_bool_decide; [done|]. constructor; [|done]. rewrite first_seen_elem. set_solver.
Qed.

(** The cursor is at most the mark of some responder outside a small faulty set. *)
Lemma safe_cursor_vouched {A} (mark : A -> Z) (honest : A -> Prop) `{!forall a, Decision (honest a)}
    (l : list A) (np : NumPeers) x :
  (length (filter (fun a => ~ honest a) l) <= max_evil np)%nat ->
  safe_scan_cursor (mark <$> l) np = Some x -> exists a, a ∈ l /\ honest a /\ x <= mark a.
Proof.
  intros Hf Hx. unfold safe_scan_cursor in Hx.
  assert (length (merge_sort Z.le (mark <$> l)) = length l) as El
    by (by rewrite merge_sort_Permutation, length_fmap).
  assert (max_evil np < length l)%nat as Hlt.
  { apply lookup_lt_Some in Hx. by rewrite length_reverse, El in Hx. }
  rewrite reverse_lookup, El in Hx by (by rewrite El).
  pose proof (kth_above (mark <$> l) _ _ Hx) as Ha. rewrite length_filter_fmap, length_fmap in Ha.
  destruct (pigeonhole (fun a => x <= mark a) honest l) as (a & ? & ? & ?); [lia|]. eauto.
Qed.

(** C31: A discovery round misses nothing it moves past: when at most [max_evil] of the
    answering guardians are faulty and the others report every transfer up to
    their marks, the cursor never goes back, every transfer to one of the
    client's accounts between the old and the new cursor is matched with its
    claim key, and nothing is matched twice or without a key. *)
Theorem discovery_misses_nothing (transfers : list TransferCandidate)
    (claim_keys : gmap EvmAddress PublicKey) (np : NumPeers) (cursor : Z)
    (responses : list (PeerId * (list TransferCandidate * Z)))
    (honest : PeerId -> Prop) `{!forall p, Decision (honest p)} :
  (length (filter (fun r : PeerId * (list TransferCandidate * Z) => ~ honest r.1) responses)
     <= max_evil np)%nat ->
  (forall p cands mark, (p, (cands, mark)) ∈ responses -> honest p ->
     forall c, c ∈ transfers -> cursor < tc_block c <= mark -> c ∈ cands) ->
  let '(matches, cursor') := discover_deposits claim_keys np cursor responses.*2 in
  cursor <= cursor' /\
  (forall c pk, c ∈ transfers -> cursor < tc_block c <= cursor' ->
     claim_keys !! tc_to c = Some pk -> (c, pk) ∈ matches) /\
  (forall c pk, (c, pk) ∈ matches -> claim_keys !! tc_to c = Some pk) /\ NoDup matches.*1.
Proof.
  intros Hf Hhonest. unfold discover_deposits.
  set (cursor' := Z.max _ cursor). set (unseen := first_seen [] _).
  split; [lia|]. split.
  - intros c pk Hc Hb Hk. apply list_elem_of_omap. exists c. split; [|by rewrite Hk].
    apply first_seen_elem. split; [|set_solver].
    destruct (safe_scan_cursor responses.*2.*2 np) as [x|] eqn:Ex;
      unfold cursor' in Hb; rewrite ?Ex in Hb; simpl in Hb; [|lia].
    rewrite <- list_fmap_compose in Ex.
    destruct (safe_cursor_vouched _ (fun r : PeerId * (list TransferCandidate * Z) => honest r.1)
      responses np x Hf Ex) as ([p [cands mark]] & Hin & Hh & Hm). simpl in *.
    apply list_elem_of_In, in_concat. exists cands. rewrite <- !list_elem_of_In. split.
    + apply list_elem_of_fmap. exists (cands, mark). split; [done|].
      apply list_elem_of_fmap. by exists (p, (cands, mark)).
    + apply (Hhonest p cands mark Hin Hh c Hc). lia.
  - split.
    + intros c pk Hin. apply list_elem_of_omap in Hin as (c' & _ & E).
      destruct (claim_keys !! tc_to c') eqn:Ek; by simplify_eq/=.
    + assert (Hsub : forall l, (omap (fun c => (fun pk => (c, pk)) <$> claim_keys !! tc_to c) l).*1
        `sublist_of` l).
      { induction l as [|c l IH]; [constructor|]. cbn [omap list_omap].
        destruct (claim_keys !! tc_to c); simpl; by constructor. }
      eapply sublist_NoDup; [|apply Hsub]. apply first_seen_NoDup.
Qed.

(** ** Witnesses *)

Section witnesses.
#[local] Existing Instance toy_evm.

Definition demo_chain : list TransferLog :=
  [mkTransferLog 3 [1] 50; mkTransferLog 4 [2] 0; mkTransferLog 9 [3] 70].
(** The first request fails; the second covers blocks 1 to 5, the third the rest. *)
Definition demo_ticks : list Tick :=
  [mkTick 5 5 0 false; mkTick 5 5 0 true; mkTick 12 5 7 true].
Definition demo_group_key : PublicKey := mkPublicKey 1.
Definition demo_log : CandidateLog := foldl (tick demo_group_key 5 100 demo_chain) empty_log demo_ticks.

Example demo_log_is : demo_log = mkCandidateLog [mkTransferCandidate 3 [1] 50; mkTransferCandidate 9 [3] 70] 10.
Proof. vm_compute. reflexivity. Qed.

Lemma demo_chain_sorted : StronglySorted (fun a b => tl_block a <= tl_block b) demo_chain.
Proof. repeat constructor; simpl; lia. Qed.

Lemma scan_log_complete_witness :
  exists start t0, t0 ∈ demo_ticks /\
    0 <= start <= Z.max 0 (tk_target t0 - CANDIDATE_RETENTION_BLOCKS - 1) /\
    entries demo_log `suffix_of` truth demo_group_key demo_chain start (scanned_to demo_log) /\
    (length (entries demo_log) <= MAX_CANDIDATE_ENTRIES)%nat /\
    ((forall b, (length (truth demo_group_key demo_chain (b - CANDIDATE_RETENTION_BLOCKS - 1) b)
                   <= MAX_CANDIDATE_ENTRIES)%nat) ->
     entries demo_log = truth demo_group_key demo_chain
       (Z.max (scanned_to demo_log - CANDIDATE_RETENTION_BLOCKS - 1) start) (scanned_to demo_log)).
Proof.
  apply (scan_log_complete demo_group_key 5 100 demo_chain demo_chain_sorted demo_ticks demo_log).
  - repeat constructor; simpl; unfold_widths; lia.
  - reflexivity.
  - intros E. apply (f_equal scanned_to) in E. vm_compute in E. discriminate.
Defined.

Lemma paging_complete_witness :
  let log := mkCandidateLog [mkTransferCandidate 3 [1] 50; mkTransferCandidate 9 [3] 70] 10 in
  (forall c, c ∈ entries log -> 3 < tc_block c <= 10 -> c ∈ [mkTransferCandidate 9 [3] 70]) /\
  (forall c, c ∈ [mkTransferCandidate 9 [3] 70] -> c ∈ entries log /\ 3 < tc_block c) /\
  ((forall b, (length (in_block log b) <= MAX_TRANSFER_CANDIDATES_PER_RESPONSE)%nat) ->
   (length (entries log) <= MAX_CANDIDATE_ENTRIES)%nat -> 3 <= scanned_to log ->
   10 = scanned_to log /\
   forall c, c ∈ [mkTransferCandidate 9 [3] 70] <-> c ∈ entries log /\ 3 < tc_block c).
Proof.
  intros log. apply (paging_complete log).
  - repeat constructor; unfold by_block; simpl; lia.
  - repeat constructor; simpl; lia.
  - vm_compute. reflexivity.
Defined.

(** 513 transfers in block 7. *)
Definition crowded_log : CandidateLog := mkCandidateLog (replicate 513 (mkTransferCandidate 7 [1] 1)) 20.
Lemma crowded_block_pins_witness : 6 < 7.
Proof.
  apply (crowded_block_pins crowded_log) with (s := 0)
    (cands := take 512 (entries crowded_log) ++ take 512 (entries crowded_log)).
  - unfold crowded_log. cbn [entries]. generalize 513%nat as n.
    induction n as [|n IH]; [constructor|]. cbn [replicate].
    constructor; [exact IH|]. apply Forall_replicate. unfold by_block. lia.
  - unfold crowded_log. cbn [entries scanned_to]. apply Forall_replicate. cbn [tc_block]. lia.
  - apply Nat.ltb_lt. vm_compute. reflexivity.
  - lia.
  - vm_compute. reflexivity.
Defined.

(** Four guardians; the faulty third one hides the transfer and claims height 99. *)
Lemma discovery_misses_nothing_witness :
  let tr := mkTransferCandidate 5 [1] 50 in
  let np := mkNumPeers [0; 1; 2; 3] 3 in
  let keys : gmap EvmAddress PublicKey := {[ [1] := mkPublicKey 8 ]} in
  let '(matches, cursor') := discover_deposits keys np 0 [([tr], 10); ([], 4); ([], 99)] in
  0 <= cursor' /\
  (forall c pk, c ∈ [tr] -> 0 < tc_block c <= cursor' ->
     keys !! tc_to c = Some pk -> (c, pk) ∈ matches) /\
  (forall c pk, (c, pk) ∈ matches -> keys !! tc_to c = Some pk) /\ NoDup matches.*1.
Proof.
  intros tr np keys.
  apply (discovery_misses_nothing [tr] keys np 0
    [(0, ([tr], 10)); (1, ([], 4)); (2, ([], 99))] (fun p => p <> 2)).
  - apply Nat.leb_le. vm_compute. reflexivity.
  - intros p cands mark Hin Hp c Hc Hb. apply list_elem_of_singleton in Hc. subst c.
    repeat (apply elem_of_cons in Hin as [Hin|Hin]); [..|by apply elem_of_nil in Hin];
      simplify_eq; simpl in *; [set_solver|lia].
Defined.
End witnesses.
