(* ===== verification/UsdtRpc.v ===== *)
(** * The EVM node connection

    [modules/usdt/fedimint-usdt-server/src/rpc.rs] and
    [modules/usdt/fedimint-usdt-server/src/factory_bytecode.rs]: what a guardian asks
    of its Ethereum node.  [Request] lists the JSON-RPC calls of the [alloy] crate;
    how a node answers them, and what happens to it meanwhile, is a parameter
    ([Provider]).  [EvmRpc] is the trait [IServerEvmRpc] that the guardian's tasks are
    written against, [alloy_rpc] its implementation [AlloyEvmRpc]. *)

From S2P Require Import Prelude FedimintCore UsdtTypes UsdtEvm UsdtFactory UsdtUserOp UsdtScan.

(** ** Calls that can fail, and be cut off *)

Inductive RpcError :=
| NodeError | BlockNotFound | OutOfRange | NoBroadcaster | NoEntryPoint | TxReverted | DeployerAbsent
| PriceUnusable | TimedOut.
#[export] Instance RpcError_eq_dec : EqDecision RpcError.
Proof. solve_decision. Defined.

(** A future either completes, or is dropped at one of its awaits by a deadline
    around it: the innermost one for level 0, the task's own cancellation when the
    level exceeds the deadlines. *)
Inductive Outcome (A : Type) :=
| Returned (r : result RpcError A)
| Dropped (level : nat).
Arguments Returned {A} r.
Arguments Dropped {A} level.

Definition Rpc (Node A : Type) : Type := Node -> Outcome A * Node.

#[export] Instance Rpc_ret {Node} : MRet (Rpc Node) := fun A a s => (Returned (Ok a), s).
#[export] Instance Rpc_bind {Node} : MBind (Rpc Node) := fun A B f m s =>
  match m s with
  | (Returned (Ok a), s') => f a s'
  | (Returned (Err e), s') => (Returned (Err e), s')
  | (Dropped l, s') => (Dropped l, s')
  end.
Definition rpc_fail {Node A} (e : RpcError) : Rpc Node A := fun s => (Returned (Err e), s).
Definition rpc_lift {Node A} (r : result RpcError A) : Rpc Node A := fun s => (Returned r, s).
Definition rpc_ensure {Node} (b : bool) (e : RpcError) : Rpc Node unit :=
  if b then mret tt else rpc_fail e.
(** Inspecting the result of an inner future, as [match fut.await]. *)
Definition attempt {Node A} (m : Rpc Node A) : Rpc Node (result RpcError A) := fun s =>
  match m s with
  | (Returned r, s') => (Returned (Ok r), s')
  | (Dropped l, s') => (Dropped l, s')
  end.

Arguments Rpc_ret / {Node} {A} a s.
Arguments Rpc_bind / {Node} {A B} f m s.
Arguments rpc_fail / {Node A} e s.
Arguments rpc_lift / {Node A} r s.
Arguments attempt / {Node A} m s.

Definition RPC_REQUEST_TIMEOUT_SECS : Z := 30.

(** Dropping the future is all a deadline does: what was requested stays requested. *)
Definition rpc_deadline_with {Node A} (m : Rpc Node A) : Rpc Node A := fun s =>
  match m s with
  | (Dropped 0, s') => (Returned (Err TimedOut), s')
  | (Dropped (S l), s') => (Dropped l, s')
  | r => r
  end.
Definition rpc_deadline {Node A} (m : Rpc Node A) : Rpc Node A := rpc_deadline_with m.

(** ** The trait *)

Record UserOpReceipt := mkUserOpReceipt {
  rcpt_success : bool;
  rcpt_block : Z;
  rcpt_block_hash : Hash;
  rcpt_actual_gas_cost_wei : UsdtAmount;
}.
#[export] Instance UserOpReceipt_eq_dec : EqDecision UserOpReceipt.
Proof. solve_decision. Defined.

Class EvmRpc (Node : Type) := {
  get_chain_id : Rpc Node Z;
  get_block_number : Rpc Node Z;
  get_block_hash : Z -> Rpc Node Hash;
  get_erc20_balance : EvmAddress -> EvmAddress -> Z -> Rpc Node UsdtAmount;
  get_storage_at : EvmAddress -> Hash -> Z -> Rpc Node Hash;
  get_erc20_basis_points_rate : EvmAddress -> Rpc Node Z;
  get_transfer_logs : EvmAddress -> Z -> Z -> Rpc Node (list TransferLog);
  get_fee_estimate : Rpc Node FeeVote;
  get_code_len : EvmAddress -> Rpc Node Z;
  factory_get_address : EvmAddress -> EvmAddress -> Hash -> Rpc Node EvmAddress;
  factory_account_implementation : EvmAddress -> Rpc Node EvmAddress;
  broadcaster_eth_balance : Rpc Node (option Z);
  ensure_create2_deployer : Rpc Node unit;
  deploy_factory : EvmAddress -> Rpc Node unit;
  submit_user_ops : list SignedUserOp -> Rpc Node unit;
  get_user_op_receipt : Hash -> Rpc Node (option UserOpReceipt);
  get_entrypoint_deposit : EvmAddress -> Rpc Node Z;
}.

(** ** What the node is asked *)

Record Block := mkBlock { header_hash : Hash; header_timestamp : Z }.

(** A log as the node returns it; a pending one has no block. *)
Record Log := mkLog {
  log_address : EvmAddress;
  log_data : bytes;
  log_block_hash : option Hash;
  log_block_number : option Z;
}.

Record LogFilter := mkLogFilter {
  filter_address : EvmAddress;
  filter_from : Z;
  filter_to : Z;
  filter_event : string;
  filter_topic1 : option Hash;
}.

Record RoundData := mkRoundData {
  roundId : Z;
  rd_answer : Z;
  rd_updatedAt : Z;
  answeredInRound : Z;
}.

Record TransactionReceipt := mkTransactionReceipt { tx_status : bool }.

Record TransactionRequest := mkTransactionRequest {
  tx_to : EvmAddress;
  tx_value : Z;
  tx_input : bytes;
  tx_nonce : option Z;
}.

(** The requests of [alloy]'s provider and of the contract bindings [sol!] generates;
    [Sleep] is a pause between two polls. *)
Inductive Request : Type -> Type :=
| ChainId : Request Z
| BlockNumber : Request Z
| GetBlock (at_block : option Z) : Request (option Block)
| BalanceOf (token holder : EvmAddress) (at_block : Z) : Request Z
| StorageAt (addr : EvmAddress) (slot at_block : Z) : Request Z
| BasisPointsRate (token : EvmAddress) : Request Z
| GetLogs (filter : LogFilter) : Request (list Log)
| GasPrice : Request Z
| FeedDecimals (feed : EvmAddress) : Request Z
| LatestRoundData (feed : EvmAddress) : Request RoundData
| GetCode (addr : EvmAddress) : Request bytes
| GetAddress (factory owner : EvmAddress) (salt : Z) : Request EvmAddress
| AccountImplementation (factory : EvmAddress) : Request EvmAddress
| EthBalance (addr : EvmAddress) : Request Z
| TxReceipt (tx_hash : Hash) : Request (option TransactionReceipt)
| SendRaw (signed_tx : bytes) : Request Hash
| TransactionCount (addr : EvmAddress) : Request Z
| SendTransaction (tx : TransactionRequest) : Request Hash
| DepositTo (entry_point account : EvmAddress) (value nonce : Z) : Request Hash
| HandleOps (entry_point : EvmAddress) (ops : list PackedUserOperation)
    (beneficiary : EvmAddress) (nonce : Z) : Request Hash
| DepositOf (entry_point account : EvmAddress) : Request Z
| UserOpReceiptHint (op_hash : Hash) : Request (option Z)
| Sleep (secs : Z) : Request unit.

Inductive Answer (A : Type) := Answered (a : A) | Failed | CutOff (level : nat).
Arguments Answered {A} a.
Arguments Failed {A}.
Arguments CutOff {A} level.

Class Provider (Node : Type) := respond : forall A, Request A -> Node -> Answer A * Node.

(** The events of [sol!]; decoding is generated code. *)
Record UserOperationEvent := mkUserOperationEvent {
  ev_userOpHash : Hash;
  ev_success : bool;
  ev_actualGasCost : Z;
}.
Record TransferEvent := mkTransferEvent { ev_to : EvmAddress; ev_value : Z }.

Class EventDecoder := {
  decode_user_operation_event : Log -> option UserOperationEvent;
  decode_transfer_event : Log -> option TransferEvent;
}.

Definition request {Node} `{Provider Node} {A} (q : Request A) : Rpc Node A := fun s =>
  match respond A q s with
  | (Answered a, s') => (Returned (Ok a), s')
  | (Failed, s') => (Returned (Err NodeError), s')
  | (CutOff l, s') => (Dropped l, s')
  end.
Arguments request / {Node _ A} q s.

(** ** [AlloyEvmRpc] *)

Record AlloyEvmRpc := mkAlloyEvmRpc {
  broadcaster_address : option EvmAddress;
  rpc_entry_point : option EvmAddress;
  rpc_price_feed : option EvmAddress;
  price_feed_max_staleness_secs : Z;
  poll_secs : Z;
}.

(** [AlloyEvmRpc::new]; the poll interval is the guardian's setting. *)
Definition alloy_new (poll : Z) : AlloyEvmRpc := mkAlloyEvmRpc None None None 0 poll.
Definition with_broadcaster (address : EvmAddress) (rpc : AlloyEvmRpc) : AlloyEvmRpc :=
  mkAlloyEvmRpc (Some address) (rpc_entry_point rpc) (rpc_price_feed rpc)
    (price_feed_max_staleness_secs rpc) (poll_secs rpc).
Definition with_entry_point (entry_point : EvmAddress) (rpc : AlloyEvmRpc) : AlloyEvmRpc :=
  mkAlloyEvmRpc (broadcaster_address rpc) (Some entry_point) (rpc_price_feed rpc)
    (price_feed_max_staleness_secs rpc) (poll_secs rpc).
(** The zero address is no feed. *)
Definition with_price_feed (feed : EvmAddress) (max_staleness_secs : Z) (rpc : AlloyEvmRpc)
    : AlloyEvmRpc :=
  mkAlloyEvmRpc (broadcaster_address rpc) (rpc_entry_point rpc)
    (if bool_decide (feed = zero_address) then None else Some feed) max_staleness_secs
    (poll_secs rpc).

Definition STATIC_USDT_PER_ETH_E6 : Z := 3000000000.
Definition PREFUND_MARGIN_PERCENT : Z := 5.

Definition U256_MAX : Z := 2 ^ 256 - 1.
Definition saturating_add_u256 (a b : Z) : Z := Z.min U256_MAX (a + b).
Definition saturating_mul_u256 (a b : Z) : Z := Z.min U256_MAX (a * b).

(** [T::try_from(U256)] with its context. *)
Definition fits (max x : Z) : result RpcError Z := if x <=? max then Ok x else Err OutOfRange.

Section decoding.
Context `{EventDecoder}.

Fixpoint receipt_from_entrypoint_logs (logs : list Log) (entry_point_addr : EvmAddress)
    (user_op_hash : Hash) : option UserOpReceipt :=
  match logs with
  | [] => None
  | log :: logs =>
      if bool_decide (log_address log ≠ entry_point_addr)
      then receipt_from_entrypoint_logs logs entry_point_addr user_op_hash
      else
        match decode_user_operation_event log with
        | None => receipt_from_entrypoint_logs logs entry_point_addr user_op_hash
        | Some decoded =>
            if bool_decide (ev_userOpHash decoded ≠ user_op_hash)
            then receipt_from_entrypoint_logs logs entry_point_addr user_op_hash
            else
              match log_block_hash log, log_block_number log with
              | Some block_hash, Some block =>
                  Some (mkUserOpReceipt (ev_success decoded) block block_hash
                          (default U64_MAX (try_u64 (ev_actualGasCost decoded))))
              | _, _ => receipt_from_entrypoint_logs logs entry_point_addr user_op_hash
              end
        end
  end.

Definition transfer_logs_from_rpc (logs : list Log) : list TransferLog :=
  omap (fun log =>
    block_number ← log_block_number log;
    decoded ← decode_transfer_event log;
    Some (mkTransferLog block_number (ev_to decoded) (Z.min U128_MAX (ev_value decoded)))) logs.
End decoding.

Section alloy.
Context {Node : Type} `{Provider Node} `{Evm} `{EventDecoder}.

(** The loop of [poll_transaction_receipt]: [polls] requests fit before its deadline. *)
Fixpoint receipt_loop (interval : Z) (polls : nat) (tx_hash : Hash)
    : Rpc Node TransactionReceipt :=
  match polls with
  | O => fun s => (Dropped 0, s)
  | S polls =>
      receipt ← request (TxReceipt tx_hash);
      match receipt with
      | Some receipt => mret receipt
      | None => request (Sleep interval);; receipt_loop interval polls tx_hash
      end
  end.

Definition poll_transaction_receipt (tx_hash : Hash) (deadline interval : Z)
    : Rpc Node TransactionReceipt :=
  rpc_deadline_with (receipt_loop interval (Z.to_nat (deadline / interval + 1)) tx_hash).

Definition wait_for_transaction_receipt (rpc : AlloyEvmRpc) (tx_hash : Hash)
    : Rpc Node TransactionReceipt :=
  poll_transaction_receipt tx_hash RPC_REQUEST_TIMEOUT_SECS (poll_secs rpc).

Definition alloy_get_block_hash (block : Z) : Rpc Node Hash :=
  b ← request (GetBlock (Some block));
  b ← rpc_lift (ok_or b BlockNotFound);
  mret (header_hash b).

Definition alloy_get_erc20_balance (token holder : EvmAddress) (at_block : Z)
    : Rpc Node UsdtAmount :=
  balance ← request (BalanceOf token holder at_block);
  rpc_lift (fits U64_MAX balance).

Definition alloy_get_storage_at (addr : EvmAddress) (key : Hash) (at_block : Z) : Rpc Node Hash :=
  word ← request (StorageAt addr (be_value key) at_block);
  mret (be_bytes 32 word).

Definition alloy_get_erc20_basis_points_rate (token : EvmAddress) : Rpc Node Z :=
  rate ← request (BasisPointsRate token);
  rpc_lift (fits U64_MAX rate).

Definition alloy_get_transfer_logs (token : EvmAddress) (from_block to_block : Z)
    : Rpc Node (list TransferLog) :=
  logs ← request (GetLogs (mkLogFilter token from_block to_block "Transfer" None));
  mret (transfer_logs_from_rpc logs).

Definition alloy_get_fee_estimate (rpc : AlloyEvmRpc) : Rpc Node FeeVote :=
  gas_price_wei ← request GasPrice;
  max_fee_per_gas_wei ← rpc_lift (fits U64_MAX gas_price_wei);
  usdt_per_eth_e6 ←
    match rpc_price_feed rpc with
    | Some feed =>
        decimals ← request (FeedDecimals feed);
        round ← request (LatestRoundData feed);
        block ← request (GetBlock None);
        block ← rpc_lift (ok_or block BlockNotFound);
        rpc_ensure ((I128_MIN <=? rd_answer round) && (rd_answer round <=? I128_MAX)) OutOfRange;;
        rpc_lift (ok_or (chainlink_eth_usd_to_usdt_per_eth_e6 (rd_answer round) decimals
          (Z.min U128_MAX (roundId round)) (Z.min U128_MAX (answeredInRound round))
          (Z.min U64_MAX (rd_updatedAt round)) (header_timestamp block)
          (price_feed_max_staleness_secs rpc)) PriceUnusable)
    | None => mret STATIC_USDT_PER_ETH_E6
    end;
  mret (mkFeeVote max_fee_per_gas_wei usdt_per_eth_e6).

Definition alloy_get_code_len (addr : EvmAddress) : Rpc Node Z :=
  code ← request (GetCode addr);
  mret (Z.of_nat (length code)).

Definition alloy_factory_get_address (factory owner : EvmAddress) (salt : Hash)
    : Rpc Node EvmAddress := request (GetAddress factory owner (be_value salt)).

Definition alloy_broadcaster_eth_balance (rpc : AlloyEvmRpc) : Rpc Node (option Z) :=
  match broadcaster_address rpc with
  | None => mret None
  | Some address =>
      balance ← request (EthBalance address);
      balance ← rpc_lift (fits U128_MAX balance);
      mret (Some balance)
  end.

Definition alloy_ensure_create2_deployer (rpc : AlloyEvmRpc) : Rpc Node unit :=
  len ← alloy_get_code_len ARACHNID_DEPLOYER;
  if 0 <? len then mret tt
  else
    rpc_lift (ok_or (broadcaster_address rpc) NoBroadcaster);;
    pending ← request (SendTransaction (mkTransactionRequest ARACHNID_DEPLOYER_SIGNER
                ARACHNID_DEPLOY_TX_COST_WEI [] None));
    fund_receipt ← wait_for_transaction_receipt rpc pending;
    rpc_ensure (tx_status fund_receipt) TxReverted;;
    pending ← request (SendRaw ARACHNID_RAW_DEPLOY_TX);
    wait_for_transaction_receipt rpc pending;;
    len ← alloy_get_code_len ARACHNID_DEPLOYER;
    rpc_ensure (0 <? len) DeployerAbsent.

Definition alloy_deploy_factory (rpc : AlloyEvmRpc) (entry_point : EvmAddress) : Rpc Node unit :=
  broadcaster ← rpc_lift (ok_or (broadcaster_address rpc) NoBroadcaster);
  let calldata := factory_create2_salt ++ factory_init_code entry_point in
  nonce ← request (TransactionCount broadcaster);
  pending ← request (SendTransaction (mkTransactionRequest ARACHNID_DEPLOYER 0 calldata (Some nonce)));
  receipt ← wait_for_transaction_receipt rpc pending;
  rpc_ensure (tx_status receipt) TxReverted.

(** What the EntryPoint charges up front at most, with the margin on top. *)
Definition prefund_need (u : UnsignedUserOp) : Z :=
  let total_gas := saturating_add_u256
    (saturating_add_u256 (verification_gas_limit u) (call_gas_limit u)) (pre_verification_gas u) in
  saturating_mul_u256 total_gas (max_fee_per_gas u).
Definition need_with_margin (need : Z) : Z :=
  saturating_add_u256 need (saturating_mul_u256 need PREFUND_MARGIN_PERCENT / 100).

Definition prefund (rpc : AlloyEvmRpc) (entry_point beneficiary : EvmAddress) (op : SignedUserOp)
    : Rpc Node unit :=
  let sender := sender (unsigned op) in
  let need := need_with_margin (prefund_need (unsigned op)) in
  deposit ← request (DepositOf entry_point sender);
  if deposit <? need then
    nonce ← request (TransactionCount beneficiary);
    pending ← request (DepositTo entry_point sender (need - deposit) nonce);
    receipt ← wait_for_transaction_receipt rpc pending;
    rpc_ensure (tx_status receipt) TxReverted
  else mret tt.

(** A failed prefund is logged, not propagated. *)
Fixpoint prefund_all (rpc : AlloyEvmRpc) (entry_point beneficiary : EvmAddress)
    (ops : list SignedUserOp) : Rpc Node unit :=
  match ops with
  | [] => mret tt
  | op :: ops =>
      attempt (prefund rpc entry_point beneficiary op);;
      prefund_all rpc entry_point beneficiary ops
  end.

Definition alloy_submit_user_ops (rpc : AlloyEvmRpc) (ops : list SignedUserOp) : Rpc Node unit :=
  beneficiary ← rpc_lift (ok_or (broadcaster_address rpc) NoBroadcaster);
  entry_point ← rpc_lift (ok_or (rpc_entry_point rpc) NoEntryPoint);
  let packed_ops := SignedUserOp_pack <$> ops in
  prefund_all rpc entry_point beneficiary ops;;
  nonce ← request (TransactionCount beneficiary);
  pending ← request (HandleOps entry_point packed_ops beneficiary nonce);
  receipt ← wait_for_transaction_receipt rpc pending;
  rpc_ensure (tx_status receipt) TxReverted.

Definition alloy_get_user_op_receipt (rpc : AlloyEvmRpc) (user_op_hash : Hash)
    : Rpc Node (option UserOpReceipt) :=
  resp ← request (UserOpReceiptHint user_op_hash);
  match resp with
  | None => mret None
  | Some hint =>
      hint_block ← rpc_lift (fits U64_MAX hint);
      entry_point_addr ← rpc_lift (ok_or (rpc_entry_point rpc) NoEntryPoint);
      logs ← request (GetLogs (mkLogFilter entry_point_addr hint_block hint_block
               "UserOperationEvent" (Some user_op_hash)));
      mret (receipt_from_entrypoint_logs logs entry_point_addr user_op_hash)
  end.

Definition alloy_get_entrypoint_deposit (rpc : AlloyEvmRpc) (account : EvmAddress) : Rpc Node Z :=
  entry_point ← rpc_lift (ok_or (rpc_entry_point rpc) NoEntryPoint);
  deposit ← request (DepositOf entry_point account);
  rpc_lift (fits U128_MAX deposit).

Definition alloy_rpc (rpc : AlloyEvmRpc) : EvmRpc Node := {|
  get_chain_id := request ChainId;
  get_block_number := request BlockNumber;
  get_block_hash := alloy_get_block_hash;
  get_erc20_balance := alloy_get_erc20_balance;
  get_storage_at := alloy_get_storage_at;
  get_erc20_basis_points_rate := alloy_get_erc20_basis_points_rate;
  get_transfer_logs := alloy_get_transfer_logs;
  get_fee_estimate := alloy_get_fee_estimate rpc;
  get_code_len := alloy_get_code_len;
  factory_get_address := alloy_factory_get_address;
  factory_account_implementation := fun factory => request (AccountImplementation factory);
  broadcaster_eth_balance := alloy_broadcaster_eth_balance rpc;
  ensure_create2_deployer := alloy_ensure_create2_deployer rpc;
  deploy_factory := alloy_deploy_factory rpc;
  submit_user_ops := alloy_submit_user_ops rpc;
  get_user_op_receipt := alloy_get_user_op_receipt rpc;
  get_entrypoint_deposit := alloy_get_entrypoint_deposit rpc;
|}.
End alloy.

(** ** Running a request *)

Lemma bind_returned {Node A B} (m : Rpc Node A) (f : A -> Rpc Node B) s b s' :
  (m ≫= f) s = (Returned (Ok b), s') ->
  exists a s1, m s = (Returned (Ok a), s1) /\ f a s1 = (Returned (Ok b), s').
Proof. simpl. destruct (m s) as [[[a|e]|l] s1]; simpl; [eauto|done..]. Qed.

Lemma request_returned {Node} `{Provider Node} {A} (q : Request A) s a s' :
  request q s = (Returned (Ok a), s') <-> respond A q s = (Answered a, s').
Proof. simpl. destruct (respond A q s) as [[]]; simpl; split; intros; by simplify_eq. Qed.

Lemma lift_returned {Node A} (r : result RpcError A) (s : Node) a s' :
  rpc_lift r s = (Returned (Ok a), s') <-> r = Ok a /\ s' = s.
Proof. simpl. split; [intros; by simplify_eq|by intros [-> ->]]. Qed.

Lemma deadline_returned {Node A} (m : Rpc Node A) s a s' :
  rpc_deadline m s = (Returned (Ok a), s') <-> m s = (Returned (Ok a), s').
Proof.
  unfold rpc_deadline, rpc_deadline_with. destruct (m s) as [[r|[|l]] s1]; split; congruence.
Qed.

Lemma attempt_ok {Node A} (m : Rpc Node A) s a s' :
  attempt m s = (Returned (Ok (Ok a)), s') <-> m s = (Returned (Ok a), s').
Proof. simpl. destruct (m s) as [[r|l] s1]; simpl; split; congruence. Qed.

(** Splits a successful run into its requests. *)
Ltac rpc_inv H :=
  repeat match type of H with
  | (_ ≫= _) _ = (Returned (Ok _), _) =>
      let a := fresh "a" in let s := fresh "s" in let E := fresh "E" in
      apply bind_returned in H as (a & s & E & H); rpc_inv E
  | rpc_deadline _ _ = (Returned (Ok _), _) => apply (proj1 (deadline_returned _ _ _ _)) in H
  | attempt _ _ = (Returned (Ok (Ok _)), _) => apply (proj1 (attempt_ok _ _ _ _)) in H
  | request _ _ = (Returned (Ok _), _) => apply (proj1 (request_returned _ _ _ _)) in H
  | rpc_lift _ _ = (Returned (Ok _), _) => apply (proj1 (lift_returned _ _ _ _)) in H as [H ->]
  | mret _ _ = (Returned (Ok _), _) => unfold mret, Rpc_ret in H; first [injection H as ? ?|injection H as ?]; subst
  end.

(** ** The receipt is the EntryPoint's log *)

Section receipts.
Context `{EventDecoder}.

(** What one log says about an operation. *)
Definition log_receipt (entry_point_addr : EvmAddress) (user_op_hash : Hash) (log : Log)
    : option UserOpReceipt :=
  if bool_decide (log_address log = entry_point_addr) then
    ev ← decode_user_operation_event log;
    if bool_decide (ev_userOpHash ev = user_op_hash) then
      block_hash ← log_block_hash log;
      block ← log_block_number log;
      Some (mkUserOpReceipt (ev_success ev) block block_hash (Z.min U64_MAX (ev_actualGasCost ev)))
    else None
  else None.

Lemma clamp_try_u64 x : default U64_MAX (try_u64 x) = Z.min U64_MAX x.
Proof. unfold try_u64. destruct (x <=? U64_MAX) eqn:E; zbool; simpl; lia. Qed.

Lemma receipt_is_first_match logs ep h :
  receipt_from_entrypoint_logs logs ep h = head (omap (log_receipt ep h) logs).
Proof.
  induction logs as [|log logs IH]; simpl; [done|]. unfold log_receipt at 1.
  destruct (decide (log_address log = ep)) as [Ea|Ea];
    [rewrite bool_decide_eq_false_2, bool_decide_eq_true_2 by naive_solver
    |by rewrite bool_decide_eq_true_2, bool_decide_eq_false_2].
  simpl. destruct (decode_user_operation_event log) as [ev|]; simpl; [|done].
  destruct (decide (ev_userOpHash ev = h)) as [Eh|Eh];
    [rewrite bool_decide_eq_false_2, bool_decide_eq_true_2 by naive_solver
    |by rewrite bool_decide_eq_true_2, bool_decide_eq_false_2].
  destruct (log_block_hash log); simpl; [|done]. destruct (log_block_number log); simpl; [|done].
  by rewrite clamp_try_u64.
Qed.

Lemma log_receipt_Some ep h log r :
  log_receipt ep h log = Some r ->
  exists ev, log_address log = ep /\ decode_user_operation_event log = Some ev /\
    ev_userOpHash ev = h /\ log_block_hash log = Some (rcpt_block_hash r) /\
    log_block_number log = Some (rcpt_block r) /\ rcpt_success r = ev_success ev /\
    rcpt_actual_gas_cost_wei r = Z.min U64_MAX (ev_actualGasCost ev).
Proof.
  unfold log_receipt. case_bool_decide; [|done].
  destruct (decode_user_operation_event log) as [ev|] eqn:Ed; simpl; [|done].
  case_bool_decide; [|done]. destruct (log_block_hash log); simpl; [|done].
  destruct (log_block_number log); simpl; [|done]. intros [= <-]. simpl. eauto 10.
Qed.
End receipts.

Section provenance.
Context {Node : Type} `{Provider Node} `{Evm} `{EventDecoder}.

(** C28: A confirmed receipt is the EntryPoint's own log: whatever the bundler's hint
    said, every field of it was read from a log of the configured EntryPoint about
    this operation, which the node returned for the hinted block; the hint only
    chose the block. *)
Theorem receipt_is_the_log rpc h s r s' :
  alloy_get_user_op_receipt rpc h s = (Returned (Ok (Some r)), s') ->
  exists ep hint s1 logs log ev,
    rpc_entry_point rpc = Some ep /\
    respond _ (UserOpReceiptHint h) s = (Answered (Some hint), s1) /\
    respond _ (GetLogs (mkLogFilter ep hint hint "UserOperationEvent" (Some h))) s1
      = (Answered logs, s') /\
    log ∈ logs /\ log_address log = ep /\ decode_user_operation_event log = Some ev /\
    ev_userOpHash ev = h /\ log_block_hash log = Some (rcpt_block_hash r) /\
    log_block_number log = Some (rcpt_block r) /\ rcpt_success r = ev_success ev /\
    rcpt_actual_gas_cost_wei r = Z.min U64_MAX (ev_actualGasCost ev).
Proof.
  unfold alloy_get_user_op_receipt. intros E. rpc_inv E. destruct a as [hint|]; [|done].
  rpc_inv E. unfold fits in *. case_match; simplify_eq.
  destruct (rpc_entry_point rpc) as [ep|] eqn:Ee; simplify_eq/=.
  rewrite receipt_is_first_match in *.
  match goal with H : head _ = Some _ |- _ =>
    apply head_Some_elem_of, list_elem_of_omap in H as (log & Hin & Hlog) end.
  apply log_receipt_Some in Hlog as (ev & ?). destruct_and!. eauto 20.
Qed.
End provenance.

(** ** What a submission pays for *)

(** The node together with everything it was asked. *)
Definition Traced (Node : Type) : Type := list {A : Type & Request A} * Node.
#[export] Instance traced_provider {Node} `{Provider Node} : Provider (Traced Node) :=
  fun A q ts => let '(a, s) := respond A q ts.2 in (a, (ts.1 ++ [existT A q], s)).

(** The EVM's integers are unsigned. *)
Class UnsignedDeposits (Node : Type) `{Provider Node} : Prop :=
  deposit_unsigned ep account s d s' : respond _ (DepositOf ep account) s = (Answered d, s') -> 0 <= d.

#[export] Instance traced_unsigned {Node} `{UnsignedDeposits Node} : UnsignedDeposits (Traced Node).
Proof.
  intros ep account [t s] d [t' s'] E. unfold respond, traced_provider in E. simpl in E.
  destruct (respond Z (DepositOf ep account) s) as [a s1] eqn:Er. simplify_eq. by eapply deposit_unsigned.
Qed.

Section spending.
Context {Node : Type} `{Provider Node}.

(** Every request of a run satisfies [P], however the run ends. *)
Definition only (P : forall A, Request A -> Prop) {A} (m : Rpc (Traced Node) A) : Prop :=
  forall ts o ts', m ts = (o, ts') ->
    exists added, ts'.1 = ts.1 ++ added /\ Forall (fun q => P (projT1 q) (projT2 q)) added.

Lemma only_silent P {A} (m : Rpc (Traced Node) A) : (forall ts, (m ts).2 = ts) -> only P m.
Proof. intros Hm ts o ts' E. exists []. rewrite app_nil_r. split; [|done]. by rewrite <- (Hm ts), E. Qed.

Lemma only_request (P : forall A, Request A -> Prop) {A} (q : Request A) : P A q -> only P (request q).
Proof.
  intros Hq [t s] o [t' s'] E. exists [existT A q]. split; [|by constructor].
  unfold request, respond, traced_provider in E. simpl in E.
  destruct (respond A q s) as [[] ?]; by simplify_eq.
Qed.

Lemma only_bind P {A B} (m : Rpc (Traced Node) A) (f : A -> Rpc (Traced Node) B) :
  only P m -> (forall a s s', m s = (Returned (Ok a), s') -> only P (f a)) -> only P (m ≫= f).
Proof.
  intros Hm Hf ts o ts' E. simpl in E. destruct (m ts) as [o1 ts1] eqn:Em.
  destruct (Hm _ _ _ Em) as (added & E1 & H1).
  destruct o1 as [[a|e]|l]; [|simplify_eq; by exists added..].
  destruct (Hf a _ _ Em _ _ _ E) as (added' & E2 & H2). exists (added ++ added').
  split; [by rewrite E2, E1, app_assoc|]. by apply Forall_app.
Qed.

Lemma only_attempt P {A} (m : Rpc (Traced Node) A) : only P m -> only P (attempt m).
Proof.
  intros Hm ts o ts' E. simpl in E. destruct (m ts) as [[r|l] ts1] eqn:Em; simplify_eq; by eapply Hm.
Qed.

Lemma only_deadline P {A} (m : Rpc (Traced Node) A) : only P m -> only P (rpc_deadline m).
Proof.
  intros Hm ts o ts' E. unfold rpc_deadline, rpc_deadline_with in E.
  destruct (m ts) as [[r|[|l]] ts1] eqn:Em; simplify_eq; by eapply Hm.
Qed.

Lemma only_wait (P : forall A, Request A -> Prop) rpc tx :
  P _ (TxReceipt tx) -> P _ (Sleep (poll_secs rpc)) -> only P (wait_for_transaction_receipt rpc tx).
Proof.
  intros Hr Hs. apply only_deadline. generalize (Z.to_nat (RPC_REQUEST_TIMEOUT_SECS / poll_secs rpc + 1)).
  intros n. induction n as [|n IH]; [by apply only_silent|].
  apply only_bind; [by apply only_request|]. intros [r|] _ _ _; [by apply only_silent|].
  apply only_bind; [by apply only_request|]. done.
Qed.

(** The requests of a submission: readings, a deposit of at most the operation's own
    need, and the bundle. *)
Definition submission_request (rpc : AlloyEvmRpc) (ops : list SignedUserOp) A (q : Request A) : Prop :=
  match q with
  | SendTransaction _ | SendRaw _ => False
  | DepositTo ep account value _ =>
      rpc_entry_point rpc = Some ep /\
      exists op, op ∈ ops /\ account = sender (unsigned op) /\
        0 < value <= need_with_margin (prefund_need (unsigned op))
  | HandleOps ep packed beneficiary _ =>
      rpc_entry_point rpc = Some ep /\ packed = SignedUserOp_pack <$> ops /\
      broadcaster_address rpc = Some beneficiary
  | _ => True
  end.

Lemma only_prefund `{!UnsignedDeposits Node} rpc ep b op ops :
  op ∈ ops -> rpc_entry_point rpc = Some ep -> only (submission_request rpc ops) (prefund rpc ep b op).
Proof.
  intros Hop Hep. apply only_bind; [by apply only_request|]. intros deposit s s' Ed%request_returned.
  apply deposit_unsigned in Ed. destruct (deposit <? _) eqn:El; [zbool|by apply only_silent].
  apply only_bind; [by apply only_request|]. intros nonce _ _ _.
  apply only_bind; [apply only_request; cbn [submission_request]; split; [done|]; exists op; split_and!; [done|done|lia|lia]|].
  intros tx _ _ _. apply only_bind; [by apply only_wait|]. intros r _ _ _.
  apply only_silent. intros ts. unfold rpc_ensure. by destruct (tx_status r).
Qed.

Lemma only_prefund_all `{!UnsignedDeposits Node} rpc ep b ops l :
  l ⊆ ops -> rpc_entry_point rpc = Some ep ->
  only (submission_request rpc ops) (prefund_all rpc ep b l).
Proof.
  intros Hl Hep. induction l as [|op l IH]; [by apply only_silent|]. simpl prefund_all.
  apply only_bind; [apply only_attempt, only_prefund; set_solver|]. intros _ _ _ _. apply IH. set_solver.
Qed.

Lemma submission_only `{!UnsignedDeposits Node} rpc ops :
  only (submission_request rpc ops) (alloy_submit_user_ops rpc ops).
Proof.
  apply only_bind; [by apply only_silent|]. intros b s s' [Hb ->]%lift_returned.
  apply only_bind; [by apply only_silent|]. intros ep s1 s1' [Hep ->]%lift_returned.
  destruct (broadcaster_address rpc) as [b'|] eqn:Eb; simplify_eq/=.
  destruct (rpc_entry_point rpc) as [ep'|] eqn:Ee; simplify_eq/=.
  apply only_bind; [by apply only_prefund_all|]. intros _ _ _ _.
  apply only_bind; [by apply only_request|]. intros nonce _ _ _.
  apply only_bind; [by apply only_request|]. intros tx _ _ _.
  apply only_bind; [by apply only_wait|]. intros r _ _ _.
  apply only_silent. intros ts. unfold rpc_ensure. by destruct (tx_status r).
Qed.

End spending.

(** ** A node to run against *)

(** A node that has mined whatever it was sent, holds no deposits, and shows one log of
    the EntryPoint in block 18. *)
Definition demo_entry_point : EvmAddress := replicate 20 6.
Definition demo_log : Log := mkLog demo_entry_point [4] (Some [7]) (Some 18).
#[local] Instance demo_provider : Provider unit := fun A q s =>
  (match q in Request A return Answer A with
   | DepositOf _ _ => Answered 0
   | TransactionCount _ => Answered 3
   | DepositTo _ _ _ _ | HandleOps _ _ _ _ => Answered [1]
   | TxReceipt _ => Answered (Some (mkTransactionReceipt true))
   | UserOpReceiptHint _ => Answered (Some 18)
   | GetLogs _ => Answered [mkLog zero_address [4] None None; demo_log]
   | _ => Failed
   end, s).
#[local] Instance demo_decoder : EventDecoder := {|
  decode_user_operation_event log := Some (mkUserOperationEvent (log_data log) true 5);
  decode_transfer_event _ := None;
|}.
#[local] Instance demo_unsigned : UnsignedDeposits unit.
Proof. intros ep a s d s' E. injection E as <- _. lia. Qed.

Definition demo_rpc : AlloyEvmRpc :=
  with_entry_point demo_entry_point (with_broadcaster (replicate 20 9) (alloy_new 1)).
Definition demo_signed : SignedUserOp :=
  mkSignedUserOp (mkUnsignedUserOp (replicate 20 1) 0 [] [] 100 100 100 1 10 []) [].

Lemma receipt_is_the_log_witness :
  alloy_get_user_op_receipt demo_rpc [4] tt
    = (Returned (Ok (Some (mkUserOpReceipt true 18 [7] 5))), tt) /\
  exists ep log, rpc_entry_point demo_rpc = Some ep /\ log_address log = ep /\
    log_block_number log = Some 18.
Proof.
  match goal with |- ?E /\ _ => assert (Hr : E) by reflexivity end. split; [exact Hr|].
  destruct (receipt_is_the_log demo_rpc [4] tt (mkUserOpReceipt true 18 [7] 5) tt Hr)
    as (ep & _ & _ & _ & log & _ & Hep & _ & _ & _ & Ha & _ & _ & _ & Hb & _).
  by exists ep, log.
Defined.

Definition demo_submission : Outcome unit * Traced unit :=
  alloy_submit_user_ops demo_rpc [demo_signed] ([], tt).

