(* ===== verification/UsdtTasks.v ===== *)
(** * Guardian background tasks

    The pollers, observers and watchdogs [modules/usdt/fedimint-usdt-server/src/lib.rs]
    spawns.  A task is a loop that sleeps; a definition here is one iteration, against
    the trait [EvmRpc].  It reads the consensus tables and writes the guardian's
    [Caches]; it never writes a table.  [Dropped] as the outcome of an iteration is the
    cancellation of the task. *)

From S2P Require Import Prelude FedimintCore AmmPoolId UsdtTypes UsdtEvm UsdtUserOp UsdtDb UsdtServer.
From S2P Require Import UsdtHandlers UsdtDemo UsdtEndpoints UsdtScan UsdtRpc.

(** ** Settings *)

Definition DEFAULT_POLL_INTERVAL_SECS : Z := 15.
Definition MIN_POLL_INTERVAL_SECS : Z := 5.
Definition SLOW_POLL_MULTIPLIER : Z := 4.
Definition DEFAULT_SCAN_MAX_LAG_SECS : Z := 60.
Definition MIN_SCAN_MAX_LAG_SECS : Z := 15.
Definition SCAN_GRID_BLOCKS : Z := 5.
Definition ANCHOR_LAG_WARN_BLOCKS : Z := 100.
Definition ANCHOR_STALL_RESTART_SECS : Z := 1200.
Definition ANCHOR_STALL_RESTART_STAGGER_SECS : Z := 300.
Definition ANCHOR_WATCHDOG_CHECK_SECS : Z := 60.

(** [str::trim] on the ASCII white space an operator can type. *)
Definition is_ascii_space (c : Ascii.ascii) : bool :=
  let n := Ascii.nat_of_ascii c in (n =? 32)%nat || ((9 <=? n) && (n <=? 13))%nat.
Fixpoint trim_start (s : string) : string :=
  match s with
  | String.String c s' => if is_ascii_space c then trim_start s' else s
  | EmptyString => s
  end.
Fixpoint trim_end (s : string) : string :=
  match s with
  | EmptyString => EmptyString
  | String.String c s' =>
      match trim_end s' with
      | EmptyString => if is_ascii_space c then EmptyString else String.String c EmptyString
      | s'' => String.String c s''
      end
  end.
Definition trim (s : string) : string := trim_end (trim_start s).

(** The two settings differ in their bounds alone. *)
Definition resolve_secs (min default_secs : Z) (raw : option string) : Z :=
  match raw with
  | Some secs => match parse_u64 (trim secs) with
                 | Some secs => Z.max secs min
                 | None => default_secs
                 end
  | None => default_secs
  end.
Definition resolve_poll_interval : option string -> Z :=
  resolve_secs MIN_POLL_INTERVAL_SECS DEFAULT_POLL_INTERVAL_SECS.
Definition resolve_scan_max_lag : option string -> Z :=
  resolve_secs MIN_SCAN_MAX_LAG_SECS DEFAULT_SCAN_MAX_LAG_SECS.

(** The environment variables are arguments. *)
Definition poll_interval_secs (test_env : bool) (raw : option string) : Z :=
  if test_env then 1 else resolve_poll_interval raw.
Definition slow_poll_interval_secs (test_env : bool) (raw : option string) : Z :=
  if test_env then 1
  else Z.min U64_MAX (poll_interval_secs test_env raw * SLOW_POLL_MULTIPLIER).
Definition scan_max_lag_secs (test_env : bool) (raw : option string) : Z :=
  if test_env then 1 else resolve_scan_max_lag raw.
Definition scan_grid_blocks (test_env : bool) : Z := if test_env then 1 else SCAN_GRID_BLOCKS.

(** ** Writes to the caches *)

Definition set_block_count (n : Z) (g : Caches) : Caches :=
  mkCaches n (consensus_progress g) (fee_estimate g) (bootstrap_proposals g)
    (block_hash_proposals g) (residual_recovery_proposals g) (fee_withdrawal_intent g)
    (pending_outgoing g) (pending_signature_proposals g) (user_op_confirmed_proposals g).
Definition set_fee_estimate (v : option FeeVote) (g : Caches) : Caches :=
  mkCaches (block_count g) (consensus_progress g) v (bootstrap_proposals g)
    (block_hash_proposals g) (residual_recovery_proposals g) (fee_withdrawal_intent g)
    (pending_outgoing g) (pending_signature_proposals g) (user_op_confirmed_proposals g).
Definition push_bootstrap (o : BootstrapObservation) (g : Caches) : Caches :=
  mkCaches (block_count g) (consensus_progress g) (fee_estimate g) (bootstrap_proposals g ++ [o])
    (block_hash_proposals g) (residual_recovery_proposals g) (fee_withdrawal_intent g)
    (pending_outgoing g) (pending_signature_proposals g) (user_op_confirmed_proposals g).
Definition set_block_hash (o : BlockHashObservation) (g : Caches) : Caches :=
  mkCaches (block_count g) (consensus_progress g) (fee_estimate g) (bootstrap_proposals g)
    (Some o) (residual_recovery_proposals g) (fee_withdrawal_intent g)
    (pending_outgoing g) (pending_signature_proposals g) (user_op_confirmed_proposals g).
Definition set_residuals (l : list (EvmAddress * Z)) (g : Caches) : Caches :=
  mkCaches (block_count g) (consensus_progress g) (fee_estimate g) (bootstrap_proposals g)
    (block_hash_proposals g) l (fee_withdrawal_intent g)
    (pending_outgoing g) (pending_signature_proposals g) (user_op_confirmed_proposals g).
Definition push_confirmations (l : list UserOpConfirmedProposal) (g : Caches) : Caches :=
  mkCaches (block_count g) (consensus_progress g) (fee_estimate g) (bootstrap_proposals g)
    (block_hash_proposals g) (residual_recovery_proposals g) (fee_withdrawal_intent g)
    (pending_outgoing g) (pending_signature_proposals g) (user_op_confirmed_proposals g ++ l).

(** ** Start-up *)

Inductive StartupError := WrongChain (onchain_chain_id : Z) | TokenChargesFee (basis_points : Z).

Definition balance_storage_word (balance_of : Z) : Hash := replicate 24 0 ++ be_bytes 8 balance_of.

Inductive BalancesSlotProbe :=
| Verified (account : EvmAddress)
| Mismatch (account : EvmAddress) (balance_of : Z) (slot_word : Hash)
| Inconclusive.

Section tasks.
Context {Node : Type} `{EvmRpc Node} `{Evm}.

(** A failed or slow read proves nothing and lets the module start. *)
Definition check_chain_id_at_startup (consensus_chain_id : Z)
    : Rpc Node (result StartupError unit) :=
  r ← attempt (rpc_deadline get_chain_id);
  mret match r with
       | Ok onchain_chain_id => if onchain_chain_id =? consensus_chain_id then Ok tt
                                else Err (WrongChain onchain_chain_id)
       | Err _ => Ok tt
       end.

Definition check_fee_rate_at_startup (usdt_contract : EvmAddress)
    : Rpc Node (result StartupError unit) :=
  r ← attempt (rpc_deadline (get_erc20_basis_points_rate usdt_contract));
  mret match r with
       | Ok basis_points => if basis_points =? 0 then Ok tt else Err (TokenChargesFee basis_points)
       | Err _ => Ok tt
       end.

(** The checks of [UsdtInit::init]. *)
Definition startup_checks (cfg : UsdtConfigConsensus) : Rpc Node (result StartupError unit) :=
  chain ← check_chain_id_at_startup (chain_id cfg);
  match chain with
  | Err e => mret (Err e)
  | Ok _ => check_fee_rate_at_startup (usdt_contract cfg)
  end.

Fixpoint probe_accounts (usdt_contract : EvmAddress) (block : Z) (sample_accounts : list EvmAddress)
    : Rpc Node BalancesSlotProbe :=
  match sample_accounts with
  | [] => mret Inconclusive
  | account :: rest =>
      balance ← rpc_deadline (get_erc20_balance usdt_contract account block);
      slot_word ← rpc_deadline (get_storage_at usdt_contract (balances_storage_key account) block);
      if negb (bool_decide (slot_word = balance_storage_word balance))
      then mret (Mismatch account balance slot_word)
      else if negb (balance =? 0) then mret (Verified account)
      else probe_accounts usdt_contract block rest
  end.

Definition probe_balances_slot (usdt_contract : EvmAddress) (sample_accounts : list EvmAddress)
    : Rpc Node BalancesSlotProbe :=
  block ← rpc_deadline get_block_number;
  probe_accounts usdt_contract block sample_accounts.

(** ** Pollers *)

Definition poll_block_count (g : Caches) : Rpc Node Caches :=
  r ← attempt (rpc_deadline get_block_number);
  mret match r with Ok n => set_block_count n g | Err _ => g end.

(** A failed poll withdraws the estimate. *)
Definition poll_fee_estimate (g : Caches) : Rpc Node Caches :=
  r ← attempt (rpc_deadline get_fee_estimate);
  mret (set_fee_estimate match r with Ok vote => Some vote | Err _ => None end g).

(** ** Bootstrap *)

Definition funded (balance : option Z) (min : Z) : bool :=
  match balance with Some b => min <=? b | None => false end.

Definition ensure_factory_deployed (entry_point account_factory : EvmAddress)
    (broadcaster_min_balance_wei : Z) : Rpc Node unit :=
  len ← rpc_deadline (get_code_len account_factory);
  if 0 <? len then mret tt
  else
    balance ← rpc_deadline broadcaster_eth_balance;
    if negb (funded balance broadcaster_min_balance_wei) then mret tt
    else
      rpc_deadline ensure_create2_deployer;;
      rpc_deadline (deploy_factory entry_point).

(** The scalar 1's public key, a fixed sample claim key. *)
Variable sample_claim_pk : PublicKey.

(** The closure of [observe_bootstrap]. *)
Definition observe_contracts (cfg : UsdtConfigConsensus) (contracts_verified : bool)
    : Rpc Node BootstrapObservation :=
  balance ← rpc_deadline broadcaster_eth_balance;
  let broadcaster_funded := funded balance (broadcaster_min_balance_wei cfg) in
  if contracts_verified then mret (mkBootstrapObservation true true true broadcaster_funded true)
  else
    let group := group_public_key cfg in
    let factory := account_factory cfg in
    let impl := simple_account_impl cfg in
    len ← rpc_deadline (get_code_len (entry_point cfg));
    let entry_point_ok := 0 <? len in
    len ← rpc_deadline (get_code_len factory);
    let factory_has_code := 0 <? len in
    let owner := evm_address group in
    onchain_pool ← rpc_deadline (factory_get_address factory owner pool_salt);
    let pool_salt_ok := bool_decide (onchain_pool = derive_pool_account group factory impl) in
    onchain_sample_deposit ←
      rpc_deadline (factory_get_address factory owner (deposit_salt sample_claim_pk));
    let deposit_salt_ok :=
      bool_decide (onchain_sample_deposit = derive_deposit_account group factory impl sample_claim_pk) in
    onchain_impl ← rpc_deadline (factory_account_implementation factory);
    let impl_matches_factory := bool_decide (onchain_impl = impl) in
    let factory_ok := factory_has_code && pool_salt_ok && deposit_salt_ok && impl_matches_factory in
    len ← rpc_deadline (get_code_len impl);
    let impl_ok := 0 <? len in
    mret (mkBootstrapObservation entry_point_ok factory_ok impl_ok broadcaster_funded true).

Definition observe_bootstrap (cfg : UsdtConfigConsensus) (contracts_verified : bool)
    : Rpc Node BootstrapObservation :=
  r ← attempt (observe_contracts cfg contracts_verified);
  mret match r with
       | Ok observation => observation
       | Err _ => mkBootstrapObservation false false false false false
       end.

(** One iteration, with the flag the task keeps. *)
Definition bootstrap_tick (cfg : UsdtConfigConsensus) (contracts_verified : bool) (g : Caches)
    : Rpc Node (bool * Caches) :=
  (if contracts_verified then mret (Ok tt)
   else attempt (ensure_factory_deployed (entry_point cfg) (account_factory cfg)
                   (broadcaster_min_balance_wei cfg)));;
  observation ← observe_bootstrap cfg contracts_verified;
  let all_contracts_ok :=
    entry_point_ok observation && factory_ok observation && impl_ok observation in
  mret (contracts_verified || all_contracts_ok, push_bootstrap observation g).

(** ** Anchors *)

Definition observe_block_hash (self : Usdt) (d : UsdtDb) (g : Caches) : Rpc Node Caches :=
  let ccount := consensus_block_count self d in
  let at_ := saturating_sub ccount (confirmation_depth (cfg self)) in
  let cached_head := block_count g in
  if negb (ccount =? 0) && (at_ <=? cached_head) then
    r ← attempt (rpc_deadline (get_block_hash at_));
    mret match r with
         | Ok block_hash => set_block_hash (mkBlockHashObservation at_ block_hash) g
         | Err _ => g
         end
  else mret g.

Definition anchor_lag_exceeds (cached_head consensus_block_count threshold : Z) : bool :=
  negb (cached_head =? 0) && negb (consensus_block_count =? 0)
  && (threshold <? saturating_sub cached_head consensus_block_count).

Definition anchor_stall_warrants_restart (anchor_stalled_for deadline : Z)
    (consensus_alive chain_ahead_of_anchor : bool) : bool :=
  (deadline <=? anchor_stalled_for) && consensus_alive && chain_ahead_of_anchor.

Record Watchdog := mkWatchdog {
  last_anchor : option Z;
  anchor_since : Z;
  last_progress : Z;
  consensus_since : Z;
}.

Definition watchdog_deadline (our_peer_id : PeerId) : Z :=
  ANCHOR_STALL_RESTART_SECS + our_peer_id * ANCHOR_STALL_RESTART_STAGGER_SECS.

(** What [Instant::now], the progress counter and the ring read at a check. *)
Record Reading := mkReading { rd_now : Z; rd_progress : Z; rd_anchor : Z }.

(** One check; [None] is the exit for a supervised restart.  The node is asked for its
    head only when the anchor has stalled. *)
Definition watchdog_check (depth deadline : Z) (w : Watchdog) (r : Reading)
    : Rpc Node (option Watchdog) :=
  let now := rd_now r in
  let w := if negb (rd_progress r =? last_progress w)
           then mkWatchdog (last_anchor w) (anchor_since w) (rd_progress r) now else w in
  let consensus_alive := now - consensus_since w <? deadline in
  let anchor := rd_anchor r in
  let moved := mkWatchdog (Some anchor) now (last_progress w) (consensus_since w) in
  match last_anchor w with
  | None => mret (Some moved)
  | Some prev =>
      if prev <? anchor then mret (Some moved)
      else
        let stalled_for := now - anchor_since w in
        if stalled_for <? deadline then mret (Some w)
        else
          head ← attempt (rpc_deadline get_block_number);
          let chain_ahead := match head with
            | Ok head => saturating_add_u64 anchor depth <? head
            | Err _ => false
            end in
          if anchor_stall_warrants_restart stalled_for deadline consensus_alive chain_ahead
          then mret None else mret (Some w)
  end.

(** ** Stranded gas deposits *)

Definition recovery_of (p : UserOpPurpose) : option EvmAddress :=
  match p with RecoverResidualOp account => Some account | _ => None end.

Definition recoveries_in_flight (d : UsdtDb) : list EvmAddress :=
  omap (fun p => recovery_of (p_purpose p)) (values (pending d))
  ++ omap (fun s => recovery_of (s_purpose s)) (values (submitted d)).

Fixpoint observe_residuals (in_flight : list EvmAddress) (records : list (EvmAddress * DepositRecord))
    : Rpc Node (list (EvmAddress * Z)) :=
  match records with
  | [] => mret []
  | (account, record) :: records =>
      let fully_swept := (0 <? credited record) && (swept record =? credited record) in
      if negb fully_swept || bool_decide (account ∈ in_flight)
      then observe_residuals in_flight records
      else
        r ← attempt (rpc_deadline (get_entrypoint_deposit account));
        rest ← observe_residuals in_flight records;
        mret match r with
             | Ok deposit_wei =>
                 if RESIDUAL_RECOVERY_MIN_WEI <=? deposit_wei
                 then (account, default U64_MAX (try_u64 deposit_wei)) :: rest else rest
             | Err _ => rest
             end
  end.

Definition residual_tick (self : Usdt) (d : UsdtDb) (g : Caches) : Rpc Node Caches :=
  if bool_decide (residual_recovery_recipient (cfg self) = zero_address) then mret g
  else
    observations ← observe_residuals (recoveries_in_flight d) (map_to_list (deposits d));
    mret (set_residuals observations g).

(** ** Submission and confirmation of user operations *)

Definition confirmation_of (depth ccount : Z) (op_hash : Hash) (record : SubmittedUserOp)
    (receipt : UserOpReceipt) : option UserOpConfirmedProposal :=
  if ccount <? saturating_add_u64 (rcpt_block receipt) depth then None
  else
    let proposal := fun swept => Some (mkUserOpConfirmedProposal op_hash (rcpt_success receipt)
      (rcpt_block receipt) (rcpt_block_hash receipt) swept (rcpt_actual_gas_cost_wei receipt)) in
    if rcpt_success receipt then
      match expected_swept record with Ok swept => proposal swept | Err _ => None end
    else proposal 0.

(** The future of one operation. *)
Definition tend_op (depth ccount : Z) (op_hash : Hash) (record : SubmittedUserOp)
    : Rpc Node (option UserOpConfirmedProposal) :=
  r ← attempt (rpc_deadline (get_user_op_receipt op_hash));
  match r with
  | Ok (Some receipt) => mret (confirmation_of depth ccount op_hash record receipt)
  | Ok None => attempt (rpc_deadline (submit_user_ops [signed record]));; mret None
  | Err _ => mret None
  end.

(** The futures run concurrently; [ops] is the order in which they complete. *)
Fixpoint tend_ops (depth ccount : Z) (ops : list (Hash * SubmittedUserOp)) (g : Caches)
    : Rpc Node Caches :=
  match ops with
  | [] => mret g
  | (op_hash, record) :: ops =>
      proposal ← tend_op depth ccount op_hash record;
      tend_ops depth ccount ops
        (match proposal with Some p => push_confirmations [p] g | None => g end)
  end.

Definition submitter_tick (self : Usdt) (d : UsdtDb) (ops : list (Hash * SubmittedUserOp))
    (g : Caches) : Rpc Node Caches :=
  tend_ops (confirmation_depth (cfg self)) (consensus_block_count self d) ops g.
End tasks.

(** ** Starting up *)

Section startup.
Context {Node : Type} `{EvmRpc Node}.

Definition answered {A} (m : Rpc Node A) (a : A) : Prop := exists s s', m s = (Returned (Ok a), s').

Lemma answered_intro {A} (m : Rpc Node A) s a s' : m s = (Returned (Ok a), s') -> answered m a.
Proof. by eexists _, _. Qed.

Lemma attempt_cases {A} (m : Rpc Node A) s r s' :
  attempt m s = (Returned (Ok r), s') -> m s = (Returned r, s').
Proof. simpl. destruct (m s) as [[r'|l] s1]; intros; by simplify_eq. Qed.

(** Inspecting a call under its deadline: an answer is what the call answered. *)
Lemma attempt_deadline {A} (m : Rpc Node A) s r s' :
  attempt (rpc_deadline m) s = (Returned (Ok r), s') ->
  match r with
  | Ok a => m s = (Returned (Ok a), s')
  | Err _ => forall a s1, m s <> (Returned (Ok a), s1)
  end.
Proof.
  intros E%attempt_cases. destruct r as [a|e]; [by apply deadline_returned|].
  intros a s1 Em. unfold rpc_deadline, rpc_deadline_with in E. by rewrite Em in E.
Qed.

Lemma check_chain_id_spec expected s r s' :
  check_chain_id_at_startup expected s = (Returned (Ok r), s') ->
  match r with
  | Err (WrongChain id) => id <> expected /\ answered get_chain_id id
  | Err (TokenChargesFee _) => False
  | Ok _ => forall id s1, get_chain_id s = (Returned (Ok id), s1) -> id = expected
  end.
Proof.
  unfold check_chain_id_at_startup. intros (r1 & s1 & E & [= <- <-])%bind_returned.
  apply attempt_deadline in E. destruct r1 as [id|]; [|intros id s1'; by intros ?%E].
  destruct (id =? expected) eqn:Eq; zbool; [intros; congruence|]. split; [done|by eexists _, _].
Qed.

Lemma check_fee_rate_spec token s r s' :
  check_fee_rate_at_startup token s = (Returned (Ok r), s') ->
  match r with
  | Err (WrongChain _) => False
  | Err (TokenChargesFee fee) => fee <> 0 /\ answered (get_erc20_basis_points_rate token) fee
  | Ok _ => forall fee s1, get_erc20_basis_points_rate token s = (Returned (Ok fee), s1) -> fee = 0
  end.
Proof.
  unfold check_fee_rate_at_startup. intros (r1 & s1 & E & [= <- <-])%bind_returned.
  apply attempt_deadline in E. destruct r1 as [fee|]; [|intros fee s1'; by intros ?%E].
  destruct (fee =? 0) eqn:Eq; zbool; [intros; congruence|]. split; [done|by eexists _, _].
Qed.

(** The module refuses to start exactly when its node reports another chain or a token
    that charges transfer fees; a node that does not answer stops nothing. *)
Lemma startup_refuses cfg s r s' :
  startup_checks cfg s = (Returned (Ok r), s') ->
  match r with
  | Err (WrongChain id) => id <> chain_id cfg /\ answered get_chain_id id
  | Err (TokenChargesFee fee) =>
      fee <> 0 /\ answered (get_erc20_basis_points_rate (usdt_contract cfg)) fee
  | Ok _ => forall id s1, get_chain_id s = (Returned (Ok id), s1) -> id = chain_id cfg
  end.
Proof.
  intros (r1 & s1 & E1 & E)%bind_returned. apply check_chain_id_spec in E1.
  destruct r1 as [u|[]]; simpl in E; simplify_eq; [|done..].
  apply check_fee_rate_spec in E. by destruct r as [|[]].
Qed.
End startup.

(** ** The contracts a guardian vouches for *)

Section bootstrap.
Context {Node : Type} `{EvmRpc Node} `{Evm} (sample_claim_pk : PublicKey) (cfg : UsdtConfigConsensus).

(** The node has answered every question [observe_contracts] asks as the configuration
    and the local derivations say. *)
Record contracts_seen : Prop := {
  seen_entry_point : exists n, 0 < n /\ answered (get_code_len (entry_point cfg)) n;
  seen_factory : exists n, 0 < n /\ answered (get_code_len (account_factory cfg)) n;
  seen_pool : answered
    (factory_get_address (account_factory cfg) (evm_address (group_public_key cfg)) pool_salt)
    (derive_pool_account (group_public_key cfg) (account_factory cfg) (simple_account_impl cfg));
  seen_deposit : answered
    (factory_get_address (account_factory cfg) (evm_address (group_public_key cfg))
       (deposit_salt sample_claim_pk))
    (derive_deposit_account (group_public_key cfg) (account_factory cfg) (simple_account_impl cfg)
       sample_claim_pk);
  seen_impl : answered (factory_account_implementation (account_factory cfg)) (simple_account_impl cfg);
  seen_impl_code : exists n, 0 < n /\ answered (get_code_len (simple_account_impl cfg)) n;
}.

Definition all_contracts_ok (o : BootstrapObservation) : bool :=
  entry_point_ok o && factory_ok o && impl_ok o.

Lemma observe_contracts_sound s o s' :
  observe_contracts sample_claim_pk cfg false s = (Returned (Ok o), s') ->
  all_contracts_ok o = true -> contracts_seen.
Proof.
  unfold observe_contracts, all_contracts_ok. cbv zeta. intros E. rpc_inv E.
  cbn [entry_point_ok factory_ok impl_ok].
  rewrite !andb_true_iff, !bool_decide_eq_true, !Z.ltb_lt.
  intros [[? [[[? ->] ->] ->]] ?]. split; eauto using answered_intro.
Qed.

Lemma observe_bootstrap_sound verified s o s' :
  observe_bootstrap sample_claim_pk cfg verified s = (Returned (Ok o), s') ->
  all_contracts_ok o = true -> verified = true \/ contracts_seen.
Proof.
  unfold observe_bootstrap. intros (r & s1 & E & Eo)%bind_returned Hok.
  destruct verified; [by left|right]. apply attempt_cases in E. simpl in Eo. simplify_eq.
  destruct r as [o|]; [|done]. by eapply observe_contracts_sound.
Qed.

(** The iterations of the task, on any node states in between. *)
Inductive bootstrap_step : bool * Caches -> bool * Caches -> Prop :=
| bootstrap_tick_step v g v' g' s s' :
    bootstrap_tick sample_claim_pk cfg v g s = (Returned (Ok (v', g')), s') ->
    bootstrap_step (v, g) (v', g')
| bootstrap_drain_step v g : bootstrap_step (v, g) (v, drained g).

Definition vouching_inv (vg : bool * Caches) : Prop :=
  (vg.1 = true -> contracts_seen) /\
  Forall (fun o => all_contracts_ok o = true -> contracts_seen) (bootstrap_proposals vg.2).

Lemma bootstrap_step_inv a b : vouching_inv a -> bootstrap_step a b -> vouching_inv b.
Proof.
  intros [Hv Hg] Hs. destruct Hs as [v g v' g' s s' E|v g]; [|by split; [|constructor]].
  unfold bootstrap_tick in E. apply bind_returned in E as (? & s1 & _ & E).
  apply bind_returned in E as (o & s2 & Eo & E). unfold mret, Rpc_ret in E. injection E as <- <- <-.
  assert (Ho : all_contracts_ok o = true -> contracts_seen)
    by (intros Hok; destruct (observe_bootstrap_sound _ _ _ _ Eo Hok); eauto).
  split; simpl; [intros [|]%orb_true_iff; eauto|]. apply Forall_app. split; [done|]. by constructor.
Qed.

(** C24: A guardian vouches for the contracts, now or ever after, only when its node has
    shown it code at the entry point, the factory and the implementation, and the
    factory itself computed the pool address and a deposit address as the guardian
    derives them and named the configured implementation: the short cut the task
    takes once it has verified them rests on a full check. *)
Theorem vouched_contracts_were_seen v g g0 :
  bootstrap_proposals g0 = [] -> rtc bootstrap_step (false, g0) (v, g) ->
  (v = true \/ exists o, o ∈ bootstrap_proposals g /\ all_contracts_ok o = true) -> contracts_seen.
Proof.
  intros Hg0 Hr. assert (Hinv : vouching_inv (v, g)).
  { eapply (rtc_invariant _ vouching_inv); [intros ??; apply bootstrap_step_inv| |exact Hr].
    split; [done|]. simpl. rewrite Hg0. constructor. }
  destruct Hinv as [Hv Hg]. rewrite Forall_forall in Hg. intros [|(o & Hin & Ho)]; eauto.
Qed.

(** The factory is deployed only when it is missing and the broadcaster holds the
    configured minimum. *)
Lemma factory_deployed_once ep factory min s :
  (exists n s1, 0 < n /\ get_code_len factory s = (Returned (Ok n), s1)) ->
  exists s1, ensure_factory_deployed ep factory min s = (Returned (Ok tt), s1) /\
    (forall n s2, get_code_len factory s = (Returned (Ok n), s2) -> s1 = s2).
Proof.
  intros (n & s1 & Hn & E). exists s1. unfold ensure_factory_deployed.
  apply deadline_returned in E as Ed. unfold mbind, Rpc_bind. rewrite Ed.
  rewrite (proj2 (Z.ltb_lt _ _) Hn). split; [done|]. intros. congruence.
Qed.
End bootstrap.

(** ** When the watchdog restarts the guardian *)

Section watchdog.
Context {Node : Type} `{EvmRpc Node} (depth deadline : Z).

Fixpoint watchdog_run (w : Watchdog) (rs : list Reading) : Rpc Node (option Watchdog) :=
  match rs with
  | [] => mret (Some w)
  | r :: rs =>
      next ← watchdog_check depth deadline w r;
      match next with Some w => watchdog_run w rs | None => mret None end
  end.

Definition watchdog_start (t0 p0 : Z) : Watchdog := mkWatchdog None t0 p0 t0.

(** The progress counter at the last of the readings, and when it last changed. *)
Fixpoint last_change (p t : Z) (rs : list Reading) : Z * Z :=
  match rs with
  | [] => (p, t)
  | r :: rs => last_change (rd_progress r) (if rd_progress r =? p then t else rd_now r) rs
  end.

(** The reading at which the anchor reached the height it has not left since. *)
Definition last_rise (rs : list Reading) (r0 : Reading) : Prop := exists l1 l2,
  rs = l1 ++ r0 :: l2 /\ Forall (fun x => rd_anchor x < rd_anchor r0) l1 /\
  Forall (fun x => rd_anchor x <= rd_anchor r0) l2.

Lemma last_rise_unique rs r r' : last_rise rs r -> last_rise rs r' -> r = r'.
Proof.
  intros (l1 & l2 & -> & H1 & H2) (m1 & m2 & E & H1' & H2').
  rewrite Forall_forall in H1, H2, H1', H2'.
  destruct (Nat.lt_trichotomy (length l1) (length m1)) as [Hl|[Hl|Hl]].
  - assert (Hr : r ∈ m1).
    { assert (Hk : (l1 ++ r :: l2) !! length l1 = Some r) by (by apply list_lookup_middle).
      rewrite E, lookup_app_l in Hk by done. by eapply list_elem_of_lookup_2. }
    apply H1' in Hr. assert (Hr' : r' ∈ l2).
    { assert (Hk : (m1 ++ r' :: m2) !! length m1 = Some r') by (by apply list_lookup_middle).
      rewrite <- E, lookup_app_r, lookup_cons_ne_0 in Hk by lia. by eapply list_elem_of_lookup_2. }
    apply H2 in Hr'. lia.
  - apply app_inj_1 in E as [_ E]; [by injection E|done].
  - assert (Hr : r' ∈ l1).
    { assert (Hk : (m1 ++ r' :: m2) !! length m1 = Some r') by (by apply list_lookup_middle).
      rewrite <- E, lookup_app_l in Hk by done. by eapply list_elem_of_lookup_2. }
    apply H1 in Hr. assert (Hr' : r ∈ m2).
    { assert (Hk : (l1 ++ r :: l2) !! length l1 = Some r) by (by apply list_lookup_middle).
      rewrite E, lookup_app_r, lookup_cons_ne_0 in Hk by lia. by eapply list_elem_of_lookup_2. }
    apply H2' in Hr'. lia.
Qed.

Lemma last_rise_snoc rs r0 r :
  last_rise rs r0 -> last_rise (rs ++ [r]) (if rd_anchor r0 <? rd_anchor r then r else r0).
Proof.
  intros (l1 & l2 & -> & H1 & H2). destruct (rd_anchor r0 <? rd_anchor r) eqn:E; zbool.
  - exists (l1 ++ r0 :: l2), []. split; [done|]. split; [|constructor].
    apply Forall_app. split; [eapply Forall_impl; [exact H1|]; simpl; lia|].
    constructor; [done|]. eapply Forall_impl; [exact H2|]. simpl. lia.
  - exists l1, (l2 ++ [r]). split; [by rewrite <- app_assoc|]. split; [done|].
    apply Forall_app. split; [done|]. by constructor.
Qed.

Lemma last_change_snoc p t rs r :
  last_change p t (rs ++ [r]) =
  (rd_progress r, if rd_progress r =? (last_change p t rs).1 then (last_change p t rs).2 else rd_now r).
Proof. revert p t. induction rs as [|x rs IH]; intros p t; simpl; [done|]. apply IH. Qed.

(** The state of the watchdog is a summary of its readings. *)
Definition tracks (t0 p0 : Z) (rs : list Reading) (w : Watchdog) : Prop :=
  let '(p, t) := last_change p0 t0 rs in
  last_progress w = p /\ consensus_since w = t /\
  match rs with
  | [] => last_anchor w = None
  | _ => exists r0, last_rise rs r0 /\ last_anchor w = Some (rd_anchor r0) /\ anchor_since w = rd_now r0
  end.

Lemma last_rise_nonempty rs r0 : last_rise rs r0 -> rs <> [].
Proof. intros (l1 & l2 & -> & _). by destruct l1. Qed.

Lemma tracks_rises t0 p0 rs w : tracks t0 p0 rs w -> rs <> [] ->
  exists r0, last_rise rs r0 /\ last_anchor w = Some (rd_anchor r0) /\ anchor_since w = rd_now r0.
Proof.
  unfold tracks. destruct (last_change p0 t0 rs). intros (_ & _ & Hw) Hne. by destruct rs.
Qed.

Lemma tracks_snoc t0 p0 rs r r0 w :
  last_rise (rs ++ [r]) r0 ->
  w = mkWatchdog (Some (rd_anchor r0)) (rd_now r0) (last_change p0 t0 (rs ++ [r])).1
        (last_change p0 t0 (rs ++ [r])).2 -> tracks t0 p0 (rs ++ [r]) w.
Proof.
  intros Hr ->. unfold tracks. destruct (last_change _ _ _) as [p t]. split; [done|]. split; [done|].
  destruct (rs ++ [r]) eqn:E; [by destruct rs|]. eauto.
Qed.

Definition restart_due (t0 p0 : Z) (pre : list Reading) (r : Reading) (s : Node) : Prop :=
  exists r0 head s', last_rise pre r0 /\ rd_anchor r <= rd_anchor r0 /\
    deadline <= rd_now r - rd_now r0 /\
    rd_now r - (last_change p0 t0 (pre ++ [r])).2 < deadline /\
    get_block_number s = (Returned (Ok head), s') /\ saturating_add_u64 (rd_anchor r) depth < head.

Lemma watchdog_check_spec t0 p0 pre w r s o s' :
  tracks t0 p0 pre w -> watchdog_check depth deadline w r s = (Returned (Ok o), s') ->
  match o with
  | None => restart_due t0 p0 pre r s
  | Some w' => tracks t0 p0 (pre ++ [r]) w' /\ ~ restart_due t0 p0 pre r s
  end.
Proof.
  intros Ht E. unfold watchdog_check in E. cbv zeta in E.
  set (w1 := if negb (rd_progress r =? last_progress w) then _ else w) in E.
  assert (Hw1 : last_progress w1 = (last_change p0 t0 (pre ++ [r])).1 /\
    consensus_since w1 = (last_change p0 t0 (pre ++ [r])).2 /\
    last_anchor w1 = last_anchor w /\ anchor_since w1 = anchor_since w).
  { rewrite last_change_snoc. unfold tracks in Ht. destruct (last_change p0 t0 pre) as [p t].
    destruct Ht as (<- & <- & _). subst w1. simpl.
    by destruct (rd_progress r =? last_progress w) eqn:Ep; simpl; zbool. }
  clearbody w1. destruct Hw1 as (Hp & Hc & Ha & Hs). rewrite Ha, Hs in E.
  assert (Hdue : restart_due t0 p0 pre r s -> exists r0, last_rise pre r0) by (intros (? & ? & ? & ? & _); eauto).
  destruct (decide (pre = [])) as [->|Hne].
  { assert (Hn : last_anchor w = None) by (unfold tracks in Ht; simpl in Ht; by destruct_and!).
    rewrite Hn in E. unfold mret, Rpc_ret in E. injection E as <- <-. split.
    - apply tracks_snoc with r; [|by rewrite Hp, Hc]. exists [], []. by split_and!.
    - intros [r0 Hr0]%Hdue. by apply last_rise_nonempty in Hr0. }
  destruct (tracks_rises _ _ _ _ Ht Hne) as (r0 & Hr0 & Hla & Hsince). rewrite Hla, Hsince in E.
  assert (Hfresh : forall r1, last_rise pre r1 -> r1 = r0) by (intros; by eapply last_rise_unique).
  apply last_rise_snoc with (r := r) in Hr0 as Hsnoc.
  destruct (rd_anchor r0 <? rd_anchor r) eqn:Erise; zbool.
  { unfold mret, Rpc_ret in E. injection E as <- <-. split; [by apply tracks_snoc with r; rewrite ?Hp, ?Hc|].
    intros (r1 & ? & ? & ->%Hfresh & ? & _). lia. }
  assert (Hkeep : tracks t0 p0 (pre ++ [r]) w1).
  { apply tracks_snoc with r0; [done|]. destruct w1; simpl in *. congruence. }
  destruct (rd_now r - rd_now r0 <? deadline) eqn:Est; zbool.
  { unfold mret, Rpc_ret in E. injection E as <- <-. split; [done|].
    intros (r1 & ? & ? & ->%Hfresh & _ & ? & _). lia. }
  apply bind_returned in E as (head & s1 & Eh & E). apply attempt_deadline in Eh.
  unfold anchor_stall_warrants_restart in E. rewrite Hc in E.
  rewrite (proj2 (Z.leb_le _ _) Est) in E. simpl andb in E.
  destruct (_ && _) eqn:Ew in E; unfold mret, Rpc_ret in E; injection E as <- <-.
  - zbool. destruct head as [head|]; [zbool|done]. exists r0, head, s1. by split_and!.
  - split; [done|]. intros (r1 & hd & s2 & ->%Hfresh & _ & _ & Halive & Ehd & Hahead).
    rewrite (proj2 (Z.ltb_lt _ _) Halive) in Ew. simpl in Ew.
    destruct head as [head|]; [|by apply Eh in Ehd]. zbool. rewrite Eh in Ehd. injection Ehd as -> ->. lia.
Qed.

Lemma watchdog_run_tracks t0 p0 pre rs w s w' s' :
  tracks t0 p0 pre w -> watchdog_run w rs s = (Returned (Ok (Some w')), s') ->
  tracks t0 p0 (pre ++ rs) w'.
Proof.
  revert pre w s. induction rs as [|r rs IH]; intros pre w s Ht E.
  { unfold watchdog_run, mret, Rpc_ret in E. injection E as <- <-. by rewrite app_nil_r. }
  cbn [watchdog_run] in E. apply bind_returned in E as (o & s1 & Ec & E).
  apply (watchdog_check_spec _ _ _ _ _ _ _ _ Ht) in Ec. destruct o as [w1|]; [|done].
  destruct Ec as [Hw1 _]. specialize (IH _ _ _ Hw1 E). by rewrite <- app_assoc in IH.
Qed.

(** C25: The watchdog restarts the guardian exactly when it should: at a check where the
    anchor has not risen for the deadline since the reading that brought it to its
    height, while consensus items have been ordered within the deadline and the node
    reports a head beyond the anchor's depth; never before, and never in an outage of
    the chain or of consensus. *)
Theorem watchdog_restarts_exactly t0 p0 pre w r s s1 s2 o :
  watchdog_run (watchdog_start t0 p0) pre s = (Returned (Ok (Some w)), s1) ->
  watchdog_check depth deadline w r s1 = (Returned (Ok o), s2) ->
  (o = None <-> restart_due t0 p0 pre r s1).
Proof.
  intros Hrun E. assert (Ht : tracks t0 p0 pre w).
  { apply (watchdog_run_tracks t0 p0 [] pre (watchdog_start t0 p0) s w s1); [|done]. by split_and!. }
  pose proof (watchdog_check_spec _ _ _ _ _ _ _ _ Ht E) as Hspec.
  destruct o as [w'|]; [|by split]. split; [done|]. by intros ?%Hspec.
Qed.
End watchdog.

(** Guardians that see the same stall restart one after the other: their deadlines are
    at least the stagger apart. *)
Lemma restarts_staggered p q : p < q ->
  watchdog_deadline p + ANCHOR_STALL_RESTART_STAGGER_SECS <= watchdog_deadline q.
Proof. unfold watchdog_deadline, ANCHOR_STALL_RESTART_STAGGER_SECS. lia. Qed.

(** ** What the observers propose is what the handlers accept *)

Section proposals.
Context {Node : Type} `{EvmRpc Node} `{Evm}.

Lemma observe_residuals_spec in_flight records s l s' :
  observe_residuals in_flight records s = (Returned (Ok l), s') ->
  Forall (fun '(account, wei) => (account ∉ in_flight) /\ RESIDUAL_RECOVERY_MIN_WEI <= wei /\
    exists record, (account, record) ∈ records /\ 0 < credited record /\
      swept record = credited record) l.
Proof.
  revert s l. induction records as [|[a r] records IH]; intros s l E; cbn [observe_residuals] in E.
  { unfold mret, Rpc_ret in E. injection E as <- _. constructor. }
  assert (Hweak : forall l0 s0, observe_residuals in_flight records s0 = (Returned (Ok l0), s') ->
    Forall (fun '(account, wei) => (account ∉ in_flight) /\ RESIDUAL_RECOVERY_MIN_WEI <= wei /\
      exists record, (account, record) ∈ (a, r) :: records /\ 0 < credited record /\
        swept record = credited record) l0).
  { intros l0 s0 E0. eapply Forall_impl; [by eapply IH|]. intros [b wei] (? & ? & r' & ? & ?).
    split_and!; [done..|]. exists r'. split; [by right|done]. }
  destruct (_ || _) eqn:Eskip; [by eauto|].
  apply bind_returned in E as (res & s1 & _ & E). apply bind_returned in E as (rest & s2 & Er & E).
  unfold mret, Rpc_ret in E. injection E as <- ->.
  apply Hweak in Er. destruct res as [wei|]; [|done]. destruct (_ <=? wei) eqn:Em; [|done].
  constructor; [|done]. apply orb_false_iff in Eskip as [Esw Efl]. zbool.
  split; [done|]. split.
  - unfold try_u64. destruct (wei <=? U64_MAX) eqn:Ew; simpl; [done|].
    unfold RESIDUAL_RECOVERY_MIN_WEI, U64_MAX. lia.
  - exists r. split; [by left|]. done.
Qed.

(** A proposal of the residual observer passes the handler's guards in the tables it was
    made from, unless this guardian has cast the same vote already. *)
Lemma residual_proposals_accepted self d g g' s s' account wei peer :
  residual_tick self d g s = (Returned (Ok g'), s') ->
  (account, wei) ∈ residual_recovery_proposals g' ->
  (account, wei) ∈ residual_recovery_proposals g \/
  ((account ∉ recoveries_in_flight d) /\
   match process_recover_residual self account wei peer d with
   | (Ok _, _) => True
   | (Err e, _) => e = RedundantResidualVote
   end).
Proof.
  unfold residual_tick. intros E Hin. case_bool_decide; [unfold mret, Rpc_ret in E; injection E as <- _; by left|].
  apply bind_returned in E as (l & s1 & El & E). unfold mret, Rpc_ret in E. injection E as <- _.
  simpl in Hin. right. apply observe_residuals_spec in El. rewrite Forall_forall in El.
  destruct (El _ Hin) as (Hfl & _ & r & Hr & Hc & Hs). split; [done|].
  apply elem_of_map_to_list in Hr. unfold process_recover_residual. simpl. rewrite Hr. simpl.
  rewrite (proj2 (Z.ltb_lt _ _) Hc), Hs, Z.eqb_refl. simpl. by case_bool_decide.
Qed.

(** The observed block is confirmation-deep, not too old, and known to the node. *)
Lemma block_hash_proposal_accepted self d g g' s s' peer obs :
  0 <= confirmation_depth (cfg self) <= I64_MAX -> is_u64 (consensus_block_count self d) ->
  block_hash_proposals g = None ->
  observe_block_hash self d g s = (Returned (Ok g'), s') ->
  block_hash_proposals g' = Some obs ->
  obs_height obs <= block_count g /\
  match process_block_hash self obs peer d with
  | (Ok _, _) => True
  | (Err e, _) => e = RedundantBlockHash
  end.
Proof.
  intros Hdepth Hc Hg E Ho. unfold observe_block_hash in E. cbv zeta in E.
  destruct (_ && _) eqn:Ek; [|unfold mret, Rpc_ret in E; injection E as <- _; congruence].
  apply bind_returned in E as (r & s1 & _ & E). unfold mret, Rpc_ret in E. injection E as <- _.
  destruct r as [h|]; [|congruence]. simpl in Ho. injection Ho as <-. zbool. split; [done|].
  unfold process_block_hash. simpl. unfold saturating_sub, u64_add, wrap64, DEPOSIT_VOTE_MAX_AGE_BLOCKS in *.
  unfold is_u64, U64_MAX, I64_MAX in *. rewrite (proj2 (Z.leb_le _ _)) by lia. simpl.
  rewrite Z.mod_small by lia. rewrite (proj2 (Z.leb_le _ _)) by lia. simpl. by case_bool_decide.
Qed.
End proposals.

(** ** A healthy node *)

Section witnesses.
#[local] Existing Instance demo_evm.

(** A synced node, at height 20, of the demo federation. *)
#[local] Instance healthy_node : EvmRpc unit := {|
  get_chain_id := mret 1;
  get_block_number := mret 20;
  get_block_hash _ := mret [7];
  get_erc20_balance _ _ _ := mret 0;
  get_storage_at _ _ _ := mret [];
  get_erc20_basis_points_rate _ := mret 0;
  get_transfer_logs _ _ _ := mret [];
  get_fee_estimate := mret demo_vote;
  get_code_len _ := mret 10;
  factory_get_address factory owner salt :=
    mret (create2_simple_account factory (simple_account_impl (cfg demo_usdt)) owner salt);
  factory_account_implementation _ := mret (simple_account_impl (cfg demo_usdt));
  broadcaster_eth_balance := mret (Some 5);
  ensure_create2_deployer := mret tt;
  deploy_factory _ := mret tt;
  submit_user_ops _ := mret tt;
  get_user_op_receipt _ := mret None;
  get_entrypoint_deposit _ := mret 0;
|}.

Definition demo_vouching : Caches :=
  push_bootstrap (mkBootstrapObservation true true true true true) demo_caches.

Lemma vouched_contracts_were_seen_witness : contracts_seen demo_claim (cfg demo_usdt).
Proof.
  apply (vouched_contracts_were_seen demo_claim (cfg demo_usdt) true demo_vouching demo_caches eq_refl).
  - apply rtc_once, (bootstrap_tick_step _ _ _ _ _ _ tt tt). vm_compute. reflexivity.
  - by left.
Defined.

(** Consensus goes on for twenty minutes while the anchor stays at block 5. *)
Lemma watchdog_restarts_exactly_witness :
  let pre := [mkReading 60 1 5; mkReading 660 2 5] in
  watchdog_check 1 1200 (mkWatchdog (Some 5) 60 2 660) (mkReading 1260 3 5) tt
    = (Returned (Ok None), tt) /\
  restart_due 1 1200 0 0 pre (mkReading 1260 3 5) tt.
Proof.
  cbv zeta. match goal with |- ?E /\ _ => assert (Hr : E) by reflexivity end. split; [exact Hr|].
  apply (watchdog_restarts_exactly 1 1200 0 0 [mkReading 60 1 5; mkReading 660 2 5]
    (mkWatchdog (Some 5) 60 2 660) _ tt tt tt None); [reflexivity|exact Hr|reflexivity].
Defined.
End witnesses.
