(* ===== verification/UsdtReadable.v ===== *)
(** * Every operation can be read back

    Settlement and the guardians' observers read the amount an operation moves from its
    own calldata and treat a failure as an invariant violation
    ([confirmation_of], [effective_swept]).  In a reachable ledger there is none: every
    pending and submitted operation decodes. *)

From S2P Require Import Prelude FedimintCore UsdtTypes UsdtEvm UsdtUserOp UsdtSigning UsdtProof.
From S2P Require Import UsdtDb UsdtServer UsdtHandlers UsdtLedger UsdtTriggers UsdtSettlement.
From S2P Require Import UsdtConfirm UsdtSolvency.

Section readable.
Context `{AbiOk} (self : Usdt).

(** The decoder its purpose calls for succeeds on the operation. *)
Definition reads (p : UserOpPurpose) (op : UnsignedUserOp) : Prop :=
  match p with
  | DeployAndSweep _ => exists x, decode_transfer_amount op = Ok x
  | Withdraw _ | WithdrawFees _ _ => exists x, decode_batch_transfer_total op = Ok x
  | RecoverResidualOp _ => True
  end.

Definition readable (d : UsdtDb) : Prop := forall h b op p, live d h b op p -> reads p op.
Definition keeps (d d' : UsdtDb) : Prop := readable d -> readable d'.

#[export] Instance keeps_preorder : PreOrder keeps.
Proof. split; [by intros d ?|]. intros d1 d2 d3 H12 H23 Hd. by apply H23, H12. Qed.

Lemma keeps_sub d d' : (forall h b op p, live d' h b op p -> exists h' b', live d h' b' op p) -> keeps d d'.
Proof. intros Hsub Hd h b op p (h' & b' & Hl)%Hsub. by eapply Hd. Qed.

Lemma keeps_same d d' : pending d' = pending d -> submitted d' = submitted d -> keeps d d'.
Proof.
  intros Ep Es. apply keeps_sub. intros h b op p Hl. exists h, b. destruct b; simpl in *; by rewrite <- ?Ep, <- ?Es.
Qed.

Lemma keeps_enqueue h q d : reads (p_purpose q) (p_op q) -> keeps d (set_pending (insert h q) d).
Proof. intros Hq Hd h' b op p [(-> & _ & -> & ->)|Hl]%live_pending_insert; [done|]. by eapply Hd. Qed.

Lemma enqueue_op_keeps op p blk d : reads p op -> keeps d (enqueue_op self op p blk d).
Proof.
  intros Hop. unfold enqueue_op.
  destruct (start_session_frame self (UserOp (op_hash_of self op))
    (eth_signed_message_hash (op_hash_of self op)) 0
    (set_pending (insert (op_hash_of self op) (mkPendingUserOp op p blk)) d)) as [f ->].
  etrans; [by apply (keeps_enqueue (op_hash_of self op) (mkPendingUserOp op p blk))|]. by apply keeps_same.
Qed.

Lemma start_session_keeps p dg a d : keeps d (start_session self p dg a d).
Proof. destruct (start_session_frame self p dg a d) as [f ->]. by apply keeps_same. Qed.

(** ** Triggers *)

Definition records_ok (d : UsdtDb) : Prop := map_Forall (fun _ r => record_ok r) (deposits d).

Lemma maybe_trigger_sweep_keeps a d : records_ok d -> keeps d (maybe_trigger_sweep self a d).
Proof.
  intros Hr. unfold maybe_trigger_sweep. destruct (deposits d !! a) as [r|] eqn:Er; [|reflexivity].
  repeat (case_match; try reflexivity). apply enqueue_op_keeps.
  destruct (Hr a r Er) as [Hs _ Hc _]. simpl. unfold sweep_op. rewrite decode_sweep; [eauto|].
  simpl. unfold saturating_sub. unfold_widths. lia.
Qed.

Lemma maybe_trigger_sweep_deposits a d : deposits (maybe_trigger_sweep self a d) = deposits d.
Proof.
  unfold maybe_trigger_sweep. repeat (case_match; try done). unfold enqueue_op.
  match goal with |- context [start_session self ?p ?dg ?a ?d0] =>
    destruct (start_session_frame self p dg a d0) as [? ->] end. done.
Qed.

Lemma accelerate_sweeps_keeps d : records_ok d -> keeps d (accelerate_sweeps_for_withdrawals self d).
Proof.
  unfold accelerate_sweeps_for_withdrawals. generalize (map_to_list (deposits d)) as l.
  intros l. revert d. induction l as [|[a r] l IH]; intros d Hr; simpl; [reflexivity|].
  case_match; [|by apply IH]. etrans; [by apply maybe_trigger_sweep_keeps|]. apply IH.
  unfold records_ok. by rewrite maybe_trigger_sweep_deposits.
Qed.

Lemma maybe_trigger_residual_recovery_keeps a d : keeps d (maybe_trigger_residual_recovery self a d).
Proof.
  unfold maybe_trigger_residual_recovery. repeat (case_match; try reflexivity). by apply enqueue_op_keeps.
Qed.

Lemma transfer_total_ok ws acc :
  0 <= acc -> Forall (fun w => 0 <= w.2) ws -> acc + batch_total ws <= U64_MAX ->
  transfer_total acc (map (fun '(r, a) => abi_transfer r a) ws) = Ok (acc + batch_total ws).
Proof.
  intros Hacc HF. revert acc Hacc. induction HF as [|[r a] ws Ha HF IH]; intros acc Hacc Hmax; simpl in *.
  { by rewrite Z.add_0_r. }
  assert (0 <= batch_total ws) by (clear -HF; induction HF; simpl in *; lia).
  rewrite transfer_round_trip. simpl. rewrite (proj2 (try_u64_Some a a)) by lia. simpl.
  unfold checked_add_u64. rewrite (proj2 (Z.leb_le _ _)) by lia. simpl. rewrite IH by lia. f_equal. lia.
Qed.

Lemma pool_op_reads pool ws median :
  Forall (fun w => 0 <= w.2) ws -> batch_total ws <= U64_MAX ->
  decode_batch_transfer_total (pool_op self pool ws median) = Ok (batch_total ws).
Proof.
  intros HF Hmax. unfold decode_batch_transfer_total, pool_op, build_withdrawal_batch_userop. simpl.
  rewrite execute_batch_round_trip. simpl. rewrite !length_map, !Nat.eqb_refl. simpl.
  by rewrite transfer_total_ok by (done || lia).
Qed.

Lemma maybe_trigger_fee_withdrawal_keeps d n :
  books_core d n -> total_credited d <= U64_MAX -> keeps d (maybe_trigger_fee_withdrawal self d).
Proof.
  intros Hc Hb. unfold maybe_trigger_fee_withdrawal. case_match; [reflexivity|].
  destruct (agreed_fee_withdrawal self d) as [[recipient a]|] eqn:Ea; [|reflexivity].
  rewrite pool_or_default_balance. case_match; [reflexivity|].
  destruct (balance d <? a) eqn:Eb; [reflexivity|]. case_match; [reflexivity|]. zbool.
  apply agreed_fee_withdrawal_voted in Ea as (v & Hv & _ & <-). apply elem_of_values in Hv as [k Hv].
  pose proof (inv_fee_withdrawals _ _ Hc k v Hv) as Hpos. simpl in Hpos.
  pose proof (core_bounds d n Hc Hb). pose proof (core_nonneg d n Hc).
  apply enqueue_op_keeps. eexists. apply pool_op_reads; [by repeat constructor; simpl; lia|]. simpl. lia.
Qed.

Lemma maybe_trigger_withdrawal_batch_keeps d n :
  books_core d n -> total_credited d <= U64_MAX -> keeps d (maybe_trigger_withdrawal_batch self d).
Proof.
  intros Hc Hb. unfold maybe_trigger_withdrawal_batch. case_match; [reflexivity|].
  destruct (queued_withdrawals d) eqn:Eq; [reflexivity|]. rewrite <- Eq. clear Eq.
  case_match; [reflexivity|]. case_match; [apply accelerate_sweeps_keeps, (inv_records _ _ Hc)|].
  destruct (select_batch_spec d) as [Hnd Hsel]. set (sel := select_batch d _) in *. clearbody sel.
  unfold build_and_enqueue_withdrawal_batch. set (op := pool_op _ _ _ _). set (h := op_hash_of self op).
  change (fun (d : UsdtDb) (o : OutPoint) => set_wstates (insert o (Signing h)) d)
    with (fun (d : UsdtDb) (o : OutPoint) => put_wstate o (Signing h) d).
  rewrite foldl_put_wstate. etrans; [|apply start_session_keeps].
  etrans; [apply (keeps_enqueue h (mkPendingUserOp op (Withdraw sel.*1) (consensus_block_count self d)))|by apply keeps_same].
  destruct (unclaimed_sums d n sel.*1 Hc Hnd) as (_ & ? & Hsum).
  pose proof (core_bounds d n Hc Hb) as [_ Hq]. pose proof (core_nonneg d n Hc).
  pose proof (inv_accrued _ _ Hc). eexists. apply pool_op_reads.
  - apply Forall_fmap, Forall_fmap, Forall_forall. intros [o w] Ho. apply Hsel in Ho as [Ho _].
    by apply (inv_unclaimed _ _ Hc) in Ho as [? _].
  - rewrite <- (amount_sum_batch d) by (intros; by apply Hsel). lia.
Qed.

(** ** Handlers *)

Lemma apply_user_op_confirmed_keeps h obs d n :
  books_inv d n -> total_credited d <= U64_MAX -> 0 <= actual_gas_cost_wei obs ->
  keeps d (apply_user_op_confirmed self h obs d).
Proof.
  intros Hinv Hb Hg. unfold apply_user_op_confirmed.
  destruct (submitted d !! h) as [s|] eqn:Hs; [|by apply keeps_same].
  destruct (effective_swept s obs) as [x|] eqn:Hx; [|reflexivity].
  destruct (apply_purpose self s obs x d) as [d1 r] eqn:Ea.
  destruct (apply_purpose_tables _ _ _ _ _ _ _ Ea) as [Ep Es].
  destruct (apply_purpose_inv _ _ _ _ _ _ _ _ _ Hinv Hb Hs Hx Hg Ea) as [Hc1 _].
  set (d2 := remove_confirmed_votes h (set_submitted (delete h) d1)).
  destruct (purge_chain_spec (sender (unsigned (signed s))) (nonce (unsigned (signed s))) h d2)
    as [Hsb Hl]. set (d3 := purge_user_op_nonce_chain _ _ h d2) in *.
  assert (H3 : keeps d d3).
  { apply keeps_sub. intros h' b op p Hlive. apply Hl in Hlive as [Hlive _]. exists h', b.
    destruct b; simpl in *.
    - destruct Hlive as (s' & Hs' & ?). apply lookup_delete_Some in Hs' as [_ Hs']. rewrite Es in Hs'. eauto.
    - by rewrite Ep in Hlive. }
  etrans; [exact H3|]. destruct r as [a|]; [|reflexivity]. apply maybe_trigger_sweep_keeps.
  unfold records_ok. rewrite (sb_deposits _ _ Hsb). apply (inv_records _ _ Hc1).
Qed.

Lemma sign_keeps d h q s :
  pending d !! h = Some q -> unsigned (signed s) = p_op q -> s_purpose s = p_purpose q ->
  keeps d (set_pending (delete h) (set_submitted (insert h s) d)).
Proof.
  intros Hq Eop Ep. apply keeps_sub. intros h' b op p Hl. destruct b; simpl in *.
  - destruct Hl as (s' & Hs & <- & <-). rewrite lookup_insert in Hs. case_decide; simplify_eq/=.
    + exists h', false. simpl. exists q. by rewrite Eop, Ep.
    + exists h', true. simpl. eauto.
  - destruct Hl as (q' & Hq' & <- & <-). apply lookup_delete_Some in Hq' as [_ Hq'].
    exists h', false. simpl. eauto.
Qed.

Lemma signature_keeps sid sg d d' :
  process_mpc_signature self sid sg d = (Ok tt, d') -> keeps d d'.
Proof.
  intros E. unfold process_mpc_signature in E. run_inv E; ok_facts;
    (match goal with Hq : pending d !! _ = Some ?q |- context [set_submitted (insert ?h ?s)] =>
      etrans; [apply (sign_keeps d h q s Hq eq_refl eq_refl)|by apply keeps_same] end).
Qed.

(** Repricing does not touch the calldata. *)
Lemma reads_reprice p op fees : reads p op -> reads p (reprice op fees).
Proof. by destruct p. Qed.

Lemma replace_keeps h d d' : process_replace_user_op self h d = (Ok tt, d') -> keeps d d'.
Proof.
  intros E Hd. unfold process_replace_user_op in E. simpl in E.
  destruct (submitted d !! h) as [s|] eqn:Hs; simpl in E; [|done].
  assert (Hold : reads (s_purpose s) (unsigned (signed s))) by (apply (Hd h true); simpl; eauto).
  run_inv E. apply start_session_keeps.
  match goal with |- readable (set_submitted _ ?d1) => set (d2 := d1) end.
  assert (H2 : readable d2).
  { subst d2. destruct (s_purpose s) as [|os| |] eqn:Ep; rewrite ?foldl_put_wstate;
      try (apply (keeps_same (set_pending _ d)); [done..|]);
      apply keeps_enqueue; try done; simpl; rewrite ?Ep; by apply reads_reprice. }
  intros h' b op p Hl. destruct b; simpl in Hl; [|by apply (H2 h' false)].
  destruct Hl as (s' & Hs' & <- & <-). rewrite lookup_insert in Hs'. case_decide; simplify_eq/=; [done|].
  apply (H2 h' true). simpl. eauto.
Qed.

Context `{StateTrieOk} `{AmountsOk}.

Lemma item_keeps item peer d n d' :
  books_inv d n -> total_credited d <= U64_MAX -> item_wf item ->
  process_consensus_item self item peer d = (Ok tt, d') -> keeps d d'.
Proof.
  intros Hinv Hb Hwf E.
  destruct item as [vote|it|sid sig|sid|h su blk bh sw gas|vote|obs|h|obs|a wei|vote|v raw];
    simpl in E; [..|done].
  - unfold process_block_count in E. run_inv E.
    etrans; [|eapply (maybe_trigger_withdrawal_batch_keeps _ n); [|done]; by eapply books_core_frame; [|apply Hinv]].
    by apply keeps_same.
  - unfold process_mpc_round in E. run_inv E. case_match; by apply keeps_same.
  - by eapply signature_keeps.
  - unfold process_rotate_signing in E. run_inv E. etrans; [|apply start_session_keeps].
    by apply keeps_same.
  - unfold process_user_op_confirmed in E. run_inv E.
    match goal with |- keeps d (if _ then _ else ?d1) => set (d2 := d1) end.
    assert (Hb2 : books_inv d2 n) by (by apply (books_inv_same d); [split|..]).
    transitivity d2; [by apply keeps_same|].
    case_match; [by eapply apply_user_op_confirmed_keeps|reflexivity].
  - unfold process_fee_vote in E. run_inv E; by apply keeps_same.
  - unfold process_bootstrap_observation in E. run_inv E. case_match; by apply keeps_same.
  - by eapply replace_keeps.
  - unfold process_block_hash in E. run_inv E. case_match; [|by apply keeps_same].
    destruct (ring_frame (obs_height obs) (obs_block_hash obs)
      (set_block_hash_votes (insert peer obs) d)) as [f ->]. by apply keeps_same.
  - unfold process_recover_residual in E. run_inv E.
    etrans; [|apply maybe_trigger_residual_recovery_keeps]. by apply keeps_same.
  - unfold process_withdraw_fees_vote in E. run_inv E.
    match goal with |- keeps d (maybe_trigger_fee_withdrawal self ?d1) => set (d2 := d1) end.
    transitivity d2; [by apply keeps_same|]. apply (maybe_trigger_fee_withdrawal_keeps _ n); [|done].
    zbool. destruct Hinv as [[] _]. split; try done. by apply map_Forall_insert_2.
Qed.

Lemma step_keeps l l' : ledger_inv l -> ledger_step self l l' -> keeps (db l) (db l').
Proof.
  intros Hi Hstep. pose proof (ledger_step_inv self _ _ Hi Hstep) as [Hinv' _]. destruct Hi as [Hinv Hb].
  destruct Hstep as
    [l i meta d' Hwf E Hb'|l o op am d' Hwf Hfr E Hle Hb'|l it peer d' Hpeer Hwf E Hb']; simpl in *.
  - destruct i as [op|pk pr fee|v raw]; simpl in E; [| |done].
    + unfold process_refund in E. run_inv E. by apply keeps_same.
    + unfold process_deposit_proof in E. run_inv E.
      etrans; [|apply maybe_trigger_sweep_keeps]; [by apply keeps_same|].
      pose proof (inv_records _ _ Hinv') as Hr. by rewrite maybe_trigger_sweep_deposits in Hr.
  - destruct o as [w|v raw]; [|done]. unfold process_output in E. run_inv E. by apply keeps_same.
  - by eapply item_keeps.
Qed.

(** In every reachable ledger each live operation decodes by the decoder of its
    purpose. *)
Lemma reachable_readable l : reachable self l -> readable (db l).
Proof.
  intros Hr. assert (Hboth : ledger_inv l /\ readable (db l)); [|apply Hboth].
  eapply (rtc_invariant _ (fun l => ledger_inv l /\ readable (db l)));
    [| |exact Hr]; [|split; [apply genesis_inv|]].
  - intros l1 l2 [Hi Hd] Hs. split; [by eapply ledger_step_inv|]. by eapply step_keeps.
  - intros h [] op p; simpl; intros (? & Hx & _); by rewrite lookup_empty in Hx.
Qed.

(** Settlement of a submitted operation never fails to read its amount. *)
Lemma expected_swept_total l h s :
  reachable self l -> submitted (db l) !! h = Some s -> exists x, expected_swept s = Ok x.
Proof.
  intros Hr Hs. pose proof (reachable_readable l Hr h true (unsigned (signed s)) (s_purpose s)
    ltac:(simpl; eauto)) as Hx. unfold expected_swept, reads in *. destruct (s_purpose s); eauto.
Qed.
End readable.
