(* ===== verification/UsdtGuardian.v ===== *)
(** * From the chain to the books

    The path of a confirmation: an operation included on chain, the receipts the
    guardians' nodes show, the submitter tasks, the proposals and the consensus items
    that settle it. *)

From S2P Require Import Prelude FedimintCore UsdtTypes UsdtEvm UsdtUserOp UsdtSigning UsdtProof.
From S2P Require Import UsdtDb UsdtServer UsdtHandlers UsdtLedger UsdtTriggers UsdtSettlement.
From S2P Require Import UsdtConfirm UsdtSolvency UsdtEndpoints UsdtDemo UsdtReadable UsdtRpc UsdtTasks.

(** The instance of another guardian. *)
Definition at_peer (self : Usdt) (peer : PeerId) : Usdt :=
  mkUsdt (cfg self) (num_peers self) peer (in_test_env self).

Section items.
Context `{Evm}.

(** Core applies ordered items one by one and discards the writes of rejected ones. *)
Definition deliver (self : Usdt) (d : UsdtDb) (items : list (UsdtConsensusItem * PeerId)) : UsdtDb :=
  foldl (fun d '(item, peer) =>
    match process_consensus_item self item peer d with (Ok _, d') => d' | (Err _, _) => d end) d items.
End items.

(** The observation a receipt amounts to. *)
Definition observation (r : UserOpReceipt) (swept : UsdtAmount) : UserOpConfirmedObservation :=
  mkUserOpConfirmedObservation (rcpt_success r) (rcpt_block r) (rcpt_block_hash r) swept
    (rcpt_actual_gas_cost_wei r).

(** ** The tick proposes what it saw *)

Section tick.
Context {Node : Type} `{EvmRpc Node} `{Evm}.

Lemma tend_ops_grows depth ccount ops g s g' s' :
  tend_ops depth ccount ops g s = (Returned (Ok g'), s') ->
  exists l, user_op_confirmed_proposals g' = user_op_confirmed_proposals g ++ l.
Proof.
  revert g s. induction ops as [|[h rec] ops IH]; intros g s E; cbn [tend_ops] in E.
  { unfold mret, Rpc_ret in E. injection E as <- _. exists []. by rewrite app_nil_r. }
  apply bind_returned in E as (p & s1 & _ & E). apply IH in E as [l ->].
  destruct p as [p|]; [exists (p :: l)|by exists l]. simpl. by rewrite <- app_assoc.
Qed.

Lemma tend_ops_app depth ccount pre post g :
  forall s g' s', tend_ops depth ccount (pre ++ post) g s = (Returned (Ok g'), s') ->
  exists g1 s1, tend_ops depth ccount pre g s = (Returned (Ok g1), s1) /\
    tend_ops depth ccount post g1 s1 = (Returned (Ok g'), s').
Proof.
  revert g. induction pre as [|[h rec] pre IH]; intros g s g' s' E; cbn [tend_ops app] in *.
  { by exists g, s. }
  apply bind_returned in E as (p & s1 & Ep & E). apply IH in E as (g1 & s2 & E1 & E2).
  exists g1, s2. split; [|done]. unfold mbind, Rpc_bind. by rewrite Ep.
Qed.

Lemma tend_ops_proposes depth ccount pre h rec post g s g1 s1 r s2 g' s' p :
  tend_ops depth ccount pre g s = (Returned (Ok g1), s1) ->
  get_user_op_receipt h s1 = (Returned (Ok (Some r)), s2) ->
  confirmation_of depth ccount h rec r = Some p ->
  tend_ops depth ccount (pre ++ (h, rec) :: post) g s = (Returned (Ok g'), s') ->
  p ∈ user_op_confirmed_proposals g'.
Proof.
  intros Epre Erec Ep E. apply tend_ops_app in E as (g2 & s3 & E1 & E).
  rewrite Epre in E1. injection E1 as <- <-. cbn [tend_ops] in E.
  apply bind_returned in E as (p' & s4 & Et & E).
  assert (Hp : p' = Some p).
  { unfold tend_op in Et. apply bind_returned in Et as (res & s5 & Ea & Et).
    unfold attempt, rpc_deadline, rpc_deadline_with in Ea. rewrite Erec in Ea. injection Ea as <- <-.
    unfold mret, Rpc_ret in Et. injection Et as <- _. done. }
  subst p'. apply tend_ops_grows in E as [l ->]. simpl. set_solver.
Qed.
End tick.

(** ** The items settle what was seen *)

(** The item a guardian proposes for an operation. *)
Definition confirmation (h : Hash) (obs : UserOpConfirmedObservation) : UsdtConsensusItem :=
  UserOpConfirmed h (success obs) (block obs) (block_hash obs) (obs_swept obs)
    (actual_gas_cost_wei obs).

Section settle.
Context `{AbiOk} (self : Usdt).

(** The guardians whose vote on [h] is [obs]. *)
Definition agreeing (h : Hash) (obs : UserOpConfirmedObservation) (d : UsdtDb) : nat :=
  length (filter (obs =.) (votes_on_op h d)).

Lemma agreeing_insert h obs i d :
  confirmed_votes d !! (h, i) <> Some obs ->
  agreeing h obs (set_confirmed_votes (insert (h, i) obs) d) = S (agreeing h obs d).
Proof.
  intros Hne. unfold agreeing, votes_on_op. cbn [confirmed_votes set_confirmed_votes].
  set (m := confirmed_votes d) in *.
  set (pick := fun '((h', _), v) => if bool_decide (h' = h) then Some v else None).
  rewrite <- insert_delete_eq, map_to_list_insert by apply lookup_delete_eq. simpl.
  rewrite bool_decide_eq_true_2, filter_cons_True by done. simpl. f_equal.
  destruct (m !! (h, i)) as [old|] eqn:Eo; [|by rewrite delete_id].
  rewrite <- (insert_delete_id m (h, i) old Eo) at 2.
  rewrite map_to_list_insert by apply lookup_delete_eq. simpl.
  rewrite bool_decide_eq_true_2, filter_cons_False by congruence. done.
Qed.

(** Of the votes that agree, all but the last are recorded; the last settles the
    operation, and what follows it is rejected. *)
Lemma deliver_settled gs h obs d :
  submitted d !! h = None -> deliver self d (map (fun i => (confirmation h obs, i)) gs) = d.
Proof.
  intros Hs. induction gs as [|i gs IH]; [done|]. unfold deliver in *. cbn [map foldl].
  cbn [process_consensus_item confirmation].
  unfold process_user_op_confirmed, ensure. simpl. by rewrite bool_decide_eq_false_2 by (rewrite Hs; by intros []).
Qed.

Lemma deliver_votes gs h s obs : forall d,
  submitted d !! h = Some s -> NoDup gs ->
  (forall i, i ∈ gs -> confirmed_votes d !! (h, i) <> Some obs) ->
  (agreeing h obs d < threshold (num_peers self) <= agreeing h obs d + length gs)%nat ->
  (forall d, submitted d !! h = Some s -> submitted (apply_user_op_confirmed self h obs d) !! h = None) ->
  exists votes, deliver self d (map (fun i => (confirmation h obs, i)) gs)
    = apply_user_op_confirmed self h obs (set_confirmed_votes votes d).
Proof.
  induction gs as [|i gs IH]; intros d Hs Hnd Hnew Hth Hgone; simpl in Hth; [lia|].
  apply NoDup_cons in Hnd as [Hi Hnd]. set (d1 := set_confirmed_votes (insert (h, i) obs) d).
  assert (Hd1 : deliver self d (map (fun i => (confirmation h obs, i)) (i :: gs)) =
    deliver self (if (threshold (num_peers self) <=? agreeing h obs d1)%nat
                  then apply_user_op_confirmed self h obs d1 else d1)
      (map (fun i => (confirmation h obs, i)) gs)).
  { unfold deliver. cbn [map foldl process_consensus_item confirmation].
    unfold process_user_op_confirmed, reject_if, ensure. simpl.
    rewrite bool_decide_eq_true_2 by (rewrite Hs; eauto). simpl.
    rewrite bool_decide_eq_false_2 by (destruct obs; apply Hnew; set_solver). by destruct obs. }
  rewrite Hd1. clear Hd1. assert (Ea : agreeing h obs d1 = S (agreeing h obs d)) by
    (apply agreeing_insert, Hnew; set_solver).
  rewrite Ea. case_match eqn:Et.
  - rewrite deliver_settled; [|apply Hgone; exact Hs]. by exists (insert (h, i) obs).
  - apply Nat.leb_gt in Et. destruct (IH d1) as [votes ->]; [done..| | |done|].
    + intros j Hj. simpl. rewrite lookup_insert_ne by (intros [= ->]; done). apply Hnew. set_solver.
    + rewrite Ea. lia.
    + exists (votes ∘ insert (h, i) obs). by destruct d.
Qed.

Lemma maybe_trigger_sweep_submitted a d : submitted (maybe_trigger_sweep self a d) = submitted d.
Proof.
  unfold maybe_trigger_sweep. repeat (case_match; try done). unfold enqueue_op.
  match goal with |- context [start_session self ?p ?dg ?a ?d0] =>
    destruct (start_session_frame self p dg a d0) as [? ->] end. done.
Qed.

Lemma purge_drops snd n h d :
  submitted d !! h = None -> submitted (purge_user_op_nonce_chain snd n h d) !! h = None.
Proof.
  intros Hd. apply eq_None_not_Some. intros [s Hs].
  pose proof (proj2 (purge_chain_spec snd n h d) h true (unsigned (signed s)) (s_purpose s)
    ltac:(simpl; eauto)) as [(s' & Hs' & _) _]. congruence.
Qed.

(** Settlement retires the operation, and a batch that succeeded pays its withdrawals. *)
Lemma apply_confirmed_settles h s obs x d :
  submitted d !! h = Some s -> effective_swept s obs = Some x ->
  let d' := apply_user_op_confirmed self h obs d in
  submitted d' !! h = None /\
  (success obs = true -> forall os o, s_purpose s = Withdraw os -> o ∈ os ->
     wstates d' !! o = Some (Confirmed (block obs))).
Proof.
  intros Hs Hx. unfold apply_user_op_confirmed. rewrite Hs, Hx.
  destruct (apply_purpose self s obs x d) as [d1 r] eqn:Ea. cbv zeta.
  set (d2 := remove_confirmed_votes h (set_submitted (delete h) d1)).
  set (d3 := purge_user_op_nonce_chain _ _ h d2).
  assert (Hgone : submitted d3 !! h = None) by (apply purge_drops; simpl; apply lookup_delete_eq).
  split; [destruct r; [by rewrite maybe_trigger_sweep_submitted|done]|].
  intros Hsu os o Ep Ho. unfold apply_purpose in Ea. rewrite Ep in Ea. injection Ea as <- <-.
  cbv iota. subst d3. rewrite (sb_wstates _ _ (proj1 (purge_chain_spec _ _ _ _))). subst d2. simpl.
  unfold apply_withdraw_confirmed. rewrite Hsu, foldl_settle. simpl.
  by rewrite lookup_foldl_insert, bool_decide_eq_true_2.
Qed.
End settle.

(** ** The whole path *)

Section path.
Context {Node : Type} `{EvmRpc Node} `{AbiOk} `{StateTrieOk} `{AmountsOk} (self : Usdt).

(** A guardian whose submitter tick reached operation [h] and got receipt [r] proposes
    the observation the receipt amounts to. *)
Lemma tick_confirms d h s r i pre post g st g1 s1 s2 g' st' x :
  saturating_add_u64 (rcpt_block r) (confirmation_depth (cfg self)) <= consensus_block_count self d ->
  (if rcpt_success r then expected_swept s = Ok x else x = 0) ->
  confirmed_votes d !! (h, i) <> Some (observation r x) ->
  tend_ops (confirmation_depth (cfg self)) (consensus_block_count self d) pre g st
    = (Returned (Ok g1), s1) ->
  get_user_op_receipt h s1 = (Returned (Ok (Some r)), s2) ->
  submitter_tick (at_peer self i) d (pre ++ (h, s) :: post) g st = (Returned (Ok g'), st') ->
  confirmation h (observation r x) ∈ (consensus_proposal (at_peer self i) g' d).1.
Proof.
  intros Hdeep Hx Hnew Epre Erec E.
  apply (tend_ops_proposes _ _ _ _ _ _ _ _ _ _ r s2 _ _
    (mkUserOpConfirmedProposal h (rcpt_success r) (rcpt_block r) (rcpt_block_hash r) x
      (rcpt_actual_gas_cost_wei r)) Epre Erec) in E.
  2:{ unfold confirmation_of. rewrite (proj2 (Z.ltb_ge _ _)) by done.
      destruct (rcpt_success r); [by rewrite Hx|by subst x]. }
  unfold consensus_proposal. cbn [fst]. rewrite !elem_of_app. do 8 right.
  unfold propose_confirmations. apply list_elem_of_omap. eexists. split; [exact E|].
  cbn. by rewrite bool_decide_eq_false_2.
Qed.

(** C7: An operation that is included on chain gets settled.  When a threshold of
    guardians each run a submitter tick in which their own node answers the same receipt,
    buried by the confirmation depth below the agreed height, every one of them proposes
    the same confirmation (the amount it needs is always readable in a reachable ledger),
    and the ordered proposals retire the operation; if it was a withdrawal batch that
    succeeded, every withdrawal in it is confirmed at the receipt's block. *)
Theorem confirmations_settle (l : Ledger) h s r (gs : list PeerId)
    (pre post : PeerId -> list (Hash * SubmittedUserOp)) (g g1 g' : PeerId -> Caches)
    (st s1 s2 st' : PeerId -> Node) :
  reachable self l -> submitted (db l) !! h = Some s ->
  saturating_add_u64 (rcpt_block r) (confirmation_depth (cfg self))
    <= consensus_block_count self (db l) ->
  NoDup gs -> (threshold (num_peers self) <= length gs)%nat ->
  (forall obs, agreeing h obs (db l) < threshold (num_peers self))%nat ->
  (forall i, i ∈ gs -> confirmed_votes (db l) !! (h, i) = None) ->
  (forall i, i ∈ gs ->
    tend_ops (confirmation_depth (cfg self)) (consensus_block_count self (db l)) (pre i) (g i) (st i)
      = (Returned (Ok (g1 i)), s1 i) /\
    get_user_op_receipt h (s1 i) = (Returned (Ok (Some r)), s2 i) /\
    submitter_tick (at_peer self i) (db l) (pre i ++ (h, s) :: post i) (g i) (st i)
      = (Returned (Ok (g' i)), st' i)) ->
  exists item,
    (forall i, i ∈ gs -> item ∈ (consensus_proposal (at_peer self i) (g' i) (db l)).1) /\
    let d' := deliver self (db l) (map (fun i => (item, i)) gs) in
    submitted d' !! h = None /\
    (rcpt_success r = true -> forall os o, s_purpose s = Withdraw os -> o ∈ os ->
       wstates d' !! o = Some (Confirmed (rcpt_block r))).
Proof.
  intros Hr Hs Hdeep Hnd Hth Hag Hnew Hticks.
  assert (exists x, if rcpt_success r then expected_swept s = Ok x else x = 0) as [x Hx].
  { destruct (rcpt_success r); [by eapply expected_swept_total|eauto]. }
  set (obs := observation r x). exists (confirmation h obs). split.
  { intros i Hi. destruct (Hticks i Hi) as (Epre & Erec & E).
    eapply tick_confirms; [done..| |exact Epre|exact Erec|exact E]. by rewrite Hnew. }
  assert (Heff : effective_swept s obs = Some (if rcpt_success r then x else 0)).
  { unfold effective_swept. cbn. destruct (rcpt_success r); [|done]. by rewrite Hx, Z.eqb_refl. }
  destruct (deliver_votes self gs h s obs (db l)) as [votes Ed]; [done..| | | |].
  - intros i Hi. by rewrite Hnew.
  - specialize (Hag obs). lia.
  - intros d Hd. by eapply (apply_confirmed_settles self h s obs).
  - cbv zeta. rewrite Ed. by eapply (apply_confirmed_settles self h s obs).
Qed.
End path.

Section witness.
#[local] Existing Instance demo_evm.
#[local] Existing Instance demo_abi_ok.
#[local] Existing Instance toy_trie.
#[local] Existing Instance toy_trie_ok.
#[local] Existing Instance map_amounts.
#[local] Existing Instance map_amounts_ok.

Definition demo_receipt : UserOpReceipt := mkUserOpReceipt true 18 [7] 5.

(** A node that saw every operation included in block 18 and answers nothing else. *)
#[local] Instance demo_node : EvmRpc unit := {|
  get_chain_id := rpc_fail NodeError;
  get_block_number := rpc_fail NodeError;
  get_block_hash _ := rpc_fail NodeError;
  get_erc20_balance _ _ _ := rpc_fail NodeError;
  get_storage_at _ _ _ := rpc_fail NodeError;
  get_erc20_basis_points_rate _ := rpc_fail NodeError;
  get_transfer_logs _ _ _ := rpc_fail NodeError;
  get_fee_estimate := rpc_fail NodeError;
  get_code_len _ := rpc_fail NodeError;
  factory_get_address _ _ _ := rpc_fail NodeError;
  factory_account_implementation _ := rpc_fail NodeError;
  broadcaster_eth_balance := rpc_fail NodeError;
  ensure_create2_deployer := rpc_fail NodeError;
  deploy_factory _ := rpc_fail NodeError;
  submit_user_ops _ := rpc_fail NodeError;
  get_user_op_receipt _ := mret (Some demo_receipt);
  get_entrypoint_deposit _ := rpc_fail NodeError;
|}.

#[local] Instance proposal_eq_dec : EqDecision UserOpConfirmedProposal.
Proof. solve_decision. Defined.

#[local] Opaque demo_ledger4.

(** The caches after the tick, whatever was submitted. *)
Definition demo_tick : Caches :=
  push_confirmations [mkUserOpConfirmedProposal (first_key (submitted (db demo_ledger4)))
    true 18 [7] 10000000 5] demo_caches.

Lemma demo_tend h s :
  tend_ops 1 20 [(h, s)] demo_caches tt
  = (Returned (Ok (match confirmation_of 1 20 h s demo_receipt with
                   | Some p => push_confirmations [p] demo_caches | None => demo_caches end)), tt).
Proof. reflexivity. Qed.

Lemma confirmations_settle_witness :
  let d := db demo_ledger4 in
  exists item, item ∈ (consensus_proposal (at_peer demo_usdt 0) demo_tick d).1 /\
    let d' := deliver demo_usdt d [(item, 0)] in
    submitted d' !! first_key (submitted d) = None /\
    wstates d' !! demo_out_point = Some (Confirmed 18).
Proof.
  intros d. set (h := first_key (submitted d)).
  assert (Hp : bool_decide (s_purpose <$> submitted d !! h = Some (Withdraw [demo_out_point])) = true)
    by (vm_compute; reflexivity).
  assert (Hx : bool_decide ((fun s => confirmation_of 1 20 h s demo_receipt) <$> submitted d !! h
    = Some (head (user_op_confirmed_proposals demo_tick))) = true) by (vm_compute; reflexivity).
  assert (Hv : bool_decide (map_to_list (confirmed_votes d) = []) = true) by (vm_compute; reflexivity).
  apply bool_decide_eq_true in Hp, Hx, Hv. apply fmap_Some_1 in Hp as (s & Hs & Hp).
  rewrite Hs in Hx. apply (inj Some) in Hx.
  destruct (confirmations_settle demo_usdt demo_ledger4 h s demo_receipt [0] (fun _ => [])
    (fun _ => []) (fun _ => demo_caches) (fun _ => demo_caches) (fun _ => demo_tick)
    (fun _ => tt) (fun _ => tt) (fun _ => tt) (fun _ => tt)) as (item & Hin & Hgone & Hpaid).
  - apply demo_reachable4.
  - exact Hs.
  - vm_compute. discriminate.
  - apply NoDup_singleton.
  - vm_compute. lia.
  - intros obs. unfold agreeing, votes_on_op. fold d. rewrite Hv. vm_compute. lia.
  - intros i _. apply eq_None_not_Some. intros [v Hl%elem_of_map_to_list]. fold d in Hl.
    rewrite Hv in Hl. by apply elem_of_nil in Hl.
  - intros i _. split; [done|]. split; [done|]. fold d.
    assert (Hc : consensus_block_count (at_peer demo_usdt i) d = 20) by (vm_compute; reflexivity).
    unfold submitter_tick. rewrite Hc. cbn [app]. by rewrite demo_tend, Hx.
  - exists item. split; [exact (Hin 0 (list_elem_of_here 0 []))|]. split; [exact Hgone|].
    exact (Hpaid eq_refl _ _ (eq_sym Hp) (list_elem_of_here _ [])).
Defined.
End witness.
