(* ===== verification/UsdtSigners.v ===== *)
(** * The guardians' signers

    [modules/usdt/fedimint-usdt-server/src/signing.rs] and the guardian-local half of
    the signing protocol in [lib.rs] ([start_session], [process_mpc_round],
    [advance_local_signer]): every guardian of a signing session parks a CGGMP21 state
    machine between the rounds that consensus completes.  The machine, its key share
    and the ECDSA conversions are an interface; [MpcDriver] is the thread it runs on. *)

From S2P Require Import Prelude MpcCodec MpcDriver MpcMesh.
From S2P Require Import FedimintCore UsdtTypes UsdtEvm UsdtUserOp UsdtSigning UsdtProof.
From S2P Require Import UsdtDb UsdtServer UsdtHandlers UsdtEndpoints.

Definition SIGNING_EID_PREFIX : string := "fedimint-usdt-signing-eid/".

(** cggmp21's signing protocol, whose output is a signature or an error, and
    libsecp256k1's conversions. *)
Class Cggmp {SM Sig Msg : Type} `{RoundCrypto} `{StateMachine SM (result string Sig) Msg} := {
  KeyShare : Type;
  EcdsaSignature : Type;
  signing : bytes -> PartyIndex -> list PartyIndex -> KeyShare -> Hash -> SM;
  sig_r : Sig -> bytes;
  sig_s : Sig -> bytes;
  from_compact : bytes -> option EcdsaSignature;
  normalize_s : EcdsaSignature -> EcdsaSignature;
  serialize_compact : EcdsaSignature -> bytes;
}.

Section signers.
Context `{Evm} `{Cggmp} `{Serde RoundPacket} `{Serde Msg}.
(** The iterations a machine needs between two rounds, at most. *)
Variable fuel : nat.

(** [convert_signature] of [crypto/threshold-ecdsa/src/lib.rs]. *)
Definition convert_signature (sig : Sig) : option EcdsaSignature :=
  normalize_s <$> from_compact (sig_r sig ++ sig_s sig).

(** ** Threads *)

Record ProtocolHandle := mkProtocolHandle {
  ph_wire : Wire Msg bytes;
  ph_index : PartyIndex;
  ph_n : PartyIndex;
  ph_thread : Thread SM (result string Sig) Msg bytes;
}.

Record SessionSlot := mkSessionSlot {
  handle : ProtocolHandle;
  pending_outgoing : option bytes;
  slot_round : Z;
  done : bool;
}.

(** The parts of [UsdtConfig] the signer uses. *)
Record SignerConfig := mkSignerConfig {
  key_share : KeyShare;
  mpc_encryption_sk : SecretKey;
  mpc_encryption_pks : gmap PeerId MpcCodec.PublicKey;
}.

Definition position (our_peer_id : PeerId) (subset : list PeerId) : option PartyIndex :=
  Z.of_nat ∘ fst <$> list_find (fun p => p = our_peer_id) subset.

(** What the thread is built from: position, size, codec, machine.  [None] when we are
    no signer; the missing key of a signer is a panic, here no thread either. *)
Definition spawn_parts (session_id digest : Hash) (subset : list PeerId) (our_peer_id : PeerId)
    (cfg : SignerConfig) : option (PartyIndex * PartyIndex * EncryptedRoundCodec * SM) :=
  our_pos ← position our_peer_id subset;
  signer_enc_pks ← mapM (fun peer => mpc_encryption_pks cfg !! peer) subset;
  let eid_bytes := ascii_bytes SIGNING_EID_PREFIX ++ session_id in
  Some (our_pos, Z.of_nat (length subset),
        mkEncryptedRoundCodec our_pos (mpc_encryption_sk cfg) signer_enc_pks eid_bytes,
        signing eid_bytes our_pos subset (key_share cfg) digest).

Definition spawn_signing_session (session_id digest : Hash) (signers : list PeerId)
    (our_peer_id : PeerId) (cfg : SignerConfig) (coins : Z -> PartyIndex -> SecretKey * Nonce)
    : option ProtocolHandle :=
  '(our_pos, t, codec, machine) ←
    spawn_parts session_id digest (merge_sort Z.le signers) our_peer_id cfg;
  let wire := encrypted_wire codec coins in
  mkProtocolHandle wire our_pos t <$> resume wire fuel (MpcDriver.start machine).

Definition pump_slot_outgoing (slot : SessionSlot) : SessionSlot :=
  match pending_outgoing slot, done slot with
  | None, false =>
      match next_outgoing (ph_thread (handle slot)) with
      | Some payload => mkSessionSlot (handle slot) (Some payload) (slot_round slot) false
      | None => mkSessionSlot (handle slot) None (slot_round slot) true
      end
  | _, _ => slot
  end.

(** ** A guardian's signers *)

Record Locals := mkLocals {
  signing_sessions : gmap Hash SessionSlot;
  completed_signatures : gmap Hash bytes;
  signature_proposals : list (Hash * bytes);
}.

(** The guardian-local effect of [start_session]. *)
Definition start_local_signer (session_id digest : Hash) (signers : list PeerId)
    (our_peer_id : PeerId) (cfg : SignerConfig) (coins : Z -> PartyIndex -> SecretKey * Nonce)
    (l : Locals) : Locals :=
  match spawn_signing_session session_id digest signers our_peer_id cfg coins with
  | Some handle =>
      let slot := pump_slot_outgoing (mkSessionSlot handle None 0 false) in
      mkLocals (<[session_id := slot]> (signing_sessions l)) (completed_signatures l)
        (signature_proposals l)
  | None => l
  end.

(** [into_output]: the protocol's errors and the driver's are one. *)
Definition signature_of (t : Thread SM (result string Sig) Msg bytes) : option Sig :=
  match into_output t with Some (Ok (Ok sig)) => Some sig | _ => None end.

Definition advance_local_signer (session_id : Hash) (round : Z) (payloads : list bytes) (l : Locals)
    : option Locals :=
  match signing_sessions l !! session_id with
  | None => Some l
  | Some slot =>
      let h := handle slot in
      let l := mkLocals (delete session_id (signing_sessions l)) (completed_signatures l)
                 (signature_proposals l) in
      match submit_round (ph_wire h) (ph_index h) (ph_n h) fuel payloads (ph_thread h) with
      | Err _ => Some l
      | Ok None => None
      | Ok (Some thread) =>
          let h := mkProtocolHandle (ph_wire h) (ph_index h) (ph_n h) thread in
          let slot := pump_slot_outgoing (mkSessionSlot h None round (done slot)) in
          if negb (done slot)
          then Some (mkLocals (<[session_id := slot]> (signing_sessions l)) (completed_signatures l)
                       (signature_proposals l))
          else
            match sig ← signature_of thread; convert_signature sig with
            | Some sig =>
                let sig_bytes := serialize_compact sig in
                Some (mkLocals (signing_sessions l)
                        (<[session_id := sig_bytes]> (completed_signatures l))
                        (signature_proposals l ++ [(session_id, sig_bytes)]))
            | None => Some l
            end
      end
  end.

(** The rest of [process_mpc_round]: what the guardian does when the item completes its
    round. [d] is the database the item leaves. *)
Definition after_mpc_round (our_peer_id : PeerId) (item : MpcRoundItem) (session : SigningSession)
    (d : UsdtDb) (l : Locals) : option Locals :=
  let sid := mpc_session_id item in
  let r := mpc_round item in
  let subset := merge_sort Z.le (signers session) in
  if negb (forallb (peer_complete sid r d) subset) then Some l
  else if negb (bool_decide (our_peer_id ∈ subset)) then Some l
  else
    let payloads := reassembled sid r d <$> subset in
    if existsb (fun p => MAX_MPC_ROUND_BYTES <? Z.of_nat (length p)) payloads then Some l
    else advance_local_signer sid (u16_add r 1) payloads l.

(** [process_mpc_round] with its guardian-local effect. *)
Definition handle_mpc_round (self : Usdt) (item : MpcRoundItem) (peer : PeerId)
    (d : UsdtDb) (l : Locals) : result ItemError (option Locals) * UsdtDb :=
  match sessions d !! mpc_session_id item, process_mpc_round self item peer d with
  | Some session, (Ok _, d') => (Ok (after_mpc_round (our_peer_id self) item session d' l), d')
  | _, (Err e, d') => (Err e, d')
  | None, (Ok _, d') => (Ok (Some l), d')
  end.
End signers.
