(* ===== verification/UsdtRounds.v ===== *)
(** * Signing rounds over consensus

    The chunks of a signing round in the consensus tables
    ([process_mpc_round] of [modules/usdt/fedimint-usdt-server/src/lib.rs]) against the
    payloads the signers propose: a round completes only with every signer's payload,
    whole and unchanged, and never above the cap that the reassembly checks again. *)

From S2P Require Import Prelude OrderStats FedimintCore UsdtTypes UsdtEvm UsdtUserOp UsdtSigning UsdtProof.
From S2P Require Import UsdtDb UsdtServer UsdtHandlers.

(** [chunk idx] of the payload, with its count. *)
Definition piece (payload : bytes) (idx : Z) (c : MpcRoundChunk) : Prop :=
  0 <= idx /\ chunk_payload payload !! Z.to_nat idx = Some (chunk_bytes c) /\
  chunk_count c = Z.of_nat (length (chunk_payload payload)).

Lemma concat_chunk_payload payload : concat (chunk_payload payload) = payload.
Proof.
  unfold chunk_payload. destruct payload as [|x l]; [done|].
  apply concat_chunks_of; [|done]. unfold MPC_ROUND_CHUNK_SIZE. lia.
Qed.

(** ** The chunks of one peer *)

Definition chunk_of (sid : Hash) (r : Z) (p : PeerId) (e : Hash * Z * PeerId * Z * MpcRoundChunk)
    : option (Z * MpcRoundChunk) :=
  let '((sid', r', p', idx), c) := e in
  if bool_decide (sid' = sid) && (r' =? r) && (p' =? p) then Some (idx, c) else None.

Lemma chunk_of_Some sid r p e idx c :
  chunk_of sid r p e = Some (idx, c) <-> e = (sid, r, p, idx, c).
Proof.
  destruct e as [[[[sid' r'] p'] idx'] c']. unfold chunk_of. split.
  - destruct (_ && _) eqn:Hb; [|done]. intros [= -> ->].
    apply andb_prop in Hb as [Hb Hp]. apply andb_prop in Hb as [Hs Hr].
    apply bool_decide_eq_true in Hs. zbool. by subst.
  - intros [= -> -> -> -> ->]. rewrite bool_decide_true by done. by rewrite !Z.eqb_refl.
Qed.

Lemma peer_round_chunks_eq sid r p d :
  peer_round_chunks sid r p d = omap (chunk_of sid r p) (map_to_list (chunks d)).
Proof. reflexivity. Qed.

Lemma elem_of_peer_round_chunks sid r p d idx c :
  (idx, c) ∈ peer_round_chunks sid r p d <-> chunks d !! (sid, r, p, idx) = Some c.
Proof.
  rewrite peer_round_chunks_eq, list_elem_of_omap. split.
  - intros (e & Hin & ->%chunk_of_Some). by apply elem_of_map_to_list in Hin.
  - intros Hc. exists (sid, r, p, idx, c). by rewrite elem_of_map_to_list, chunk_of_Some.
Qed.

Lemma peer_round_chunks_nodup sid r p d : NoDup (peer_round_chunks sid r p d).*1.
Proof.
  rewrite peer_round_chunks_eq. pose proof (NoDup_fst_map_to_list (chunks d)) as Hnd. revert Hnd.
  induction (map_to_list (chunks d)) as [|e l IH]; intros Hnd; simpl; [constructor|].
  apply NoDup_cons in Hnd as [Hni Hnd].
  destruct (chunk_of sid r p e) as [[idx c]|] eqn:He; [|by apply IH].
  apply chunk_of_Some in He as ->. simpl. constructor; [|by apply IH].
  intros ([i c'] & Hi & (e & Hin & ->%chunk_of_Some)%list_elem_of_omap)%list_elem_of_fmap.
  simpl in Hi. subst i. apply Hni, list_elem_of_fmap. exists (sid, r, p, idx, c'). by split.
Qed.

Definition ordered_chunks sid r p d : list (Z * MpcRoundChunk) :=
  merge_sort idx_le (peer_round_chunks sid r p d).

Lemma ordered_chunks_perm sid r p d : ordered_chunks sid r p d ≡ₚ peer_round_chunks sid r p d.
Proof. apply merge_sort_Permutation. Qed.

Lemma ordered_chunks_sorted sid r p d : StronglySorted Z.le (ordered_chunks sid r p d).*1.
Proof.
  unfold ordered_chunks. assert (Hs : StronglySorted idx_le (merge_sort idx_le (peer_round_chunks sid r p d))).
  { apply StronglySorted_merge_sort; [intros ???; unfold idx_le; lia|intros ??; unfold idx_le; lia]. }
  induction Hs as [|x l _ IH Hx]; simpl; [constructor|]. constructor; [done|].
  apply Forall_fmap. eapply Forall_impl; [exact Hx|]. intros y Hy. exact Hy.
Qed.

Lemma seqZ_sorted m (n : nat) : StronglySorted Z.le (seqZ m (Z.of_nat n)).
Proof.
  revert m. induction n as [|n IH]; intros m; [constructor|].
  rewrite Nat2Z.inj_succ, seqZ_cons, Z.pred_succ by lia. constructor; [apply IH|].
  apply Forall_forall. intros x Hx%elem_of_seqZ. lia.
Qed.

(** A complete set of indexes is the range itself. *)
Lemma complete_indexes (l : list Z) :
  StronglySorted Z.le l -> NoDup l -> Forall (fun i => i ∈ l) (seqZ 0 (Z.of_nat (length l))) ->
  l = seqZ 0 (Z.of_nat (length l)).
Proof.
  intros Hs Hnd Hall. assert (Hp : seqZ 0 (Z.of_nat (length l)) ≡ₚ l).
  { apply submseteq_length_Permutation; [|rewrite length_seqZ; lia].
    apply NoDup_submseteq; [apply NoDup_seqZ|]. by apply Forall_forall. }
  apply (StronglySorted_unique Z.le); [done|apply seqZ_sorted|by symmetry].
Qed.

(** What a complete peer's chunks reassemble to, when they are pieces of a payload. *)
Lemma reassembled_payload sid r d p payload :
  (forall idx c, chunks d !! (sid, r, p, idx) = Some c -> piece payload idx c) ->
  peer_complete sid r d p = true -> reassembled sid r d p = payload.
Proof.
  intros Hpieces Hc. unfold peer_complete in Hc. unfold reassembled.
  fold (ordered_chunks sid r p d) in *.
  assert (Hin : forall idx c, (idx, c) ∈ ordered_chunks sid r p d -> piece payload idx c).
  { intros idx c Hi. apply Hpieces. rewrite ordered_chunks_perm in Hi.
    by apply elem_of_peer_round_chunks. }
  pose proof (ordered_chunks_sorted sid r p d) as Hs.
  assert (Hnd : NoDup (ordered_chunks sid r p d).*1)
    by (rewrite ordered_chunks_perm; apply peer_round_chunks_nodup).
  destruct (ordered_chunks sid r p d) as [|[i0 first] l] eqn:El; [done|].
  rewrite <- El in *. set (L := ordered_chunks sid r p d) in *.
  apply andb_prop in Hc as [Hcount Hall]. zbool.
  destruct (Hin i0 first) as (_ & _ & Hfirst); [rewrite El; left|].
  assert (Hidx : L.*1 = seqZ 0 (Z.of_nat (length L.*1))).
  { apply complete_indexes; [done..|]. rewrite length_fmap, <- Hcount.
    apply Forall_forall. intros i Hi. rewrite forallb_forall in Hall.
    apply list_elem_of_In, Hall in Hi. by apply bool_decide_eq_true in Hi. }
  rewrite length_fmap in Hidx.
  etrans; [|apply concat_chunk_payload]. f_equal. apply list_eq. intros k.
  rewrite !list_lookup_fmap. destruct (L !! k) as [[idx c]|] eqn:Ek; simpl.
  - assert (Hk : idx = Z.of_nat k).
    { assert (L.*1 !! k = Some idx) as Hlk by (by rewrite list_lookup_fmap, Ek).
      rewrite Hidx in Hlk. apply lookup_seqZ in Hlk. lia. }
    destruct (Hin idx c) as (_ & Hp & _); [by eapply list_elem_of_lookup_2|].
    subst idx. by rewrite Nat2Z.id in Hp.
  - apply lookup_ge_None in Ek. symmetry. apply lookup_ge_None. lia.
Qed.

(** ** The cap *)

Definition chunk_sum (l : list (Z * MpcRoundChunk)) : Z :=
  foldr (fun x total => Z.of_nat (length (chunk_bytes x.2)) + total) 0 l.

#[export] Instance chunk_sum_proper : Proper (Permutation ==> (=)) chunk_sum.
Proof. intros l l' Hp. induction Hp; simpl; lia. Qed.

(** The bytes stored for a peer's round. *)
Definition round_bytes sid r p d : Z := chunk_sum (peer_round_chunks sid r p d).

Lemma length_reassembled sid r d p : Z.of_nat (length (reassembled sid r d p)) = round_bytes sid r p d.
Proof.
  unfold reassembled, round_bytes. fold (ordered_chunks sid r p d).
  rewrite <- (ordered_chunks_perm sid r p d).
  induction (ordered_chunks sid r p d) as [|[i c] l IH]; [done|].
  rewrite !fmap_cons. cbn [concat chunk_sum foldr snd]. fold (chunk_sum l).
  rewrite length_app, Nat2Z.inj_add, IH. done.
Qed.

Lemma chunk_sum_nonneg l : 0 <= chunk_sum l.
Proof. induction l; simpl; lia. Qed.

(** The handler's saturating sum is exact below the cap. *)
Lemma saturating_sum l acc len :
  0 <= acc -> 0 <= len ->
  saturating_add_u64 (foldl (fun acc c => saturating_add_u64 acc (Z.of_nat (length (chunk_bytes c)))) acc l.*2) len
    <= MAX_MPC_ROUND_BYTES ->
  acc + chunk_sum l + len <= MAX_MPC_ROUND_BYTES.
Proof.
  assert (Hmax : MAX_MPC_ROUND_BYTES < U64_MAX) by done.
  revert acc. induction l as [|x l IH]; intros acc Ha Hl Hle; simpl in *.
  - unfold saturating_add_u64 in Hle. lia.
  - assert (0 <= saturating_add_u64 acc (Z.of_nat (length (chunk_bytes x.2)))) as H0
      by (unfold saturating_add_u64; unfold_widths; lia).
    specialize (IH _ H0 Hl Hle). pose proof (chunk_sum_nonneg l).
    unfold saturating_add_u64 in IH at 1. unfold_widths. lia.
Qed.

(** Inserting a new chunk. *)
Lemma peer_round_chunks_insert sid r p idx c sid' r' p' d :
  chunks d !! (sid, r, p, idx) = None ->
  peer_round_chunks sid' r' p' (set_chunks (insert (sid, r, p, idx) c) d)
  ≡ₚ (if decide (sid' = sid /\ r' = r /\ p' = p) then [(idx, c)] else [])
     ++ peer_round_chunks sid' r' p' d.
Proof.
  intros Hn. rewrite !peer_round_chunks_eq. simpl. rewrite map_to_list_insert by done.
  cbn [omap list_omap]. destruct (chunk_of sid' r' p' (sid, r, p, idx, c)) as [[i c']|] eqn:E.
  - apply chunk_of_Some in E as [= -> -> -> -> ->]. by rewrite decide_True.
  - rewrite decide_False; [done|]. intros (-> & -> & ->).
    by rewrite (proj2 (chunk_of_Some sid r p _ idx c)) in E.
Qed.

Lemma peer_round_chunks_agree sid r p d d' :
  (forall i, chunks d' !! (sid, r, p, i) = chunks d !! (sid, r, p, i)) ->
  peer_round_chunks sid r p d' ≡ₚ peer_round_chunks sid r p d.
Proof.
  intros Ha. apply NoDup_Permutation; [eapply NoDup_fmap_1, peer_round_chunks_nodup..|].
  intros [i c]. by rewrite !elem_of_peer_round_chunks, Ha.
Qed.

Lemma round_bytes_agree sid r p d d' :
  (forall i, chunks d' !! (sid, r, p, i) = chunks d !! (sid, r, p, i)) ->
  round_bytes sid r p d' = round_bytes sid r p d.
Proof. intros Ha. unfold round_bytes. by rewrite peer_round_chunks_agree. Qed.

Lemma round_bytes_empty sid r p d :
  (forall i, chunks d !! (sid, r, p, i) = None) -> round_bytes sid r p d = 0.
Proof.
  intros Hn. unfold round_bytes. destruct (peer_round_chunks sid r p d) as [|[i c] l] eqn:E; [done|].
  assert ((i, c) ∈ peer_round_chunks sid r p d) as Hin by (rewrite E; left).
  apply elem_of_peer_round_chunks in Hin. by rewrite Hn in Hin.
Qed.

Lemma peer_complete_nonempty sid r d p :
  peer_complete sid r d p = true -> exists i c, chunks d !! (sid, r, p, i) = Some c.
Proof.
  unfold peer_complete. fold (ordered_chunks sid r p d). intros Hc.
  destruct (ordered_chunks sid r p d) as [|[i c] l] eqn:E; [done|]. exists i, c.
  apply elem_of_peer_round_chunks. rewrite <- ordered_chunks_perm, E. left.
Qed.

Lemma forallb_perm {A} (f : A -> bool) l l' : l ≡ₚ l' -> forallb f l = forallb f l'.
Proof.
  induction 1 as [|x l l' _ IH|x y l|l l' l'' _ IH _ IH']; simpl; [done|by rewrite IH| |congruence].
  by destruct (f x), (f y).
Qed.

Lemma forallb_same {A} (f g : A -> bool) l : (forall x, f x = g x) -> forallb f l = forallb g l.
Proof. intros Hfg. induction l as [|x l IH]; simpl; [done|by rewrite Hfg, IH]. Qed.

(** ** One item *)

(** What an accepted item does to the tables. *)
Lemma process_mpc_round_ok `{Evm} self item peer d u d' :
  process_mpc_round self item peer d = (Ok u, d') ->
  let sid := mpc_session_id item in
  let d1 := set_chunks (insert (sid, mpc_round item, peer, mpc_chunk item)
              (mkMpcRoundChunk (mpc_chunk_count item) (mpc_payload item))) d in
  exists session, sessions d !! sid = Some session /\ peer ∈ signers session /\
    mpc_round item = round session /\
    chunks d !! (sid, mpc_round item, peer, mpc_chunk item) = None /\
    round_bytes sid (mpc_round item) peer d + Z.of_nat (length (mpc_payload item)) <= MAX_MPC_ROUND_BYTES /\
    d' = if forallb (peer_complete sid (mpc_round item) d1) (signers session)
         then set_sessions (insert sid (advance_round self session d1)) d1 else d1.
Proof.
  intros E sid d1. unfold process_mpc_round in E. fold sid in E.
  destruct (sessions d !! sid) as [session|] eqn:Hs; [|by simpl in E; rewrite Hs in E].
  exists session. simpl in E. rewrite Hs in E. simpl in E.
  run_inv E; ok_facts; zbool. split; [done|]. split; [done|].
  split; [done|]. split; [by apply eq_None_not_Some|]. split; [|done].
  match goal with Hb : saturating_add_u64 _ _ <= _ |- _ => apply saturating_sum in Hb; [|lia..] end.
  unfold round_bytes. lia.
Qed.
