(* ===== verification/UsdtSignerWorld.v ===== *)
(** * Consensus runs the signing protocol

    One signing session of a federation: the guardians propose the chunks of the
    payloads their machines have ready, consensus orders them, and every completed round
    goes back into the machines ([UsdtSigners], [UsdtRounds]).  Whatever snapshots the
    proposals are made from, however the chunks are ordered and repeated, and whatever
    else happens to the tables, the machines make exactly the steps they make when their
    messages are handed over directly. *)

From S2P Require Import Prelude MpcCodec MpcDriver MpcMesh.
From S2P Require Import FedimintCore UsdtTypes UsdtEvm UsdtUserOp UsdtSigning UsdtProof.
From S2P Require Import UsdtDb UsdtServer UsdtHandlers UsdtEndpoints UsdtSigners UsdtRounds.
From S2P Require Import UsdtLedger UsdtSolvency UsdtDemo.

Section world.
Context `{Evm} `{Cggmp} `{Serde RoundPacket} `{Serde Msg}.
Variable fuel : nat.
(** Configuration shared by the guardians, up to their own id. *)
Variable shared : Usdt.
(** The session, its signers in ascending order, and their threads at the start. *)
Variables (sid : Hash) (subset : list PeerId).
Variables (ws : PartyIndex -> Wire Msg bytes) (ts0 : list (Thread SM (result string Sig) Msg bytes)).

Abbreviation SThread := (Thread SM (result string Sig) Msg bytes).
Abbreviation SLocals := (Locals (SM := SM) (Sig := Sig) (Msg := Msg)).
Abbreviation n := (Z.of_nat (length subset)).

Definition guardian (p : PeerId) : Usdt :=
  mkUsdt (cfg shared) (num_peers shared) p (in_test_env shared).

(** The agreed tables, each guardian's signers, and the items on their way. *)
Record World := mkWorld {
  wdb : UsdtDb;
  locals : PeerId -> SLocals;
  inflight : list (PeerId * MpcRoundItem);
}.

(** What other items, endpoints and sessions leave alone: the session can be closed or
    removed, not restarted. *)
Definition foreign (w w' : World) : Prop :=
  inflight w' = inflight w /\
  (forall r p i, chunks (wdb w') !! (sid, r, p, i) = chunks (wdb w) !! (sid, r, p, i)) /\
  (forall s', sessions (wdb w') !! sid = Some s' -> exists s, sessions (wdb w) !! sid = Some s /\
    UsdtDb.round s' = UsdtDb.round s /\ signers s' = signers s) /\
  (forall p, signing_sessions (locals w' p) !! sid = signing_sessions (locals w p) !! sid /\
    completed_signatures (locals w' p) !! sid = completed_signatures (locals w p) !! sid).

Inductive wstep (w : World) : World -> Prop :=
| step_propose p g snapshot s slot item :
    (* a snapshot of the tables no newer than the guardian's own signer *)
    sessions snapshot !! sid = Some s ->
    signing_sessions (locals w p) !! sid = Some slot ->
    UsdtDb.round s <= slot_round slot ->
    UsdtEndpoints.pending_outgoing g !! sid = pending_outgoing slot ->
    MpcRound item ∈ propose_rounds (guardian p) g snapshot [(sid, s)] ->
    wstep w (mkWorld (wdb w) (locals w) ((p, item) :: inflight w))
| step_order p item d locals' :
    (p, item) ∈ inflight w -> mpc_round item < U16_MAX ->
    (forall q, handle_mpc_round fuel (guardian q) item p (wdb w) (locals w q)
      = (Ok (Some (locals' q)), d)) ->
    wstep w (mkWorld d locals' (inflight w))
| step_foreign w' : foreign w w' -> wstep w w'.

(** ** The invariant *)

(** How a guardian's signer stands after [k] rounds, when its thread is [t]. *)
Definition stands (k : nat) (i : PartyIndex) (t : SThread) (l : SLocals) : Prop :=
  match t with
  | Parked payload _ =>
      signing_sessions l !! sid
        = Some (mkSessionSlot (mkProtocolHandle (ws i) i n t) (Some payload) (Z.of_nat k) false) /\
      completed_signatures l !! sid = None
  | Exited _ =>
      signing_sessions l !! sid = None /\
      completed_signatures l !! sid
        = serialize_compact <$> (signature_of t ≫= convert_signature)
  end.

Record inv_at (k : nat) (ts : list SThread) (w : World) : Prop := {
  inv_ran : mesh_rounds ws n k fuel ts0 = Some ts;
  inv_bound : Z.of_nat k <= U16_MAX;
  inv_length : length ts = length subset;
  inv_session s : sessions (wdb w) !! sid = Some s ->
    UsdtDb.round s = Z.of_nat k /\ merge_sort Z.le (signers s) = subset;
  inv_stands i p t : subset !! i = Some p -> ts !! i = Some t -> stands k (Z.of_nat i) t (locals w p);
  inv_others p : p ∉ subset -> signing_sessions (locals w p) !! sid = None;
  inv_chunks r p idx c : chunks (wdb w) !! (sid, r, p, idx) = Some c ->
    r <= Z.of_nat k /\
    (r = Z.of_nat k -> exists i payload d, subset !! i = Some p /\ ts !! i = Some (Parked payload d) /\
      piece payload idx c);
  inv_cap p : round_bytes sid (Z.of_nat k) p (wdb w) <= MAX_MPC_ROUND_BYTES;
  inv_inflight p item : (p, item) ∈ inflight w -> mpc_session_id item = sid /\
    mpc_round item <= Z.of_nat k /\
    (mpc_round item = Z.of_nat k -> exists i payload d, subset !! i = Some p /\
      ts !! i = Some (Parked payload d) /\
      piece payload (mpc_chunk item) (mkMpcRoundChunk (mpc_chunk_count item) (mpc_payload item)));
}.

Hypothesis subset_nodup : NoDup subset.

Lemma foreign_inv k ts w w' : inv_at k ts w -> foreign w w' -> inv_at k ts w'.
Proof.
  intros I (Hin & Hc & Hs & Hl). split; try apply I.
  - intros s' E. apply Hs in E as (s & E & -> & ->). by apply I.
  - intros i p t Hp Ht. pose proof (inv_stands _ _ _ I i p t Hp Ht) as St.
    destruct (Hl p) as [L1 L2]. unfold stands in *. by rewrite L1, L2.
  - intros p Hp. rewrite (proj1 (Hl p)). by apply I.
  - intros r p idx c. rewrite Hc. apply I.
  - intros p. rewrite (round_bytes_agree sid _ p (wdb w)); [apply I|]. intros i. apply Hc.
  - rewrite Hin. apply I.
Qed.

(** What a guardian proposes are the pieces of the payload it has ready. *)
Lemma proposed_piece p g d s item :
  MpcRound item ∈ propose_rounds (guardian p) g d [(sid, s)] ->
  exists payload, UsdtEndpoints.pending_outgoing g !! sid = Some payload /\
    mpc_session_id item = sid /\ mpc_round item = UsdtDb.round s /\
    piece payload (mpc_chunk item) (mkMpcRoundChunk (mpc_chunk_count item) (mpc_payload item)).
Proof.
  intros Hin. unfold propose_rounds in Hin.
  apply list_elem_of_bind in Hin as ([id s'] & Hin & [= -> ->]%list_elem_of_singleton).
  case_bool_decide; [by apply elem_of_nil in Hin|].
  case_bool_decide; simpl in Hin; [|by apply elem_of_nil in Hin].
  destruct (UsdtEndpoints.pending_outgoing g !! sid) as [payload|]; [|by apply elem_of_nil in Hin].
  exists payload. split; [done|].
  apply list_elem_of_omap in Hin as ([i c] & Hic & E). case_bool_decide; simplify_eq. simpl.
  split; [done|]. split; [done|].
  apply list_elem_of_lookup in Hic as [k Hk]. apply lookup_zip_Some in Hk as [Hi Hc].
  apply lookup_seqZ in Hi as [-> ?]. split; [lia|]. simpl. by rewrite Z.add_0_l, Nat2Z.id.
Qed.

Lemma propose_inv k ts w p g snapshot s slot item :
  inv_at k ts w -> signing_sessions (locals w p) !! sid = Some slot ->
  UsdtDb.round s <= slot_round slot ->
  UsdtEndpoints.pending_outgoing g !! sid = pending_outgoing slot ->
  MpcRound item ∈ propose_rounds (guardian p) g snapshot [(sid, s)] ->
  inv_at k ts (mkWorld (wdb w) (locals w) ((p, item) :: inflight w)).
Proof.
  intros I Hslot Hr Hg Hin. split; try apply I. simpl.
  intros p' item' [[= -> ->]|Hin']%elem_of_cons; [|by apply I].
  apply proposed_piece in Hin as (payload & Hp & Hsid & Hround & Hpiece).
  destruct (decide (p ∈ subset)) as [Hsub|Hsub]; [|by rewrite (inv_others _ _ _ I p Hsub) in Hslot].
  apply list_elem_of_lookup in Hsub as [i Hi].
  destruct (lookup_lt_is_Some_2 ts i) as [t Ht].
  { rewrite (inv_length _ _ _ I). by eapply lookup_lt_Some. }
  pose proof (inv_stands _ _ _ I i p t Hi Ht) as St. destruct t as [payload' d|r]; simpl in St.
  - destruct St as [St _]. rewrite Hg in Hp. rewrite St in Hslot. injection Hslot as <-.
    simpl in Hp, Hr. injection Hp as ->. split; [done|]. split; [lia|].
    intros _. by exists i, payload, d.
  - destruct St as [St _]. congruence.
Qed.

(** One guardian's signer takes the round. *)
Lemma advance_stands k i payload d all l l' :
  Z.of_nat k < U16_MAX -> stands k i (Parked payload d) l ->
  advance_local_signer fuel sid (u16_add (Z.of_nat k) 1) all l = Some l' ->
  exists t, submit_round (ws i) i n fuel all (Parked payload d) = Ok (Some t) /\ stands (S k) i t l'.
Proof.
  intros Hk [Hs Hc] E. unfold advance_local_signer in E. rewrite Hs in E. cbn [handle ph_wire ph_index ph_n ph_thread] in E.
  destruct (submit_round (ws i) i n fuel all (Parked payload d)) as [[t|]|] eqn:Es; [|done|done].
  exists t. split; [done|].
  assert (u16_add (Z.of_nat k) 1 = Z.of_nat (S k)) as Hr.
  { unfold u16_add. rewrite Z.mod_small by (unfold_widths; lia). lia. }
  rewrite Hr in E. unfold pump_slot_outgoing in E. cbn [pending_outgoing done handle ph_thread slot_round] in E.
  unfold stands. destruct t as [payload' d'|r]; cbn [next_outgoing negb done] in E.
  - injection E as <-. simpl. by rewrite lookup_insert_eq.
  - destruct (signature_of (Exited r : SThread)) as [sg|]; cbn [mbind option_bind] in E |- *;
      [destruct (convert_signature sg)|]; injection E as <-; simpl; rewrite lookup_delete_eq;
      (split; [done|]); [by rewrite lookup_insert_eq|done|done].
Qed.

(** After an accepted item, the chunks of the current round still are the pieces of the
    payloads, and within the cap. *)
Definition with_chunk (p : PeerId) (item : MpcRoundItem) (d : UsdtDb) : UsdtDb :=
  set_chunks (insert (sid, mpc_round item, p, mpc_chunk item)
    (mkMpcRoundChunk (mpc_chunk_count item) (mpc_payload item))) d.

Lemma chunk_inv k ts w p item :
  inv_at k ts w -> (p, item) ∈ inflight w -> mpc_round item = Z.of_nat k ->
  chunks (wdb w) !! (sid, mpc_round item, p, mpc_chunk item) = None ->
  round_bytes sid (mpc_round item) p (wdb w) + Z.of_nat (length (mpc_payload item)) <= MAX_MPC_ROUND_BYTES ->
  inv_at k ts (mkWorld (with_chunk p item (wdb w)) (locals w) (inflight w)).
Proof.
  intros I Hin Hk Hfresh Hcap. destruct (inv_inflight _ _ _ I p item Hin) as (_ & _ & Hpiece).
  split; try apply I; simpl.
  - intros r p' idx c. rewrite lookup_insert. case_decide as Heq.
    + intros [= <-]. injection Heq as <- <- <-. split; [lia|done].
    + apply I.
  - intros p'. unfold round_bytes, with_chunk.
    rewrite peer_round_chunks_insert by done. case_decide as Hp.
    + destruct Hp as (_ & Hr & ->). rewrite Hk in Hcap.
      change (Z.of_nat (length (mpc_payload item)) + round_bytes sid (Z.of_nat k) p (wdb w)
        <= MAX_MPC_ROUND_BYTES). lia.
    + apply I.
Qed.

(** Every signer of a complete round is parked, and its chunks reassemble to its payload. *)
Lemma complete_parked k ts w i p :
  inv_at k ts w -> subset !! i = Some p -> peer_complete sid (Z.of_nat k) (wdb w) p = true ->
  exists payload d, ts !! i = Some (Parked payload d) /\
    reassembled sid (Z.of_nat k) (wdb w) p = payload.
Proof.
  intros I Hi Hc. destruct (peer_complete_nonempty _ _ _ _ Hc) as (idx & c & Hch).
  assert (Hat : forall idx c, chunks (wdb w) !! (sid, Z.of_nat k, p, idx) = Some c ->
    exists payload d, ts !! i = Some (Parked payload d) /\ piece payload idx c).
  { intros idx' c' Hch'. destruct (inv_chunks _ _ _ I _ _ _ _ Hch') as [_ Hp].
    destruct (Hp eq_refl) as (j & payload & d & Hj & Ht & Hpc).
    rewrite (NoDup_lookup _ _ _ _ subset_nodup Hi Hj) in *. eauto. }
  destruct (Hat _ _ Hch) as (payload & d & Ht & _). exists payload, d. split; [done|].
  apply reassembled_payload; [|done]. intros idx' c' Hch'.
  destruct (Hat _ _ Hch') as (payload' & d' & Ht' & Hpc). by simplify_eq.
Qed.

Lemma mesh_rounds_snoc k ts :
  mesh_rounds ws n k fuel ts0 = Some ts ->
  mesh_rounds ws n (S k) fuel ts0 = mesh_round ws n fuel ts.
Proof.
  generalize ts0. induction k as [|k IH]; intros t0 E.
  - injection E as ->. simpl. by destruct (mesh_round ws n fuel ts).
  - change (mesh_rounds ws n (S (S k)) fuel t0)
      with (mesh_round ws n fuel t0 ≫= fun t => mesh_rounds ws n (S k) fuel t).
    simpl in E. destruct (mesh_round ws n fuel t0) as [t1|]; [|done]. cbn [mbind option_bind] in *.
    by apply IH.
Qed.

(** The guardians' signers take a complete round together: a round of the mesh. *)
Lemma round_taken k ts w locals' :
  inv_at k ts w -> Z.of_nat k < U16_MAX ->
  (forall i p, subset !! i = Some p -> peer_complete sid (Z.of_nat k) (wdb w) p = true) ->
  (forall i p, subset !! i = Some p ->
    advance_local_signer fuel sid (u16_add (Z.of_nat k) 1)
      (reassembled sid (Z.of_nat k) (wdb w) <$> subset) (locals w p) = Some (locals' p)) ->
  exists ts', mesh_round ws n fuel ts = Some ts' /\ length ts' = length subset /\
    forall i p t, subset !! i = Some p -> ts' !! i = Some t -> stands (S k) (Z.of_nat i) t (locals' p).
Proof.
  intros I Hk Hc Hadv. pose proof (inv_length _ _ _ I) as Hlen.
  set (all := reassembled sid (Z.of_nat k) (wdb w) <$> subset) in *.
  assert (Hall : mapM next_outgoing ts = Some all).
  { apply mapM_Some, Forall2_same_length_lookup. unfold all. rewrite length_fmap. split; [done|].
    intros i t payload Ht Hp. rewrite list_lookup_fmap in Hp.
    destruct (subset !! i) as [p|] eqn:Hi; simplify_eq/=.
    destruct (complete_parked k ts w i p I Hi (Hc i p Hi)) as (payload & d & Ht' & ->).
    by simplify_eq/=. }
  assert (Hstep : forall i p t, subset !! i = Some p -> ts !! i = Some t ->
    exists t', submit_round (ws (Z.of_nat i)) (Z.of_nat i) n fuel all t = Ok (Some t') /\
      stands (S k) (Z.of_nat i) t' (locals' p)).
  { intros i p t Hi Ht. destruct (complete_parked k ts w i p I Hi (Hc i p Hi)) as (payload & d & Ht' & _).
    simplify_eq. apply (advance_stands k _ payload d all (locals w p)); [done| |by apply (Hadv i)].
    exact (inv_stands _ _ _ I i p _ Hi Ht). }
  unfold mesh_round. rewrite Hall.
  set (run := fun '(i, t) => match submit_round (ws i) i n fuel all t with Ok t => t | Err _ => None end).
  assert (is_Some (mapM run (zip (seqZ 0 n) ts))) as [ts' E].
  { apply mapM_is_Some, Forall_lookup. intros i [j t] Hz.
    apply lookup_zip_Some in Hz as [[-> Hlt]%lookup_seqZ Ht]. unfold run. rewrite Z.add_0_l. unfold compose.
    destruct (lookup_lt_is_Some_2 subset i) as [p Hi]; [lia|].
    destruct (Hstep i p t Hi Ht) as (t' & E' & _). rewrite E'. eauto. }
  exists ts'. split; [done|]. pose proof (length_mapM _ _ _ E) as El.
  rewrite length_zip_with, length_seqZ in El. split; [lia|].
  intros i p t' Hi Ht'. destruct (lookup_lt_is_Some_2 ts i) as [t Ht].
  { rewrite Hlen. by eapply lookup_lt_Some. }
  destruct (mapM_lookup_i run _ _ i (Z.of_nat i, t) E) as (t2 & Ht2 & Er).
  { apply lookup_zip_Some. split; [|done]. apply lookup_seqZ. apply lookup_lt_Some in Hi. lia. }
  simplify_eq. simpl in Er. destruct (Hstep i p t Hi Ht) as (t3 & E3 & St).
  rewrite E3 in Er. by simplify_eq.
Qed.

(** What an ordered item does, seen from guardian [q]. *)
Lemma handled q item p w l' d :
  mpc_session_id item = sid ->
  handle_mpc_round fuel (guardian q) item p (wdb w) (locals w q) = (Ok (Some l'), d) ->
  let d1 := with_chunk p item (wdb w) in
  exists s, sessions (wdb w) !! sid = Some s /\ mpc_round item = UsdtDb.round s /\
    chunks (wdb w) !! (sid, mpc_round item, p, mpc_chunk item) = None /\
    round_bytes sid (mpc_round item) p (wdb w) + Z.of_nat (length (mpc_payload item)) <= MAX_MPC_ROUND_BYTES /\
    d = (if forallb (peer_complete sid (mpc_round item) d1) (merge_sort Z.le (signers s))
         then set_sessions (insert sid (advance_round shared s d1)) d1 else d1) /\
    after_mpc_round fuel q item s d (locals w q) = Some l'.
Proof.
  intros Hsid E d1. unfold handle_mpc_round in E. rewrite Hsid in E.
  destruct (process_mpc_round (guardian q) item p (wdb w)) as [[u|e] d'] eqn:Ep;
    destruct (sessions (wdb w) !! sid) as [s|] eqn:Es; try done.
  - simplify_eq. apply process_mpc_round_ok in Ep. rewrite Hsid in Ep.
    destruct Ep as (s' & Es' & _ & Hr & Hf & Hc & Hd). simplify_eq.
    exists s'. do 4 (split; [done|]). split; [|done].
    by rewrite (forallb_perm _ _ _ (merge_sort_Permutation Z.le (signers s'))).
  - apply process_mpc_round_ok in Ep. rewrite Hsid in Ep. destruct Ep as (s & Es' & _). congruence.
Qed.

Lemma advanced_inv k ts w s locals' :
  inv_at k ts w -> Z.of_nat k < U16_MAX -> sessions (wdb w) !! sid = Some s ->
  forallb (peer_complete sid (Z.of_nat k) (wdb w)) subset = true ->
  (forall q, (if negb (bool_decide (q ∈ subset)) then Some (locals w q)
    else if existsb (fun p => MAX_MPC_ROUND_BYTES <? Z.of_nat (length p))
              (reassembled sid (Z.of_nat k) (wdb w) <$> subset) then Some (locals w q)
    else advance_local_signer fuel sid (u16_add (Z.of_nat k) 1)
           (reassembled sid (Z.of_nat k) (wdb w) <$> subset) (locals w q)) = Some (locals' q)) ->
  exists ts', inv_at (S k) ts'
    (mkWorld (set_sessions (insert sid (advance_round shared s (wdb w))) (wdb w)) locals' (inflight w)).
Proof.
  intros I Hmax Es Hc Ha.
  assert (Hfit : existsb (fun p => MAX_MPC_ROUND_BYTES <? Z.of_nat (length p))
    (reassembled sid (Z.of_nat k) (wdb w) <$> subset) = false).
  { apply not_true_is_false. intros (x & Hx & Hbig)%existsb_exists.
    apply list_elem_of_In, list_elem_of_fmap in Hx as (q & -> & _).
    rewrite length_reassembled in Hbig. zbool. pose proof (inv_cap _ _ _ I q). lia. }
  rewrite Hfit in Ha.
  destruct (round_taken k ts w locals' I Hmax) as (ts' & Hr & Hl & Hst).
  { intros i q Hi. rewrite forallb_forall in Hc. apply Hc. apply list_elem_of_In. by eapply list_elem_of_lookup_2. }
  { intros i q Hi. specialize (Ha q). rewrite bool_decide_true in Ha; [done|by eapply list_elem_of_lookup_2]. }
  destruct (inv_session _ _ _ I s Es) as [Hk Hsub].
  exists ts'. split; cbn [wdb locals inflight].
  - rewrite (mesh_rounds_snoc k ts); [done|apply I].
  - lia.
  - done.
  - intros s'. simpl. rewrite lookup_insert_eq. intros [= <-]. simpl. split; [|done].
    rewrite Hk. unfold u16_add. rewrite Z.mod_small by (unfold_widths; lia). lia.
  - exact Hst.
  - intros q Hq. specialize (Ha q). rewrite bool_decide_false in Ha by done. simpl in Ha.
    injection Ha as <-. by apply I.
  - intros r q idx c Hch. apply (inv_chunks _ _ _ I) in Hch as [? _]. split; lia.
  - intros q. rewrite round_bytes_empty; [done|]. intros i.
    apply eq_None_not_Some. intros [c Hch]. apply (inv_chunks _ _ _ I) in Hch. lia.
  - intros q item Hin. apply (inv_inflight _ _ _ I) in Hin as (? & ? & _). split; [done|]. lia.
Qed.

Lemma order_inv k ts w p item d locals' :
  inv_at k ts w -> (p, item) ∈ inflight w -> mpc_round item < U16_MAX ->
  (forall q, handle_mpc_round fuel (guardian q) item p (wdb w) (locals w q) = (Ok (Some (locals' q)), d)) ->
  exists k' ts', inv_at k' ts' (mkWorld d locals' (inflight w)).
Proof.
  intros I Hin Hmax Hall. destruct (inv_inflight _ _ _ I p item Hin) as (Hsid & _ & _).
  destruct (handled p item p w _ d Hsid (Hall p)) as (s & Es & Hr & Hf & Hc & Hd & _).
  destruct (inv_session _ _ _ I s Es) as [Hk Hsub]. rewrite Hsub in Hd. rewrite Hk in Hr.
  assert (Hafter : forall q, after_mpc_round fuel q item s d (locals w q) = Some (locals' q)).
  { intros q. destruct (handled q item p w _ d Hsid (Hall q)) as (s' & Es' & _ & _ & _ & _ & Ha).
    by simplify_eq. }
  pose proof (chunk_inv k ts w p item I Hin Hr Hf Hc) as I1.
  set (d1 := with_chunk p item (wdb w)) in *. rewrite Hr in Hd, Hmax.
  assert (Hsame : forall q, peer_complete sid (Z.of_nat k) d q = peer_complete sid (Z.of_nat k) d1 q)
    by (intros q; subst d; by destruct (forallb _ _)).
  assert (Hre : forall q, reassembled sid (Z.of_nat k) d q = reassembled sid (Z.of_nat k) d1 q)
    by (intros q; subst d; by destruct (forallb _ _)).
  unfold after_mpc_round in Hafter. rewrite Hsid, Hsub, Hr in Hafter.
  rewrite (forallb_same _ (peer_complete sid (Z.of_nat k) d1)) in Hafter by done.
  destruct (forallb (peer_complete sid (Z.of_nat k) d1) subset) eqn:Hcomplete; simpl in Hafter.
  - subst d. destruct (advanced_inv k ts _ s locals' I1 Hmax Es Hcomplete) as [ts' I']; [|by exists (S k), ts'].
    intros q. specialize (Hafter q). simpl.
    rewrite (list_fmap_ext _ (reassembled sid (Z.of_nat k) d1) subset) in Hafter by (intros; apply Hre).
    exact Hafter.
  - assert (Hl : forall q, locals' q = locals w q) by (intros q; specialize (Hafter q); by simplify_eq).
    exists k, ts. subst d. split; try apply I1; simpl; intros *; rewrite Hl; apply I.
Qed.

(** A payload of one chunk, not yet ordered, is one item. *)
Lemma propose_one p g d s payload :
  p ∈ signers s -> state s = InProgress -> UsdtEndpoints.pending_outgoing g !! sid = Some payload ->
  chunk_payload payload = [payload] -> chunks d !! (sid, UsdtDb.round s, p, 0) = None ->
  propose_rounds (guardian p) g d [(sid, s)]
  = [MpcRound (mkMpcRoundItem sid (UsdtDb.round s) 0 1 payload)].
Proof.
  intros Hp Hst Hg Hc Hn. unfold propose_rounds. cbn [mbind list_bind our_peer_id guardian].
  rewrite bool_decide_false by (intros Hnp; by apply Hnp).
  rewrite Hst, Hg, Hc. simpl. change (Z.of_nat 0 + 0) with 0. by rewrite Hn.
Qed.

(** The order step as a function. *)
Definition ordered (w : World) (p : PeerId) (item : MpcRoundItem) : World :=
  let run q := handle_mpc_round fuel (guardian q) item p (wdb w) (locals w q) in
  mkWorld (run p).2 (fun q => match (run q).1 with Ok (Some l) => l | _ => locals w q end) (inflight w).

Lemma ordered_step w p item s :
  (p, item) ∈ inflight w -> mpc_round item < U16_MAX -> mpc_session_id item = sid ->
  sessions (wdb w) !! sid = Some s -> merge_sort Z.le (signers s) = subset ->
  is_ok (process_mpc_round shared item p (wdb w)).1 = true ->
  forallb (fun q => match (handle_mpc_round fuel (guardian q) item p (wdb w) (locals w q)).1 with
                    | Ok (Some _) => true | _ => false end) subset = true ->
  wstep w (ordered w p item).
Proof.
  intros Hin Hr Hsid Es Hsub Hok Hall.
  destruct (process_mpc_round shared item p (wdb w)) as [[u|] d] eqn:Ep; [|done].
  assert (Hp : forall q, process_mpc_round (guardian q) item p (wdb w) = (Ok u, d)) by (intros q; exact Ep).
  assert (Hrun : forall q, handle_mpc_round fuel (guardian q) item p (wdb w) (locals w q)
    = (Ok (after_mpc_round fuel q item s d (locals w q)), d)).
  { intros q. unfold handle_mpc_round. rewrite Hsid, Es, Hp. done. }
  apply (step_order w p item); [done..|]. intros q. rewrite !Hrun. cbn [fst snd].
  destruct (decide (q ∈ subset)) as [Hq|Hq].
  - rewrite forallb_forall in Hall. specialize (Hall q). rewrite Hrun in Hall. simpl in Hall.
    destruct (after_mpc_round fuel q item s d (locals w q)); [done|].
    discriminate Hall. by apply list_elem_of_In.
  - unfold after_mpc_round. rewrite Hsub. destruct (negb (forallb _ _)); [done|].
    by rewrite bool_decide_false.
Qed.

Lemma signer_wstep_inv w w' : (exists k ts, inv_at k ts w) -> wstep w w' -> exists k ts, inv_at k ts w'.
Proof.
  intros (k & ts & I) Hs. destruct Hs.
  - exists k, ts. by eapply propose_inv.
  - by eapply order_inv.
  - exists k, ts. by eapply foreign_inv.
Qed.

Lemma world_runs w w' : (exists k ts, inv_at k ts w) -> rtc wstep w w' -> exists k ts, inv_at k ts w'.
Proof. intros I Hr. induction Hr; eauto using signer_wstep_inv. Qed.
End world.

(** ** A session from its start *)

Section session.
Context `{Evm} `{Cggmp} `{!RoundCryptoOk} `{SerdeOk RoundPacket} `{SerdeOk Msg}.
Variable fuel : nat.
Variable shared : Usdt.
Variables (sid digest : Hash) (signer_list : list PeerId).
Variables (cfgs : PeerId -> SignerConfig) (coins : PeerId -> Z -> PartyIndex -> SecretKey * Nonce).

Abbreviation subset := (merge_sort Z.le signer_list).
Abbreviation n := (Z.of_nat (length subset)).
Abbreviation eid := (ascii_bytes SIGNING_EID_PREFIX ++ sid).

Definition party (i : PartyIndex) : PeerId := default 0 (subset !! Z.to_nat i).
Definition signer_codec (i : PartyIndex) : EncryptedRoundCodec :=
  mkEncryptedRoundCodec i (mpc_encryption_sk (cfgs (party i)))
    ((fun q => public_key (mpc_encryption_sk (cfgs q))) <$> subset) eid.
Definition signer_machine (ip : PartyIndex * PeerId) : SM :=
  signing eid ip.1 subset (key_share (cfgs ip.2)) digest.
Definition machines : list SM := signer_machine <$> zip (seqZ 0 n) subset.
Definition signer_wire (i : PartyIndex) : Wire Msg bytes :=
  encrypted_wire (signer_codec i) (coins (party i)).

(** The configuration generation gave every guardian the others' encryption keys. *)
Hypothesis keys_agree : forall p q, p ∈ subset -> q ∈ subset ->
  mpc_encryption_pks (cfgs p) !! q = Some (public_key (mpc_encryption_sk (cfgs q))).
Hypothesis signers_distinct : NoDup signer_list.
Hypothesis sid_size : length sid = 32%nat.

Lemma subset_distinct : NoDup subset.
Proof. by rewrite merge_sort_Permutation. Qed.

Lemma position_at i p : subset !! i = Some p -> position p subset = Some (Z.of_nat i).
Proof.
  intros Hi. unfold position. destruct (list_find (fun q => q = p) subset) as [[j q]|] eqn:E.
  - apply list_find_Some in E as (Hj & -> & _). simpl.
    by rewrite (NoDup_lookup _ _ _ _ subset_distinct Hj Hi).
  - apply list_find_None in E. rewrite Forall_lookup in E. by apply E in Hi.
Qed.

Lemma spawned i p :
  subset !! i = Some p ->
  spawn_parts sid digest subset p (cfgs p)
  = Some (Z.of_nat i, n, signer_codec (Z.of_nat i), signer_machine (Z.of_nat i, p)).
Proof.
  intros Hi. unfold spawn_parts. rewrite (position_at i p Hi).
  assert (mapM (fun peer => mpc_encryption_pks (cfgs p) !! peer) subset
    = Some ((fun q => public_key (mpc_encryption_sk (cfgs q))) <$> subset)) as ->.
  { apply mapM_Some, Forall2_fmap_r, Forall_Forall2_diag, Forall_forall. intros q Hq.
    apply keys_agree; [by eapply list_elem_of_lookup_2|done]. }
  cbn [mbind option_bind]. unfold signer_codec, party. by rewrite Nat2Z.id, Hi.
Qed.

Lemma machine_at i p : subset !! i = Some p -> machines !! i = Some (signer_machine (Z.of_nat i, p)).
Proof.
  intros Hi. unfold machines. rewrite list_lookup_fmap.
  assert (zip (seqZ 0 n) subset !! i = Some (Z.of_nat i, p)) as ->; [|done].
  apply lookup_zip_Some. split; [|done]. apply lookup_seqZ. apply lookup_lt_Some in Hi. lia.
Qed.

Lemma length_machines : length machines = length subset.
Proof. unfold machines. rewrite length_fmap, length_zip_with, length_seqZ. lia. Qed.

Lemma signer_federation : federation signer_codec n.
Proof.
  split; [done| |].
  - intros i j Hi Hj. split; [done|]. simpl. rewrite list_lookup_fmap. unfold party.
    destruct (lookup_lt_is_Some_2 subset (Z.to_nat j)) as [q Hq]; [lia|]. by rewrite Hq.
  - intros i _. unfold signer_codec. cbn [domain]. rewrite length_app, sid_size. done.
Qed.

(** The tables after [start_session], the signers it started, nothing on its way. *)
Record session_started (w : World) : Prop := {
  st_session s : sessions (wdb w) !! sid = Some s -> UsdtDb.round s = 0 /\ signers s = signer_list;
  st_chunks r p i : chunks (wdb w) !! (sid, r, p, i) = None;
  st_locals p : exists l, signing_sessions l !! sid = None /\ completed_signatures l !! sid = None /\
    locals w p = if bool_decide (p ∈ subset)
                 then start_local_signer fuel sid digest signer_list p (cfgs p) (coins p) l else l;
  st_inflight : inflight w = [];
}.

Definition signature_bytes (o : option (option (result DriveError (result string Sig)))) : option bytes :=
  match o with
  | Some (Some (Ok (Ok sig))) => serialize_compact <$> convert_signature sig
  | _ => None
  end.

Lemma start_inv w ts0 :
  session_started w -> mesh_start signer_wire n fuel machines = Some ts0 ->
  Forall (fun t => is_Some (next_outgoing t)) ts0 ->
  inv_at fuel sid subset signer_wire ts0 0 ts0 w.
Proof.
  intros [Ss Sc Sl Si] E Hp. assert (Hlen : length ts0 = length subset).
  { apply length_mapM in E. rewrite length_zip_with, length_seqZ, length_machines in E. lia. }
  split; try done.
  - intros s Es. apply Ss in Es as [-> ->]. done.
  - intros i p t Hi Ht. destruct (Sl p) as (l & L1 & L2 & ->).
    rewrite bool_decide_true by (by eapply list_elem_of_lookup_2).
    unfold start_local_signer, spawn_signing_session. rewrite (spawned i p Hi). cbn [mbind option_bind].
    assert (Er : resume (signer_wire (Z.of_nat i)) fuel (start (signer_machine (Z.of_nat i, p))) = Some t).
    { destruct (mapM_lookup_i _ _ _ i (Z.of_nat i, signer_machine (Z.of_nat i, p)) E) as (t' & Ht' & Er).
      { apply lookup_zip_Some. split; [apply lookup_seqZ; apply lookup_lt_Some in Hi; lia|].
        by apply machine_at. }
      by simplify_eq. }
    unfold signer_wire, party in Er. rewrite Nat2Z.id, Hi in Er. simpl in Er. rewrite Er. simpl.
    rewrite Forall_lookup in Hp. destruct (Hp i t Ht) as [payload Hpay].
    destruct t as [payload' d|]; simplify_eq/=. rewrite lookup_insert_eq. split; [|done].
    unfold signer_wire, party. by rewrite Nat2Z.id, Hi.
  - intros p Hps. destruct (Sl p) as (l & L1 & _ & ->). by rewrite bool_decide_false.
  - intros r p i c. by rewrite Sc.
  - intros p. by rewrite round_bytes_empty.
  - intros p item. rewrite Si. by intros ?%elem_of_nil.
Qed.

(** C5: Consensus runs the signing protocol.  From a session that has just started, with
    encryption keys that agree, every guardian's signer ends up, whatever the order and
    the snapshots of the proposals, exactly where the machines end up that hand each
    other their messages directly: after every sequence of steps there is a number of
    rounds such that the signature a guardian holds is the one its machine computes in
    that many rounds of the mesh, and it holds none when that machine has none. *)
Theorem consensus_runs_the_protocol w0 w ts0 :
  (forall m : Msg, is_Some (serde_encode m)) -> (forall p : RoundPacket, is_Some (serde_encode p)) ->
  (forall s s' j m, proceed s = (SendMsg (OneParty j) m, s') -> 0 <= j < n) ->
  session_started w0 -> mesh_start signer_wire n fuel machines = Some ts0 ->
  Forall (fun t => is_Some (next_outgoing t)) ts0 ->
  rtc (wstep fuel shared sid) w0 w ->
  exists k outs, mesh_run direct_wire k fuel machines = Some outs /\
    forall i p, subset !! i = Some p ->
      completed_signatures (locals w p) !! sid = signature_bytes (outs !! i).
Proof.
  intros Hm Hpk Hsend Hst Ets Hparked Hrun.
  destruct (world_runs fuel shared sid subset signer_wire ts0 subset_distinct w0 w) as (k & ts & I);
    [by exists 0%nat, ts0; apply start_inv|done|].
  exists k, (into_output <$> ts).
  rewrite <- (mesh_run_same _ _ signer_wire direct_wire n); [|
    by apply encrypted_carries; [apply signer_federation|..]|apply direct_carries|done|
    by rewrite length_machines].
  split.
  - unfold mesh_run. rewrite length_machines, Ets. cbn [mbind option_bind].
    by rewrite (inv_ran _ _ _ _ _ _ _ _ I).
  - intros i p Hi. destruct (lookup_lt_is_Some_2 ts i) as [t Ht].
    { rewrite (inv_length _ _ _ _ _ _ _ _ I). by eapply lookup_lt_Some. }
    rewrite list_lookup_fmap, Ht. pose proof (inv_stands _ _ _ _ _ _ _ _ I i p t Hi Ht) as St.
    destruct t as [payload d|r]; simpl in St |- *; destruct St as [_ ->]; [done|].
    by destruct r as [[e|sig]|]; simpl.
Qed.
End session.

(** ** A session of three guardians *)

Section witnesses.
#[local] Existing Instance demo_evm.
#[local] Existing Instance toy_crypto.
#[local] Existing Instance toy_round_crypto_ok.
#[local] Existing Instance toy_packet.
#[local] Existing Instance toy_packet_ok.
#[local] Existing Instance toy_msg.
#[local] Existing Instance toy_msg_ok.
#[local] Instance toy_signing : StateMachine ToySm (result string Z) Z := toy_machine 3 Ok.
#[local] Instance toy_cggmp : Cggmp (SM := ToySm) (Sig := Z) (Msg := Z) := {|
  KeyShare := Z;
  EcdsaSignature := bytes;
  signing _ i _ share _ := mkToySm i (-1) share 4;
  sig_r sig := [sig];
  sig_s sig := [0];
  from_compact b := Some b;
  normalize_s := id;
  serialize_compact := id;
|}.

Definition toy_sid : Hash := replicate 32 7.
Definition toy_pks : gmap PeerId Z := list_to_map [(0, 50); (1, 51); (2, 52)].
Definition toy_cfg (p : PeerId) : SignerConfig := mkSignerConfig (1000 * p) (50 + p) toy_pks.
Definition toy_randomness (p : PeerId) (r : Z) (j : PartyIndex) : Z * Z := (9000 + 10 * p + j, r).
Definition toy_session : SigningSession := mkSigningSession (UserOp [1]) [2] [2; 0; 1] 0 InProgress 0 0.
Definition toy_db : UsdtDb := set_sessions (insert toy_sid toy_session) (db genesis).
Definition no_locals : Locals (SM := ToySm) (Sig := Z) (Msg := Z) := mkLocals ∅ ∅ [].
Definition toy_locals (p : PeerId) : Locals :=
  if bool_decide (p ∈ merge_sort Z.le [2; 0; 1])
  then start_local_signer 20 toy_sid [2] [2; 0; 1] p (toy_cfg p) (toy_randomness p) no_locals
  else no_locals.
Definition toy_world : World := mkWorld toy_db toy_locals [].

(** The three proposals of the first round, handled by every signer. *)
Definition toy_items : list (PeerId * MpcRoundItem) :=
  omap (fun p => payload ← (signing_sessions (toy_locals p) !! toy_sid) ≫= pending_outgoing;
                 Some (p, mkMpcRoundItem toy_sid 0 0 1 payload)) [2; 0; 1].
Definition toy_handle (w : UsdtDb * list (PeerId * Locals)) (pi : PeerId * MpcRoundItem) :=
  let step q l := handle_mpc_round 20 (guardian demo_usdt q) pi.2 pi.1 w.1 l in
  ((step 0 no_locals).2,
   (fun '(q, l) => (q, match (step q l).1 with Ok (Some l) => l | _ => l end)) <$> w.2).

Example toy_session_signs :
  (fun '(q, l) => (q, completed_signatures l !! toy_sid))
    <$> (foldl toy_handle (toy_db, (fun q => (q, toy_locals q)) <$> [0; 1; 2]) toy_items).2
  = [(0, Some [303; 0]); (1, Some [1204; 0]); (2, Some [2105; 0])].
Proof. vm_compute. reflexivity. Qed.

Definition toy_payload (p : PeerId) : bytes :=
  default [] ((signing_sessions (toy_locals p) !! toy_sid) ≫= pending_outgoing).
Definition toy_item (p : PeerId) : MpcRoundItem := mkMpcRoundItem toy_sid 0 0 1 (toy_payload p).
Definition toy_caches (p : PeerId) : Caches :=
  mkCaches 0 0 None [] None [] None {[toy_sid := toy_payload p]} [] [].
Definition toy_proposed : World :=
  mkWorld toy_db toy_locals ((fun p => (p, toy_item p)) <$> [1; 0; 2]).
Definition toy_ordered1 : World := ordered 20 demo_usdt toy_proposed 0 (toy_item 0).
Definition toy_ordered2 : World := ordered 20 demo_usdt toy_ordered1 2 (toy_item 2).
Definition toy_ordered : World := ordered 20 demo_usdt toy_ordered2 1 (toy_item 1).

Lemma toy_slot p :
  p ∈ [0; 1; 2] -> exists slot, signing_sessions (toy_locals p) !! toy_sid = Some slot /\
    slot_round slot = 0 /\ pending_outgoing slot = Some (toy_payload p) /\
    chunk_payload (toy_payload p) = [toy_payload p].
Proof.
  intros Hp.
  assert (Hc : bool_decide ((slot_round <$> signing_sessions (toy_locals p) !! toy_sid) = Some 0) &&
    bool_decide (is_Some (signing_sessions (toy_locals p) !! toy_sid ≫= pending_outgoing)) &&
    bool_decide (chunk_payload (toy_payload p) = [toy_payload p]) = true).
  { rewrite !elem_of_cons in Hp. destruct Hp as [->|[->|[->|[]%elem_of_nil]]]; vm_compute; reflexivity. }
  apply andb_prop in Hc as [Hc Hch]. apply andb_prop in Hc as [Hr Hpay].
  apply bool_decide_eq_true in Hr, Hch. apply bool_decide_eq_true in Hpay as [payload Hpay].
  unfold toy_payload at 1. rewrite Hpay.
  destruct (signing_sessions (toy_locals p) !! toy_sid) as [slot|]; [|done].
  exists slot. injection Hr as Hr. done.
Qed.

Lemma toy_propose_rounds p :
  p ∈ [0; 1; 2] ->
  propose_rounds (guardian demo_usdt p) (toy_caches p) toy_db [(toy_sid, toy_session)]
  = [MpcRound (toy_item p)].
Proof.
  intros Hp. assert (Hs : p ∈ [2; 0; 1]) by set_solver. destruct (toy_slot p Hp) as (_ & _ & _ & _ & Hch).
  apply (propose_one demo_usdt toy_sid p (toy_caches p) toy_db toy_session (toy_payload p)); try done.
Qed.

Lemma toy_proposes p w :
  p ∈ [0; 1; 2] -> locals w = toy_locals ->
  wstep 20 demo_usdt toy_sid w (mkWorld (wdb w) (locals w) ((p, toy_item p) :: inflight w)).
Proof.
  intros Hp Hl. destruct (toy_slot p Hp) as (slot & Es & Hr & Hpay & _).
  apply (step_propose _ _ _ _ p (toy_caches p) toy_db toy_session slot);
    [by vm_compute|by rewrite Hl|by rewrite Hr|rewrite Hpay|rewrite toy_propose_rounds by done; left].
  unfold toy_caches. cbn [UsdtEndpoints.pending_outgoing]. by rewrite lookup_singleton_eq.
Qed.

Lemma toy_orders p w :
  (p, toy_item p) ∈ inflight w -> sessions (wdb w) !! toy_sid = Some toy_session ->
  is_ok (process_mpc_round demo_usdt (toy_item p) p (wdb w)).1 = true ->
  forallb (fun q => match (handle_mpc_round 20 (guardian demo_usdt q) (toy_item p) p (wdb w) (locals w q)).1 with
                    | Ok (Some _) => true | _ => false end) [0; 1; 2] = true ->
  wstep 20 demo_usdt toy_sid w (ordered 20 demo_usdt w p (toy_item p)).
Proof. intros. by eapply (ordered_step 20 demo_usdt toy_sid [0; 1; 2]). Qed.

(** Three proposals, then their order: the round completes and the signers finish. *)
Lemma toy_run : rtc (wstep 20 demo_usdt toy_sid) toy_world toy_ordered.
Proof.
  eapply rtc_l; [apply (toy_proposes 2); [set_solver|reflexivity]|].
  eapply rtc_l; [apply (toy_proposes 0); [set_solver|reflexivity]|].
  eapply rtc_l; [apply (toy_proposes 1); [set_solver|reflexivity]|].
  apply (rtc_l _ _ toy_ordered1).
  { apply (toy_orders 0 toy_proposed); [right; left| |vm_compute; reflexivity..]. reflexivity. }
  apply (rtc_l _ _ toy_ordered2).
  { apply (toy_orders 2 toy_ordered1); [right; right; left| |vm_compute; reflexivity..]. vm_compute. reflexivity. }
  apply (rtc_l _ _ toy_ordered); [|apply rtc_refl].
  apply (toy_orders 1 toy_ordered2); [left| |vm_compute; reflexivity..]. vm_compute. reflexivity.
Qed.

Definition toy_machines : list ToySm := machines toy_sid [2] [2; 0; 1] toy_cfg.
Definition toy_threads : option (list (Thread ToySm (result string Z) Z bytes)) :=
  mesh_start (signer_wire toy_sid [2; 0; 1] toy_cfg toy_randomness) 3 20 toy_machines.

Lemma toy_keys p q :
  p ∈ merge_sort Z.le [2; 0; 1] -> q ∈ merge_sort Z.le [2; 0; 1] ->
  mpc_encryption_pks (toy_cfg p) !! q = Some (public_key (mpc_encryption_sk (toy_cfg q))).
Proof.
  rewrite !merge_sort_Permutation, !elem_of_cons. intros _ Hq.
  destruct Hq as [->|[->|[->|[]%elem_of_nil]]]; reflexivity.
Qed.

Lemma toy_started : session_started 20 toy_sid [2] [2; 0; 1] toy_cfg toy_randomness toy_world.
Proof.
  split; [|done| |done].
  - intros s. unfold toy_world, toy_db. simpl. intros [= <-]. done.
  - intros p. exists no_locals. done.
Qed.

Lemma consensus_runs_the_protocol_witness :
  exists ts0, toy_threads = Some ts0 /\
  exists k outs, mesh_run direct_wire k 20 toy_machines = Some outs /\
    forall i p, merge_sort Z.le [2; 0; 1] !! i = Some p ->
      completed_signatures (locals toy_ordered p) !! toy_sid = signature_bytes (outs !! i).
Proof.
  assert (Hok : match toy_threads with
    | Some ts => forallb (fun t => match next_outgoing t with Some _ => true | None => false end) ts
    | None => false end = true) by (vm_compute; reflexivity).
  destruct toy_threads as [ts0|] eqn:E; [|done]. exists ts0. split; [done|].
  apply (consensus_runs_the_protocol 20 demo_usdt toy_sid [2] [2; 0; 1] toy_cfg toy_randomness
    toy_keys ltac:(repeat constructor; set_solver) eq_refl toy_world toy_ordered ts0).
  - intros m. eexists. reflexivity.
  - intros q. eexists. reflexivity.
  - exact (toy_sends Ok).
  - exact toy_started.
  - exact E.
  - rewrite forallb_forall in Hok. apply Forall_forall. intros t Ht%list_elem_of_In%Hok.
    destruct (next_outgoing t); [eauto|done].
  - exact toy_run.
Defined.
End witnesses.
