(* ===== verification/UsdtFetch.v ===== *)
(** * The USDT client's chain reader

    [modules/usdt/fedimint-usdt-client/src/evm.rs]: the JSON-RPC calls with their
    fallback over endpoints, the parsers of what comes back, and
    [fetch_deposit_proof], which assembles the balance proof a deposit claim
    carries.  An endpoint is never trusted: what the client checks itself is what
    the federation will check again. *)

From S2P Require Import Prelude FedimintCore UsdtTypes UsdtEvm UsdtProof.

(** ** JSON *)

(** serde_json's [Value]; an object has no key twice. *)
Inductive Json :=
| JNull
| JBool (b : bool)
| JNumber (n : Z)
| JString (s : string)
| JArray (l : list Json)
| JObject (fields : list (string * Json)).

Fixpoint assoc {A} (k : string) (l : list (string * A)) : option A :=
  match l with
  | [] => None
  | (k', v) :: l => if String.eqb k k' then Some v else assoc k l
  end.

(** [Value::get], [value["key"]], [value[i]], [as_str], [as_array], [is_null]. *)
Definition get_field (v : Json) (k : string) : option Json :=
  match v with JObject fields => assoc k fields | _ => None end.
Definition index_key (v : Json) (k : string) : Json := default JNull (get_field v k).
Definition index_at (v : Json) (i : nat) : Json :=
  match v with JArray l => default JNull (l !! i) | _ => JNull end.
Definition as_str (v : Json) : option string :=
  match v with JString s => Some s | _ => None end.
Definition as_array (v : Json) : option (list Json) :=
  match v with JArray l => Some l | _ => None end.
Definition is_null (v : Json) : bool := match v with JNull => true | _ => false end.

(** What the reader calls of the [hex], [alloy] and [serde_json] crates; a header is
    alloy's, with the JSON shape and the RLP encoding it has there. *)
Class ChainFormat := {
  hex_encode : bytes -> string;
  hex_decode : string -> option bytes;
  format_hex : Z -> string;
  u256_from_hex : string -> option Z;
  Header : Type;
  header_from_value : Json -> option Header;
  header_number : Header -> Z;
  header_encode : Header -> bytes;
}.

(** [strip_prefix("0x").unwrap_or(s)]. *)
Definition strip_0x (s : string) : string :=
  if String.prefix "0x" s then String.substring 2 (String.length s - 2) s else s.

(** ** The transport *)

Inductive FetchError :=
| NoUrl
| TimedOut
| SendFailed
| HttpStatus (status : Z)
| MalformedBody
| JsonRpcError (error : Json)
| BadAccountNodes
| BadStorageNodes
| BadValue
| BlockNotFound
| MissingHash
| BadHash
| BadHeaderJson
| HeaderDoesNotHash
| WrongBlock (number : Z)
| ProofOversized (len : Z)
| ProvenOverflow (proven : Z).

(** One POST as it comes back: the time limit passed, the request failed, or a status
    with the body, [None] when it is no JSON. *)
Inductive Exchange :=
| NoReply
| Unsent
| Reply (status : Z) (body : option Json).

Definition EVM_RPC_CALL_TIMEOUT_SECS : Z := 20.

Definition DEFAULT_EVM_RPC_URLS : list string :=
  ["https://ethereum-rpc.publicnode.com"; "https://1rpc.io/eth"; "https://eth.drpc.org"]%string.

Section fetch.
Context `{Evm} `{ChainFormat}.
(** The network: url, request body. *)
Context (post : string -> Json -> Exchange).

Definition call_one (url : string) (body : Json) : result FetchError Json :=
  match post url body with
  | NoReply => Err TimedOut
  | Unsent => Err SendFailed
  | Reply status body =>
      check ((200 <=? status) && (status <? 300)) (HttpStatus status);;
      value ← ok_or body MalformedBody;
      match get_field value "error" with
      | Some error => check (is_null error) (JsonRpcError error)
      | None => Ok tt
      end;;
      Ok (index_key value "result")
  end.

(** The loop of [call]: the first endpoint that answers, else the last error. *)
Fixpoint try_urls (urls : list string) (body : Json) (last_err : option FetchError)
    : result FetchError Json :=
  match urls with
  | [] => Err (default NoUrl last_err)
  | url :: urls =>
      match call_one url body with
      | Ok result => Ok result
      | Err err => try_urls urls body (Some err)
      end
  end.

Definition request_body (method : string) (params : Json) : Json :=
  JObject [("jsonrpc", JString "2.0"); ("id", JNumber 1); ("method", JString method);
           ("params", params)]%string.

Definition call (urls : list string) (method : string) (params : Json) : result FetchError Json :=
  try_urls urls (request_body method params) None.

(** ** The parsers *)

Definition parse_hex_node_array (value : Json) : option (list bytes) :=
  nodes ← as_array value;
  mapM (fun node => s ← as_str node; hex_decode (strip_0x s)) nodes.

Definition parse_u256_hex (value : Json) : option Z :=
  s ← as_str value; u256_from_hex (strip_0x s).

Definition parse_b256 (s : string) : option Hash :=
  b ← hex_decode (strip_0x s); if (length b =? 32)%nat then Some b else None.

(** ** The proof *)

Definition hex0x (s : string) : string := ("0x" +:+ s)%string.

Definition fetch_deposit_proof (urls : list string) (usdt_contract account : EvmAddress)
    (number : Z) : result FetchError (DepositProof * UsdtAmount) :=
  let block_tag := JString (hex0x (format_hex number)) in
  let storage_key := balances_storage_key account in
  proof_json ← call urls "eth_getProof"
    (JArray [JString (hex0x (hex_encode usdt_contract));
             JArray [JString (hex0x (hex_encode storage_key))]; block_tag]);
  account_nodes ← ok_or (parse_hex_node_array (index_key proof_json "accountProof")) BadAccountNodes;
  let storage_entry := index_at (index_key proof_json "storageProof") 0 in
  storage_nodes ← ok_or (parse_hex_node_array (index_key storage_entry "proof")) BadStorageNodes;
  proven ← ok_or (parse_u256_hex (index_key storage_entry "value")) BadValue;
  block_json ← call urls "eth_getBlockByNumber" (JArray [block_tag; JBool false]);
  check (negb (is_null block_json)) BlockNotFound;;
  hash_hex ← ok_or (as_str (index_key block_json "hash")) MissingHash;
  expected_hash ← ok_or (parse_b256 hash_hex) BadHash;
  header ← ok_or (header_from_value block_json) BadHeaderJson;
  let header_rlp := header_encode header in
  check (bool_decide (keccak256 header_rlp = expected_hash)) HeaderDoesNotHash;;
  check (header_number header =? number) (WrongBlock (header_number header));;
  let proof := mkDepositProof number header_rlp account_nodes storage_nodes in
  check (encoded_len_bytes proof <=? MAX_DEPOSIT_PROOF_BYTES) (ProofOversized (encoded_len_bytes proof));;
  proven ← ok_or (try_u64 proven) (ProvenOverflow proven);
  Ok (proof, proven).

(** ** What a fetched proof is worth *)

Abbreviation failed body := (fun url => is_ok (call_one url body) = false) (only parsing).

Lemma try_urls_spec body urls le :
  match try_urls urls body le with
  | Ok v => exists pre url rest, urls = pre ++ url :: rest /\ call_one url body = Ok v /\
      Forall (failed body) pre
  | Err e => Forall (failed body) urls /\ (urls = [] -> e = default NoUrl le) /\
      (forall url, last urls = Some url -> call_one url body = Err e)
  end.
Proof.
  revert le. induction urls as [|u us IH]; intros le; simpl; [by split_and!|].
  destruct (call_one u body) as [v|e] eqn:Eu.
  { exists [], u, us. by split_and!. }
  specialize (IH (Some e)). destruct (try_urls us body (Some e)) as [v|e'].
  - destruct IH as (pre & url & rest & -> & E & HF). exists (u :: pre), url, rest.
    split; [done|]. split; [done|]. constructor; [by rewrite Eu|done].
  - destruct IH as (HF & He & Hl). split; [constructor; [by rewrite Eu|done]|].
    split; [done|]. intros w. rewrite last_cons. destruct (last us) as [w'|] eqn:El.
    + intros [= <-]. by apply Hl.
    + intros [= <-]. apply last_None in El. by rewrite He.
Qed.

(** A call falls back over the endpoints in order: its result is that of the first
    endpoint that answers without an error, whatever those before it did; it fails
    only when every endpoint failed, with the last one's error. *)
Theorem call_falls_back urls method params :
  let body := request_body method params in
  match call urls method params with
  | Ok v => exists pre url rest, urls = pre ++ url :: rest /\ call_one url body = Ok v /\
      Forall (failed body) pre
  | Err e => Forall (failed body) urls /\ (urls = [] -> e = NoUrl) /\
      (forall url, last urls = Some url -> call_one url body = Err e)
  end.
Proof. intros body. apply (try_urls_spec body urls None). Qed.

Lemma fetch_facts urls usdt account number proof proven :
  fetch_deposit_proof urls usdt account number = Ok (proof, proven) ->
  block_number proof = number /\ encoded_len_bytes proof <= MAX_DEPOSIT_PROOF_BYTES /\
  proven <= U64_MAX /\
  exists header, header_rlp proof = header_encode header /\ header_number header = number.
Proof.
  unfold fetch_deposit_proof, check. intros E. run_inv E. ok_facts. zbool. simplify_eq. simpl.
  split_and!; [done..|]. eauto.
Qed.

(** A fetched proof is one the federation does not refuse for its shape: it is for
    the requested block, within the size limit, and its header is a well-formed
    header of that number.  Whether its contents are what the chain holds is the
    federation's to decide: once the anchored hash is the header's, the check can
    fail only in the tries. *)
Theorem fetched_proof_well_formed `{StateTrie} urls usdt account number proof proven :
  fetch_deposit_proof urls usdt account number = Ok (proof, proven) ->
  block_number proof = number /\ proven <= U64_MAX /\
  (exists header, header_rlp proof = header_encode header /\ header_number header = number) /\
  (forall usdt' account' e,
    verify_deposit_proof proof (keccak256 (header_rlp proof)) usdt' account' = Err e ->
    e <> Oversized /\ e <> HeaderHashMismatch).
Proof.
  intros E. apply fetch_facts in E as (Hb & Hl & Hp & Hh). split_and!; try done.
  intros usdt' account' e Ev. unfold verify_deposit_proof, check in Ev.
  rewrite (proj2 (Z.leb_le _ _) Hl) in Ev. simpl in Ev. rewrite bool_decide_true in Ev by done.
  simpl in Ev. split; intros ->; run_inv Ev; ok_facts; congruence.
Qed.
End fetch.

(** ** A concrete endpoint *)

Definition byte_digit (b : Z) : Ascii.ascii := Ascii.ascii_of_N (Z.to_N b).

(** Text as raw bytes, and a header as its number. *)
Definition toy_format : ChainFormat := {|
  hex_encode b := String.string_of_list_ascii (byte_digit <$> b);
  hex_decode s := Some (ascii_bytes s);
  format_hex n := String.String (byte_digit n) EmptyString;
  u256_from_hex s := Some (Z.of_nat (String.length s));
  Header := Z;
  header_from_value v := match get_field v "number" with Some (JNumber n) => Some n | _ => None end;
  header_number h := h;
  header_encode h := [h];
|}.

Definition toy_hash : string := String.string_of_list_ascii (byte_digit <$> replicate 31 0 ++ [9]).

(** The first endpoint is down; the second reports one node each and a value of 4. *)
Definition toy_post (url : string) (body : Json) : Exchange :=
  if String.eqb url "down" then NoReply
  else if bool_decide (as_str (index_key body "method") = Some "eth_getProof")%string
  then Reply 200 (Some (JObject [("result", JObject [("accountProof", JArray [JString "a"]);
      ("storageProof", JArray [JObject [("proof", JArray [JString "b"]); ("value", JString "0xabcd")]])])]%string))
  else Reply 200 (Some (JObject [("result", JObject [("hash", JString toy_hash); ("number", JNumber 9)])]%string)).

Definition flat_evm : Evm := with_hash (fun b => replicate 31 0 ++ take 1 b).

Definition toy_fetched : DepositProof := mkDepositProof 9 [9] [[97]] [[98]].

Lemma fetched_proof_well_formed_witness :
  block_number toy_fetched = 9 /\ 4 <= U64_MAX /\
  (exists header, header_rlp toy_fetched = @header_encode toy_format header /\
     @header_number toy_format header = 9) /\
  (forall usdt' account' e,
    @verify_deposit_proof flat_evm toy_trie toy_fetched
      (@keccak256 flat_evm (header_rlp toy_fetched)) usdt' account' = Err e ->
    e <> Oversized /\ e <> HeaderHashMismatch).
Proof.
  apply (@fetched_proof_well_formed flat_evm toy_format toy_post toy_trie ["down"; "up"]%string [1] [2] 9).
  vm_compute. reflexivity.
Defined.
