(* ===== verification/UsdtClient.v ===== *)
(** * The USDT client's deposits

    [modules/usdt/fedimint-usdt-client/src/lib.rs]: the fee guards, the keys derived
    from the seed with the grind for a discoverable one, the allocation of deposit
    addresses, and the path from a balance proof to the transaction that credits and
    mints it.  The client's database, the transactions it hands to the framework and
    its errors are threaded through the monad [M]; the federation's answers are
    arguments.  The theorems run what is submitted against the server of
    [UsdtHandlers]. *)

From S2P Require Import Prelude FedimintCore UsdtTypes UsdtEvm UsdtUserOp UsdtSigning UsdtProof.
From S2P Require Import UsdtDb UsdtServer UsdtHandlers UsdtLedger UsdtSolvency UsdtDemo.
From S2P Require Import UsdtEndpoints UsdtScan UsdtFetch.

Abbreviation TransactionId := Z (only parsing).
Abbreviation OperationId := Z (only parsing).

(** ** Fees *)

Inductive UsdtClientError :=
| ApiFailed (e : string)
| NotReady (status : StatusResponse)
| NoScanTweak
| TweakFailed
| NothingNewToCredit (account : EvmAddress) (proven credited : UsdtAmount)
| FeeQuoteUnavailable
| FeeAboveCap (quote_fee cap : UsdtAmount)
| FeeAboveSanity (quote_fee : UsdtAmount) (pct : Z)
| FeeConsumesDelta (delta fee : UsdtAmount)
| NothingAnchored
| FetchFailed (e : FetchError)
| NoClaimKey (account : EvmAddress)
| BothProbesFailed (ground_err legacy_err : UsdtClientError)
| SubmitFailed (e : string)
| TxRejected (e : string)
| WithdrawalDidFail (reason : FailReason)
| DeadlineElapsed.

Definition ensure_fee_quote_available {T} (quote : T) (available : bool)
    : result UsdtClientError T :=
  if negb available then Err FeeQuoteUnavailable else Ok quote.

Definition FEE_SANITY_PERCENT : Z := 25.

Definition check_fee_cap (quote_fee amount : UsdtAmount) (explicit_cap : option UsdtAmount)
    (accept_high_fee : bool) : result UsdtClientError unit :=
  match explicit_cap with
  | Some cap => if cap <? quote_fee then Err (FeeAboveCap quote_fee cap) else Ok tt
  | None =>
      if accept_high_fee then Ok tt
      else
        let threshold := amount * FEE_SANITY_PERCENT / 100 in
        if threshold <? quote_fee then
          Err (FeeAboveSanity quote_fee
                 (if amount =? 0 then saturating_mul_u128 quote_fee 100
                  else quote_fee * 100 / amount))
        else Ok tt
  end.

Definition is_nothing_new_to_credit_error (err : UsdtClientError) : bool :=
  match err with NothingNewToCredit _ _ _ => true | _ => false end.

(** ** Keys *)

(** fedimint-derive-secret's key tree and the secret side of secp256k1. *)
Class Keys `{Evm} := {
  Keypair : Type;
  DerivableSecret : Type;
  public_key : Keypair -> PublicKey;
  child_key : DerivableSecret -> Z -> DerivableSecret;
  to_secp_key : DerivableSecret -> Keypair;
  add_tweak : Keypair -> Z -> option Keypair;
}.

(** Tweaking the secret key tweaks the public key, and fails with it. *)
Class KeysOk `{Keys} : Prop :=
  add_tweak_public kp t : public_key <$> add_tweak kp t = add_exp_tweak (public_key kp) t.

Definition DEPOSIT_CLAIM_KEY_CHILD : Z := 0.
Definition REFUND_KEY_CHILD : Z := 1.
Definition SCAN_GRIND_CHUNK : Z := 256.

(** Without [network], which nothing reads. *)
Record UsdtClientConfig := mkUsdtClientConfig {
  client_group_public_key : PublicKey;
  client_network : Z;
  client_usdt_contract : EvmAddress;
  client_chain_id : Z;
  client_confirmation_depth : Z;
  client_entry_point : EvmAddress;
  client_account_factory : EvmAddress;
  client_simple_account_impl : EvmAddress;
}.

(** The server's [get_client_config]. *)
Definition get_client_config (config : UsdtConfigConsensus) : UsdtClientConfig :=
  mkUsdtClientConfig (group_public_key config) (network config) (usdt_contract config)
    (chain_id config) (confirmation_depth config) (entry_point config) (account_factory config)
    (simple_account_impl config).

Section keys.
Context `{Keys}.

Definition claim_keypair_static (module_root_secret : DerivableSecret) (index : Z) : Keypair :=
  to_secp_key (child_key (child_key module_root_secret DEPOSIT_CLAIM_KEY_CHILD) index).

Definition refund_keypair_static (module_root_secret : DerivableSecret) (index : Z) : Keypair :=
  to_secp_key (child_key (child_key module_root_secret REFUND_KEY_CHILD) index).

Definition deposit_address (cfg : UsdtClientConfig) (claim_pubkey : PublicKey) : EvmAddress :=
  derive_deposit_account (client_group_public_key cfg) (client_account_factory cfg)
    (client_simple_account_impl cfg) claim_pubkey.

Definition find_tweak (cfg : UsdtClientConfig) (base : Keypair) (start stop : Z) :=
  find_scan_tweak (client_group_public_key cfg) (client_account_factory cfg)
    (client_simple_account_impl cfg) (public_key base) start stop.

(** The loop over chunks; [fuel] bounds their number. *)
Fixpoint grind_chunks (fuel : nat) (cfg : UsdtClientConfig) (base : Keypair) (start : Z)
    : result UsdtClientError (Z * Keypair * EvmAddress) :=
  match fuel with
  | O => Err NoScanTweak
  | S fuel =>
      if negb (start <? MAX_SCAN_GRIND_ITERATIONS) then Err NoScanTweak
      else
        let stop := saturating_add_u64 start SCAN_GRIND_CHUNK in
        found ← map_err (fun _ => TweakFailed) (find_tweak cfg base start stop);
        match found with
        | Some (tweak, _, account) =>
            keypair ← (if tweak =? 0 then Ok base else ok_or (add_tweak base tweak) TweakFailed);
            Ok (tweak, keypair, account)
        | None => grind_chunks fuel cfg base stop
        end
  end.

Definition GRIND_CHUNKS : nat := Z.to_nat (MAX_SCAN_GRIND_ITERATIONS / SCAN_GRIND_CHUNK).

Lemma grind_chunks_cover :
  0 + Z.of_nat GRIND_CHUNKS * SCAN_GRIND_CHUNK = MAX_SCAN_GRIND_ITERATIONS.
Proof. unfold GRIND_CHUNKS. rewrite Z2Nat.id; [reflexivity|discriminate]. Qed.

Definition ground_claim_keypair_static (cfg : UsdtClientConfig) (base : Keypair)
    : result UsdtClientError (Z * Keypair * EvmAddress) :=
  grind_chunks GRIND_CHUNKS cfg base 0.
End keys.

(** ** The grind is one search *)

Section grind_spec.
Context `{KeysOk} `{!CurveOk}.
Variables (cfg : UsdtClientConfig) (base : Keypair).

Abbreviation group := (client_group_public_key cfg).
Abbreviation factory := (client_account_factory cfg).
Abbreviation impl := (client_simple_account_impl cfg).
Abbreviation hash := (deposit_init_code_hash impl (evm_address group)).

(** A search that finds nothing can be resumed where it stopped. *)
Lemma scan_from_resume n m t pk pk0 :
  add_exp_tweak pk0 t = Some pk ->
  scan_from group factory hash n t pk = Ok None ->
  exists pk', add_exp_tweak pk0 (t + Z.of_nat n) = Some pk' /\
    scan_from group factory hash (n + m) t pk = scan_from group factory hash m (t + Z.of_nat n) pk'.
Proof.
  revert t pk. induction n as [|n IH]; intros t pk Hpk E.
  { exists pk. rewrite Z.add_0_r. done. }
  simpl in E |- *. destruct (is_potential_deposit _ _); [done|].
  destruct (add_exp_tweak pk 1) as [pk1|] eqn:E1; simpl in E |- *; [|done].
  erewrite add_exp_tweak_step in E1 by exact Hpk.
  destruct (IH _ _ E1 E) as (pk' & Hpk' & Eq). exists pk'.
  by replace (t + Z.of_nat (S n)) with (t + 1 + Z.of_nat n) by lia.
Qed.

Lemma scan_from_found n m t pk r :
  scan_from group factory hash n t pk = r -> r <> Ok None ->
  scan_from group factory hash (n + m) t pk = r.
Proof.
  revert t pk. induction n as [|n IH]; intros t pk E Hr; simpl in *; [congruence|].
  destruct (is_potential_deposit _ _); [done|].
  destruct (add_exp_tweak pk 1) as [pk1|]; simpl in *; [|done]. by apply IH.
Qed.

(** What the secret side returns for a hit. *)
Lemma tweaked_keypair t pk :
  add_exp_tweak (public_key base) t = Some pk ->
  exists kp, (if t =? 0 then Ok base else ok_or (add_tweak base t) TweakFailed) = Ok kp /\
    public_key kp = pk.
Proof.
  intros Hpk. destruct (t =? 0) eqn:E0; zbool.
  - subst. rewrite add_exp_tweak_zero in Hpk. simplify_eq. eauto.
  - rewrite <- add_tweak_public in Hpk. destruct (add_tweak base t) as [kp|]; simplify_eq/=. eauto.
Qed.

Definition outcome_of (r : result unit (option (Z * PublicKey * EvmAddress)))
    (g : result UsdtClientError (Z * Keypair * EvmAddress)) : Prop :=
  match r with
  | Ok (Some (t, pk, account)) => exists kp, g = Ok (t, kp, account) /\ public_key kp = pk
  | Ok None => g = Err NoScanTweak
  | Err _ => g = Err TweakFailed
  end.

Lemma grind_chunks_spec fuel start pk :
  0 <= start -> add_exp_tweak (public_key base) start = Some pk ->
  start + Z.of_nat fuel * SCAN_GRIND_CHUNK = MAX_SCAN_GRIND_ITERATIONS ->
  outcome_of (scan_from group factory hash (Z.to_nat (MAX_SCAN_GRIND_ITERATIONS - start)) start pk)
    (grind_chunks fuel cfg base start).
Proof.
  revert start pk. induction fuel as [|fuel IH]; intros start pk Hs Hpk Hf.
  { replace (MAX_SCAN_GRIND_ITERATIONS - start) with 0 by lia. done. }
  rewrite Nat2Z.inj_succ in Hf. cbn [grind_chunks].
  assert (Hm : MAX_SCAN_GRIND_ITERATIONS = 4194304) by done.
  assert (Hk : SCAN_GRIND_CHUNK = 256) by done.
  rewrite (proj2 (Z.ltb_lt _ _)) by lia. cbn [negb].
  assert (saturating_add_u64 start SCAN_GRIND_CHUNK = start + 256) as ->
    by (unfold saturating_add_u64; unfold_widths; lia).
  assert (Ef : find_tweak cfg base start (start + 256) = scan_from group factory hash 256 start pk).
  { unfold find_tweak, find_scan_tweak. rewrite Z.min_l by lia.
    rewrite (proj2 (Z.leb_gt _ _)) by lia. replace (start + 256 - start) with 256 by lia.
    destruct (start =? 0) eqn:E0; zbool; simpl.
    - subst. rewrite add_exp_tweak_zero in Hpk. by simplify_eq.
    - by rewrite Hpk. }
  rewrite Ef. set (rest := Z.to_nat (MAX_SCAN_GRIND_ITERATIONS - (start + 256))).
  replace (Z.to_nat (MAX_SCAN_GRIND_ITERATIONS - start)) with (256 + rest)%nat by lia.
  destruct (scan_from group factory hash 256 start pk) as [[[[t pk'] account]|]|e] eqn:E.
  - rewrite (scan_from_found 256 rest _ _ _ E) by done.
    pose proof (scan_from_first group (public_key base) factory impl 256 start pk _ Hpk E)
      as (_ & Hpk' & _).
    destruct (tweaked_keypair t pk' Hpk') as (kp & Ek & Epk). simpl. rewrite Ek. simpl. eauto.
  - destruct (scan_from_resume 256 rest start pk (public_key base) Hpk E) as (pk' & Hpk' & ->).
    simpl. apply IH; [lia|exact Hpk'|lia].
  - rewrite (scan_from_found 256 rest _ _ _ E) by done. done.
Qed.

(** The chunked grind is the single search over all the tweaks allowed: the chunk
    boundaries, at which the loop yields and restarts from the base key, change
    nothing, and the secret key it returns is the one of the public key found. *)
Theorem chunked_grind_is_one_search :
  outcome_of (find_tweak cfg base 0 MAX_SCAN_GRIND_ITERATIONS) (ground_claim_keypair_static cfg base).
Proof.
  unfold find_tweak, find_scan_tweak. rewrite Z.min_id.
  change (MAX_SCAN_GRIND_ITERATIONS <=? 0) with false. cbn iota.
  change (0 =? 0) with true. cbn [result_bind mbind].
  apply (grind_chunks_spec GRIND_CHUNKS 0); [done|apply add_exp_tweak_zero|apply grind_chunks_cover].
Qed.

Lemma grind_chunks_untweaked fuel start t kp account :
  grind_chunks fuel cfg base start = Ok (t, kp, account) -> t = 0 -> kp = base.
Proof.
  revert start. induction fuel as [|fuel IH]; intros start E Ht; simpl in E; [done|].
  destruct (negb _); [done|]. destruct (find_tweak _ _ _ _) as [[[[t1 pk1] a1]|]|]; simpl in E; [| |done].
  - destruct (t1 =? 0) eqn:E0; simpl in E; [by simplify_eq|]. zbool.
    destruct (add_tweak base t1); simplify_eq/=.
  - by eapply IH.
Qed.

Lemma ground_outcome :
  outcome_of (scan_from group factory hash (Z.to_nat MAX_SCAN_GRIND_ITERATIONS) 0 (public_key base))
    (ground_claim_keypair_static cfg base).
Proof.
  pose proof (grind_chunks_spec GRIND_CHUNKS 0 (public_key base) (Z.le_refl 0)
    (add_exp_tweak_zero _) grind_chunks_cover) as Hs.
  rewrite Z.sub_0_r in Hs. exact Hs.
Qed.

Lemma outcome_hit t kp account max :
  0 <= max ->
  outcome_of (scan_from group factory hash (Z.to_nat max) 0 (public_key base)) (Ok (t, kp, account)) ->
  0 <= t < max /\ account = deposit_address cfg (public_key kp) /\
  is_potential_deposit group account = true /\
  add_exp_tweak (public_key base) t = Some (public_key kp).
Proof.
  intros Hm Hs. unfold outcome_of in Hs.
  destruct (scan_from _ _ _ _ 0 _) as [[[[t' pk'] a']|]|] eqn:Esc; [|done..].
  destruct Hs as (kp' & [= <- <- <-] & <-).
  apply (scan_from_first group (public_key base) factory impl) in Esc
    as (Ht & Hpk & -> & Hd & _); [|apply add_exp_tweak_zero].
  split; [lia|]. by split_and!.
Qed.

(** What is ground is a key whose deposit account is discoverable. *)
Lemma ground_facts t kp account :
  ground_claim_keypair_static cfg base = Ok (t, kp, account) ->
  0 <= t < MAX_SCAN_GRIND_ITERATIONS /\ account = deposit_address cfg (public_key kp) /\
  is_potential_deposit group account = true /\
  add_exp_tweak (public_key base) t = Some (public_key kp).
Proof.
  intros E. pose proof ground_outcome as Hs. rewrite E in Hs.
  exact (outcome_hit t kp account MAX_SCAN_GRIND_ITERATIONS ltac:(discriminate) Hs).
Qed.

Lemma ground_untweaked t kp account :
  ground_claim_keypair_static cfg base = Ok (t, kp, account) -> t = 0 -> kp = base.
Proof. apply grind_chunks_untweaked. Qed.
End grind_spec.

(** Its [2 ^ 14] chunks of unary fuel are nothing to unfold in a proof. *)
#[global] Opaque ground_claim_keypair_static.

(** ** State and surroundings *)

Section operations.
Context `{Keys} `{AmountsOps}.

(** The tables of db.rs; the singletons are absent until first written. *)
Record UsdtClientDb := mkUsdtClientDb {
  claim_keys : gmap EvmAddress Keypair;
  next_deposit_index : option Z;
  refund_keys : gmap OutPoint Keypair;
  next_refund_index : option Z;
  evm_rpc_url : option string;
  scan_cursor : option Z;
}.

(** What goes into the transaction builder, with the amounts declared for it. *)
Record ClientInput := mkClientInput {
  ci_input : UsdtInput; ci_keys : list Keypair; ci_amounts : Amounts;
}.
Record ClientOutput := mkClientOutput { co_output : UsdtOutput; co_amounts : Amounts }.

Inductive UsdtOperationMeta :=
| MetaClaim (account : EvmAddress) (amount fee : UsdtAmount)
| MetaWithdraw (recipient : EvmAddress) (amount max_fee : UsdtAmount).

Inductive Submission :=
| SubmitInput (i : ClientInput) (meta : UsdtOperationMeta)
| SubmitOutput (o : ClientOutput) (meta : UsdtOperationMeta).

(** The database with the log of the transactions handed to the framework. *)
Record ClientState := mkClientState { client_db : UsdtClientDb; sent : list Submission }.

(** The client framework: a submission gets an operation id and a transaction id, or
    fails; the transaction is accepted or rejected; its e-cash is issued or not. *)
Record Framework := mkFramework {
  finalize_and_submit_transaction : Submission -> result string (OperationId * TransactionId);
  await_tx_accepted : TransactionId -> result string unit;
  await_primary_module_outputs : TransactionId -> result string unit;
}.

(** The federation's answers during one operation. *)
Record UsdtApi := mkUsdtApi {
  api_status : result string StatusResponse;
  api_deposit_status : PublicKey -> result string DepositStatusResponse;
  api_latest_anchored_block : result string (Z * Z);
  api_deposit_fee_quote : result string FeeQuoteResponse;
  api_withdraw_fee_quote : UsdtAmount -> result string FeeQuoteResponse;
}.

Record UsdtClientModule := mkUsdtClientModule {
  client_cfg : UsdtClientConfig;
  module_root_secret : DerivableSecret;
}.

Definition CM : Type -> Type := M ClientState UsdtClientError.

Definition on_db (f : UsdtClientDb -> UsdtClientDb) (s : ClientState) : ClientState :=
  mkClientState (f (client_db s)) (sent s).
Definition log_sent (x : Submission) (s : ClientState) : ClientState :=
  mkClientState (client_db s) (sent s ++ [x]).

Definition put_claim_key (account : EvmAddress) (kp : Keypair) (d : UsdtClientDb) : UsdtClientDb :=
  mkUsdtClientDb (<[account := kp]> (claim_keys d)) (next_deposit_index d) (refund_keys d)
    (next_refund_index d) (evm_rpc_url d) (scan_cursor d).
Definition put_next_deposit_index (index : Z) (d : UsdtClientDb) : UsdtClientDb :=
  mkUsdtClientDb (claim_keys d) (Some index) (refund_keys d)
    (next_refund_index d) (evm_rpc_url d) (scan_cursor d).
Definition put_refund_key (out_point : OutPoint) (kp : Keypair) (d : UsdtClientDb) : UsdtClientDb :=
  mkUsdtClientDb (claim_keys d) (next_deposit_index d) (<[out_point := kp]> (refund_keys d))
    (next_refund_index d) (evm_rpc_url d) (scan_cursor d).
Definition put_next_refund_index (index : Z) (d : UsdtClientDb) : UsdtClientDb :=
  mkUsdtClientDb (claim_keys d) (next_deposit_index d) (refund_keys d)
    (Some index) (evm_rpc_url d) (scan_cursor d).
Definition set_evm_rpc_url (url : option string) (d : UsdtClientDb) : UsdtClientDb :=
  mkUsdtClientDb (claim_keys d) (next_deposit_index d) (refund_keys d)
    (next_refund_index d) url (scan_cursor d).
Definition put_scan_cursor (cursor : Z) (d : UsdtClientDb) : UsdtClientDb :=
  mkUsdtClientDb (claim_keys d) (next_deposit_index d) (refund_keys d)
    (next_refund_index d) (evm_rpc_url d) (Some cursor).

(** ** Allocation *)

Definition claim_keypair_for_index (c : UsdtClientModule) (index : Z) : Keypair :=
  claim_keypair_static (module_root_secret c) index.
Definition refund_keypair_for_index (c : UsdtClientModule) (index : Z) : Keypair :=
  refund_keypair_static (module_root_secret c) index.

Definition ground_claim_keypair_for_index (c : UsdtClientModule) (index : Z)
    : result UsdtClientError (Z * Keypair * EvmAddress) :=
  ground_claim_keypair_static (client_cfg c) (claim_keypair_for_index c index).

Definition is_ready (s : BootstrapState) : bool := match s with Ready => true | _ => false end.

(** The closure [autocommit] runs; it writes nothing when it fails. *)
Definition allocate_in_db (c : UsdtClientModule) : CM (Keypair * EvmAddress) :=
  index ← gets (fun s => default 0 (next_deposit_index (client_db s)));
  '(_, claim_keypair, account) ← lift (ground_claim_keypair_for_index c index);
  modify (on_db (put_next_deposit_index (saturating_add_u64 index 1)));;
  modify (on_db (put_claim_key account claim_keypair));;
  mret (claim_keypair, account).

Definition allocate_deposit (c : UsdtClientModule) (api : UsdtApi) : CM (Keypair * EvmAddress) :=
  status ← lift (map_err ApiFailed (api_status api));
  ensure (is_ready (st_state status)) (NotReady status);;
  allocate_in_db c.

Definition allocate_refund_index : CM Z :=
  index ← gets (fun s => default 0 (next_refund_index (client_db s)));
  modify (on_db (put_next_refund_index (saturating_add_u64 index 1)));;
  mret index.

(** ** Claims *)

Definition deposit_fee_quote (api : UsdtApi) : result UsdtClientError FeeQuoteResponse :=
  quote ← map_err ApiFailed (api_deposit_fee_quote api);
  ensure_fee_quote_available quote (available quote).

Definition withdraw_fee_quote (api : UsdtApi) (amount : UsdtAmount)
    : result UsdtClientError FeeQuoteResponse :=
  quote ← map_err ApiFailed (api_withdraw_fee_quote api amount);
  ensure_fee_quote_available quote (available quote).

Definition deposit_proof_input (claim_keypair : Keypair) (proof : DepositProof)
    (delta fee : UsdtAmount) : result UsdtClientError ClientInput :=
  if delta <=? fee then Err (FeeConsumesDelta delta fee)
  else Ok (mkClientInput (DepositProofV0 (public_key claim_keypair) proof fee) [claim_keypair]
             (new_custom USDT_UNIT (delta - fee))).

Definition submit_deposit_proof_input (fw : Framework) (claim_keypair : Keypair)
    (account : EvmAddress) (proof : DepositProof) (delta fee : UsdtAmount) : CM OperationId :=
  input ← lift (deposit_proof_input claim_keypair proof delta fee);
  let submission := SubmitInput input (MetaClaim account delta fee) in
  '(operation_id, txid) ← lift (map_err SubmitFailed (finalize_and_submit_transaction fw submission));
  modify (log_sent submission);;
  lift (map_err SubmitFailed (await_primary_module_outputs fw txid));;
  mret operation_id.

Definition submit_prebuilt_deposit_proof (c : UsdtClientModule) (fw : Framework) (api : UsdtApi)
    (claim_keypair : Keypair) (proof : DepositProof) (proven : UsdtAmount)
    (max_deposit_fee : option UsdtAmount) (accept_high_fee : bool) : CM OperationId :=
  let claim_pk := public_key claim_keypair in
  let account := deposit_address (client_cfg c) claim_pk in
  modify (on_db (put_claim_key account claim_keypair));;
  status ← lift (map_err ApiFailed (api_deposit_status api claim_pk));
  let delta := saturating_sub proven (ds_credited status) in
  reject_if (delta =? 0) (NothingNewToCredit account proven (ds_credited status));;
  quote ← lift (deposit_fee_quote api);
  let fee := quote_fee quote in
  lift (check_fee_cap fee delta max_deposit_fee accept_high_fee);;
  submit_deposit_proof_input fw claim_keypair account proof delta fee.

Definition resolve_evm_rpc_urls (d : UsdtClientDb) (url : option string) : list string :=
  match url, evm_rpc_url d with
  | Some url, _ => [url]
  | None, Some url => [url]
  | None, None => DEFAULT_EVM_RPC_URLS
  end.

Section chain.
Context `{ChainFormat} (post : string -> Json -> Exchange).

Definition submit_deposit_proof_with_keypair (c : UsdtClientModule) (fw : Framework) (api : UsdtApi)
    (claim_keypair : Keypair) (url : option string) (max_deposit_fee : option UsdtAmount)
    (accept_high_fee : bool) : CM OperationId :=
  let account := deposit_address (client_cfg c) (public_key claim_keypair) in
  anchored ← lift (map_err ApiFailed (api_latest_anchored_block api));
  reject_if (anchored.1 =? 0) NothingAnchored;;
  urls ← gets (fun s => resolve_evm_rpc_urls (client_db s) url);
  reject_if (bool_decide (urls = [])) (FetchFailed NoUrl);;
  '(proof, proven) ← lift (map_err FetchFailed
      (fetch_deposit_proof post urls (client_usdt_contract (client_cfg c)) account anchored.1));
  submit_prebuilt_deposit_proof c fw api claim_keypair proof proven max_deposit_fee accept_high_fee.

Record DepositClaimOutcome := mkDepositClaimOutcome {
  outcome_operation_id : OperationId;
  outcome_claim_pk : PublicKey;
  outcome_account : EvmAddress;
  used_legacy_key : bool;
}.

(** [match submit(..).await { Ok(id) => .., Err(err) => err }]: runs an operation and
    hands over its result with the state it leaves. *)
Definition try_run {A} (m : CM A) : CM (result UsdtClientError A) :=
  fun s => let '(r, s) := m s in (Ok r, s).

(** Two probes, with the answers each of them gets. *)
Definition submit_deposit_proof (c : UsdtClientModule) (fw : Framework) (api legacy_api : UsdtApi)
    (index : Z) (url : option string) (max_deposit_fee : option UsdtAmount)
    (accept_high_fee : bool) : CM DepositClaimOutcome :=
  '(ground_tweak, ground_keypair, ground_account) ← lift (ground_claim_keypair_for_index c index);
  ground ← try_run (submit_deposit_proof_with_keypair c fw api ground_keypair url max_deposit_fee
                      accept_high_fee);
  match ground with
  | Ok operation_id =>
      mret (mkDepositClaimOutcome operation_id (public_key ground_keypair) ground_account false)
  | Err ground_err =>
      reject_if ((ground_tweak =? 0) || negb (is_nothing_new_to_credit_error ground_err)) ground_err;;
      let legacy_keypair := claim_keypair_for_index c index in
      let legacy_account := deposit_address (client_cfg c) (public_key legacy_keypair) in
      legacy ← try_run (submit_deposit_proof_with_keypair c fw legacy_api legacy_keypair url
                          max_deposit_fee accept_high_fee);
      match legacy with
      | Ok operation_id =>
          mret (mkDepositClaimOutcome operation_id (public_key legacy_keypair) legacy_account true)
      | Err legacy_err => fail (BothProbesFailed ground_err legacy_err)
      end
  end.

Definition submit_deposit_proof_for_account (c : UsdtClientModule) (fw : Framework) (api : UsdtApi)
    (account : EvmAddress) (url : option string) (max_deposit_fee : option UsdtAmount)
    (accept_high_fee : bool) : CM OperationId :=
  stored ← gets (fun s => claim_keys (client_db s) !! account);
  claim_keypair ← lift (ok_or stored (NoClaimKey account));
  submit_deposit_proof_with_keypair c fw api claim_keypair url max_deposit_fee accept_high_fee.

(** One discovery round: [fetch] is a guardian's answer to a page request. *)
Definition discover_round (peers : list PeerId) (np : NumPeers)
    (fetch : PeerId -> Z -> option (list TransferCandidate * Z))
    : CM (list (TransferCandidate * PublicKey)) :=
  since ← gets (fun s => default 0 (scan_cursor (client_db s)));
  keys ← gets (fun s => claim_keys (client_db s));
  let responses := omap (fun peer => page_peer_candidates since (fetch peer)) peers in
  let '(matches, cursor) := discover_deposits (public_key <$> keys) np since responses in
  modify (fun s => if since <? cursor then on_db (put_scan_cursor cursor) s else s);;
  mret matches.

(** The claim attempts over the matches, each with the answers it gets. *)
Fixpoint claim_matches (c : UsdtClientModule) (fw : Framework)
    (ds : list (TransferCandidate * PublicKey)) (apis : nat -> UsdtApi) (url : option string)
    (max_deposit_fee : option UsdtAmount) (accept_high_fee : bool)
    : CM (list (TransferCandidate * result UsdtClientError OperationId)) :=
  match ds with
  | [] => mret []
  | (d, _) :: ds =>
      res ← try_run (submit_deposit_proof_for_account c fw (apis O) (tc_to d) url max_deposit_fee
                       accept_high_fee);
      rest ← claim_matches c fw ds (fun n => apis (S n)) url max_deposit_fee accept_high_fee;
      mret ((d, res) :: rest)
  end.

Definition discover_and_claim_deposits (c : UsdtClientModule) (fw : Framework)
    (peers : list PeerId) (np : NumPeers)
    (fetch : PeerId -> Z -> option (list TransferCandidate * Z)) (apis : nat -> UsdtApi)
    (url : option string) (max_deposit_fee : option UsdtAmount) (accept_high_fee : bool)
    : CM (list (TransferCandidate * result UsdtClientError OperationId)) :=
  matches ← discover_round peers np fetch;
  claim_matches c fw matches apis url max_deposit_fee accept_high_fee.
End chain.
End operations.

(** ** The fee cap *)

Definition fee_acceptable (fee amount : UsdtAmount) (explicit_cap : option UsdtAmount)
    (accept_high_fee : bool) : Prop :=
  match explicit_cap with
  | Some cap => fee <= cap
  | None => accept_high_fee = true \/ 4 * fee <= amount
  end.

(** A quote passes the guard exactly when it is within the explicit cap or, without
    one, when the user waived the check or it is at most a quarter of the amount; the
    waiver never overrides a cap. *)
Theorem fee_cap_exact fee amount explicit_cap accept_high_fee :
  check_fee_cap fee amount explicit_cap accept_high_fee = Ok tt
  <-> fee_acceptable fee amount explicit_cap accept_high_fee.
Proof.
  unfold check_fee_cap, fee_acceptable, FEE_SANITY_PERCENT.
  destruct explicit_cap as [cap|].
  - destruct (cap <? fee) eqn:E; zbool; split; intros; try done; lia.
  - destruct accept_high_fee; [naive_solver|].
    pose proof (mul_div_floor (amount * 25) 100 ltac:(done)) as Hd.
    destruct (_ <? fee) eqn:E; zbool; split; intros H; try done; [|right; lia].
    destruct H as [?|?]; [done|lia].
Qed.

Lemma check_fee_cap_acceptable fee amount explicit_cap accept_high_fee u :
  check_fee_cap fee amount explicit_cap accept_high_fee = Ok u ->
  fee_acceptable fee amount explicit_cap accept_high_fee.
Proof.
  unfold check_fee_cap, fee_acceptable, FEE_SANITY_PERCENT. intros H.
  destruct explicit_cap as [cap|]; [destruct (cap <? fee) eqn:E; zbool; [done|lia]|].
  destruct accept_high_fee; [by left|]. right.
  pose proof (mul_div_floor (amount * 25) 100 ltac:(done)).
  destruct (_ <? fee) eqn:E; zbool; [done|lia].
Qed.

(** ** Claims against the server *)

Section claims.
Context `{Keys} `{StateTrie} `{AmountsOk}.

(** The answers of a federation in the state [d]. *)
Definition served (self : Usdt) (d : UsdtDb) : UsdtApi := {|
  api_status := Ok (handle_status self d);
  api_deposit_status pk := Ok (handle_deposit_status self d pk);
  api_latest_anchored_block := Ok (handle_latest_anchored_block d);
  api_deposit_fee_quote := Ok (handle_deposit_fee_quote self d);
  api_withdraw_fee_quote _ := Ok (handle_withdraw_fee_quote self d);
|}.

Variables (self : Usdt) (c : UsdtClientModule) (fw : Framework).
Hypothesis Hcfg : client_cfg c = get_client_config (cfg self).

Lemma deposit_address_agrees pk :
  deposit_address (client_cfg c) pk
  = derive_deposit_account (group_public_key (cfg self)) (account_factory (cfg self))
      (simple_account_impl (cfg self)) pk.
Proof. unfold deposit_address. by rewrite Hcfg. Qed.

Lemma quote_nonneg d : 0 <= quote_fee (handle_deposit_fee_quote self d).
Proof.
  unfold handle_deposit_fee_quote. destruct (fee_vote_median self d) as [m|]; simpl; [|done].
  destruct (UsdtTypes.deposit_fee_quote m) as [q|] eqn:E; simpl; [|done].
  apply gas_cost_fee_quote_eq in E as [-> _]. unfold MIN_DEPOSIT_FEE. lia.
Qed.

(** What the client declares for a claim is what the server nets for it. *)
Lemma claim_accepted d kp proof proven delta fee h :
  ring_hash_at d (block_number proof) = Some h ->
  verify_deposit_proof proof h (usdt_contract (cfg self))
    (deposit_address (client_cfg c) (public_key kp)) = Ok proven ->
  delta = saturating_sub proven (ds_credited (handle_deposit_status self d (public_key kp))) ->
  available (handle_deposit_fee_quote self d) = true ->
  quote_fee (handle_deposit_fee_quote self d) <= fee -> fee < delta -> 0 <= fee ->
  exists meta d', process_input self (DepositProofV0 (public_key kp) proof fee) d = (Ok meta, d') /\
    pub_key meta = public_key kp /\ net_input meta = delta - fee.
Proof.
  intros Hh Hv -> Ha Hq Hlt Hfee. rewrite deposit_address_agrees in Hv.
  set (account := derive_deposit_account _ _ _ _) in *.
  assert (Hc : ds_credited (handle_deposit_status self d (public_key kp))
    = credited (default (mkDepositRecord (public_key kp) 0 0 0 0 0 0) (deposits d !! account))).
  { unfold handle_deposit_status. fold account. by destruct (deposits d !! account). }
  rewrite Hc in *. clear Hc. unfold process_input, process_deposit_proof. simpl. fold account.
  rewrite Hh. simpl. rewrite Hv. simpl.
  set (delta := saturating_sub proven _) in *.
  rewrite (proj2 (Z.eqb_neq delta 0)) by lia. simpl.
  unfold handle_deposit_fee_quote in *. destruct (fee_vote_median self d) as [m|]; simpl in *; [|done].
  destruct (UsdtTypes.deposit_fee_quote m) as [q|]; simpl in *; [|done].
  rewrite (proj2 (Z.ltb_ge fee q)) by lia. simpl. rewrite (proj2 (Z.leb_gt delta fee)) by lia. simpl.
  eexists _, _. split; [reflexivity|]. split; [done|]. unfold net_input. simpl.
  by rewrite !amount_of_new_custom.
Qed.

End claims.

(** ** Allocation *)

Section allocation.
Context `{KeysOk} `{!CurveOk} `{StateTrie} `{AmountsOps}.
Variables (self : Usdt) (c : UsdtClientModule).
Hypothesis Hcfg : client_cfg c = get_client_config (cfg self).

(** An address is handed out only by a federation that reports itself ready, and
    otherwise nothing is written.  The address is the account the federation itself
    reports for the claim key, it passes the predicate of the guardians' scan, the
    key is stored under it, the index the key was ground from is used up, and any
    discovery round whose answers mention the account matches it with this key. *)
Theorem allocated_deposit_is_claimable (api : UsdtApi) (st st' : ClientState) r :
  allocate_deposit c api st = (r, st') ->
  match r with
  | Err _ => st' = st
  | Ok (kp, account) =>
      let index := default 0 (next_deposit_index (client_db st)) in
      (exists status, api_status api = Ok status /\ st_state status = Ready) /\
      (exists tweak, ground_claim_keypair_for_index c index = Ok (tweak, kp, account)) /\
      (forall d, ds_account_addr (handle_deposit_status self d (public_key kp)) = account) /\
      is_potential_deposit (group_public_key (cfg self)) account = true /\
      next_deposit_index (client_db st') = Some (saturating_add_u64 index 1) /\
      claim_keys (client_db st') = <[account := kp]> (claim_keys (client_db st)) /\
      (forall np since responses cand, cand ∈ concat responses.*1 -> tc_to cand = account ->
        (cand, public_key kp)
          ∈ (discover_deposits (public_key <$> claim_keys (client_db st')) np since responses).1)
  end.
Proof.
  unfold allocate_deposit, allocate_in_db. simpl. destruct (api_status api) as [status|e]; simpl.
  2: { intros [= <- <-]. done. }
  destruct (is_ready (st_state status)) eqn:Er; simpl; [|by intros [= <- <-]].
  set (index := default 0 _).
  destruct (ground_claim_keypair_for_index c index) as [[[tweak kp] account]|e] eqn:Eg; simpl;
    intros [= <- <-]; [|done].
  split; [exists status; by destruct (st_state status)|]. split; [eauto|].
  unfold ground_claim_keypair_for_index in Eg. apply ground_facts in Eg as (_ & Ea & Hd & _).
  rewrite (deposit_address_agrees self c Hcfg) in Ea. rewrite Hcfg in Hd. simpl in Hd.
  split; [|split; [done|split; [done|split; [done|]]]].
  - intros d. rewrite Ea. unfold handle_deposit_status.
    by destruct (match deposits d !! _ with Some _ => _ | None => _ end).
  - intros np since responses cand Hin Hto. simpl. apply list_elem_of_omap. exists cand.
    split; [apply first_seen_elem; set_solver|].
    rewrite Hto, lookup_fmap, lookup_insert_eq. done.
Qed.
End allocation.

(** ** The two probes and the discovery round *)

Section flows.
Context `{Keys} `{AmountsOps} `{ChainFormat} (post : string -> Json -> Exchange).
Variables (c : UsdtClientModule) (fw : Framework) (url : option string).
Variables (cap : option UsdtAmount) (accept : bool).

Abbreviation probe api kp := (submit_deposit_proof_with_keypair post c fw api kp url cap accept).

(** What a probe leaves behind when there was nothing new to credit: the claim key. *)
Lemma nothing_new_sends_nothing api kp st st' e :
  probe api kp st = (Err e, st') -> is_nothing_new_to_credit_error e = true ->
  sent st' = sent st.
Proof.
  unfold submit_deposit_proof_with_keypair, submit_prebuilt_deposit_proof. simpl.
  unfold submit_deposit_proof_input, deposit_proof_input. simpl.
  intros E Hn. run_inv E; try done; ok_facts; destruct_and?; subst; try done.
Qed.

(** Claiming by index tries the discoverable key first and the untweaked one only when
    the former has nothing new and differs: an outcome names the key and account whose
    claim was sent, at most one claim is sent, and no other failure of the first probe
    is retried or hidden. *)
Theorem claim_by_index_probes_both api legacy_api index st :
  match ground_claim_keypair_for_index c index with
  | Err e => submit_deposit_proof post c fw api legacy_api index url cap accept st = (Err e, st)
  | Ok (tweak, kp, account) =>
      let '(r, st') := probe api kp st in
      let '(r', st'') := submit_deposit_proof post c fw api legacy_api index url cap accept st in
      match r with
      | Ok id => r' = Ok (mkDepositClaimOutcome id (public_key kp) account false) /\ st'' = st'
      | Err e =>
          if negb (tweak =? 0) && is_nothing_new_to_credit_error e then
            let legacy := claim_keypair_for_index c index in
            let '(rl, stl) := probe legacy_api legacy st' in
            sent st' = sent st /\ st'' = stl /\
            match rl with
            | Ok id => r' = Ok (mkDepositClaimOutcome id (public_key legacy)
                                  (deposit_address (client_cfg c) (public_key legacy)) true)
            | Err el => r' = Err (BothProbesFailed e el)
            end
          else r' = Err e /\ st'' = st'
      end
  end.
Proof.
  unfold submit_deposit_proof.
  destruct (ground_claim_keypair_for_index c index) as [[[tweak kp] account]|e]; [|done].
  unfold try_run. cbn [lift mbind M_bind].
  destruct (probe api kp st) as [[id|e] st'] eqn:E; [done|].
  destruct (tweak =? 0); cbn [orb negb andb reject_if ensure]; [done|].
  destruct (is_nothing_new_to_credit_error e) eqn:En; cbn [orb negb]; [|done].
  pose proof (nothing_new_sends_nothing api kp st st' e E En).
  by destruct (probe legacy_api _ st') as [[idl|el] stl].
Qed.

Lemma probe_keeps_keys api kp st r st' account :
  probe api kp st = (r, st') -> is_Some (claim_keys (client_db st) !! account) ->
  is_Some (claim_keys (client_db st') !! account) /\ (forall a, r <> Err (NoClaimKey a)).
Proof.
  unfold submit_deposit_proof_with_keypair, submit_prebuilt_deposit_proof. simpl.
  unfold submit_deposit_proof_input, deposit_proof_input, deposit_fee_quote.
  unfold ensure_fee_quote_available, check_fee_cap. intros E Hk.
  assert (Hi : forall k : Keypair, is_Some (<[deposit_address (client_cfg c) (public_key kp) := k]>
    (claim_keys (client_db st)) !! account)) by (intros; rewrite lookup_insert; case_decide; eauto).
  run_inv E; (split; [simpl; eauto|intros ? ?; simplify_eq; ok_facts; destruct_and?; congruence]).
Qed.
Definition key_held (st : ClientState) (d : TransferCandidate * PublicKey) : Prop :=
  is_Some (claim_keys (client_db st) !! tc_to d.1).

Lemma claim_matches_spec ds apis st :
  Forall (key_held st) ds ->
  exists out st', claim_matches post c fw ds apis url cap accept st = (Ok out, st') /\
    out.*1 = ds.*1 /\ forall d r a, (d, r) ∈ out -> r <> Err (NoClaimKey a).
Proof.
  revert apis st. induction ds as [|[d pk] ds IH]; intros apis st Hk.
  { exists [], st. split; [done|]. split; [done|]. intros ? ? ? H'. by apply elem_of_nil in H'. }
  apply Forall_cons in Hk as [[kp Hkp] Hk]. simpl in Hkp. cbn [claim_matches]. unfold try_run.
  unfold submit_deposit_proof_for_account at 1. cbn [gets lift mbind M_bind]. rewrite Hkp.
  cbn [ok_or]. destruct (probe (apis O) kp st) as [res st1] eqn:E.
  assert (Hk1 : Forall (key_held st1) ds).
  { eapply Forall_impl; [exact Hk|]. intros x Hx.
    by apply (probe_keeps_keys (apis O) kp st res st1 (tc_to x.1) E). }
  destruct (IH (fun n => apis (S n)) st1 Hk1) as (out & st' & E' & Eo & Hn).
  exists ((d, res) :: out), st'. rewrite E'. split; [done|]. split; [simpl; by f_equal|].
  intros x r a [[= -> ->]|Hin]%elem_of_cons; [|by eapply Hn].
  destruct (probe_keeps_keys (apis O) kp st res st1 (tc_to d) E) as [_ Hr]; [eauto|apply Hr].
Qed.

(** A round of discovery and claiming attempts every match once, in order: a failed
    attempt is reported and does not stop the others, none fails for want of its claim
    key, and the cursor never goes back. *)
Theorem every_match_is_claimed peers np fetch apis st :
  let '(r, st1) := discover_round peers np fetch st in
  exists ds, r = Ok ds /\ claim_keys (client_db st1) = claim_keys (client_db st) /\
  default 0 (scan_cursor (client_db st)) <= default 0 (scan_cursor (client_db st1)) /\
  exists out st', discover_and_claim_deposits post c fw peers np fetch apis url cap accept st
    = (Ok out, st') /\
    out.*1 = ds.*1 /\ forall d r a, (d, r) ∈ out -> r <> Err (NoClaimKey a).
Proof.
  unfold discover_and_claim_deposits. cbn [mbind M_bind]. unfold discover_round.
  cbn [gets mbind M_bind mret M_ret modify].
  set (since := default 0 (scan_cursor (client_db st))).
  destruct (discover_deposits _ _ _ _) as [ds cursor] eqn:Ed.
  set (st1 := if since <? cursor then _ else _).
  assert (Hst1 : claim_keys (client_db st1) = claim_keys (client_db st) /\
    since <= default 0 (scan_cursor (client_db st1))).
  { unfold st1. destruct (since <? cursor) eqn:El; zbool; simpl; [split; [done|lia]|done]. }
  destruct Hst1 as [Ek Hc]. exists ds. split; [done|]. split; [done|]. split; [done|].
  apply claim_matches_spec. apply Forall_forall. intros [x pk] Hin. unfold key_held. simpl.
  rewrite Ek. unfold discover_deposits in Ed. injection Ed as <- _.
  apply list_elem_of_omap in Hin as (y & _ & Hy). rewrite lookup_fmap in Hy.
  destruct (claim_keys (client_db st) !! tc_to y) eqn:Ey; simplify_eq/=. by rewrite Ey.
Qed.
End flows.

(** ** On the demonstration federation *)

(** A key pair is its number; a child appends its id to the path. *)
Definition demo_keys : @Keys demo_evm := {|
  Keypair := Z;
  DerivableSecret := list Z;
  public_key := mkPublicKey;
  child_key path id := path ++ [id];
  to_secp_key path := foldl (fun acc id => acc * 1000 + id) 7 path;
  add_tweak kp t := Some (kp + t);
|}.

Lemma demo_keys_ok : @KeysOk demo_evm demo_keys.
Proof. intros kp t. reflexivity. Qed.

Lemma demo_curve_ok : @CurveOk demo_evm.
Proof. destruct toy_curve_ok. by split. Qed.

Section witnesses.
#[local] Existing Instance demo_evm.
#[local] Existing Instance demo_keys.
#[local] Existing Instance demo_keys_ok.
#[local] Existing Instance demo_curve_ok.
#[local] Existing Instance toy_trie.
#[local] Existing Instance map_amounts.
#[local] Existing Instance map_amounts_ok.

Definition demo_kp : Keypair := 5.
Definition demo_client : UsdtClientModule :=
  mkUsdtClientModule (get_client_config (cfg demo_usdt)) [3].
Definition demo_client_db : UsdtClientDb := mkUsdtClientDb ∅ None ∅ None None None.
Definition demo_framework : Framework := mkFramework (fun _ => Ok (1, 900)) (fun _ => Ok tt) (fun _ => Ok tt).

(** The federation before the deposit of the run. *)
Definition demo_voted : UsdtDb :=
  db (default genesis (usdt_run genesis (take 3 demo_events1))).

Lemma chunked_grind_is_one_search_witness :
  outcome_of (find_tweak (client_cfg demo_client) demo_kp 0 MAX_SCAN_GRIND_ITERATIONS)
    (ground_claim_keypair_static (client_cfg demo_client) demo_kp).
Proof. apply chunked_grind_is_one_search. Defined.


(** The claim goes through: 2.88 USDT of fee on 50 USDT. *)
Example demo_claim_sent :
  (submit_prebuilt_deposit_proof demo_client demo_framework (served demo_usdt demo_voted)
    demo_kp demo_proof 50000000 None false (mkClientState demo_client_db [])).1 = Ok 1.
Proof. vm_compute. reflexivity. Qed.

Definition demo_ready_api : UsdtApi := mkUsdtApi (Ok (mkStatusResponse Ready true true true 1 1 1))
  (fun _ => Err EmptyString) (Err EmptyString) (Err EmptyString) (fun _ => Err EmptyString).

Lemma allocated_deposit_is_claimable_witness :
  let st := mkClientState demo_client_db [] in
  let '(r, st') := allocate_deposit demo_client demo_ready_api st in
  match r with
  | Err _ => st' = st
  | Ok (kp, account) =>
      let index := default 0 (next_deposit_index (client_db st)) in
      (exists status, api_status demo_ready_api = Ok status /\ st_state status = Ready) /\
      (exists tweak, ground_claim_keypair_for_index demo_client index = Ok (tweak, kp, account)) /\
      (forall d, ds_account_addr (handle_deposit_status demo_usdt d (public_key kp)) = account) /\
      is_potential_deposit (group_public_key (cfg demo_usdt)) account = true /\
      next_deposit_index (client_db st') = Some (saturating_add_u64 index 1) /\
      claim_keys (client_db st') = <[account := kp]> (claim_keys (client_db st)) /\
      (forall np since responses cand, cand ∈ concat responses.*1 -> tc_to cand = account ->
        (cand, public_key kp)
          ∈ (discover_deposits (public_key <$> claim_keys (client_db st')) np since responses).1)
  end.
Proof.
  intros st. destruct (allocate_deposit demo_client demo_ready_api st) as [r st'] eqn:E.
  exact (allocated_deposit_is_claimable demo_usdt demo_client eq_refl demo_ready_api st st' r E).
Defined.

Example demo_allocates :
  is_ok (allocate_deposit demo_client demo_ready_api (mkClientState demo_client_db [])).1 = true.
Proof. vm_compute. reflexivity. Qed.
End witnesses.
