(* ===== verification/UsdtRouting.v ===== *)
(** * USDT endpoints and the client's calls

    The endpoint table of the server ([api_endpoints] of
    [modules/usdt/fedimint-usdt-server/src/lib.rs]) and the client's federation calls
    ([modules/usdt/fedimint-usdt-client/src/api.rs], [endpoint_constants.rs]): which
    handler a request reaches, what the client makes of the answer, and which calls
    every guardian answers alike. *)

From S2P Require Import Prelude FedimintCore UsdtTypes UsdtEvm UsdtUserOp UsdtSigning UsdtProof UsdtDb.
From S2P Require Import UsdtServer UsdtHandlers UsdtEndpoints UsdtScan UsdtFetch UsdtClient UsdtGuardian UsdtDemo.
From stdpp Require Import strings.
#[local] Open Scope Z_scope.

(** ** [endpoint_constants.rs] *)

Definition GROUP_PUBLIC_KEY_ENDPOINT : string := "group_public_key".
Definition DEPOSIT_STATUS_ENDPOINT : string := "deposit_status".
Definition POOL_STATE_ENDPOINT : string := "pool_state".
Definition USEROP_STATUS_ENDPOINT : string := "userop_status".
Definition WITHDRAW_FEE_QUOTE_ENDPOINT : string := "withdraw_fee_quote".
Definition DEPOSIT_FEE_QUOTE_ENDPOINT : string := "deposit_fee_quote".
Definition WITHDRAWAL_STATUS_ENDPOINT : string := "withdrawal_status".
Definition REFUND_STATUS_ENDPOINT : string := "refund_status".
Definition WITHDRAW_FEES_ENDPOINT : string := "withdraw_fees".
Definition USDT_STATUS_ENDPOINT : string := "usdt_status".
Definition LATEST_ANCHORED_BLOCK_ENDPOINT : string := "latest_anchored_block".
Definition TRANSFER_CANDIDATES_ENDPOINT : string := "transfer_candidates".

(** ** Requests and responses

    A request's parameters as the type they are the JSON of; the unit struct
    [DepositFeeQuoteRequest] and [()] are both JSON's null. *)
Inductive ApiParams :=
| NullParams
| DepositStatusRequest (claim_pk : PublicKey)
| UserOpStatusRequest (op_hash : Hash)
| WithdrawFeeQuoteRequest (amount : UsdtAmount)
| WithdrawalStatusRequest (out_point : OutPoint)
| RefundStatusRequest (out_point : OutPoint)
| WithdrawFeesRequest (recipient : EvmAddress) (amount : UsdtAmount)
| TransferCandidatesRequest (since_block : Z).

Inductive ApiResponse :=
| GroupKeyResponse (pk : PublicKey)
| DepositStatusR (r : DepositStatusResponse)
| PoolStateR (r : PoolStateResponse)
| UserOpStatusR (status : UserOpStatus)
| WithdrawFeeQuoteR (r : FeeQuoteResponse)
| DepositFeeQuoteR (r : FeeQuoteResponse)
| WithdrawalStatusR (status : WithdrawalStatus)
| RefundStatusR (refund : option (UsdtAmount * FailReason))
| StatusR (r : StatusResponse)
| AnchoredBlockR (r : Z * Z)
| UnitR
| TransferCandidatesR (r : list TransferCandidate * Z).

(** Core's verdicts on a request, and the handlers'. *)
Inductive ApiError := UnknownPath | MalformedParams | Refused (e : WithdrawFeesError).

(** What a guardian answers from. *)
Record Guardian := mkGuardian {
  g_module : Usdt;
  g_db : UsdtDb;
  g_caches : Caches;
  g_candidates : CandidateLog;
}.

Definition set_caches (g : Guardian) (c : Caches) : Guardian :=
  mkGuardian (g_module g) (g_db g) c (g_candidates g).

(** ** The endpoint table *)

Section endpoints.
Context `{Evm}.

(** [api_endpoint!]: a path, the version it appeared in and a handler, which gets core's
    verdict on the caller's authentication. *)
Record ApiEndpoint := mkApiEndpoint {
  ep_path : string;
  ep_version : Z * Z;
  ep_handler : bool -> ApiParams -> Guardian -> result ApiError ApiResponse * Guardian;
}.

(** A handler that only reads. *)
Definition read_only (f : ApiParams -> option (Guardian -> ApiResponse)) :
    bool -> ApiParams -> Guardian -> result ApiError ApiResponse * Guardian :=
  fun _ params g =>
    match f params with Some h => (Ok (h g), g) | None => (Err MalformedParams, g) end.

Definition group_public_key_ep : ApiEndpoint :=
  mkApiEndpoint GROUP_PUBLIC_KEY_ENDPOINT (0, 0) (read_only (fun params =>
    match params with
    | NullParams => Some (fun g => GroupKeyResponse (group_public_key (cfg (g_module g))))
    | _ => None
    end)).

Definition deposit_status_ep : ApiEndpoint :=
  mkApiEndpoint DEPOSIT_STATUS_ENDPOINT (0, 0) (read_only (fun params =>
    match params with
    | DepositStatusRequest pk => Some (fun g => DepositStatusR (handle_deposit_status (g_module g) (g_db g) pk))
    | _ => None
    end)).

Definition pool_state_ep : ApiEndpoint :=
  mkApiEndpoint POOL_STATE_ENDPOINT (0, 0) (read_only (fun params =>
    match params with
    | NullParams => Some (fun g => PoolStateR (pool_state_endpoint (g_module g) (g_db g)))
    | _ => None
    end)).

Definition userop_status_ep : ApiEndpoint :=
  mkApiEndpoint USEROP_STATUS_ENDPOINT (0, 0) (read_only (fun params =>
    match params with
    | UserOpStatusRequest h => Some (fun g => UserOpStatusR (user_op_status (g_db g) h))
    | _ => None
    end)).

Definition withdraw_fee_quote_ep : ApiEndpoint :=
  mkApiEndpoint WITHDRAW_FEE_QUOTE_ENDPOINT (0, 0) (read_only (fun params =>
    match params with
    | WithdrawFeeQuoteRequest _ => Some (fun g => WithdrawFeeQuoteR (handle_withdraw_fee_quote (g_module g) (g_db g)))
    | _ => None
    end)).

Definition deposit_fee_quote_ep : ApiEndpoint :=
  mkApiEndpoint DEPOSIT_FEE_QUOTE_ENDPOINT (0, 0) (read_only (fun params =>
    match params with
    | NullParams => Some (fun g => DepositFeeQuoteR (handle_deposit_fee_quote (g_module g) (g_db g)))
    | _ => None
    end)).

Definition withdrawal_status_ep : ApiEndpoint :=
  mkApiEndpoint WITHDRAWAL_STATUS_ENDPOINT (0, 0) (read_only (fun params =>
    match params with
    | WithdrawalStatusRequest o => Some (fun g => WithdrawalStatusR (handle_withdrawal_status (g_db g) o))
    | _ => None
    end)).

Definition refund_status_ep : ApiEndpoint :=
  mkApiEndpoint REFUND_STATUS_ENDPOINT (0, 0) (read_only (fun params =>
    match params with
    | RefundStatusRequest o => Some (fun g => RefundStatusR (handle_refund_status (g_db g) o))
    | _ => None
    end)).

Definition usdt_status_ep : ApiEndpoint :=
  mkApiEndpoint USDT_STATUS_ENDPOINT (0, 0) (read_only (fun params =>
    match params with
    | NullParams => Some (fun g => StatusR (handle_status (g_module g) (g_db g)))
    | _ => None
    end)).

Definition latest_anchored_block_ep : ApiEndpoint :=
  mkApiEndpoint LATEST_ANCHORED_BLOCK_ENDPOINT (0, 0) (read_only (fun params =>
    match params with
    | NullParams => Some (fun g => AnchoredBlockR (handle_latest_anchored_block (g_db g)))
    | _ => None
    end)).

(** The one endpoint that writes: the guardian's own intent, not consensus state. *)
Definition withdraw_fees_ep : ApiEndpoint :=
  mkApiEndpoint WITHDRAW_FEES_ENDPOINT (0, 0) (fun has_auth params g =>
    match params with
    | WithdrawFeesRequest recipient amount =>
        match withdraw_fees_endpoint has_auth (mkWithdrawFeesVote recipient amount) (g_caches g) with
        | (Ok _, c) => (Ok UnitR, set_caches g c)
        | (Err e, c) => (Err (Refused e), set_caches g c)
        end
    | _ => (Err MalformedParams, g)
    end).

(** Answered from the guardian's own scan. *)
Definition transfer_candidates_ep : ApiEndpoint :=
  mkApiEndpoint TRANSFER_CANDIDATES_ENDPOINT (0, 1) (read_only (fun params =>
    match params with
    | TransferCandidatesRequest b => Some (fun g =>
        TransferCandidatesR (since (g_candidates g) b MAX_TRANSFER_CANDIDATES_PER_RESPONSE))
    | _ => None
    end)).

Definition api_endpoints : list ApiEndpoint :=
  [group_public_key_ep; deposit_status_ep; pool_state_ep; userop_status_ep; withdraw_fee_quote_ep;
   deposit_fee_quote_ep; withdrawal_status_ep; refund_status_ep; usdt_status_ep;
   latest_anchored_block_ep; withdraw_fees_ep; transfer_candidates_ep].

(** Core's dispatch by path. *)
Fixpoint dispatch (eps : list ApiEndpoint) (path : string) (has_auth : bool) (params : ApiParams)
    (g : Guardian) : result ApiError ApiResponse * Guardian :=
  match eps with
  | [] => (Err UnknownPath, g)
  | ep :: eps => if String.eqb (ep_path ep) path then ep_handler ep has_auth params g
                 else dispatch eps path has_auth params g
  end.

Definition serve (g : Guardian) (path : string) (has_auth : bool) (params : ApiParams)
    : result ApiError ApiResponse * Guardian := dispatch api_endpoints path has_auth params g.
End endpoints.

(** ** [UsdtFederationApi]

    fedimint-api-client's three ways to ask: a value a threshold of guardians agrees on,
    one guardian, and one guardian with the administrator's credentials.  Consensus
    requests are a parameter, which sees what every guardian would answer. *)

Section federation.
Context `{Evm}.
Variable guardians : PeerId -> Guardian.
Variable current_consensus : (PeerId -> result ApiError ApiResponse) -> result string ApiResponse.

(** A response is decoded as the type the caller expects. *)
Definition decode_as {A} (as_type : ApiResponse -> option A) (r : result string ApiResponse) : result string A :=
  match r with
  | Ok x => match as_type x with Some a => Ok a | None => Err "unexpected response"%string end
  | Err e => Err e
  end.

Definition request_current_consensus {A} (path : string) (params : ApiParams)
    (as_type : ApiResponse -> option A) : result string A :=
  decode_as as_type (current_consensus (fun peer => (serve (guardians peer) path false params).1)).

(** An error carries the peer, the method and the parameters it came from. *)
Record FederationError := mkFederationError { fe_peer : PeerId; fe_method : string; fe_error : ApiError + unit }.

Definition request_single_peer {A} (path : string) (params : ApiParams) (as_type : ApiResponse -> option A)
    (peer : PeerId) : result FederationError A :=
  match (serve (guardians peer) path false params).1 with
  | Ok x => match as_type x with
            | Some a => Ok a
            | None => Err (mkFederationError peer path (inr tt))
            end
  | Err e => Err (mkFederationError peer path (inl e))
  end.

(** The administrator's request reaches the guardian whose password [auth] is. *)
Definition request_admin (path : string) (params : ApiParams) (peer : PeerId) (auth : bool)
    : result ApiError unit * Guardian :=
  match serve (guardians peer) path auth params with
  | (Ok UnitR, g) => (Ok tt, g)
  | (Ok _, g) => (Err MalformedParams, g)
  | (Err e, g) => (Err e, g)
  end.

Definition as_group_key r := match r with GroupKeyResponse pk => Some pk | _ => None end.
Definition as_deposit_status r := match r with DepositStatusR x => Some x | _ => None end.
Definition as_pool_state r := match r with PoolStateR x => Some x | _ => None end.
Definition as_userop_status r := match r with UserOpStatusR x => Some x | _ => None end.
Definition as_withdraw_fee_quote r := match r with WithdrawFeeQuoteR x => Some x | _ => None end.
Definition as_deposit_fee_quote r := match r with DepositFeeQuoteR x => Some x | _ => None end.
Definition as_withdrawal_status r := match r with WithdrawalStatusR x => Some x | _ => None end.
Definition as_refund_status r := match r with RefundStatusR x => Some x | _ => None end.
Definition as_status r := match r with StatusR x => Some x | _ => None end.
Definition as_anchored_block r := match r with AnchoredBlockR x => Some x | _ => None end.
Definition as_candidates r := match r with TransferCandidatesR x => Some x | _ => None end.

Definition call_group_public_key : result string PublicKey :=
  request_current_consensus GROUP_PUBLIC_KEY_ENDPOINT NullParams as_group_key.
Definition call_deposit_status (claim_pk : PublicKey) : result string DepositStatusResponse :=
  request_current_consensus DEPOSIT_STATUS_ENDPOINT (DepositStatusRequest claim_pk) as_deposit_status.
Definition call_pool_state (peer : PeerId) : result FederationError PoolStateResponse :=
  request_single_peer POOL_STATE_ENDPOINT NullParams as_pool_state peer.
Definition call_userop_status (peer : PeerId) (op_hash : Hash) : result FederationError UserOpStatus :=
  request_single_peer USEROP_STATUS_ENDPOINT (UserOpStatusRequest op_hash) as_userop_status peer.
Definition call_withdraw_fee_quote (amount : UsdtAmount) : result string FeeQuoteResponse :=
  request_current_consensus WITHDRAW_FEE_QUOTE_ENDPOINT (WithdrawFeeQuoteRequest amount) as_withdraw_fee_quote.
Definition call_deposit_fee_quote : result string FeeQuoteResponse :=
  request_current_consensus DEPOSIT_FEE_QUOTE_ENDPOINT NullParams as_deposit_fee_quote.
Definition call_withdrawal_status (out_point : OutPoint) : result string WithdrawalStatus :=
  request_current_consensus WITHDRAWAL_STATUS_ENDPOINT (WithdrawalStatusRequest out_point) as_withdrawal_status.
Definition call_refund_status (out_point : OutPoint) : result string (option (UsdtAmount * FailReason)) :=
  request_current_consensus REFUND_STATUS_ENDPOINT (RefundStatusRequest out_point) as_refund_status.
Definition call_status : result string StatusResponse :=
  request_current_consensus USDT_STATUS_ENDPOINT NullParams as_status.
Definition call_latest_anchored_block : result string (Z * Z) :=
  request_current_consensus LATEST_ANCHORED_BLOCK_ENDPOINT NullParams as_anchored_block.
Definition call_withdraw_fees (recipient : EvmAddress) (amount : UsdtAmount) (peer : PeerId) (auth : bool)
    : result ApiError unit * Guardian :=
  request_admin WITHDRAW_FEES_ENDPOINT (WithdrawFeesRequest recipient amount) peer auth.
Definition call_transfer_candidates (peer : PeerId) (since_block : Z)
    : result FederationError (list TransferCandidate * Z) :=
  request_single_peer TRANSFER_CANDIDATES_ENDPOINT (TransferCandidatesRequest since_block) as_candidates peer.

(** The calls a client operation makes, as the operations are given them. *)
Definition federation_api : UsdtApi := {|
  api_status := call_status;
  api_deposit_status := call_deposit_status;
  api_latest_anchored_block := call_latest_anchored_block;
  api_deposit_fee_quote := call_deposit_fee_quote;
  api_withdraw_fee_quote := call_withdraw_fee_quote;
|}.

(** ** Consensus reads are consensus *)

Variables (self : Usdt) (d : UsdtDb) (online : list PeerId).
(** Guardians that share the configuration and the agreed database. *)
Hypothesis in_agreement : forall peer, peer ∈ online ->
  g_module (guardians peer) = at_peer self peer /\ g_db (guardians peer) = d.
(** What fedimint-api-client documents of [request_current_consensus]: when every
    guardian that is online gives the same answer, that answer is returned. *)
Hypothesis consensus_answers : forall answers x,
  (forall peer, peer ∈ online -> answers peer = Ok x) -> current_consensus answers = Ok x.

Lemma consensus_call {A} path params (as_type : ApiResponse -> option A) x a :
  (forall peer, peer ∈ online -> serve (guardians peer) path false params = (Ok x, guardians peer)) ->
  as_type x = Some a -> request_current_consensus path params as_type = Ok a.
Proof.
  intros Hx Ha. unfold request_current_consensus. rewrite (consensus_answers _ x); [simpl; by rewrite Ha|].
  intros peer Hp. by rewrite Hx.
Qed.

Ltac answered x := apply (consensus_call _ _ _ x); [|done]; intros peer Hp; destruct (in_agreement peer Hp) as [Em Ed];
  unfold serve; simpl; unfold read_only; simpl; rewrite ?Em, ?Ed; reflexivity.

(** Two federations a client cannot tell apart. *)
Definition same_answers (a b : UsdtApi) : Prop :=
  api_status a = api_status b /\ (forall pk, api_deposit_status a pk = api_deposit_status b pk) /\
  api_latest_anchored_block a = api_latest_anchored_block b /\
  api_deposit_fee_quote a = api_deposit_fee_quote b /\
  forall amount, api_withdraw_fee_quote a amount = api_withdraw_fee_quote b amount.

Lemma federation_serves : same_answers federation_api (served self d).
Proof.
  split; [answered (StatusR (handle_status self d))|].
  split; [intros pk; answered (DepositStatusR (handle_deposit_status self d pk))|].
  split; [answered (AnchoredBlockR (handle_latest_anchored_block d))|].
  split; [answered (DepositFeeQuoteR (handle_deposit_fee_quote self d))|].
  intros amount. answered (WithdrawFeeQuoteR (handle_withdraw_fee_quote self d)).
Qed.

Lemma withdraw_fees_answer peer recipient amount auth :
  call_withdraw_fees recipient amount peer auth =
  if negb auth then (Err (Refused NoAuth), guardians peer)
  else if amount =? 0 then (Err (Refused AmountNotPositive), guardians peer)
  else (Ok tt, set_caches (guardians peer)
    (withdraw_fees_endpoint true (mkWithdrawFeesVote recipient amount) (g_caches (guardians peer))).2).
Proof.
  unfold call_withdraw_fees, request_admin, serve. simpl. unfold withdraw_fees_endpoint.
  destruct (guardians peer) as [m db c log], auth; simpl; [|done]. by destruct (amount =? 0).
Qed.

(** C13: The whole read surface, and the guardian's own answers.  A consensus read returns
    what the handler computes from the agreed state, so every guardian gives the same
    answer to it whatever its caches and its scan hold; a call to one guardian returns
    that guardian's; the fee-withdrawal vote is refused without the administrator's
    credentials or for a zero amount, and otherwise changes exactly that guardian's
    intent. *)
Theorem calls_reach_their_handlers :
  same_answers federation_api (served self d) /\
  call_group_public_key = Ok (group_public_key (cfg self)) /\
  (forall o, call_withdrawal_status o = Ok (handle_withdrawal_status d o)) /\
  (forall o, call_refund_status o = Ok (handle_refund_status d o)) /\
  (forall peer, peer ∈ online ->
    call_pool_state peer = Ok (pool_state_endpoint self d) /\
    (forall h, call_userop_status peer h = Ok (user_op_status d h)) /\
    (forall b, call_transfer_candidates peer b =
      Ok (since (g_candidates (guardians peer)) b MAX_TRANSFER_CANDIDATES_PER_RESPONSE)) /\
    (forall recipient amount auth,
      call_withdraw_fees recipient amount peer auth =
      if negb auth then (Err (Refused NoAuth), guardians peer)
      else if amount =? 0 then (Err (Refused AmountNotPositive), guardians peer)
      else (Ok tt, set_caches (guardians peer)
        (withdraw_fees_endpoint true (mkWithdrawFeesVote recipient amount) (g_caches (guardians peer))).2))).
Proof.
  split; [exact federation_serves|]. split; [answered (GroupKeyResponse (group_public_key (cfg self)))|].
  split; [intros o; answered (WithdrawalStatusR (handle_withdrawal_status d o))|].
  split; [intros o; answered (RefundStatusR (handle_refund_status d o))|].
  intros peer Hp. destruct (in_agreement peer Hp) as [Em Ed].
  split; [|split; [|split]]; intros; [..|apply withdraw_fees_answer];
    unfold call_pool_state, call_userop_status, call_transfer_candidates, request_single_peer, serve; simpl; unfold read_only; simpl;
    by rewrite ?Em, ?Ed.
Qed.
End federation.

(** ** Two guardians with different scans *)

Section routing_witness.
#[local] Existing Instance demo_evm.

Definition demo_guardian (peer : PeerId) : Guardian :=
  mkGuardian (at_peer demo_usdt peer) demo_voted demo_caches (mkCandidateLog [] peer).

(** The first guardian's answer, when both give it. *)
Definition demo_consensus (answers : PeerId -> result ApiError ApiResponse) : result string ApiResponse :=
  match answers 0 with Ok x => Ok x | Err _ => Err "no quorum"%string end.

Lemma calls_reach_their_handlers_witness :
  same_answers (federation_api demo_guardian demo_consensus) (served demo_usdt demo_voted) /\
  call_transfer_candidates demo_guardian 1 0 = Ok ([], 1).
Proof.
  destruct (calls_reach_their_handlers demo_guardian demo_consensus demo_usdt demo_voted [0; 1])
    as (Hs & _ & _ & _ & Hp).
  - by intros peer _.
  - intros answers x Hx. unfold demo_consensus. rewrite (Hx 0) by (by left). done.
  - split; [exact Hs|]. destruct (Hp 1) as (_ & _ & Hc & _); [by right; left|]. rewrite Hc. by vm_compute.
Defined.
End routing_witness.
