(* ===== verification/UsdtRefundSm.v ===== *)
(** * The USDT client's withdrawals

    [withdraw] of [modules/usdt/fedimint-usdt-client/src/lib.rs] and the state machine
    of [states.rs] it starts: the machine watches the withdrawal to its terminal
    state and, when it failed, claims the e-cash the federation set aside for it.
    Its transitions are functions of what the trigger futures deliver;
    [UsdtRefundWorld] puts the machine into the world. *)

From S2P Require Import Prelude FedimintCore UsdtTypes UsdtEvm UsdtUserOp UsdtSigning UsdtProof.
From S2P Require Import UsdtDb UsdtServer UsdtHandlers UsdtLedger UsdtSolvency UsdtDemo.
From S2P Require Import UsdtEndpoints UsdtFetch UsdtClient.

(** ** The machine *)

(** The empty reason of an impossible branch is [None]. *)
Inductive WithdrawalRefundState :=
| Pending
| Paid (block : Z)
| Rejected (error : string)
| Refunding (refund_txid : TransactionId) (amount : UsdtAmount) (reason : FailReason)
| Refunded (amount : UsdtAmount) (reason : option FailReason).

(** What a [Pending] machine's future resolves to. *)
Inductive RefundOutcome :=
| OutcomePaid (block : Z)
| OutcomeRejected (error : string)
| OutcomeRefundable (amount : UsdtAmount) (reason : FailReason)
| OutcomeAlreadyRefunded (reason : FailReason).

(** One iteration of the poll loop of [await_outcome]: the answer about the withdrawal
    and, for a failed one, the answer about its refund; [None] polls again. *)
Definition poll_outcome (status : result string WithdrawalStatus)
    (refund : result string (option (UsdtAmount * FailReason))) : option RefundOutcome :=
  match status with
  | Ok (StatusConfirmed block) => Some (OutcomePaid block)
  | Ok (StatusFailed reason) =>
      match refund with
      | Ok (Some (amount, reason)) => Some (OutcomeRefundable amount reason)
      | Ok None => Some (OutcomeAlreadyRefunded reason)
      | Err _ => None
      end
  | Ok (StatusUnknown | StatusQueued | StatusSigning _ | StatusSubmitted _) | Err _ => None
  end.

Fixpoint poll_loop (polls : list (result string WithdrawalStatus *
    result string (option (UsdtAmount * FailReason)))) : option RefundOutcome :=
  match polls with
  | [] => None
  | (status, refund) :: polls =>
      match poll_outcome status refund with Some o => Some o | None => poll_loop polls end
  end.

(** [accepted] is the fate of the withdrawal transaction. *)
Definition await_outcome (accepted : result string unit)
    (polls : list (result string WithdrawalStatus * result string (option (UsdtAmount * FailReason))))
    : option RefundOutcome :=
  match accepted with Err error => Some (OutcomeRejected error) | Ok _ => poll_loop polls end.

(** The wait before the [n]-th poll, in milliseconds. *)
Definition REFUND_SM_MAX_BACKOFF : Z := 5000.
Fixpoint backoff (max : Z) (n : nat) : Z :=
  match n with O => 250 | S n => Z.min (backoff max n * 2) max end.

Section machine.
Context `{Keys} `{AmountsOps}.

Record WithdrawalRefundCommon := mkWithdrawalRefundCommon {
  wr_operation_id : OperationId;
  wr_txid : TransactionId;
  wr_out_point : OutPoint;
  wr_refund_keypair : Keypair;
}.

Record UsdtStateMachine := mkUsdtStateMachine {
  common : WithdrawalRefundCommon;
  sm_state : WithdrawalRefundState;
}.

Definition update (sm : UsdtStateMachine) (s : WithdrawalRefundState) : UsdtStateMachine :=
  mkUsdtStateMachine (common sm) s.

Definition refund_input (old : UsdtStateMachine) (amount : UsdtAmount) : ClientInput :=
  mkClientInput (RefundV0 (wr_out_point (common old))) [wr_refund_keypair (common old)]
    (new_custom USDT_UNIT amount).

(** [claim_inputs] is the framework's answer to a refund claim. *)
Definition transition_outcome (claim_inputs : ClientInput -> result string TransactionId)
    (outcome : RefundOutcome) (old : UsdtStateMachine) : UsdtStateMachine :=
  match outcome with
  | OutcomePaid block => update old (Paid block)
  | OutcomeRejected error => update old (Rejected error)
  | OutcomeAlreadyRefunded reason => update old (Refunded 0 (Some reason))
  | OutcomeRefundable amount reason =>
      match claim_inputs (refund_input old amount) with
      | Ok txid => update old (Refunding txid amount reason)
      | Err _ => update old Pending
      end
  end.

Definition transition_refund_accepted (result : result string unit) (old : UsdtStateMachine)
    : UsdtStateMachine :=
  let '(amount, reason) :=
    match sm_state old with
    | Refunding _ amount reason => (amount, Some reason)
    | _ => (0, None)
    end in
  match result with
  | Ok _ => update old (Refunded amount reason)
  | Err _ => update old Pending
  end.

(** What the state waits for: an outcome, the fate of the claim, or nothing. *)
Inductive RefundTrigger :=
| OnOutcome (outcome : RefundOutcome)
| OnRefundTx (result : result string unit).

Definition transition (claim_inputs : ClientInput -> result string TransactionId)
    (sm : UsdtStateMachine) (e : RefundTrigger) : option UsdtStateMachine :=
  match sm_state sm, e with
  | Pending, OnOutcome outcome => Some (transition_outcome claim_inputs outcome sm)
  | Refunding _ _ _, OnRefundTx result => Some (transition_refund_accepted result sm)
  | _, _ => None
  end.

(** ** Submitting a withdrawal *)

(** The client with the machines its executor runs. *)
Record Wallet := mkWallet { wallet_client : ClientState; machines : list UsdtStateMachine }.

Definition on_client {A} (m : CM A) : M Wallet UsdtClientError A :=
  fun w => let '(r, s) := m (wallet_client w) in (r, mkWallet s (machines w)).

Definition start_machine (sm : UsdtStateMachine) (w : Wallet) : Wallet :=
  mkWallet (wallet_client w) (machines w ++ [sm]).

Definition withdrawal_out_point (txid : TransactionId) : OutPoint := (txid, 0).

(** The amounts of an item beyond its own value; [None] for variants of a future
    version. *)
Definition input_fee (input : UsdtInput) : option Amounts := Some Amounts_ZERO.
Definition output_fee (output : UsdtOutput) : option Amounts :=
  match output with
  | OutputV0 withdrawal => Some (new_custom USDT_UNIT (out_max_fee withdrawal))
  | OutputDefault _ _ => None
  end.

Definition withdraw (c : UsdtClientModule) (fw : Framework) (recipient : EvmAddress)
    (amount max_fee : UsdtAmount) : M Wallet UsdtClientError TransactionId :=
  refund_index ← on_client allocate_refund_index;
  let refund_keypair := refund_keypair_for_index c refund_index in
  let output := mkClientOutput
    (OutputV0 (mkUsdtOutputV0 recipient amount max_fee (public_key refund_keypair)))
    (new_custom USDT_UNIT amount) in
  let submission := SubmitOutput output (MetaWithdraw recipient amount max_fee) in
  '(operation_id, txid) ← lift (map_err SubmitFailed (finalize_and_submit_transaction fw submission));
  on_client (modify (log_sent submission));;
  modify (start_machine (mkUsdtStateMachine
    (mkWithdrawalRefundCommon operation_id txid (txid, 0) refund_keypair) Pending));;
  on_client (modify (on_db (put_refund_key (withdrawal_out_point txid) refund_keypair)));;
  lift (map_err TxRejected (await_tx_accepted fw txid));;
  mret txid.

(** ** Waiting from outside *)

(** The polls of [await_withdrawal_confirmed], each with whether the deadline has
    passed after it. *)
Fixpoint await_withdrawal_confirmed (polls : list (result string WithdrawalStatus * bool))
    : option (result UsdtClientError Z) :=
  match polls with
  | [] => None
  | (status, deadline_passed) :: polls =>
      match status with
      | Err e => Some (Err (ApiFailed e))
      | Ok (StatusConfirmed block) => Some (Ok block)
      | Ok (StatusFailed reason) => Some (Err (WithdrawalDidFail reason))
      | Ok (StatusUnknown | StatusQueued | StatusSigning _ | StatusSubmitted _) =>
          if deadline_passed then Some (Err DeadlineElapsed) else await_withdrawal_confirmed polls
      end
  end.

(** The public [WithdrawalOutcome] of lib.rs. *)
Inductive WithdrawalOutcome :=
| WithdrawalPaid (block : Z)
| WithdrawalRefunded (amount : option UsdtAmount) (reason : FailReason).

Fixpoint await_withdrawal_outcome (polls : list (result string WithdrawalStatus *
    result string (option (UsdtAmount * FailReason)) * bool))
    : option (result UsdtClientError WithdrawalOutcome) :=
  match polls with
  | [] => None
  | (status, refund, deadline_passed) :: polls =>
      match status with
      | Err e => Some (Err (ApiFailed e))
      | Ok (StatusConfirmed block) => Some (Ok (WithdrawalPaid block))
      | Ok (StatusFailed reason) =>
          Some (refund ← map_err ApiFailed refund; Ok (WithdrawalRefunded (fst <$> refund) reason))
      | Ok (StatusUnknown | StatusQueued | StatusSigning _ | StatusSubmitted _) =>
          if deadline_passed then Some (Err DeadlineElapsed) else await_withdrawal_outcome polls
      end
  end.
End machine.

Lemma backoff_bounds max n : 250 <= max -> 250 <= backoff max n <= max.
Proof. intros Hm. induction n as [|n IH]; simpl; lia. Qed.

(** ** What a withdrawal submits *)

Section submission.
Context `{Keys} `{AmountsOk}.
Variables (c : UsdtClientModule) (fw : Framework).

(** A withdrawal burns its amount and fee for a payout only its own refund key can
    take back: whatever becomes of the transaction, once it is submitted a machine
    watches its out point with a key at a fresh index, the key is stored under that
    out point, and when the federation accepts the output it nets exactly what the
    client declared and records the withdrawal with that key; a withdrawal that was
    not submitted costs an index and nothing else. *)
Theorem withdrawal_is_watched recipient value max_fee w r w' :
  withdraw c fw recipient value max_fee w = (r, w') ->
  let index := default 0 (next_refund_index (client_db (wallet_client w))) in
  let kp := refund_keypair_for_index c index in
  next_refund_index (client_db (wallet_client w')) = Some (saturating_add_u64 index 1) /\
  ((sent (wallet_client w') = sent (wallet_client w) /\ machines w' = machines w /\
    refund_keys (client_db (wallet_client w')) = refund_keys (client_db (wallet_client w)) /\
    exists e, r = Err (SubmitFailed e)) \/
   exists op txid co,
     sent (wallet_client w') = sent (wallet_client w) ++ [SubmitOutput co (MetaWithdraw recipient value max_fee)] /\
     machines w' = machines w ++ [mkUsdtStateMachine
       (mkWithdrawalRefundCommon op txid (withdrawal_out_point txid) kp) Pending] /\
     refund_keys (client_db (wallet_client w')) !! withdrawal_out_point txid = Some kp /\
     (r = Ok txid \/ exists e, r = Err (TxRejected e)) /\
     forall self d am d',
       process_output self (co_output co) (withdrawal_out_point txid) d = (Ok am, d') ->
       (exists row, unclaimed d' !! withdrawal_out_point txid = Some row /\
          w_refund_pubkey row = public_key kp /\ w_amount row = value /\ w_max_fee row = max_fee) /\
       exists fee, output_fee (co_output co) = Some fee /\
         net_output am = amount_of (co_amounts co) USDT_UNIT + amount_of fee USDT_UNIT /\
         net_output am = value + max_fee).
Proof.
  unfold withdraw, on_client, allocate_refund_index. cbn [mbind M_bind gets modify mret M_ret lift].
  set (index := default 0 _). set (co := mkClientOutput _ _).
  destruct (finalize_and_submit_transaction fw _) as [[op txid]|e]; cbn [map_err].
  2: { intros [= <- <-]. split; [done|]. left. split_and!; eauto. }
  intros E. split; [|right; exists op, txid, co].
  { by destruct (await_tx_accepted fw txid); injection E as <- <-. }
  assert (Hw : sent (wallet_client w') = sent (wallet_client w) ++
      [SubmitOutput co (MetaWithdraw recipient value max_fee)] /\
    machines w' = machines w ++ [mkUsdtStateMachine (mkWithdrawalRefundCommon op txid
      (withdrawal_out_point txid) (refund_keypair_for_index c index)) Pending] /\
    refund_keys (client_db (wallet_client w')) !! withdrawal_out_point txid
      = Some (refund_keypair_for_index c index) /\
    (r = Ok txid \/ exists e, r = Err (TxRejected e))).
  { destruct (await_tx_accepted fw txid) as [[]|e]; injection E as <- <-; simpl;
      rewrite lookup_insert_eq; split_and!; eauto. }
  destruct Hw as (? & ? & ? & ?). split_and!; try done.
  intros self d am d' Hp. unfold process_output in Hp. simpl in Hp. run_inv Hp. simpl.
  rewrite lookup_insert_eq. split; [eexists; split_and!; done|]. eexists. split; [done|].
  unfold net_output. simpl. rewrite !amount_of_new_custom. done.
Qed.
End submission.

Section witness.
#[local] Existing Instance demo_evm.
#[local] Existing Instance demo_keys.
#[local] Existing Instance map_amounts.
#[local] Existing Instance map_amounts_ok.

Definition demo_wallet : Wallet := mkWallet (mkClientState demo_client_db []) [].

Lemma withdrawal_is_watched_witness :
  let '(r, w') := withdraw demo_client demo_framework (replicate 20 8) 10000000 1296000 demo_wallet in
  let w := demo_wallet in
  let index := default 0 (next_refund_index (client_db (wallet_client w))) in
  let kp := refund_keypair_for_index demo_client index in
  next_refund_index (client_db (wallet_client w')) = Some (saturating_add_u64 index 1) /\
  ((sent (wallet_client w') = sent (wallet_client w) /\ machines w' = machines w /\
    refund_keys (client_db (wallet_client w')) = refund_keys (client_db (wallet_client w)) /\
    exists e, r = Err (SubmitFailed e)) \/
   exists op txid co,
     sent (wallet_client w') = sent (wallet_client w)
       ++ [SubmitOutput co (MetaWithdraw (replicate 20 8) 10000000 1296000)] /\
     machines w' = machines w ++ [mkUsdtStateMachine
       (mkWithdrawalRefundCommon op txid (withdrawal_out_point txid) kp) Pending] /\
     refund_keys (client_db (wallet_client w')) !! withdrawal_out_point txid = Some kp /\
     (r = Ok txid \/ exists e, r = Err (TxRejected e)) /\
     forall self d am d',
       process_output self (co_output co) (withdrawal_out_point txid) d = (Ok am, d') ->
       (exists row, unclaimed d' !! withdrawal_out_point txid = Some row /\
          w_refund_pubkey row = public_key kp /\ w_amount row = 10000000 /\
          w_max_fee row = 1296000) /\
       exists fee, output_fee (co_output co) = Some fee /\
         net_output am = amount_of (co_amounts co) USDT_UNIT + amount_of fee USDT_UNIT /\
         net_output am = 10000000 + 1296000).
Proof.
  destruct (withdraw demo_client demo_framework (replicate 20 8) 10000000 1296000 demo_wallet)
    as [r w'] eqn:E.
  exact (withdrawal_is_watched demo_client demo_framework (replicate 20 8) 10000000 1296000
    demo_wallet r w' E).
Defined.
End witness.
