(* ===== verification/UsdtRefundWorld.v ===== *)
(** * A withdrawal in the world

    One withdrawal of a client, from the submission of its transaction to the end of
    its state machine, against the ledger of [UsdtSolvency]: other users' items and
    the guardians' consensus items move the ledger between any two steps of the
    client, transactions land or fail, answers are read before the transition that
    uses them runs, and the client may restart.  The theorems: a refund is received
    at most once and exactly, the machine's terminal states tell the truth, nothing
    is left behind, and a settled withdrawal can always be brought to its end. *)

From S2P Require Import Prelude FedimintCore UsdtTypes UsdtEvm UsdtUserOp UsdtSigning UsdtProof.
From S2P Require Import UsdtDb UsdtServer UsdtHandlers UsdtLedger UsdtTriggers UsdtSettlement.
From S2P Require Import UsdtConfirm UsdtSolvency UsdtDemo UsdtLifecycle UsdtEndpoints.
From S2P Require Import UsdtFetch UsdtClient UsdtRefundSm.

(** ** What the federation does with one out point *)

(** The rows of the out point stay as they are, or the queued withdrawal is taken off
    the queue, and only a refund for its own key may take its place; a withdrawal that
    fails has its refund, one that is off the queue keeps its state. *)
Record tended (o : OutPoint) (d d' : UsdtDb) : Prop := {
  tended_row : unclaimed d' !! o = unclaimed d !! o \/ unclaimed d' !! o = None;
  tended_refund : refunds d' !! o = refunds d !! o \/
    exists w r, unclaimed d !! o = Some w /\ unclaimed d' !! o = None /\
      refunds d' !! o = Some r /\ r_refund_pubkey r = w_refund_pubkey w;
  tended_failed r : wstates d' !! o = Some (WithdrawalFailed r) ->
    wstates d !! o = Some (WithdrawalFailed r) \/ is_Some (refunds d' !! o);
  tended_settled : unclaimed d !! o = None -> wstates d' !! o = wstates d !! o;
  tended_known : is_Some (wstates d !! o) -> is_Some (wstates d' !! o);
}.

#[export] Instance tended_preorder o : PreOrder (tended o).
Proof.
  split; [split; auto|]. intros d1 d2 d3 [Hu Hr Hf Hs Hk] [Hu' Hr' Hf' Hs' Hk']. split.
  - destruct Hu' as [->|?]; [done|by right].
  - destruct Hr' as [->|(w & r & Hw & Hn & Hrf & Hp)].
    + destruct Hr as [?|(w & r & Hw & Hn & Hrf & Hp)]; [by left|]. right. exists w, r.
      split_and!; try done. by destruct Hu' as [->|?].
    + right. exists w, r. split_and!; try done. destruct Hu as [<-|?]; [done|congruence].
  - intros r Hw. destruct (Hf' r Hw) as [H2|?]; [|by right].
    destruct (Hf r H2) as [?|[x Hx]]; [by left|]. right.
    destruct Hr' as [->|(w & r' & _ & _ & -> & _)]; eauto.
  - intros Hn. rewrite <- Hs by done. apply Hs'. destruct Hu as [->|?]; done.
  - auto.
Qed.

(** Writing a state to out points that are still queued. *)
Lemma tended_write o os st d d' :
  (forall o', o' ∈ os -> is_Some (unclaimed d !! o')) -> (forall r, st <> WithdrawalFailed r) ->
  wstates d' = foldl (fun m o => <[o := st]> m) (wstates d) os ->
  (forall o, unclaimed d' !! o = unclaimed d !! o \/ unclaimed d' !! o = None) ->
  refunds d' = refunds d -> tended o d d'.
Proof.
  intros Hun Hst Ew Hu Er.
  split; [apply Hu|left; by rewrite Er|..]; rewrite Ew, lookup_foldl_insert; case_bool_decide as Ho;
    eauto.
  - intros r [= E]. by apply Hst in E.
  - intros Hn. destruct (Hun o Ho). congruence.
Qed.

Lemma tended_same o d d' :
  wstates d' = wstates d -> unclaimed d' = unclaimed d -> refunds d' = refunds d -> tended o d d'.
Proof. intros Ew Eu Er. split; rewrite ?Ew, ?Eu, ?Er; auto. Qed.

Section items.
Context `{AbiOk} `{StateTrieOk} `{AmountsOk} (self : Usdt) (o : OutPoint).

Lemma start_session_tended p dg a d : tended o d (start_session self p dg a d).
Proof. destruct (start_session_frame self p dg a d) as [f ->]. by apply tended_same. Qed.

Lemma enqueue_op_tended op p blk d : tended o d (enqueue_op self op p blk d).
Proof. unfold enqueue_op. etrans; [|apply start_session_tended]. by apply tended_same. Qed.

Lemma maybe_trigger_sweep_tended a d : tended o d (maybe_trigger_sweep self a d).
Proof.
  unfold maybe_trigger_sweep. repeat (case_match; try reflexivity). apply enqueue_op_tended.
Qed.

Lemma accelerate_sweeps_tended d : tended o d (accelerate_sweeps_for_withdrawals self d).
Proof.
  unfold accelerate_sweeps_for_withdrawals. generalize (map_to_list (deposits d)) as l.
  intros l. revert d. induction l as [|[a r] l IH]; intros d; simpl; [reflexivity|].
  etrans; [|apply IH]. case_match; [apply maybe_trigger_sweep_tended|reflexivity].
Qed.

Lemma maybe_trigger_withdrawal_batch_tended d : tended o d (maybe_trigger_withdrawal_batch self d).
Proof.
  unfold maybe_trigger_withdrawal_batch. destruct (withdraw_batch_in_flight d); [reflexivity|].
  destruct (queued_withdrawals d) eqn:Eq; [reflexivity|]. rewrite <- Eq. clear Eq.
  case_match; [reflexivity|]. case_match; [apply accelerate_sweeps_tended|].
  unfold build_and_enqueue_withdrawal_batch. etrans; [|apply start_session_tended].
  set (h := op_hash_of _ _).
  change (fun (d : UsdtDb) (o : OutPoint) => set_wstates (insert o (Signing h)) d)
    with (fun (d : UsdtDb) (o : OutPoint) => put_wstate o (Signing h) d).
  rewrite foldl_put_wstate. destruct (select_batch_spec d) as [_ Hsel].
  apply (tended_write o (select_batch d (queued_withdrawals d)).*1 (Signing h)); eauto.
  intros o' Ho'. apply list_elem_of_fmap in Ho' as ([o2 w] & -> & Ho'). eexists. by apply Hsel.
Qed.

Lemma maybe_trigger_residual_recovery_tended a d :
  tended o d (maybe_trigger_residual_recovery self a d).
Proof.
  unfold maybe_trigger_residual_recovery. repeat (case_match; try reflexivity).
  apply enqueue_op_tended.
Qed.

Lemma maybe_trigger_fee_withdrawal_tended d : tended o d (maybe_trigger_fee_withdrawal self d).
Proof.
  unfold maybe_trigger_fee_withdrawal. repeat (case_match; try reflexivity).
  apply enqueue_op_tended.
Qed.

Lemma create_refund_tended o' d :
  is_Some (unclaimed d !! o') -> tended o d (create_withdrawal_refund self o' RevertsInIsolation d).
Proof.
  intros [w Hw]. unfold create_withdrawal_refund. rewrite Hw.
  destruct (decide (o' = o)) as [->|Hne]; split; simpl.
  - right. by rewrite lookup_delete_eq.
  - right. eexists w, _. split; [done|]. rewrite lookup_delete_eq, lookup_insert_eq. done.
  - intros r _. right. rewrite lookup_insert_eq. eauto.
  - congruence.
  - rewrite lookup_insert_eq. eauto.
  - left. by rewrite lookup_delete_ne.
  - left. by rewrite lookup_insert_ne.
  - intros r. left. by rewrite lookup_insert_ne in *.
  - intros _. by rewrite lookup_insert_ne.
  - by rewrite lookup_insert_ne.
Qed.

Lemma apply_withdraw_tended os obs x d :
  (forall o', o' ∈ os -> is_Some (unclaimed d !! o')) ->
  tended o d (apply_withdraw_confirmed self os obs x d).
Proof.
  intros Hun. unfold apply_withdraw_confirmed. destruct (success obs).
  - rewrite foldl_settle. apply (tended_write o os (Confirmed (block obs))); try done.
    intros o'. simpl. rewrite lookup_foldl_delete. case_bool_decide; eauto.
  - match goal with |- context [foldl (add_incurred ?sh) ?d0 os] =>
      destruct (foldl_add_incurred sh os d0) as (inc & -> & _) end.
    set (d0 := set_incurred _ _). assert (Hd0 : tended o d d0) by (by apply tended_same).
    assert (Hun0 : forall o', o' ∈ os -> is_Some (unclaimed d0 !! o')) by done.
    etrans; [exact Hd0|]. clearbody d0.
    destruct (length os <=? 1)%nat eqn:El; [apply Nat.leb_le in El|].
    + destruct os as [|o1 [|o2 os]]; simpl in *; [reflexivity| |lia].
      apply create_refund_tended, Hun0. set_solver.
    + rewrite foldl_requeue. apply (tended_write o os Queued); eauto.
Qed.

Lemma apply_user_op_confirmed_tended h obs d n :
  books_inv d n -> tended o d (apply_user_op_confirmed self h obs d).
Proof.
  intros Hinv. unfold apply_user_op_confirmed.
  destruct (submitted d !! h) as [s|] eqn:Hs; [|by apply tended_same].
  destruct (effective_swept s obs) as [x|]; [|reflexivity].
  destruct (apply_purpose self s obs x d) as [d1 r] eqn:Ea.
  assert (Hk : tended o d d1).
  { pose proof (ops_covered _ (inv_ops _ _ Hinv) h true (unsigned (signed s)) (s_purpose s)
      ltac:(simpl; eauto)) as Hok.
    unfold apply_purpose in Ea. destruct (s_purpose s) as [a|os|a|rcp amt]; simplify_eq.
    - apply tended_same; unfold apply_sweep_confirmed; destruct (success obs); by repeat case_match.
    - destruct Hok as (_ & Hun & _). by apply apply_withdraw_tended.
    - apply tended_same; unfold apply_recovery_confirmed; by case_match.
    - by apply tended_same. }
  set (d2 := remove_confirmed_votes h (set_submitted (delete h) d1)).
  destruct (purge_chain_spec (sender (unsigned (signed s))) (nonce (unsigned (signed s))) h d2)
    as [Hsb _].
  etrans; [exact Hk|]. etrans; [|destruct r; [apply maybe_trigger_sweep_tended|reflexivity]].
  destruct Hsb. by apply tended_same.
Qed.

Lemma replace_tended op_hash d n d' :
  books_inv d n -> process_replace_user_op self op_hash d = (Ok tt, d') -> tended o d d'.
Proof.
  intros Hinv E. unfold process_replace_user_op in E. simpl in E.
  destruct (submitted d !! op_hash) as [s|] eqn:Hs; simpl in E; [|done].
  pose proof (ops_covered _ (inv_ops _ _ Hinv) op_hash true (unsigned (signed s)) (s_purpose s)
    ltac:(simpl; eauto)) as Hok.
  run_inv E; (etrans; [|apply start_session_tended]).
  destruct (s_purpose s) as [|os| |]; try by apply tended_same.
  destruct Hok as (_ & Hun & _). rewrite foldl_put_wstate.
  match goal with |- context [foldl (fun m o => <[o := ?st]> m)] =>
    apply (tended_write o os st) end; eauto.
Qed.

Lemma item_tended item peer d n d' :
  books_inv d n -> process_consensus_item self item peer d = (Ok tt, d') -> tended o d d'.
Proof.
  intros Hinv E.
  destruct item as [vote|it|sid sig|sid|h su blk bh sw gas|vote|obs|h|obs|a wei|vote|v raw];
    simpl in E; [..|done].
  - unfold process_block_count in E. run_inv E.
    etrans; [|apply maybe_trigger_withdrawal_batch_tended]. by apply tended_same.
  - unfold process_mpc_round in E. run_inv E. case_match; by apply tended_same.
  - unfold process_mpc_signature in E. run_inv E; by apply tended_same.
  - unfold process_rotate_signing in E. run_inv E. etrans; [|apply start_session_tended].
    by apply tended_same.
  - unfold process_user_op_confirmed in E. run_inv E.
    assert (Hb : books_inv (set_confirmed_votes
      (insert (h, peer) (mkUserOpConfirmedObservation su blk bh sw gas)) d) n)
      by (by apply (books_inv_same d); [split|..]).
    etrans; [|case_match; [by eapply apply_user_op_confirmed_tended|reflexivity]].
    by apply tended_same.
  - unfold process_fee_vote in E. run_inv E; by apply tended_same.
  - unfold process_bootstrap_observation in E. run_inv E. case_match; by apply tended_same.
  - by eapply replace_tended.
  - unfold process_block_hash in E. run_inv E. case_match; [|by apply tended_same].
    destruct (ring_frame (obs_height obs) (obs_block_hash obs)
      (set_block_hash_votes (insert peer obs) d)) as [f ->]. by apply tended_same.
  - unfold process_recover_residual in E. run_inv E.
    etrans; [|apply maybe_trigger_residual_recovery_tended]. by apply tended_same.
  - unfold process_withdraw_fees_vote in E. run_inv E.
    etrans; [|apply maybe_trigger_fee_withdrawal_tended]. by apply tended_same.
Qed.
End items.

(** ** The world around one withdrawal *)

Inductive TxStatus := Unsent | InFlight (declared : UsdtAmount) | Accepted | TxRefused (error : string).

(** What [await_outcome] has read and not yet handed to the transition. *)
Inductive Reading := SawFailure (reason : FailReason) | SawOutcome (outcome : RefundOutcome).

Section world.
Context `{Hevm : Evm} `{!AbiOk} `{StateTrieOk} `{AmountsOk} `{!Keys}.
Context (self : Usdt) (wd : UsdtOutputV0) (com : WithdrawalRefundCommon).

Definition my_out_point : OutPoint := wr_out_point com.
Definition my_key : PublicKey := public_key (wr_refund_keypair com).

Record World := mkWorld {
  ledger : Ledger;
  machine : UsdtStateMachine;
  tx1 : TxStatus;    (* the withdrawal *)
  tx2 : TxStatus;    (* the claim of its refund *)
  received : Z;      (* e-cash issued to the client by the claim *)
  seen : option Reading;
}.

(** Items of others: nobody else can sign for the refund key, and an out point belongs
    to one transaction. *)
Inductive foreign (l : Ledger) : Ledger -> Prop :=
| foreign_input i meta d' :
    input_wf i -> process_input self i (db l) = (Ok meta, d') -> pub_key meta <> my_key ->
    total_credited d' <= U64_MAX -> foreign l (mkLedger d' (issued l + net_input meta))
| foreign_output out op am d' :
    op <> my_out_point -> output_wf out -> wstates (db l) !! op = None ->
    process_output self out op (db l) = (Ok am, d') ->
    net_output am <= issued l -> total_credited d' <= U64_MAX ->
    foreign l (mkLedger d' (issued l - net_output am))
| foreign_item item peer d' :
    peer ∈ peer_ids (num_peers self) -> item_wf item ->
    process_consensus_item self item peer (db l) = (Ok tt, d') ->
    total_credited d' <= U64_MAX -> foreign l (mkLedger d' (issued l)).

Definition fate (s : TxStatus) : option (result string unit) :=
  match s with Accepted => Some (Ok tt) | TxRefused e => Some (Err e) | _ => None end.

Definition my_status (w : World) : WithdrawalStatus :=
  handle_withdrawal_status (db (ledger w)) my_out_point.
Definition my_refund (w : World) : option (UsdtAmount * FailReason) :=
  handle_refund_status (db (ledger w)) my_out_point.

(** What the executor passes to [transition_outcome] when the framework accepts or
    refuses the claim. *)
Definition accept_claim (txid : TransactionId) : ClientInput -> result string TransactionId :=
  fun _ => Ok txid.
Definition refuse_claim (e : string) : ClientInput -> result string TransactionId := fun _ => Err e.

Definition with_ledger (w : World) (l : Ledger) : World :=
  mkWorld l (machine w) (tx1 w) (tx2 w) (received w) (seen w).
Definition with_tx1 (w : World) (t : TxStatus) : World :=
  mkWorld (ledger w) (machine w) t (tx2 w) (received w) (seen w).
Definition with_tx2 (w : World) (t : TxStatus) : World :=
  mkWorld (ledger w) (machine w) (tx1 w) t (received w) (seen w).
Definition with_seen (w : World) (r : option Reading) : World :=
  mkWorld (ledger w) (machine w) (tx1 w) (tx2 w) (received w) r.
(** The executor commits the machine's next state. *)
Definition with_machine (w : World) (sm : UsdtStateMachine) : World :=
  mkWorld (ledger w) sm (tx1 w) (tx2 w) (received w) None.

Inductive wstep : World -> World -> Prop :=
| w_foreign w l : foreign (ledger w) l -> wstep w (with_ledger w l)
| w_tx1_lands w a am d' :
    tx1 w = InFlight a -> process_output self (OutputV0 wd) my_out_point (db (ledger w)) = (Ok am, d') ->
    net_output am <= issued (ledger w) -> total_credited d' <= U64_MAX ->
    wstep w (with_tx1 (with_ledger w (mkLedger d' (issued (ledger w) - net_output am))) Accepted)
| w_tx1_fails w a e : tx1 w = InFlight a -> wstep w (with_tx1 w (TxRefused e))
| w_tx1_refused w e claim sm' o :
    fate (tx1 w) = Some (Err e) -> await_outcome (Err e) [] = Some o ->
    transition claim (machine w) (OnOutcome o) = Some sm' -> wstep w (with_machine w sm')
| w_read_status w :
    sm_state (machine w) = Pending -> tx1 w = Accepted ->
    wstep w (with_seen w (match my_status w with
      | StatusFailed reason => Some (SawFailure reason)
      | status => SawOutcome <$> poll_outcome (Ok status) (Err EmptyString)
      end))
| w_read_refund w reason :
    seen w = Some (SawFailure reason) ->
    wstep w (with_seen w (SawOutcome <$> poll_outcome (Ok (StatusFailed reason)) (Ok (my_refund w))))
| w_claim_sent w txid amount reason sm' :
    seen w = Some (SawOutcome (OutcomeRefundable amount reason)) ->
    transition (accept_claim txid) (machine w) (OnOutcome (OutcomeRefundable amount reason)) = Some sm' ->
    wstep w (with_tx2 (with_machine w sm') (InFlight amount))
| w_outcome w e o sm' :
    seen w = Some (SawOutcome o) -> transition (refuse_claim e) (machine w) (OnOutcome o) = Some sm' ->
    wstep w (with_machine w sm')
| w_restart w : wstep w (with_seen w None)
| w_tx2_lands w amount meta d' :
    (* core checks the signature and that the input covers the e-cash minted *)
    tx2 w = InFlight amount -> process_input self (RefundV0 my_out_point) (db (ledger w)) = (Ok meta, d') ->
    pub_key meta = my_key -> amount <= net_input meta -> total_credited d' <= U64_MAX ->
    wstep w (mkWorld (mkLedger d' (issued (ledger w) + net_input meta)) (machine w) (tx1 w) Accepted
               (received w + amount) (seen w))
| w_tx2_fails w amount e : tx2 w = InFlight amount -> wstep w (with_tx2 w (TxRefused e))
| w_tx2_seen w claim res sm' :
    fate (tx2 w) = Some res -> transition claim (machine w) (OnRefundTx res) = Some sm' ->
    wstep w (with_machine w sm').

(** The withdrawal has just been submitted. *)
Definition submitted_world (l : Ledger) : World :=
  mkWorld l (mkUsdtStateMachine com Pending) (InFlight 0) Unsent 0 None.

Definition live_refund (w : World) : option Refund := refunds (db (ledger w)) !! my_out_point.
Definition my_wstate (w : World) : option WithdrawalState := wstates (db (ledger w)) !! my_out_point.
Definition has_failed (w : World) : Prop := exists r, my_wstate w = Some (WithdrawalFailed r).
Definition refund_is (w : World) (a : UsdtAmount) : Prop :=
  forall r, live_refund w = Some r -> r_amount r = a.

Record world_inv (w : World) : Prop := {
  wi_reach : reachable self (ledger w);
  wi_common : common (machine w) = com;
  wi_tx1 : tx1 w <> Unsent;
  wi_before : tx1 w <> Accepted ->
    my_wstate w = None /\ received w = 0 /\ tx2 w = Unsent /\ seen w = None /\
    (sm_state (machine w) = Pending \/
     exists e, sm_state (machine w) = Rejected e /\ tx1 w = TxRefused e);
  wi_after : tx1 w = Accepted ->
    is_Some (my_wstate w) /\ forall e, sm_state (machine w) <> Rejected e;
  wi_row : forall r, unclaimed (db (ledger w)) !! my_out_point = Some r -> w_refund_pubkey r = my_key;
  wi_owner : forall r, live_refund w = Some r -> r_refund_pubkey r = my_key;
  wi_live : has_failed w -> tx2 w <> Accepted -> is_Some (live_refund w);
  wi_unpaid : tx2 w <> Accepted -> received w = 0;
  wi_inflight : forall a, tx2 w = InFlight a -> exists t r, sm_state (machine w) = Refunding t a r;
  wi_landed : tx2 w = Accepted -> live_refund w = None /\
    ((exists t a r, sm_state (machine w) = Refunding t a r) \/
     exists a r, sm_state (machine w) = Refunded a r);
  wi_refunding : forall t a r, sm_state (machine w) = Refunding t a r ->
    has_failed w /\ refund_is w a /\ tx2 w <> Unsent /\ (tx2 w = Accepted -> received w = a);
  wi_refunded : forall a r, sm_state (machine w) = Refunded a r ->
    has_failed w /\ tx2 w = Accepted /\ received w = a;
  wi_paid : forall b, sm_state (machine w) = Paid b -> my_wstate w = Some (Confirmed b);
  wi_seen : forall r, seen w = Some r -> tx1 w = Accepted /\ sm_state (machine w) = Pending /\
    match r with
    | SawFailure _ => has_failed w
    | SawOutcome (OutcomePaid b) => my_wstate w = Some (Confirmed b)
    | SawOutcome (OutcomeRefundable a _) => has_failed w /\ refund_is w a
    | SawOutcome _ => False
    end;
}.
End world.

(** ** What the world keeps *)

Section safety.
Context `{Hevm : Evm} `{!AbiOk} `{StateTrieOk} `{AmountsOk} `{!Keys}.
Context (self : Usdt) (wd : UsdtOutputV0) (com : WithdrawalRefundCommon).

(** The output is the one [withdraw] builds for this machine. *)
Hypothesis Hwf : output_wf (OutputV0 wd).
Hypothesis Hkey : out_refund_pubkey wd = my_key com.

Abbreviation o := (my_out_point com).
Abbreviation inv := (world_inv self com).

Lemma foreign_ledger_step l l' : foreign self com l l' -> ledger_step self l l'.
Proof. destruct 1; by econstructor. Qed.

Lemma foreign_tended l l' :
  ledger_inv l -> (forall r, refunds (db l) !! o = Some r -> r_refund_pubkey r = my_key com) ->
  foreign self com l l' -> tended o (db l) (db l').
Proof.
  intros [Hinv _] Hown Hf.
  destruct Hf as [i meta d' Hi E Hpk Hb|out op am d' Hop Ho Hfr E Hle Hb|it peer d' Hp Hi E Hb]; simpl.
  - destruct i as [op|pk pr fee|v raw]; simpl in E; [| |done].
    + unfold process_refund in E. run_inv E. ok_facts.
      destruct (decide (op = o)) as [->|Hne]; [exfalso; eauto|].
      split; simpl; auto. left. by rewrite lookup_delete_ne.
    + unfold process_deposit_proof in E. run_inv E.
      etrans; [|apply maybe_trigger_sweep_tended]. by apply tended_same.
  - destruct out as [w|v raw]; [|done]. unfold process_output in E. run_inv E.
    split; simpl; rewrite ?lookup_insert_ne by done; auto.
  - by eapply item_tended.
Qed.

Lemma lifecycle l : reachable self l -> lifecycle_ok (db l) o.
Proof. intros Hr. apply reachable_ledger_inv in Hr as [[Hc _] _]. apply (inv_lifecycle _ _ Hc). Qed.

(** A withdrawal that is unknown, confirmed or failed is off the queue. *)
Lemma off_queue l st :
  reachable self l -> wstates (db l) !! o = st ->
  match st with Some Queued | Some (Signing _) | Some (WithdrawalSubmitted _) => False | _ => True end ->
  unclaimed (db l) !! o = None.
Proof.
  intros Hr <- Hst. pose proof (lifecycle l Hr) as Hl. unfold lifecycle_ok in Hl.
  destruct (wstates (db l) !! o) as [[]|]; tauto.
Qed.

Lemma refund_claim_facts d meta d' :
  process_input self (RefundV0 o) d = (Ok meta, d') ->
  exists r, refunds d !! o = Some r /\ net_input meta = r_amount r /\
    pub_key meta = r_refund_pubkey r /\ d' = set_refunds (delete o) d.
Proof.
  simpl. unfold process_refund. intros E. run_inv E. ok_facts. eexists. split; [done|].
  unfold net_input. simpl. rewrite amount_of_new_custom, amount_of_ZERO. simpl.
  split_and!; [lia|done|done].
Qed.

Lemma withdrawal_lands_facts d am d' :
  process_output self (OutputV0 wd) o d = (Ok am, d') ->
  wstates d' !! o = Some Queued /\ refunds d' = refunds d /\
  exists row, unclaimed d' !! o = Some row /\ w_refund_pubkey row = my_key com.
Proof.
  unfold process_output. simpl. intros E. run_inv E. simpl. rewrite !lookup_insert_eq.
  split; [done|]. split; [done|]. eexists. split; [done|]. simpl. done.
Qed.

Lemma fate_cases s res : fate s = Some res ->
  (s = Accepted /\ res = Ok tt) \/ (exists e, s = TxRefused e /\ res = Err e).
Proof. destruct s; intros [= <-]; eauto. Qed.

Lemma waiting_has_refund w : inv w -> sm_state (machine w) = Pending -> has_failed com w ->
  is_Some (live_refund com w).
Proof.
  intros I Hst Hf. apply (wi_live _ _ _ I Hf). intros Ht.
  destruct (wi_landed _ _ _ I Ht) as [_ [(? & ? & ? & ?)|(? & ? & ?)]]; congruence.
Qed.

Lemma refund_submitted_inv l :
  reachable self l -> wstates (db l) !! o = None -> inv (submitted_world com l).
Proof.
  intros Hr Hn. pose proof (lifecycle l Hr) as Hl. unfold lifecycle_ok in Hl. rewrite Hn in Hl.
  destruct Hl as [Hu Hre].
  constructor; simpl; try done; unfold live_refund, my_wstate, has_failed, my_wstate; simpl;
    try congruence.
  - intros _. split_and!; try done. by left.
  - intros [r Hf]. congruence.
Qed.

Lemma inv_foreign w l : inv w -> foreign self com (ledger w) l -> inv (with_ledger w l).
Proof.
  intros [Hr Hc Ht1u Hb Ha Hrow Hown Hlive Hun Hin Hland Href Hrfd Hpaid Hseen] Hf.
  pose proof (reachable_ledger_inv self _ Hr) as Hli.
  pose proof (foreign_tended _ _ Hli Hown Hf) as [Tu Tr Tf Ts Tk].
  assert (Hkeep : forall st, my_wstate com w = st ->
    match st with Some Queued | Some (Signing _) | Some (WithdrawalSubmitted _) => False | _ => True end ->
    wstates (db l) !! o = st).
  { intros st Hst Hq. rewrite <- Hst. apply Ts. by apply (off_queue (ledger w) st). }
  assert (Hfail : has_failed com w -> has_failed com (with_ledger w l)).
  { intros [r Hw]. exists r. by apply (Hkeep _ Hw). }
  assert (Hamt : forall a, has_failed com w -> refund_is com w a -> refund_is com (with_ledger w l) a).
  { intros a [rr Hw] Hr0 r Hr1. apply Hr0. unfold live_refund in *. simpl in Hr1.
    destruct Tr as [Hs|(row & _ & Hq & _)]; [congruence|].
    assert (unclaimed (db (ledger w)) !! o = None) by (by apply (off_queue (ledger w) _ Hr Hw)).
    congruence. }
  constructor; simpl; try done.
  - apply (rtc_r _ _ _ Hr). by apply foreign_ledger_step.
  - intros Ht. destruct (Hb Ht) as (Hw & Hrest). split; [by apply (Hkeep _ Hw)|done].
  - intros Ht. destruct (Ha Ht) as [Hs Hn]. split; [by apply Tk|done].
  - intros r Hr1. apply Hrow. destruct Tu as [<-|?]; congruence.
  - intros r Hr1. unfold live_refund in Hr1. simpl in Hr1.
    destruct Tr as [Hs|(row & r' & Hq & _ & Hr' & Hk)].
    + apply Hown. unfold live_refund. congruence.
    + rewrite Hr' in Hr1. injection Hr1 as <-. rewrite Hk. by apply Hrow.
  - intros [r Hw] Ht. unfold live_refund. simpl. destruct (Tf r Hw) as [Hw'|?]; [|done].
    destruct (Hlive (ex_intro _ r Hw') Ht) as [x Hx].
    destruct Tr as [->|(row & r' & _ & _ & -> & _)]; eauto.
  - intros Ht. destruct (Hland Ht) as [Hl Hst]. split; [|done].
    assert (Hfw : has_failed com w).
    { destruct Hst as [(t & a & r & Hst)|(a & r & Hst)]; [by apply (Href t a r)|by apply (Hrfd a r)]. }
    destruct Hfw as [rr Hw]. unfold live_refund in *. simpl.
    destruct Tr as [->|(row & _ & Hq & _)]; [done|].
    assert (unclaimed (db (ledger w)) !! o = None) by (by apply (off_queue (ledger w) _ Hr Hw)).
    congruence.
  - intros t a r Hst. destruct (Href t a r Hst) as (Hf1 & Hf2 & Hrest). split_and!; [auto..|apply Hrest|apply Hrest].
  - intros a r Hst. destruct (Hrfd a r Hst) as (Hf1 & Hrest). split; [auto|done].
  - intros b Hst. by apply (Hkeep _ (Hpaid b Hst)).
  - intros r Hs. destruct (Hseen r Hs) as (Ht & Hst & Hm). split; [done|]. split; [done|].
    destruct r as [r|[b|e|a r|r]]; try done.
    + auto.
    + by apply (Hkeep _ Hm).
    + destruct Hm. auto.
Qed.

Ltac open_inv I :=
  destruct I as [Hr Hc Ht1u Hb Ha Hrow Hown Hlive Hun Hin Hland Href Hrfd Hpaid Hseen].
Ltac rebuild := constructor; simpl; try done; try congruence.

(** A machine past [Pending] and [Rejected] has its withdrawal accepted. *)
Lemma accepted_of w : inv w -> sm_state (machine w) <> Pending ->
  (forall e, sm_state (machine w) <> Rejected e) -> tx1 w = Accepted.
Proof.
  intros I Hp Hj. destruct (tx1 w) eqn:E; try done;
    destruct (wi_before _ _ _ I ltac:(congruence)) as (_ & _ & _ & _ & [?|(e & He & _)]); try done;
    by apply Hj in He.
Qed.

Lemma refund_inv_tx1_lands w a am d' :
  inv w -> tx1 w = InFlight a -> process_output self (OutputV0 wd) o (db (ledger w)) = (Ok am, d') ->
  net_output am <= issued (ledger w) -> total_credited d' <= U64_MAX ->
  inv (with_tx1 (with_ledger w (mkLedger d' (issued (ledger w) - net_output am))) Accepted).
Proof.
  intros I Ht E Hle Hb'. open_inv I.
  destruct (Hb ltac:(congruence)) as (Hw & Hrec & Ht2 & Hse & Hst).
  assert (Hp : sm_state (machine w) = Pending) by (destruct Hst as [?|(e & _ & ?)]; [done|congruence]).
  pose proof (withdrawal_lands_facts _ _ _ E) as (Hq & Hre & row & Hu & Hk).
  pose proof (lifecycle _ Hr) as Hl. unfold lifecycle_ok in Hl. unfold my_wstate in Hw.
  rewrite Hw in Hl. destruct Hl as [_ Hl].
  assert (Hnone : live_refund com (with_tx1 (with_ledger w (mkLedger d' (issued (ledger w)
    - net_output am))) Accepted) = None) by (unfold live_refund; simpl; by rewrite Hre).
  rebuild; unfold my_wstate; simpl.
  - apply (rtc_r _ _ _ Hr). by eapply step_output.
  - intros _. split; [eauto|]. congruence.
  - intros [r Hf]. unfold my_wstate in Hf. simpl in Hf. congruence.
Qed.

Lemma refund_inv_tx1_fails w a e : inv w -> tx1 w = InFlight a -> inv (with_tx1 w (TxRefused e)).
Proof.
  intros I Ht. open_inv I. destruct (Hb ltac:(congruence)) as (Hw & Hrec & Ht2 & Hse & Hst).
  rebuild. intros _. split_and!; try done.
  destruct Hst as [?|(e' & _ & ?)]; [by left|congruence].
Qed.

Lemma inv_tx1_refused w e claim sm' oc :
  inv w -> fate (tx1 w) = Some (Err e) -> await_outcome (Err e) [] = Some oc ->
  transition claim (machine w) (OnOutcome oc) = Some sm' -> inv (with_machine w sm').
Proof.
  intros I Hf [= <-] Htr. apply fate_cases in Hf as [[_ ?]|(e' & Ht & [= <-])]; [done|].
  open_inv I. destruct (Hb ltac:(congruence)) as (Hw & Hrec & Ht2 & Hse & _).
  unfold transition in Htr. destruct (sm_state (machine w)) eqn:Hst; try done.
  injection Htr as <-. rebuild. intros _. split_and!; try done. right. eauto.
Qed.

Lemma inv_read_status w :
  inv w -> sm_state (machine w) = Pending -> tx1 w = Accepted ->
  inv (with_seen w (match my_status com w with
    | StatusFailed reason => Some (SawFailure reason)
    | status => SawOutcome <$> poll_outcome (Ok status) (Err EmptyString)
    end)).
Proof.
  intros I Hp Ht. open_inv I. rebuild.
  intros r. unfold my_status, handle_withdrawal_status.
  destruct (wstates (db (ledger w)) !! o) as [[]|] eqn:Ew; simpl; intros [= <-]; try done.
  split; [done|]. split; [done|]. by eexists.
Qed.

Lemma inv_read_refund w reason :
  inv w -> seen w = Some (SawFailure reason) ->
  inv (with_seen w (SawOutcome <$> poll_outcome (Ok (StatusFailed reason)) (Ok (my_refund com w)))).
Proof.
  intros I Hs. pose proof (waiting_has_refund w I) as Hwait. open_inv I.
  destruct (Hseen _ Hs) as (Ht & Hp & Hf). destruct (Hwait Hp Hf) as [r Hl].
  assert (Em : my_refund com w = Some (r_amount r, r_reason r)).
  { unfold my_refund, handle_refund_status. unfold live_refund in Hl. by rewrite Hl. }
  rewrite Em. rebuild. intros x [= <-]. split; [done|]. split; [done|]. split; [done|].
  intros r' Hr'. unfold live_refund in *. simpl in Hr'. congruence.
Qed.

Lemma refund_inv_claim_sent w txid a reason sm' :
  inv w -> seen w = Some (SawOutcome (OutcomeRefundable a reason)) ->
  transition (accept_claim txid) (machine w) (OnOutcome (OutcomeRefundable a reason)) = Some sm' ->
  inv (with_tx2 (with_machine w sm') (InFlight a)).
Proof.
  intros I Hs Htr. pose proof (waiting_has_refund w I) as Hwait. open_inv I.
  destruct (Hseen _ Hs) as (Ht & Hp & Hf & Ham). unfold transition in Htr. rewrite Hp in Htr.
  injection Htr as <-. pose proof (Hwait Hp Hf).
  assert (received w = 0) as Hr0.
  { apply Hun. intros Ht2. destruct (Hland Ht2) as [_ [(? & ? & ? & ?)|(? & ? & ?)]]; congruence. }
  rebuild.
  - intros _. split; [by apply Ha|congruence].
  - intros a' [= <-]. by eexists _, _.
  - intros t a' r Hst'. simplify_eq. by split_and!.
Qed.

Lemma inv_outcome w e oc sm' :
  inv w -> seen w = Some (SawOutcome oc) ->
  transition (refuse_claim e) (machine w) (OnOutcome oc) = Some sm' -> inv (with_machine w sm').
Proof.
  intros I Hs Htr. pose proof (waiting_has_refund w I) as Hwait. open_inv I.
  destruct (Hseen _ Hs) as (Ht & Hp & Hm). unfold transition in Htr. rewrite Hp in Htr.
  injection Htr as <-.
  assert (Hni : forall a, tx2 w <> InFlight a).
  { intros a Ht2. destruct (Hin a Ht2) as (? & ? & ?). congruence. }
  assert (Hna : tx2 w <> Accepted).
  { intros Ht2. destruct (Hland Ht2) as [_ [(? & ? & ? & ?)|(? & ? & ?)]]; congruence. }
  destruct oc as [b|e'|a r|r]; try done; simpl.
  - rebuild. intros b' [= <-]. exact Hm.
  - rebuild. intros _. split; [by apply Ha|congruence].
Qed.

Lemma inv_restart w : inv w -> inv (with_seen w None).
Proof. intros I. open_inv I. rebuild. intros Ht. destruct (Hb Ht) as (? & ? & ? & ? & ?). done. Qed.

Lemma refund_inv_tx2_lands w a meta d' :
  inv w -> tx2 w = InFlight a -> process_input self (RefundV0 o) (db (ledger w)) = (Ok meta, d') ->
  pub_key meta = my_key com -> a <= net_input meta -> total_credited d' <= U64_MAX ->
  inv (mkWorld (mkLedger d' (issued (ledger w) + net_input meta)) (machine w) (tx1 w) Accepted
         (received w + a) (seen w)).
Proof.
  intros I Ht E Hk Hle Hb'. pose proof (accepted_of w I) as Hacc. open_inv I.
  destruct (Hin a Ht) as (t & r & Hst).
  assert (tx1 w = Accepted) as Ht1 by (apply Hacc; congruence).
  destruct (Href t a r Hst) as (Hf & Ham & _).
  pose proof (refund_claim_facts _ _ _ E) as (rf & Hrf & Hnet & _ & Ed).
  assert (received w = 0) as Hr0 by (apply Hun; congruence).
  assert (Hw' : wstates d' = wstates (db (ledger w))) by (by rewrite Ed).
  assert (Hu' : unclaimed d' = unclaimed (db (ledger w))) by (by rewrite Ed).
  assert (Hre' : refunds d' !! o = None) by (rewrite Ed; simpl; by rewrite lookup_delete_eq).
  rebuild; unfold live_refund, has_failed, my_wstate, refund_is in *; simpl in *; rewrite ?Hw'; try done.
  - apply (rtc_r _ _ _ Hr). by eapply (step_input self (ledger w) (RefundV0 o)).
  - intros r'. rewrite Hu'. apply Hrow.
  - congruence.
  - intros _. split; [done|]. left. eauto.
  - intros t' a' r' Hst'. rewrite Hst in Hst'. injection Hst' as <- <-. split_and!; try done.
    + intros r0 Hr1. unfold live_refund in Hr1. simpl in Hr1. congruence.
    + lia.
  - intros x Hx. destruct (Hseen x Hx) as (_ & ? & _). congruence.
Qed.

Lemma refund_inv_tx2_fails w a e : inv w -> tx2 w = InFlight a -> inv (with_tx2 w (TxRefused e)).
Proof.
  intros I Ht. pose proof (accepted_of w I) as Hacc. open_inv I.
  destruct (Hin a Ht) as (t & r & Hst).
  assert (tx1 w = Accepted) as Ht1 by (apply Hacc; congruence).
  rebuild.
  - intros Hf _. apply Hlive; [done|congruence].
  - intros _. apply Hun. congruence.
  - intros t' a' r' Hst'. destruct (Href t' a' r' Hst') as (? & ? & _). by split_and!.
Qed.

Lemma refund_inv_tx2_seen w claim res sm' :
  inv w -> fate (tx2 w) = Some res -> transition claim (machine w) (OnRefundTx res) = Some sm' ->
  inv (with_machine w sm').
Proof.
  intros I Hf Htr. pose proof (accepted_of w I) as Hacc. open_inv I.
  unfold transition in Htr. destruct (sm_state (machine w)) as [| | |t a r|] eqn:Hst; try done.
  injection Htr as <-. assert (tx1 w = Accepted) as Ht1 by (apply Hacc; congruence).
  destruct (Href t a r eq_refl) as (Hfail & Ham & _ & Hrec).
  apply fate_cases in Hf as [[Ht2 ->]|(e & Ht2 & ->)]; unfold transition_refund_accepted;
    rewrite Hst; rebuild.
  - intros _. split; [by apply Ha|congruence].
  - intros _. destruct (Hland Ht2) as [? _]. split; [done|]. right. by eexists _, _.
  - intros a' r' [= <- <-]. split_and!; auto.
  - intros _. split; [by apply Ha|congruence].
Qed.

Lemma refund_wstep_inv w w' : inv w -> wstep self wd com w w' -> inv w'.
Proof.
  intros I Hs. destruct Hs.
  - by apply inv_foreign.
  - by eapply refund_inv_tx1_lands.
  - by eapply refund_inv_tx1_fails.
  - by eapply inv_tx1_refused.
  - by apply inv_read_status.
  - by apply inv_read_refund.
  - by eapply refund_inv_claim_sent.
  - by eapply inv_outcome.
  - by apply inv_restart.
  - by eapply refund_inv_tx2_lands.
  - by eapply refund_inv_tx2_fails.
  - by eapply refund_inv_tx2_seen.
Qed.

(** The worlds of a withdrawal submitted to the ledger [l]. *)
Definition world_reachable (l : Ledger) (w : World) : Prop :=
  rtc (wstep self wd com) (submitted_world com l) w.

Lemma world_reachable_inv l w :
  reachable self l -> wstates (db l) !! o = None -> world_reachable l w -> inv w.
Proof.
  intros Hr Hn Hw. eapply rtc_invariant; [|by apply refund_submitted_inv|exact Hw].
  intros a b. apply refund_wstep_inv.
Qed.

(** ** Conservation *)

(** What the client has of a failed withdrawal: received, or set aside for it. *)
Definition refund_total (w : World) : Z := received w + default 0 (r_amount <$> live_refund com w).

Lemma total_step w w' :
  inv w -> has_failed com w -> wstep self wd com w w' ->
  has_failed com w' /\ refund_total w' = refund_total w.
Proof.
  intros I Hf Hs.
  assert (Hacc : tx1 w = Accepted).
  { destruct (tx1 w) eqn:E; try done; destruct Hf as [r Hf];
      destruct (wi_before _ _ _ I ltac:(congruence)) as [? _]; congruence. }
  destruct Hs as [w l Hfor| | | | | | | | |w a meta d' Ht E Hk Hle Hb'| |]; try congruence; try done.
  - pose proof (foreign_tended _ _ (reachable_ledger_inv self _ (wi_reach _ _ _ I))
      (wi_owner _ _ _ I) Hfor) as [_ Tr _ Ts _].
    destruct Hf as [r Hw].
    assert (Hq : unclaimed (db (ledger w)) !! o = None)
      by (by apply (off_queue (ledger w) _ (wi_reach _ _ _ I) Hw)).
    split; [exists r; unfold my_wstate; simpl; by rewrite Ts|].
    unfold refund_total, live_refund. simpl. f_equal. do 2 f_equal.
    destruct Tr as [?|(? & ? & ? & _)]; [done|congruence].
  - pose proof (refund_claim_facts _ _ _ E) as (rf & Hrf & Hnet & _ & ->).
    split; [done|]. unfold refund_total, live_refund. simpl.
    rewrite lookup_delete_eq, Hrf. simpl.
    destruct (wi_inflight _ _ _ I a Ht) as (t & r & Hst).
    destruct (wi_refunding _ _ _ I t a r Hst) as (_ & Ham & _). specialize (Ham rf Hrf). lia.
Qed.

Lemma total_steps w w' :
  inv w -> has_failed com w -> rtc (wstep self wd com) w w' ->
  has_failed com w' /\ refund_total w' = refund_total w.
Proof.
  intros I Hf Hs. induction Hs as [|w w1 w' Hstep Hs IH]; [done|].
  destruct (total_step _ _ I Hf Hstep) as [Hf1 <-].
  apply IH; [by eapply refund_wstep_inv|done].
Qed.

(** C4: A refund is received once and in full.  The machine's end states tell the truth:
    paid means confirmed at that block, rejected means the federation never took the
    withdrawal, refunded means failed with exactly that amount received and nothing
    left; a failed withdrawal's e-cash is still set aside under this client's key
    until its own claim takes it; and from the failure on, what was received and what
    is set aside add up to the same amount whatever happens. *)
Theorem refund_received_exactly_once l w w' :
  reachable self l -> wstates (db l) !! o = None -> world_reachable l w ->
  rtc (wstep self wd com) w w' ->
  match sm_state (machine w) with
  | Paid b => my_wstate com w = Some (Confirmed b) /\ live_refund com w = None /\ received w = 0
  | Rejected e => tx1 w = TxRefused e /\ my_wstate com w = None /\ received w = 0
  | Refunded a _ => has_failed com w /\ live_refund com w = None /\ received w = a
  | Refunding _ a _ => has_failed com w /\ refund_total w = a
  | Pending => received w = 0
  end /\
  (has_failed com w ->
    (received w = 0 /\ exists r, live_refund com w = Some r /\ r_refund_pubkey r = my_key com) \/
    (tx2 w = Accepted /\ live_refund com w = None)) /\
  (has_failed com w -> has_failed com w' /\ refund_total w' = refund_total w).
Proof.
  intros Hr Hn Hw Hs. pose proof (world_reachable_inv l w Hr Hn Hw) as I.
  split; [|split; [|intros Hf; by apply total_steps]].
  - clear Hr Hn Hw Hs. open_inv I. destruct (sm_state (machine w)) as [|b|e|t a r|a r] eqn:Hst.
    + apply Hun. intros Ht. destruct (Hland Ht) as [_ [(? & ? & ? & ?)|(? & ? & ?)]]; congruence.
    + specialize (Hpaid b eq_refl). split; [done|].
      pose proof (lifecycle _ Hr) as Hl. unfold lifecycle_ok in Hl. unfold my_wstate in Hpaid.
      rewrite Hpaid in Hl. split; [apply Hl|]. apply Hun. intros Ht.
      destruct (Hland Ht) as [_ [(? & ? & ? & ?)|(? & ? & ?)]]; congruence.
    + assert (tx1 w <> Accepted) as Ht.
      { intros Ht. destruct (Ha Ht) as [_ Hne]. by apply (Hne e). }
      destruct (Hb Ht) as (? & ? & _ & _ & [?|(e' & He & ?)]); [done|]. by simplify_eq.
    + destruct (Href t a r eq_refl) as (Hf & Ham & Hu & Hrec). split; [done|].
      unfold refund_total. destruct (tx2 w) eqn:Ht2.
      * done.
      * rewrite Hun by congruence. destruct (Hlive Hf ltac:(congruence)) as [x Hx]. rewrite Hx. simpl.
        by apply Ham.
      * destruct (Hland eq_refl) as [-> _]. rewrite Hrec by done. simpl. lia.
      * rewrite Hun by congruence. destruct (Hlive Hf ltac:(congruence)) as [x Hx]. rewrite Hx. simpl.
        by apply Ham.
    + destruct (Hrfd a r eq_refl) as (Hf & Ht & Hrec). destruct (Hland Ht) as [? _]. by split_and!.
  - intros Hf. destruct (tx2 w) eqn:Ht; [left|left|right|left];
      [..|by destruct (wi_landed _ _ _ I Ht)|];
      (split; [apply (wi_unpaid _ _ _ I); congruence|]);
      (destruct (wi_live _ _ _ I Hf ltac:(congruence)) as [x Hx]); exists x;
      (split; [done|]); by apply (wi_owner _ _ _ I).
Qed.

(** ** Finishing *)

Abbreviation steps := (rtc (wstep self wd com)).

Definition finished (w : World) : Prop :=
  live_refund com w = None /\
  match sm_state (machine w) with Paid _ | Rejected _ | Refunded _ _ => True | _ => False end.

(** An accepted claim is seen and ends the machine. *)
Lemma refund_finish_landed w t a r :
  inv w -> sm_state (machine w) = Refunding t a r -> tx2 w = Accepted ->
  exists w', steps w w' /\ finished w'.
Proof.
  intros I Hst Ht. eexists. split.
  - apply rtc_once. eapply (w_tx2_seen self wd com w (fun _ => Err EmptyString)); [by rewrite Ht|].
    unfold transition, transition_refund_accepted. by rewrite Hst.
  - split; [by apply (wi_landed _ _ _ I)|done].
Qed.

(** A claim in flight can land: the refund is there, is this key's and is what the
    claim declares. *)
Lemma refund_finish_inflight w a :
  inv w -> tx2 w = InFlight a -> exists w', steps w w' /\ finished w'.
Proof.
  intros I Ht. destruct (wi_inflight _ _ _ I a Ht) as (t & r & Hst).
  destruct (wi_refunding _ _ _ I t a r Hst) as (Hf & Ham & _).
  destruct (wi_live _ _ _ I Hf ltac:(congruence)) as [rf Hrf].
  pose proof (wi_owner _ _ _ I rf Hrf) as Hk. specialize (Ham rf Hrf).
  destruct (reachable_ledger_inv self _ (wi_reach _ _ _ I)) as [_ Htot].
  assert (E : exists meta, process_input self (RefundV0 o) (db (ledger w))
    = (Ok meta, set_refunds (delete o) (db (ledger w))) /\
    pub_key meta = r_refund_pubkey rf /\ net_input meta = r_amount rf).
  { simpl. unfold process_refund. simpl. unfold live_refund in Hrf. rewrite Hrf. simpl.
    eexists. split; [done|]. split; [done|]. unfold net_input. simpl.
    rewrite amount_of_new_custom, amount_of_ZERO. simpl. lia. }
  destruct E as (meta & E & Hpk & Hnet).
  pose proof (w_tx2_lands self wd com w a meta _ Ht E ltac:(congruence) ltac:(lia) Htot) as Hstep.
  pose proof (refund_wstep_inv _ _ I Hstep) as I'.
  destruct (refund_finish_landed _ t a r I' Hst eq_refl) as (w' & Hs & Hfin). exists w'. split; [|done].
  by eapply rtc_l.
Qed.

Lemma finish_refundable w a r :
  inv w -> seen w = Some (SawOutcome (OutcomeRefundable a r)) ->
  exists w', steps w w' /\ finished w'.
Proof.
  intros I Hs. destruct (wi_seen _ _ _ I _ Hs) as (_ & Hst & _).
  assert (Hstep : wstep self wd com w
    (with_tx2 (with_machine w (update (machine w) (Refunding 0 a r))) (InFlight a))).
  { apply (w_claim_sent self wd com w 0 a r); [done|]. unfold transition. by rewrite Hst. }
  destruct (refund_finish_inflight _ a (refund_wstep_inv _ _ I Hstep) eq_refl) as (w' & Hw & Hfin).
  exists w'. split; [by eapply rtc_l|done].
Qed.

Lemma finish_failure w r :
  inv w -> seen w = Some (SawFailure r) -> exists w', steps w w' /\ finished w'.
Proof.
  intros I Hs. destruct (wi_seen _ _ _ I _ Hs) as (_ & Hst & Hf).
  destruct (waiting_has_refund w I Hst Hf) as [rf Hrf].
  pose proof (w_read_refund self wd com w r Hs) as Hstep.
  assert (Em : my_refund com w = Some (r_amount rf, r_reason rf)).
  { unfold my_refund, handle_refund_status. unfold live_refund in Hrf. by rewrite Hrf. }
  rewrite Em in Hstep.
  destruct (finish_refundable _ (r_amount rf) (r_reason rf) (refund_wstep_inv _ _ I Hstep) eq_refl)
    as (w' & Hw & Hfin).
  exists w'. split; [by eapply rtc_l|done].
Qed.

Lemma finish_pending w :
  inv w -> tx1 w = Accepted -> sm_state (machine w) = Pending ->
  match my_wstate com w with Some (Confirmed _ | WithdrawalFailed _) => True | _ => False end ->
  exists w', steps w w' /\ finished w'.
Proof.
  intros I Ht Hst Hm. pose proof (w_read_status self wd com w Hst Ht) as Hread.
  pose proof (refund_wstep_inv _ _ I Hread) as I1. revert Hread I1.
  unfold my_status, handle_withdrawal_status. unfold my_wstate in Hm.
  destruct (wstates (db (ledger w)) !! o) as [[| | |b|r]|] eqn:Ew; try done; intros Hread I1.
  - eexists. split; [eapply rtc_l; [exact Hread|apply rtc_once]|].
    + apply (w_outcome self wd com _ EmptyString (OutcomePaid b)); [done|].
      unfold transition. simpl. by rewrite Hst.
    + split; [|done]. pose proof (lifecycle _ (wi_reach _ _ _ I)) as Hl. unfold lifecycle_ok in Hl.
      rewrite Ew in Hl. unfold live_refund. simpl. apply Hl.
  - destruct (finish_failure _ r I1 eq_refl) as (w' & Hw & Hfin).
    exists w'. split; [by eapply rtc_l|done].
Qed.

(** An out point without a state has no refund, nor has a confirmed one. *)
Lemma no_refund w :
  inv w -> (my_wstate com w = None \/ exists b, my_wstate com w = Some (Confirmed b)) ->
  live_refund com w = None.
Proof.
  intros I Hm. pose proof (lifecycle _ (wi_reach _ _ _ I)) as Hl.
  unfold lifecycle_ok, my_wstate in *. destruct Hm as [Hm|[b Hm]]; rewrite Hm in Hl; apply Hl.
Qed.

Lemma finish_refused w e :
  inv w -> tx1 w = TxRefused e -> exists w', steps w w' /\ finished w'.
Proof.
  intros I Ht. destruct (wi_before _ _ _ I ltac:(congruence)) as (Hn & _ & _ & _ & Hst).
  destruct Hst as [Hst|(e' & Hst & _)].
  - eexists. split.
    + apply rtc_once. apply (w_tx1_refused self wd com w e (fun _ => Err EmptyString)
        (update (machine w) (Rejected e)) (OutcomeRejected e)); [by rewrite Ht|done|].
      unfold transition. by rewrite Hst.
    + split; [|done]. apply (no_refund w); auto.
  - exists w. split; [done|]. split; [|by rewrite Hst]. apply (no_refund w); auto.
Qed.

Lemma refund_finish_accepted w :
  inv w -> tx1 w = Accepted ->
  match my_wstate com w with Some (Confirmed _ | WithdrawalFailed _) => True | _ => False end ->
  exists w', steps w w' /\ finished w'.
Proof.
  intros I Ht Hm. destruct (sm_state (machine w)) as [|b|e|t a r|a r] eqn:Hsm.
  - by apply finish_pending.
  - exists w. split; [done|]. split; [|by rewrite Hsm].
    apply (no_refund w I). right. exists b. by apply (wi_paid _ _ _ I).
  - destruct (wi_after _ _ _ I Ht) as [_ Hnr]. by destruct (Hnr e).
  - destruct (tx2 w) as [|a'| |e] eqn:Ht2.
    + by destruct (wi_refunding _ _ _ I t a r Hsm) as (_ & _ & ? & _).
    + by apply (refund_finish_inflight w a').
    + by apply (refund_finish_landed w t a r).
    + assert (Hstep : wstep self wd com w (with_machine w (update (machine w) Pending))).
      { apply (w_tx2_seen self wd com w (fun _ => Err EmptyString) (Err e)); [by rewrite Ht2|].
        unfold transition, transition_refund_accepted. by rewrite Hsm. }
      destruct (finish_pending _ (refund_wstep_inv _ _ I Hstep) Ht eq_refl Hm) as (w' & Hs & Hfin).
      exists w'. split; [by eapply rtc_l|done].
  - exists w. split; [done|]. split; [|by rewrite Hsm].
    destruct (wi_refunded _ _ _ I a r Hsm) as (_ & Ht2 & _). by apply (wi_landed _ _ _ I).
Qed.

(** C34: Once the federation has decided a withdrawal, confirmed it, failed it or never taken
    it, the machine can be brought to its end from wherever it is, whatever answers
    were read and however many claims were refused before; and then nothing is left
    set aside: everything granted has been received. *)
Theorem decided_withdrawal_can_finish l w :
  reachable self l -> wstates (db l) !! o = None -> world_reachable l w ->
  match my_wstate com w with None | Some (Confirmed _ | WithdrawalFailed _) => True | _ => False end ->
  exists w', steps w w' /\ finished w' /\ (has_failed com w -> received w' = refund_total w).
Proof.
  intros Hr Hn Hw Hm. pose proof (world_reachable_inv l w Hr Hn Hw) as I.
  enough (exists w', steps w w' /\ finished w') as (w' & Hs & Hfin).
  { exists w'. split; [done|]. split; [done|]. intros Hf.
    destruct (total_steps _ _ I Hf Hs) as [_ <-]. unfold refund_total.
    destruct Hfin as [-> _]. simpl. lia. }
  destruct (tx1 w) as [|a| |e] eqn:Ht.
  - by destruct (wi_tx1 _ _ _ I).
  - pose proof (w_tx1_fails self wd com w a EmptyString Ht) as Hstep.
    destruct (finish_refused _ EmptyString (refund_wstep_inv _ _ I Hstep) eq_refl) as (w' & Hs & Hfin).
    exists w'. split; [by eapply rtc_l|done].
  - apply refund_finish_accepted; [done..|]. destruct (wi_after _ _ _ I Ht) as [[st Hst] _].
    rewrite Hst in *. by destruct st.
  - by apply (finish_refused w e).
Qed.
End safety.

(** ** A failed withdrawal, end to end *)

Section demo.
#[local] Existing Instance demo_evm.
#[local] Existing Instance demo_abi_ok.
#[local] Existing Instance demo_keys.
#[local] Existing Instance toy_trie.
#[local] Existing Instance toy_trie_ok.
#[local] Existing Instance map_amounts.
#[local] Existing Instance map_amounts_ok.

Definition demo_com : WithdrawalRefundCommon := mkWithdrawalRefundCommon 1 900 demo_out_point demo_kp.
Definition demo_wd : UsdtOutputV0 := mkUsdtOutputV0 (replicate 20 8) 10000000 1296000 demo_claim.

(** The swept pool, the withdrawal, its batch, the signature, the revert. *)
Definition run_from (l : Ledger) (es : list demo_event) : Ledger := default genesis (usdt_run l es).
Definition demo_swept : Ledger := run_from demo_ledger2
  [inl (UserOpConfirmed (first_key (submitted (db demo_ledger2))) true 12 [7] 50000000 5)].
Definition demo_queued : Ledger := run_from demo_swept [inr (inr (OutputV0 demo_wd, demo_out_point))].
Definition demo_batched : Ledger := run_from demo_queued [inl (BlockCount 20)].
Definition demo_signature : UsdtConsensusItem :=
  match demo_sign demo_batched with inl item => item | inr _ => BlockCount 0 end.
Definition demo_signed : Ledger := run_from demo_batched [inl demo_signature].
Definition demo_revert : UsdtConsensusItem :=
  UserOpConfirmed (first_key (submitted (db demo_signed))) false 22 [7] 0 5.
Definition demo_reverted : Ledger := run_from demo_signed [inl demo_revert].

Definition demo_world : World :=
  mkWorld demo_reverted (mkUsdtStateMachine demo_com Pending) Accepted Unsent 0 None.

Lemma demo_swept_reachable : reachable demo_usdt demo_swept.
Proof. apply run_reachable; [apply demo_reachable2|]. vm_compute. reflexivity. Qed.

Lemma run_from_one l e :
  bool_decide (is_Some (usdt_run l [e])) = true ->
  demo_ok l e = true /\ demo_apply l e = Some (run_from l [e]).
Proof.
  unfold run_from, usdt_run. intros [l' E]%bool_decide_eq_true.
  destruct (demo_ok l e); [|done]. split; [done|].
  by destruct (demo_apply l e) as [l1|].
Qed.

Lemma item_run_foreign l item l1 :
  l1 = run_from l [inl item] -> bool_decide (is_Some (usdt_run l [inl item])) = true ->
  foreign demo_usdt demo_com l l1.
Proof.
  intros El [Hok Ea]%run_from_one. change (run_from l _) with (run_from l [inl item]) in Ea.
  rewrite <- El in Ea. clear El.
  unfold demo_ok in Hok. rewrite Ea in Hok.
  apply andb_true_iff in Hok as [Hb Hok]. zbool. simpl in Ea.
  destruct (process_consensus_item _ _ _ _) as [[[]|] d] eqn:Ep; simplify_eq.
  eapply foreign_item; [by apply list_elem_of_singleton| |exact Ep|done].
  destruct item; simpl in *; try done; by zbool.
Qed.

Lemma output_run_lands l w com l1 :
  l1 = run_from l [inr (inr (OutputV0 w, wr_out_point com))] ->
  bool_decide (is_Some (usdt_run l [inr (inr (OutputV0 w, wr_out_point com))])) = true ->
  wstep demo_usdt w com (submitted_world com l)
    (with_tx1 (with_ledger (submitted_world com l) l1) Accepted).
Proof.
  intros El [Hok Ea]%run_from_one.
  change (run_from l _) with (run_from l [inr (inr (OutputV0 w, wr_out_point com))]) in Ea.
  rewrite <- El in Ea. clear El. unfold demo_ok in Hok. rewrite Ea in Hok.
  apply andb_true_iff in Hok as [Hb _]. zbool. unfold demo_apply in Ea.
  destruct (process_output _ _ _ _) as [[am|] d] eqn:Ep in Ea; [|done].
  destruct (_ <=? _) eqn:El in Ea; [|done]. zbool. injection Ea as <-.
  by apply (w_tx1_lands _ _ _ (submitted_world com l) 0).
Qed.

Lemma demo_world_reachable : world_reachable demo_usdt demo_wd demo_com demo_swept demo_world.
Proof.
  eapply rtc_l; [apply (output_run_lands _ _ _ demo_queued); [reflexivity|vm_compute; reflexivity]|].
  eapply rtc_l; [apply (w_foreign _ _ _ _ demo_batched), (item_run_foreign _ (BlockCount 20));
    [reflexivity|vm_compute; reflexivity]|].
  eapply rtc_l; [apply (w_foreign _ _ _ _ demo_signed), (item_run_foreign demo_batched demo_signature);
    [reflexivity|vm_compute; reflexivity]|].
  eapply rtc_l; [apply (w_foreign _ _ _ _ demo_reverted), (item_run_foreign demo_signed demo_revert);
    [reflexivity|vm_compute; reflexivity]|].
  apply rtc_refl.
Qed.

(** The whole amount and fee come back, less the gas of the reverted batch. *)
Example demo_refund_granted :
  (my_wstate demo_com demo_world, refund_total demo_com demo_world)
  = (Some (WithdrawalFailed RevertsInIsolation), 11295999).
Proof. vm_compute. reflexivity. Qed.

Lemma refund_demo_fresh : bool_decide (wstates (db demo_swept) !! demo_out_point = None) = true.
Proof. vm_compute. reflexivity. Qed.

Lemma demo_decided :
  match my_wstate demo_com demo_world with
  | None | Some (Confirmed _ | WithdrawalFailed _) => True | _ => False end.
Proof. vm_compute. exact I. Qed.

Lemma demo_output_wf : output_wf (OutputV0 demo_wd).
Proof. by vm_compute. Qed.

Lemma refund_received_exactly_once_witness :
  received demo_world = 0 /\
  (has_failed demo_com demo_world ->
    (received demo_world = 0 /\
     exists r, live_refund demo_com demo_world = Some r /\ r_refund_pubkey r = my_key demo_com) \/
    (tx2 demo_world = Accepted /\ live_refund demo_com demo_world = None)) /\
  (has_failed demo_com demo_world -> has_failed demo_com demo_world /\
    refund_total demo_com demo_world = refund_total demo_com demo_world).
Proof.
  exact (refund_received_exactly_once demo_usdt demo_wd demo_com demo_output_wf eq_refl demo_swept
    demo_world demo_world demo_swept_reachable (bool_decide_eq_true_1 _ refund_demo_fresh)
    demo_world_reachable (rtc_refl _ _)).
Defined.

Lemma decided_withdrawal_can_finish_witness :
  exists w', rtc (wstep demo_usdt demo_wd demo_com) demo_world w' /\ finished demo_com w' /\
    (has_failed demo_com demo_world -> received w' = refund_total demo_com demo_world).
Proof.
  exact (decided_withdrawal_can_finish demo_usdt demo_wd demo_com demo_output_wf eq_refl demo_swept
    demo_world demo_swept_reachable (bool_decide_eq_true_1 _ refund_demo_fresh)
    demo_world_reachable demo_decided).
Defined.
End demo.
