(* ===== verification/UsdtClientRecovery.v ===== *)
(** * Recovery of the USDT client's deposits from the seed

    [recover_deposits_scan] of [modules/usdt/fedimint-usdt-client/src/lib.rs]: the
    gap-limit walk over the seed's deposit indices, probing the discoverable and the
    untweaked key of each, that restores the claim keys and the index counter of a
    client that lost its database.  The theorems: the walk is the scan of a prefix of
    the indices that ends at the first gap of the given length, it ends, and what it
    restores can be claimed and is never handed out again. *)

From S2P Require Import Prelude FedimintCore UsdtTypes UsdtEvm UsdtUserOp UsdtSigning UsdtProof.
From S2P Require Import UsdtDb UsdtServer UsdtHandlers UsdtLedger UsdtSolvency UsdtDemo.
From S2P Require Import UsdtEndpoints UsdtFetch UsdtClient.

Record RecoveredAccount := mkRecoveredAccount {
  ra_index : Z;
  ra_account : EvmAddress;
  ra_claim_pk : PublicKey;
  ra_credited : UsdtAmount;
  ra_claimable : UsdtAmount;
}.

Record CheckedAccount := mkCheckedAccount {
  ca_index : Z;
  ca_account : EvmAddress;
  ca_claim_pk : PublicKey;
}.

Record RecoverySummary := mkRecoverySummary {
  recovered : nat;
  sum_credited : UsdtAmount;
  sum_claimable : UsdtAmount;
  accounts : list RecoveredAccount;
  checked : list CheckedAccount;
}.

(** The loop's variables. *)
Record Scan := mkScan {
  sc_accounts : list RecoveredAccount;
  sc_checked : list CheckedAccount;
  total_credited : UsdtAmount;
  total_claimable : UsdtAmount;
  highest_used_index : option Z;
  consecutive_misses : Z;
  sc_index : Z;
}.

Section scan.
Context `{Keys} `{AmountsOps}.
Variables (c : UsdtClientModule) (deposit_status : PublicKey -> result string DepositStatusResponse).
Variables (gap_limit : Z) (check_uncredited : bool).

(** The keys to probe at an index; they coincide when the tweak is zero. *)
Definition probes_at (index : Z) : result UsdtClientError (list Keypair) :=
  let base_keypair := claim_keypair_for_index c index in
  '(tweak, ground_keypair, _) ← ground_claim_keypair_static (client_cfg c) base_keypair;
  Ok (ground_keypair :: (if negb (tweak =? 0) then [base_keypair] else [])).

Definition push_credited (s : Scan) (claim_pk : PublicKey) (status : DepositStatusResponse) : Scan :=
  mkScan (sc_accounts s ++ [mkRecoveredAccount (sc_index s) (ds_account_addr status) claim_pk
                              (ds_credited status) (ds_claimable status)])
    (sc_checked s) (saturating_add_u64 (total_credited s) (ds_credited status))
    (saturating_add_u64 (total_claimable s) (ds_claimable status))
    (highest_used_index s) (consecutive_misses s) (sc_index s).

Definition push_checked (s : Scan) (claim_pk : PublicKey) (status : DepositStatusResponse) : Scan :=
  mkScan (sc_accounts s)
    (sc_checked s ++ [mkCheckedAccount (sc_index s) (ds_account_addr status) claim_pk])
    (total_credited s) (total_claimable s) (highest_used_index s) (consecutive_misses s) (sc_index s).

(** The inner loop, with the flag [index_hit]. *)
Fixpoint probe_all (probes : list Keypair) (s : Scan) (index_hit : bool) : CM (Scan * bool) :=
  match probes with
  | [] => mret (s, index_hit)
  | claim_keypair :: probes =>
      let claim_pk := public_key claim_keypair in
      status ← lift (map_err ApiFailed (deposit_status claim_pk));
      if 0 <? ds_credited status then
        modify (on_db (put_claim_key (ds_account_addr status) claim_keypair));;
        probe_all probes (push_credited s claim_pk status) true
      else if check_uncredited then
        modify (on_db (put_claim_key (ds_account_addr status) claim_keypair));;
        probe_all probes (push_checked s claim_pk status) index_hit
      else probe_all probes s index_hit
  end.

Definition next_index (s : Scan) (index_hit : bool) : Scan :=
  mkScan (sc_accounts s) (sc_checked s) (total_credited s) (total_claimable s)
    (if index_hit then Some (sc_index s) else highest_used_index s)
    (if index_hit then 0 else u64_add (consecutive_misses s) 1) (u64_add (sc_index s) 1).

(** [fuel] bounds the indices walked; [None] when it runs out. *)
Fixpoint scan_loop (fuel : nat) (s : Scan) : CM (option Scan) :=
  if negb (consecutive_misses s <? gap_limit) then mret (Some s)
  else
    match fuel with
    | O => mret None
    | S fuel =>
        probes ← lift (probes_at (sc_index s));
        '(s, index_hit) ← probe_all probes s false;
        scan_loop fuel (next_index s index_hit)
    end.

Definition advance_counter (highest_used : option Z) (d : UsdtClientDb) : UsdtClientDb :=
  match highest_used with
  | Some highest =>
      put_next_deposit_index
        (Z.max (default 0 (next_deposit_index d)) (saturating_add_u64 highest 1)) d
  | None => d
  end.

Definition recover_deposits_scan (fuel : nat) : CM (option RecoverySummary) :=
  scanned ← scan_loop fuel (mkScan [] [] 0 0 None 0 0);
  match scanned with
  | None => mret None
  | Some s =>
      modify (on_db (advance_counter (highest_used_index s)));;
      mret (Some (mkRecoverySummary (length (sc_accounts s)) (total_credited s) (total_claimable s)
                    (sc_accounts s) (sc_checked s)))
  end.

(** ** Reference: what each index holds *)

Definition entry_of (index : Z) (kp : Keypair) : option RecoveredAccount :=
  match deposit_status (public_key kp) with
  | Ok status =>
      if 0 <? ds_credited status
      then Some (mkRecoveredAccount index (ds_account_addr status) (public_key kp)
                   (ds_credited status) (ds_claimable status))
      else None
  | Err _ => None
  end.

Definition entries_at (index : Z) : list RecoveredAccount :=
  match probes_at index with Ok kps => omap (entry_of index) kps | Err _ => [] end.

Definition used (index : Z) : Prop := entries_at index <> [].

(** A key is stored for the account of every entry. *)
Definition restored (d : UsdtClientDb) (es : list RecoveredAccount) : Prop :=
  Forall (fun e => exists kp, claim_keys d !! ra_account e = Some kp) es.

Lemma restored_insert d es account kp :
  restored d es -> restored (put_claim_key account kp d) es.
Proof.
  intros Hr. eapply Forall_impl; [exact Hr|]. intros e [kp' Hk]. simpl.
  destruct (decide (account = ra_account e)) as [->|Hne].
  - exists kp. by rewrite lookup_insert_eq.
  - exists kp'. by rewrite lookup_insert_ne.
Qed.

(** What the inner loop does to the loop's variables and the database. *)
Record probed (s s' : Scan) (st st' : ClientState) (es : list RecoveredAccount) : Prop := {
  pr_accounts : sc_accounts s' = sc_accounts s ++ es;
  pr_highest : highest_used_index s' = highest_used_index s;
  pr_misses : consecutive_misses s' = consecutive_misses s;
  pr_index : sc_index s' = sc_index s;
  pr_sent : sent st' = sent st;
  pr_counter : next_deposit_index (client_db st') = next_deposit_index (client_db st);
  pr_restored : forall es', restored (client_db st) es' -> restored (client_db st') (es' ++ es);
  pr_kept : forall a, is_Some (claim_keys (client_db st) !! a) -> is_Some (claim_keys (client_db st') !! a);
}.

Lemma probe_all_spec probes s hit st s' hit' st' :
  probe_all probes s hit st = (Ok (s', hit'), st') ->
  let es := omap (entry_of (sc_index s)) probes in
  probed s s' st st' es /\ hit' = hit || negb (bool_decide (es = [])).
Proof.
  revert s hit st. induction probes as [|kp probes IH]; intros s hit st E.
  { simpl in E. injection E as -> -> ->. split; [|by rewrite orb_false_r].
    split; try done; [by rewrite app_nil_r|intros; by rewrite app_nil_r]. }
  cbn [omap list_omap]. simpl in E.
  destruct (deposit_status (public_key kp)) as [status|] eqn:Ed; simpl in E; [|done].
  assert (Ee : entry_of (sc_index s) kp = if 0 <? ds_credited status
    then Some (mkRecoveredAccount (sc_index s) (ds_account_addr status) (public_key kp)
                 (ds_credited status) (ds_claimable status)) else None)
    by (unfold entry_of; by rewrite Ed).
  destruct (0 <? ds_credited status) eqn:Ec; [|destruct check_uncredited]; rewrite Ee.
  - apply IH in E as [[Pa Ph Pm Pi Ps Pc Pr Pk] ->]. simpl in *.
    split; [|by destruct hit].
    split; simpl; try done.
    + by rewrite Pa, <- app_assoc.
    + intros es' Hes'. rewrite cons_middle, app_assoc. apply Pr.
      apply Forall_app. split; [by apply restored_insert|]. constructor; [|done]. simpl.
      rewrite lookup_insert_eq. eauto.
    + intros a Ha. apply Pk. rewrite lookup_insert. case_decide; eauto.
  - apply IH in E as [[Pa Ph Pm Pi Ps Pc Pr Pk] ->]. simpl in *. split; [|done].
    split; simpl; try done.
    + intros es' Hes'. apply Pr. by apply restored_insert.
    + intros a Ha. apply Pk. rewrite lookup_insert. case_decide; eauto.
  - by apply IH in E.
Qed.

(** ** The walk *)

(** After [sc_index] indices: all their entries are in, the misses are those since the
    last used index, and the walk got here because no earlier gap was as long as the
    limit. *)
Record walked (st0 : ClientState) (s : Scan) (st : ClientState) : Prop := {
  wk_index : 0 <= sc_index s;
  wk_misses : 0 <= consecutive_misses s <= sc_index s;
  wk_limit : consecutive_misses s <= Z.max 0 gap_limit;
  wk_accounts : sc_accounts s = concat (entries_at <$> seqZ 0 (sc_index s));
  wk_gap k : sc_index s - consecutive_misses s <= k < sc_index s -> ~ used k;
  wk_last : consecutive_misses s < sc_index s ->
    used (sc_index s - consecutive_misses s - 1) /\
    highest_used_index s = Some (sc_index s - consecutive_misses s - 1);
  wk_none : consecutive_misses s = sc_index s -> highest_used_index s = None;
  wk_steps j : 0 <= j -> gap_limit <= j < sc_index s -> exists k, j - gap_limit <= k < j /\ used k;
  wk_sent : sent st = sent st0;
  wk_counter : next_deposit_index (client_db st) = next_deposit_index (client_db st0);
  wk_restored : restored (client_db st) (sc_accounts s);
  wk_kept a : is_Some (claim_keys (client_db st0) !! a) -> is_Some (claim_keys (client_db st) !! a);
}.


Lemma walked_start st : walked st (mkScan [] [] 0 0 None 0 0) st.
Proof. split; simpl; intros; try lia; try done. by constructor. Qed.

Lemma entries_snoc n :
  0 <= n -> concat (entries_at <$> seqZ 0 (n + 1)) = concat (entries_at <$> seqZ 0 n) ++ entries_at n.
Proof.
  intros Hn. rewrite seqZ_app by lia. rewrite fmap_app, concat_app. f_equal.
  rewrite seqZ_cons by lia. simpl. by rewrite app_nil_r.
Qed.

Lemma walked_step st0 s st kps s1 hit st1 :
  walked st0 s st -> sc_index s < U64_MAX -> consecutive_misses s < gap_limit ->
  probes_at (sc_index s) = Ok kps -> probe_all kps s false st = (Ok (s1, hit), st1) ->
  walked st0 (next_index s1 hit) st1.
Proof.
  intros [Wi Wm Wl Wa Wg Wh Wn Ws Wt Wc Wr Wk] Hmax Hgap Ep E.
  apply probe_all_spec in E as [[Pa Ph Pm Pi Ps Pc Pr Pk] Ehit]. simpl in Ehit.
  assert (Hes : entries_at (sc_index s) = omap (entry_of (sc_index s)) kps)
    by (unfold entries_at; by rewrite Ep).
  rewrite <- Hes in *. set (i := sc_index s) in *. set (m := consecutive_misses s) in *.
  assert (Hadd : forall x, 0 <= x <= i -> u64_add x 1 = x + 1).
  { intros x Hx. apply wrap64_id. unfold U64_MAX in *. lia. }
  assert (Hu : hit = true <-> used i).
  { unfold used. rewrite Ehit. destruct (entries_at i); simpl; split; congruence. }
  unfold next_index. rewrite Pi, Pm. fold i m.
  split; simpl; try congruence.
  - rewrite Hadd; lia.
  - rewrite (Hadd i) by lia. destruct hit; [lia|]. rewrite Hadd; lia.
  - destruct hit; [lia|]. rewrite Hadd; lia.
  - by rewrite Pa, Wa, Hadd, entries_snoc by lia.
  - intros k. rewrite (Hadd i) by lia. destruct hit; [lia|]. rewrite (Hadd m) by lia. intros Hk.
    destruct (decide (k = i)) as [->|]; [intros Hk'; by apply Hu in Hk'|]. apply Wg. lia.
  - rewrite (Hadd i) by lia. destruct hit.
    + intros _. replace (i + 1 - 0 - 1) with i by lia. split; [by apply Hu|done].
    + rewrite (Hadd m) by lia. intros Hlt. rewrite Ph.
      replace (i + 1 - (m + 1) - 1) with (i - m - 1) by lia. apply Wh. lia.
  - rewrite (Hadd i) by lia. destruct hit; [lia|]. rewrite (Hadd m), Ph by lia. intros. apply Wn. lia.
  - intros j Hj0. rewrite (Hadd i) by lia. intros Hj. destruct (decide (j = i)) as [->|]; [|apply Ws; lia].
    destruct (decide (m = i)); [lia|]. exists (i - m - 1). split; [lia|]. apply Wh. lia.
  - rewrite Pa. by apply Pr.
  - auto.
Qed.

Lemma scan_loop_walked st0 fuel s st s' st' :
  walked st0 s st -> sc_index s + Z.of_nat fuel <= U64_MAX ->
  scan_loop fuel s st = (Ok (Some s'), st') ->
  walked st0 s' st' /\ gap_limit <= consecutive_misses s' /\ sc_index s' <= U64_MAX.
Proof.
  revert s st. induction fuel as [|fuel IH]; intros s st W Hf E; cbn [scan_loop] in E;
    destruct (consecutive_misses s <? gap_limit) eqn:Eg; cbn [negb] in E; zbool.
  - done.
  - injection E as <- <-. split; [done|lia].
  - cbn [lift mbind M_bind] in E. destruct (probes_at (sc_index s)) as [kps|] eqn:Ep; [|done].
    destruct (probe_all kps s false st) as [[[s1 hit]|] st1] eqn:E1; [|done].
    pose proof (walked_step st0 s st kps s1 hit st1 W ltac:(lia) Eg Ep E1) as W1.
    apply (IH _ _ W1); [|done].
    apply probe_all_spec in E1 as [[_ _ _ Pi _ _ _ _] _]. simpl. rewrite Pi.
    destruct W. unfold u64_add. rewrite wrap64_id by (unfold_widths; lia). lia.
  - injection E as <- <-. split; [done|lia].
Qed.


(** ** The walk ends *)

(** Every probe of the index is answered. *)
Definition answered (index : Z) : Prop :=
  exists kps, probes_at index = Ok kps /\
    Forall (fun kp => is_ok (deposit_status (public_key kp)) = true) kps.

Lemma probe_all_answers probes s hit st :
  Forall (fun kp => is_ok (deposit_status (public_key kp)) = true) probes ->
  exists s' hit' st', probe_all probes s hit st = (Ok (s', hit'), st').
Proof.
  intros Hall. revert s hit st. induction Hall as [|kp probes Hkp _ IH]; intros s hit st; simpl; eauto.
  destruct (deposit_status (public_key kp)); [|done]. simpl.
  destruct (0 <? _); [|destruct check_uncredited]; apply IH.
Qed.

Lemma walked_last_used st0 s st bound :
  walked st0 s st -> 0 <= bound -> (forall k, bound <= k -> ~ used k) ->
  sc_index s - consecutive_misses s <= bound.
Proof.
  intros W Hb Hun. apply Z.nlt_ge. intros Hlt.
  destruct (wk_last _ _ _ W) as [Hu _]; [lia|]. apply (Hun (sc_index s - consecutive_misses s - 1)); [lia|done].
Qed.

Lemma scan_loop_ends st0 bound fuel s st :
  0 <= bound -> (forall k, bound <= k -> ~ used k) ->
  (forall k, 0 <= k < bound + gap_limit -> answered k) ->
  walked st0 s st -> bound + gap_limit <= sc_index s + Z.of_nat fuel <= U64_MAX ->
  exists s' st', scan_loop fuel s st = (Ok (Some s'), st').
Proof.
  intros Hb Hun Hans. revert s st. induction fuel as [|fuel IH]; intros s st W Hf; cbn [scan_loop];
    pose proof (walked_last_used st0 s st bound W Hb Hun) as Hlast;
    destruct (consecutive_misses s <? gap_limit) eqn:Eg; cbn [negb]; zbool; eauto; [lia|].
  destruct (Hans (sc_index s)) as (kps & Ep & Hall); [destruct W; lia|].
  destruct (probe_all_answers kps s false st Hall) as (s1 & hit & st1 & E1).
  cbn [lift mbind M_bind]. rewrite Ep, E1.
  apply (IH _ _ (walked_step st0 s st kps s1 hit st1 W ltac:(lia) Eg Ep E1)).
  apply probe_all_spec in E1 as [[_ _ _ Pi _ _ _ _] _]. simpl. rewrite Pi.
  destruct W. unfold u64_add. rewrite wrap64_id by (unfold_widths; lia). lia.
Qed.

(** A recovery ends: when no index from [bound] on is used and the federation answers,
    it walks at most [bound + gap_limit] indices and returns its summary. *)
Theorem recovery_ends bound fuel st :
  0 <= bound -> (forall k, bound <= k -> ~ used k) ->
  (forall k, 0 <= k < bound + gap_limit -> answered k) ->
  bound + gap_limit <= Z.of_nat fuel <= U64_MAX ->
  exists summary st', recover_deposits_scan fuel st = (Ok (Some summary), st').
Proof.
  intros Hb Hun Hans Hf. unfold recover_deposits_scan. cbn [mbind M_bind].
  destruct (scan_loop_ends st bound fuel (mkScan [] [] 0 0 None 0 0) st Hb Hun Hans) as (s & st1 & ->);
    [apply walked_start|simpl; lia|].
  cbn [modify mbind M_bind mret M_ret]. eauto.
Qed.
End scan.

(** ** A seed of the demonstration federation *)

Section witnesses.
#[local] Existing Instance demo_evm.
#[local] Existing Instance demo_keys.
#[local] Existing Instance demo_keys_ok.
#[local] Existing Instance demo_curve_ok.
#[local] Existing Instance toy_trie.
#[local] Existing Instance map_amounts.

(** The first and the third address of the seed hold deposits. *)
Definition demo_status (pk : PublicKey) : result string DepositStatusResponse :=
  let account := deposit_address (client_cfg demo_client) pk in
  Ok (if bool_decide (pk = mkPublicKey 7003000000) then mkDepositStatusResponse account 50 0 50
      else if bool_decide (pk = mkPublicKey 7003000002) then mkDepositStatusResponse account 90 40 50
      else mkDepositStatusResponse account 0 0 0).

Definition demo_lost : ClientState := mkClientState demo_client_db [].
Definition demo_recovery : result UsdtClientError (option RecoverySummary) * ClientState :=
  recover_deposits_scan demo_client demo_status 2 false 10 demo_lost.

Example demo_recovers :
  match demo_recovery.1 with
  | Ok (Some summary) =>
      (ra_index <$> accounts summary, sum_credited summary, sum_claimable summary) = ([0; 2], 140, 100) /\
      next_deposit_index (client_db demo_recovery.2) = Some 3
  | _ => False
  end.
Proof. vm_compute. done. Qed.

Lemma demo_unused k : 3 <= k -> ~ used demo_client demo_status k.
Proof.
  intros Hk Hu. apply Hu. unfold entries_at, probes_at.
  set (base := claim_keypair_for_index demo_client k).
  assert (Hbase : base = 7003000000 + k) by (change base with (((7 * 1000 + 3) * 1000 + 0) * 1000 + k); lia).
  destruct (ground_claim_keypair_static _ _) as [[[t kp] account]|] eqn:E; simpl; [|done].
  apply ground_facts in E as (Ht & _ & _ & Ekp).
  assert (Hkp : kp = base + t) by (unfold add_exp_tweak in Ekp; simpl in Ekp; congruence).
  assert (Hno : forall x : Z, 7003000003 <= x -> entry_of demo_status k x = None).
  { intros x Hx. unfold entry_of, demo_status. simpl.
    rewrite !bool_decide_false; [done|intros [=]; lia..]. }
  rewrite Hno by lia. destruct (negb _); simpl; [|done]. by rewrite Hno by lia.
Qed.


Lemma recovery_ends_witness :
  exists summary st', recover_deposits_scan demo_client demo_status 2 false 5 demo_lost
    = (Ok (Some summary), st').
Proof.
  apply (recovery_ends demo_client demo_status 2 false 3); [lia|exact demo_unused| |done].
  intros k Hk. assert (k = 0 \/ k = 1 \/ k = 2 \/ k = 3 \/ k = 4) as Hcases by lia.
  destruct Hcases as [->|[->|[->|[->| ->]]]]; (eexists; split; [vm_compute; reflexivity|]);
    by repeat constructor.
Defined.
End witnesses.
