(* ===== verification/UsdtCli.v ===== *)
(** * The USDT client's command line

    [modules/usdt/fedimint-usdt-client/src/cli.rs]: what each command does with the
    client's operations once clap has parsed it, and what it prints.  The theorem: no
    command submits a transaction beyond what its flags allow, commands that only read
    submit nothing, and none loses a key. *)

From S2P Require Import Prelude FedimintCore UsdtTypes UsdtEvm UsdtUserOp UsdtSigning UsdtProof UsdtDb.
From S2P Require Import UsdtServer UsdtHandlers UsdtEndpoints UsdtScan UsdtFetch UsdtAddress UsdtClient.
From S2P Require Import UsdtRefundSm UsdtClientRecovery.

(** ** Commands and replies *)

Inductive Opts :=
| DepositAddress
| DepositStatus (claim_pk : PublicKey)
| SubmitDepositProof (index : Z) (evm_rpc_url : option string) (max_deposit_fee : option UsdtAmount)
    (accept_high_fee : bool)
| SetEvmRpcUrl (url : option string)
| FeeQuote (amount : UsdtAmount)
| DepositFeeQuote
| WithdrawOpt (recipient : EvmAddress) (amount : UsdtAmount) (max_fee : option UsdtAmount)
    (accept_high_fee : bool)
| WithdrawalStatusOpt (out_point : OutPoint)
| PoolStateOpt
| Status
| Recover (gap_limit : Z) (check_uncredited : bool)
| DeriveDeposit (index : Z)
| DiscoverDeposits (claim : bool) (evm_rpc_url : option string) (max_deposit_fee : option UsdtAmount)
    (accept_high_fee : bool).

Record DiscoverySummary := mkDiscoverySummary {
  dy_matches : list (TransferCandidate * PublicKey);
  dy_cursor : Z;
  dy_peers_answering : nat;
}.

(** The fields of the JSON object each command prints; addresses as strings. *)
Inductive Reply :=
| AddressReply (claim_pk : PublicKey) (account : string)
| DepositStatusReply (status : DepositStatusResponse)
| ClaimReply (index : Z) (claim_pk : PublicKey) (account : string) (operation_id : OperationId)
    (used_legacy_key : bool)
| UrlReply (url : option string)
| QuoteReply (quote : FeeQuoteResponse)
| WithdrawReply (out_point : OutPoint) (recipient : string) (amount max_fee total_debit : UsdtAmount)
| WithdrawalReply (status : WithdrawalStatus) (refund : option (UsdtAmount * FailReason))
| PoolReply (account : string) (balance accrued_fees : UsdtAmount)
| StatusReply (status : StatusResponse)
| RecoverReply (summary : option RecoverySummary)
| DeriveReply (index tweak : Z) (ground_pk : PublicKey) (ground_account : string)
    (legacy_pk : PublicKey) (legacy_account : string)
| ClaimsReply (claims : list (string * Z * UsdtAmount * result UsdtClientError OperationId))
| MatchesReply (matches : list (string * PublicKey * Z * UsdtAmount)) (cursor : Z) (peers_answering : nat).

Section cli.
Context `{Keys} `{AmountsOps} `{ChainFormat} (post : string -> Json -> Exchange).
Variables (c : UsdtClientModule) (fw : Framework).

(** The federation's answers while a command runs; [first_peer] is the lowest of its
    peers, of which a joined federation has at least one. *)
Record Federation := mkFederation {
  fed_api : UsdtApi;
  fed_legacy_api : UsdtApi;
  fed_claim_apis : nat -> UsdtApi;
  fed_deposit_status : PublicKey -> result string DepositStatusResponse;
  fed_withdrawal_status : OutPoint -> result string WithdrawalStatus;
  fed_refund_status : OutPoint -> result string (option (UsdtAmount * FailReason));
  fed_pool_state : PeerId -> result string PoolStateResponse;
  fed_candidates : PeerId -> Z -> option (list TransferCandidate * Z);
  first_peer : PeerId;
  other_peers : list PeerId;
}.
Definition all_peers (fed : Federation) : list PeerId := first_peer fed :: other_peers fed.

(** [UsdtClientModule::discover_deposits] with its summary. *)
Definition discover_deposits (fed : Federation) (np : NumPeers) : CM DiscoverySummary :=
  since ← gets (fun s => default 0 (scan_cursor (client_db s)));
  keys ← gets (fun s => claim_keys (client_db s));
  let responses := omap (fun peer => page_peer_candidates since (fed_candidates fed peer)) (all_peers fed) in
  let '(matches, cursor) := UsdtScan.discover_deposits (public_key <$> keys) np since responses in
  modify (fun s => if since <? cursor then on_db (put_scan_cursor cursor) s else s);;
  mret (mkDiscoverySummary matches cursor (length responses)).

(** [discover_and_claim_deposits] runs the same round. *)
Lemma discover_matches fed np s :
  discover_round (all_peers fed) np (fed_candidates fed) s =
  (summary ← discover_deposits fed np; mret (dy_matches summary)) s.
Proof.
  unfold discover_round, discover_deposits. simpl. by case_match.
Qed.

(** ** The handlers *)

Definition handle_withdraw (fed : Federation) (recipient : EvmAddress) (amount : UsdtAmount)
    (max_fee : option UsdtAmount) (accept_high_fee : bool) : M Wallet UsdtClientError Reply :=
  quote ← lift (withdraw_fee_quote (fed_api fed) amount);
  lift (check_fee_cap (quote_fee quote) amount max_fee accept_high_fee);;
  let total_debit := saturating_add_u64 amount (quote_fee quote) in
  txid ← withdraw c fw recipient amount (quote_fee quote);
  mret (WithdrawReply (withdrawal_out_point txid) (EvmAddress_to_string recipient) amount (quote_fee quote)
          total_debit).

Definition handle_withdrawal_status (fed : Federation) (out_point : OutPoint)
    : M Wallet UsdtClientError Reply :=
  status ← lift (map_err ApiFailed (fed_withdrawal_status fed out_point));
  refund ← lift (map_err ApiFailed (fed_refund_status fed out_point));
  mret (WithdrawalReply status refund).

Definition handle_discover_deposits (fed : Federation) (np : NumPeers) (claim : bool) (url : option string)
    (max_deposit_fee : option UsdtAmount) (accept_high_fee : bool) : M Wallet UsdtClientError Reply :=
  if claim then
    results ← on_client (discover_and_claim_deposits post c fw (all_peers fed) np (fed_candidates fed)
                           (fed_claim_apis fed) url max_deposit_fee accept_high_fee);
    mret (ClaimsReply ((fun dr : TransferCandidate * result UsdtClientError OperationId =>
      (EvmAddress_to_string (tc_to dr.1), tc_block dr.1, tc_value dr.1, dr.2)) <$> results))
  else
    summary ← on_client (discover_deposits fed np);
    mret (MatchesReply ((fun d : TransferCandidate * PublicKey =>
      (EvmAddress_to_string (tc_to d.1), d.2, tc_block d.1, tc_value d.1)) <$> dy_matches summary)
      (dy_cursor summary) (dy_peers_answering summary)).

(** [fuel] bounds the indices a recovery walks. *)
Definition handle_cli_command (fuel : nat) (fed : Federation) (np : NumPeers) (opts : Opts)
    : M Wallet UsdtClientError Reply :=
  match opts with
  | DepositAddress =>
      '(claim_keypair, account) ← on_client (allocate_deposit c (fed_api fed));
      mret (AddressReply (public_key claim_keypair) (EvmAddress_to_string account))
  | DepositStatus claim_pk =>
      status ← lift (map_err ApiFailed (api_deposit_status (fed_api fed) claim_pk));
      mret (DepositStatusReply status)
  | SubmitDepositProof index url max_deposit_fee accept_high_fee =>
      outcome ← on_client (submit_deposit_proof post c fw (fed_api fed) (fed_legacy_api fed) index url
                             max_deposit_fee accept_high_fee);
      mret (ClaimReply index (outcome_claim_pk outcome) (EvmAddress_to_string (outcome_account outcome))
              (outcome_operation_id outcome) (used_legacy_key outcome))
  | SetEvmRpcUrl url =>
      on_client (modify (on_db (set_evm_rpc_url url)));;
      mret (UrlReply url)
  | FeeQuote amount =>
      quote ← lift (withdraw_fee_quote (fed_api fed) amount);
      mret (QuoteReply quote)
  | DepositFeeQuote =>
      quote ← lift (deposit_fee_quote (fed_api fed));
      mret (QuoteReply quote)
  | WithdrawOpt recipient amount max_fee accept_high_fee =>
      handle_withdraw fed recipient amount max_fee accept_high_fee
  | WithdrawalStatusOpt out_point => handle_withdrawal_status fed out_point
  | PoolStateOpt =>
      pool ← lift (map_err ApiFailed (fed_pool_state fed (first_peer fed)));
      mret (PoolReply (EvmAddress_to_string (ps_account pool)) (ps_balance pool) (ps_accrued_fees pool))
  | Status =>
      status ← lift (map_err ApiFailed (api_status (fed_api fed)));
      mret (StatusReply status)
  | Recover gap_limit check_uncredited =>
      summary ← on_client (recover_deposits_scan c (fed_deposit_status fed) gap_limit check_uncredited fuel);
      mret (RecoverReply summary)
  | DeriveDeposit index =>
      '(tweak, ground_keypair, ground_account) ← lift (ground_claim_keypair_for_index c index);
      let legacy_keypair := claim_keypair_for_index c index in
      let legacy_account := deposit_address (client_cfg c) (public_key legacy_keypair) in
      mret (DeriveReply index tweak (public_key ground_keypair) (EvmAddress_to_string ground_account)
              (public_key legacy_keypair) (EvmAddress_to_string legacy_account))
  | DiscoverDeposits claim url max_deposit_fee accept_high_fee =>
      handle_discover_deposits fed np claim url max_deposit_fee accept_high_fee
  end.
End cli.

(** ** What a command may submit *)

Section steps.
Context `{Keys} `{AmountsOps}.

(** From [s] to [s']: the transactions submitted all satisfy [P], and every key that was
    held still is. *)
Record advances (P : Submission -> Prop) (s s' : ClientState) : Prop := {
  adv_sent : exists new, sent s' = sent s ++ new /\ Forall P new;
  adv_claim : forall a, is_Some (claim_keys (client_db s) !! a) -> is_Some (claim_keys (client_db s') !! a);
  adv_refund : forall o, is_Some (refund_keys (client_db s) !! o) -> is_Some (refund_keys (client_db s') !! o);
}.

#[export] Instance advances_preorder P : PreOrder (advances P).
Proof.
  split.
  - intros s. constructor; [exists []; by rewrite app_nil_r|done..].
  - intros s1 s2 s3 [(n1 & E1 & F1) C1 R1] [(n2 & E2 & F2) C2 R2]. constructor; [|by auto..].
    exists (n1 ++ n2). rewrite E2, E1, app_assoc. split; [done|by apply Forall_app].
Qed.

(** Every run of an operation advances. *)
Definition spends (P : Submission -> Prop) {A} (m : CM A) : Prop := forall s, advances P s (m s).2.

Lemma spends_bind P {A B} (m : CM A) (k : A -> CM B) :
  spends P m -> (forall a s s', m s = (Ok a, s') -> spends P (k a)) -> spends P (mbind k m).
Proof.
  intros Hm Hk s. unfold mbind, M_bind. pose proof (Hm s) as Hs.
  destruct (m s) as [[a|e] s'] eqn:E; simpl in *; [|done]. etrans; [exact Hs|]. by eapply Hk.
Qed.

Lemma spends_lift P {A} (r : result UsdtClientError A) : spends P (lift r).
Proof. intros s. reflexivity. Qed.
Lemma spends_ret P {A} (a : A) : spends P (mret a).
Proof. intros s. reflexivity. Qed.
Lemma spends_gets P {A} (f : ClientState -> A) : spends P (gets f).
Proof. intros s. reflexivity. Qed.
Lemma spends_ensure P b e : spends P (ensure b e).
Proof. intros s. unfold ensure. by destruct b. Qed.
Lemma spends_reject P b e : spends P (reject_if b e).
Proof. apply spends_ensure. Qed.
Lemma spends_fail P {A} e : spends P (@fail ClientState UsdtClientError A e).
Proof. intros s. reflexivity. Qed.
Lemma spends_try P {A} (m : CM A) : spends P m -> spends P (try_run m).
Proof. intros Hm s. unfold try_run. pose proof (Hm s). by destruct (m s). Qed.

Lemma spends_modify P f : (forall s, advances P s (f s)) -> spends P (modify f).
Proof. intros Hf s. apply Hf. Qed.

Lemma spends_log P x : P x -> spends P (modify (log_sent x)).
Proof.
  intros Hx. apply spends_modify. intros s. constructor; [|done..]. exists [x]. split; [done|by constructor].
Qed.

(** A write that keeps both key tables' domains. *)
Lemma spends_db P f :
  (forall d a, is_Some (claim_keys d !! a) -> is_Some (claim_keys (f d) !! a)) ->
  (forall d o, is_Some (refund_keys d !! o) -> is_Some (refund_keys (f d) !! o)) ->
  spends P (modify (on_db f)).
Proof.
  intros Hc Hr. apply spends_modify. intros s. constructor; simpl; [|by auto..]. exists []. by rewrite app_nil_r.
Qed.

Lemma is_Some_insert {K A} `{Countable K} (m : gmap K A) k k' v :
  is_Some (m !! k) -> is_Some (<[k' := v]> m !! k).
Proof. intros Hk. rewrite lookup_insert. case_decide; eauto. Qed.

Lemma spends_claim_key P a kp : spends P (modify (on_db (put_claim_key a kp))).
Proof. apply spends_db; [intros d x; apply is_Some_insert|done]. Qed.
Lemma spends_refund_key P o kp : spends P (modify (on_db (put_refund_key o kp))).
Proof. apply spends_db; [done|intros d x; apply is_Some_insert]. Qed.
End steps.

Create HintDb spends.
#[export] Hint Resolve spends_lift spends_ret spends_gets spends_ensure spends_reject spends_fail spends_claim_key
  spends_refund_key : spends.

(** Walks an operation's binds; leaves what the database of hints does not close. *)
Ltac spends_step :=
  match goal with
  | |- spends _ (mbind _ _) => apply spends_bind; [|intros ? ? ? ?]
  | |- spends _ (match ?x with _ => _ end) => destruct x eqn:?
  | |- spends _ (let '(_, _) := ?x in _) => destruct x
  | |- spends _ (try_run _) => apply spends_try
  | |- spends _ (modify (on_db _)) => apply spends_db; [done|done]
  | _ => solve [auto with spends nocore]
  end.

(** ** Within the flags *)

Section flags.
Context `{Keys} `{AmountsOps} `{ChainFormat} (post : string -> Json -> Exchange).
Variables (c : UsdtClientModule) (fw : Framework).

(** A claim of a key of the client's, at a fee its user accepts for what it credits. *)
Definition claim_within (cap : option UsdtAmount) (accept : bool) (x : Submission) : Prop :=
  match x with
  | SubmitInput i (MetaClaim account delta fee) =>
      fee_acceptable fee delta cap accept /\ fee < delta /\
      exists kp proof, ci_input i = DepositProofV0 (public_key kp) proof fee /\ ci_keys i = [kp] /\
        account = deposit_address (client_cfg c) (public_key kp) /\
        ci_amounts i = new_custom USDT_UNIT (delta - fee)
  | _ => False
  end.

(** A withdrawal of what was asked, to whom it was asked, at a fee its user accepts. *)
Definition withdrawal_within (recipient : EvmAddress) (amount : UsdtAmount) (cap : option UsdtAmount)
    (accept : bool) (x : Submission) : Prop :=
  match x with
  | SubmitOutput o (MetaWithdraw recipient' amount' fee) =>
      recipient' = recipient /\ amount' = amount /\ fee_acceptable fee amount cap accept /\
      exists index, co_output o = OutputV0 (mkUsdtOutputV0 recipient amount fee
        (public_key (refund_keypair_for_index c index)))
  | _ => False
  end.

(** What a command may submit. *)
Definition allowed (opts : Opts) : Submission -> Prop :=
  match opts with
  | SubmitDepositProof _ _ cap accept | DiscoverDeposits true _ cap accept => claim_within cap accept
  | WithdrawOpt recipient amount cap accept => withdrawal_within recipient amount cap accept
  | _ => fun _ => False
  end.

Lemma prebuilt_spends api kp proof proven cap accept :
  spends (claim_within cap accept) (submit_prebuilt_deposit_proof c fw api kp proof proven cap accept).
Proof.
  unfold submit_prebuilt_deposit_proof, submit_deposit_proof_input. repeat spends_step.
  apply spends_log. simpl.
  match goal with E : lift (check_fee_cap _ _ _ _) _ = _ |- _ =>
    injection E as E _; split; [by eapply check_fee_cap_acceptable|] end.
  match goal with E : lift (deposit_proof_input _ _ _ _) _ = _ |- _ =>
    injection E as E _; unfold deposit_proof_input in E end.
  destruct (_ <=? _) eqn:Hle; simplify_eq. apply Z.leb_gt in Hle. split; [done|]. eauto 10.
Qed.

Lemma probe_spends api kp url cap accept :
  spends (claim_within cap accept) (submit_deposit_proof_with_keypair post c fw api kp url cap accept).
Proof. unfold submit_deposit_proof_with_keypair. repeat spends_step. apply prebuilt_spends. Qed.

Lemma submit_spends api legacy index url cap accept :
  spends (claim_within cap accept) (submit_deposit_proof post c fw api legacy index url cap accept).
Proof. unfold submit_deposit_proof. repeat spends_step; apply probe_spends. Qed.

Lemma claims_spend ds apis url cap accept :
  spends (claim_within cap accept) (claim_matches post c fw ds apis url cap accept).
Proof.
  revert apis. induction ds as [|[d pk] ds IH]; intros apis; cbn [claim_matches]; unfold submit_deposit_proof_for_account.
  - apply spends_ret.
  - repeat spends_step; first [apply probe_spends|apply IH].
Qed.

Lemma round_spends P fed np : spends P (discover_deposits fed np).
Proof.
  unfold discover_deposits. repeat spends_step. apply spends_modify. intros st.
  destruct (_ <? _); [|reflexivity]. apply (spends_db P (put_scan_cursor _)); done.
Qed.

Lemma round_spends' P peers np fetch : spends P (discover_round peers np fetch).
Proof.
  unfold discover_round. repeat spends_step. apply spends_modify. intros st.
  destruct (_ <? _); [|reflexivity]. apply (spends_db P (put_scan_cursor _)); done.
Qed.

Lemma allocate_spends P api : spends P (allocate_deposit c api).
Proof. unfold allocate_deposit, allocate_in_db. repeat spends_step. Qed.

Lemma recover_spends P status gap checks fuel : spends P (recover_deposits_scan c status gap checks fuel).
Proof.
  assert (Hprobe : forall probes s hit, spends P (probe_all status checks probes s hit)).
  { induction probes as [|kp probes IH]; intros s hit; cbn [probe_all]; [apply spends_ret|].
    repeat spends_step; apply IH. }
  assert (Hloop : forall s, spends P (scan_loop c status gap checks fuel s)).
  { induction fuel as [|f IH]; intros s; cbn [scan_loop]; repeat spends_step. }
  unfold recover_deposits_scan. repeat spends_step.
  apply spends_db; intros d x; unfold advance_counter; by destruct (highest_used_index _).
Qed.

(** The same for operations that also start machines. *)
Definition wspends (P : Submission -> Prop) {A} (m : M Wallet UsdtClientError A) : Prop :=
  forall w, advances P (wallet_client w) (wallet_client (m w).2).

Lemma wspends_bind P {A B} (m : M Wallet UsdtClientError A) (k : A -> M Wallet UsdtClientError B) :
  wspends P m -> (forall a w w', m w = (Ok a, w') -> wspends P (k a)) -> wspends P (mbind k m).
Proof.
  intros Hm Hk w. unfold mbind, M_bind. pose proof (Hm w) as Hw.
  destruct (m w) as [[a|e] w'] eqn:E; simpl in *; [|done]. etrans; [exact Hw|]. by eapply Hk.
Qed.

Lemma wspends_client P {A} (m : CM A) : spends P m -> wspends P (on_client m).
Proof. intros Hm w. unfold on_client. pose proof (Hm (wallet_client w)). by destruct (m (wallet_client w)). Qed.
Lemma wspends_lift P {A} (r : result UsdtClientError A) : wspends P (lift r).
Proof. intros w. reflexivity. Qed.
Lemma wspends_ret P {A} (a : A) : wspends P (mret a).
Proof. intros w. reflexivity. Qed.
Lemma wspends_machine P sm : wspends P (modify (start_machine sm)).
Proof. intros w. reflexivity. Qed.
End flags.

#[export] Hint Resolve wspends_lift wspends_ret wspends_machine probe_spends submit_spends claims_spend round_spends
  round_spends' allocate_spends recover_spends : spends.

Ltac wspends_step :=
  match goal with
  | |- wspends _ (mbind _ _) => apply wspends_bind; [|intros ? ? ? ?]
  | |- wspends _ (match ?x with _ => _ end) => destruct x eqn:?
  | |- wspends _ (on_client _) => apply wspends_client
  | |- spends _ _ => spends_step
  | _ => solve [auto with spends nocore]
  end.

Section safety.
Context `{Keys} `{AmountsOps} `{ChainFormat} (post : string -> Json -> Exchange).
Variables (c : UsdtClientModule) (fw : Framework).

Lemma withdraw_spends recipient amount fee cap accept :
  fee_acceptable fee amount cap accept ->
  wspends (withdrawal_within c recipient amount cap accept) (withdraw c fw recipient amount fee).
Proof.
  intros Hfee. unfold withdraw, allocate_refund_index. repeat wspends_step.
  apply spends_log. simpl. eauto 10.
Qed.

End safety.
